(** * JBridge Invoice Processor: the extraction pipeline of
      [invoice_processor.py], embedded and verified.

    The pipeline is: page texts -> one text -> prompt -> model reply ->
    fence stripping -> [json.loads] -> a dict shown and exported by the
    shell.  Python values are modelled as they are at run time: a [str] is a
    sequence of Unicode code points, a [float] is a binary64 number, a
    [dict] is an insertion-ordered association list with unique keys. *)

From Stdlib Require Import String Ascii.
From Stdlib Require Import List ZArith NArith Lia Bool.
From Stdlib Require DecimalFacts DecimalPos DecimalN DecimalZ.
Import ListNotations.

Local Open Scope N_scope.
Local Open Scope list_scope.

(* ================================================================== *)
(** * Python strings *)
(* ================================================================== *)

Module PyStr.

(** A Python [str]: its code points, in order. *)
Definition pystr := list N.

(** The code points of an (ASCII) literal of the source. *)
Definition lit (s : string) : pystr :=
  map N_of_ascii (list_ascii_of_string s).

(** A literal written with an apostrophe in place of each double
    quote. *)
Definition lit_q (s : string) : pystr :=
  map (fun c => if c =? 39 then 34 else c) (lit s).

Fixpoint eqb (a b : pystr) : bool :=
  match a, b with
  | [], [] => true
  | x :: a', y :: b' => N.eqb x y && eqb a' b'
  | _, _ => false
  end.

(** [strip_prefix p s]: what is left of [s] after its prefix [p], when [s]
    starts with [p]. *)
Fixpoint strip_prefix (p s : pystr) : option pystr :=
  match p with
  | [] => Some s
  | a :: p' =>
      match s with
      | [] => None
      | b :: s' => if N.eqb a b then strip_prefix p' s' else None
      end
  end.

(** [str.partition] at the first, leftmost occurrence of [sep]:
    [Some (before, after)], or [None] when [sep] does not occur. *)
Fixpoint partition (sep s : pystr) : option (pystr * pystr) :=
  match strip_prefix sep s with
  | Some post => Some ([], post)
  | None =>
      match s with
      | [] => None
      | c :: s' =>
          match partition sep s' with
          | Some (pre, post) => Some (c :: pre, post)
          | None => None
          end
      end
  end.

(** [sep in s] on strings: substring test. *)
Definition contains (sep s : pystr) : bool :=
  match partition sep s with
  | Some _ => true
  | None => false
  end.

(** [s.split(sep)] for a non-empty [sep] (both separators of the source are
    non-empty literals): cut at the occurrences of [sep], scanning left to
    right, no overlaps.  Each cut removes at least one character, so
    [length s] rounds are enough (lemma [split_fuel_enough]). *)
Fixpoint split_fuel (n : nat) (sep s : pystr) : list pystr :=
  match n with
  | O => [s]
  | S n' =>
      match partition sep s with
      | None => [s]
      | Some (pre, post) => pre :: split_fuel n' sep post
      end
  end.

Definition split (sep s : pystr) : list pystr :=
  split_fuel (length s) sep s.

(** [str.isspace] of one character: the code points Python treats as
    white space, also in [str.strip]. *)
Definition isspace (c : N) : bool :=
  ((0x09 <=? c) && (c <=? 0x0D))
  || ((0x1C <=? c) && (c <=? 0x20))
  || (c =? 0x85) || (c =? 0xA0) || (c =? 0x1680)
  || ((0x2000 <=? c) && (c <=? 0x200A))
  || (c =? 0x2028) || (c =? 0x2029) || (c =? 0x202F)
  || (c =? 0x205F) || (c =? 0x3000).

Fixpoint lstrip (s : pystr) : pystr :=
  match s with
  | c :: s' => if isspace c then lstrip s' else s
  | [] => []
  end.

Definition rstrip (s : pystr) : pystr := rev (lstrip (rev s)).

(** [s.split(sep)[0]]: the text before the first [sep], or all of it. *)
Definition first_chunk (sep s : pystr) : pystr :=
  match partition sep s with
  | Some (p, _) => p
  | None => s
  end.

(** [s.strip()] *)
Definition strip (s : pystr) : pystr := rstrip (lstrip s).

(** [sep.join(parts)] *)
Fixpoint join (sep : pystr) (parts : list pystr) : pystr :=
  match parts with
  | [] => []
  | [p] => p
  | p :: rest => p ++ sep ++ join sep rest
  end.

End PyStr.

Import PyStr.

(* ================================================================== *)
(** * Python numbers: decimal digits and binary64 floats *)
(* ================================================================== *)

Module PyNum.

Local Open Scope Z_scope.

(** ** Decimal digits *)

(** The ASCII digits of a decimal numeral, most significant first. *)
Fixpoint digits_of_uint (d : Decimal.uint) : pystr :=
  match d with
  | Decimal.Nil => []
  | Decimal.D0 d' => 48%N :: digits_of_uint d'
  | Decimal.D1 d' => 49%N :: digits_of_uint d'
  | Decimal.D2 d' => 50%N :: digits_of_uint d'
  | Decimal.D3 d' => 51%N :: digits_of_uint d'
  | Decimal.D4 d' => 52%N :: digits_of_uint d'
  | Decimal.D5 d' => 53%N :: digits_of_uint d'
  | Decimal.D6 d' => 54%N :: digits_of_uint d'
  | Decimal.D7 d' => 55%N :: digits_of_uint d'
  | Decimal.D8 d' => 56%N :: digits_of_uint d'
  | Decimal.D9 d' => 57%N :: digits_of_uint d'
  end.

Definition isdigit (c : N) : bool := ((48 <=? c) && (c <=? 57))%N.

(** [int(text)] for a run of ASCII digits, by Horner's rule, from the
    value [acc] of the digits read so far. *)
Fixpoint nat_value_from (acc : Z) (s : pystr) : Z :=
  match s with
  | [] => acc
  | c :: s' => nat_value_from (10 * acc + Z.of_N (c - 48)) s'
  end.

(** The value of a run of ASCII digits. *)
Definition nat_value (s : pystr) : Z := nat_value_from 0 s.

(** [str(n)] / [repr(n)] of an [int]. *)
Definition int_str (z : Z) : pystr :=
  match Z.to_int z with
  | Decimal.Pos d => digits_of_uint d
  | Decimal.Neg d => 45%N :: digits_of_uint d
  end.

(** ** binary64 *)

(** A Python [float].  [FFinite neg m e] is [(-1)^neg * m * 2^e] with
    [m > 0], in canonical form: [2^52 <= m < 2^53] and
    [-1074 <= e <= 971], or (subnormal) [m < 2^52] and [e = -1074]. *)
Inductive pyfloat :=
| FNaN
| FInf (neg : bool)
| FZero (neg : bool)
| FFinite (neg : bool) (m : Z) (e : Z).

Definition pyfloat_eqb (a b : pyfloat) : bool :=
  match a, b with
  | FNaN, FNaN => true
  | FInf s, FInf t => Bool.eqb s t
  | FZero s, FZero t => Bool.eqb s t
  | FFinite s m e, FFinite t n f => Bool.eqb s t && (m =? n) && (e =? f)
  | _, _ => false
  end.

(** The fraction [n / (d * 2^e)] as a pair, for any sign of [e]. *)
Definition scale2 (n d e : Z) : Z * Z :=
  if 0 <=? e then (n, d * 2 ^ e) else (n * 2 ^ (- e), d).

(** The fraction [n / (d * 10^k)] as a pair, for any sign of [k]. *)
Definition scale10 (n d k : Z) : Z * Z :=
  if 0 <=? k then (n, d * 10 ^ k) else (n * 10 ^ (- k), d).

(** [floor (log2 (num / den))] for positive [num] and [den]: the
    difference of the two logarithms, or one less. *)
Definition floor_log2 (num den : Z) : Z :=
  let l := Z.log2 num - Z.log2 den in
  let '(n0, d0) := scale2 num den l in
  if n0 <? d0 then l - 1 else l.

(** Round the positive rational [num / den] to the nearest binary64,
    ties to even; overflow gives infinity, underflow zero. *)
Definition round_pos (neg : bool) (num den : Z) : pyfloat :=
  let e := Z.max (floor_log2 num den - 52) (-1074) in
  let '(n, d) := scale2 num den e in
  let q := n / d in
  let r := n mod d in
  let q' := if (d <? 2 * r) || ((d =? 2 * r) && Z.odd q) then q + 1 else q in
  let '(m, e') := if q' =? 2 ^ 53 then (2 ^ 52, e + 1) else (q', e) in
  if q' =? 0 then FZero neg
  else if 971 <? e' then FInf neg
  else FFinite neg m e'.

(** [float(s)] for a literal with sign [neg], digits of value [m] and
    decimal exponent [e10]: the binary64 nearest to [m * 10^e10]. *)
Definition float_of_decimal (neg : bool) (m e10 : Z) : pyfloat :=
  if m =? 0 then FZero neg
  else let '(n, d) := scale10 m 1 (- e10) in round_pos neg n d.

(** ** [repr] of a float: the shortest digits that read back *)

(** [m * 2^e / 10^k] as a fraction [(a, b)]. *)
Definition scaled (m e k : Z) : Z * Z :=
  let '(n, d) := scale2 m 1 (- e) in scale10 n d k.

(** The decimal [c * 10^k] reads back as [m * 2^e]. *)
Definition reads_as (m e c k : Z) : bool :=
  (0 <? c) && pyfloat_eqb (float_of_decimal false c k) (FFinite false m e).

(** The decimal [c * 10^k] nearest to [m * 2^e] among those that read
    back as it, when there is one: one of the two multiples of [10^k]
    around the number; between two equally near, the even one. *)
Definition candidate_at (m e k : Z) : option Z :=
  let '(a, b) := scaled m e k in
  let c1 := a / b in
  let c2 := if a mod b =? 0 then c1 else c1 + 1 in
  match reads_as m e c1 k, reads_as m e c2 k with
  | true, true =>
      let below := a - c1 * b in
      let above := c2 * b - a in
      if below <? above then Some c1
      else if above <? below then Some c2
      else if Z.even c1 then Some c1 else Some c2
  | true, false => Some c1
  | false, true => Some c2
  | false, false => None
  end.

(** The number itself as a decimal: [m * 2^e = c * 10^k] exactly. *)
Definition exact_decimal (m e : Z) : Z * Z :=
  if e <? 0 then (m * 5 ^ (- e), e) else (m * 2 ^ e, 0).

(** Try the scales [k], [k-1], ...: the first hit has the fewest digits.
    When the budget is used up, the number itself is the answer. *)
Fixpoint shortest_from (fuel : nat) (m e k : Z) : Z * Z :=
  match candidate_at m e k with
  | Some c => (c, k)
  | None =>
      match fuel with
      | O => exact_decimal m e
      | S fuel' => shortest_from fuel' m e (k - 1)
      end
  end.

(** Digits and scale of the shortest decimal that reads back as
    [m * 2^e].  The number is below [2^l]; the search starts at a scale
    [k0] with [10^k0 > 2^l] (0.30102 < log10 2 < 0.30103) and goes down to
    the scale of the number's own last decimal. *)
Definition shortest_decimal (m e : Z) : Z * Z :=
  let l := Z.log2 m + e + 2 in
  let k0 := (if 0 <=? l then l * 30103 else l * 30102) / 100000 + 1 in
  shortest_from (Z.to_nat (k0 - Z.min e 0)) m e k0.

Definition zeros (n : Z) : pystr := repeat 48%N (Z.to_nat n).

(** The exponent of the scientific form: sign and at least two digits. *)
Definition exponent_str (x : Z) : pystr :=
  let d := int_str (Z.abs x) in
  let d2 := if Z.abs x <? 10 then 48%N :: d else d in
  (if x <? 0 then 45%N else 43%N) :: d2.

(** [float_repr_style = 'short'], format code ['r']: fixed notation when
    the decimal point falls within -4 < decpt <= 16, else scientific. *)
Definition format_digits (c k : Z) : pystr :=
  let ds := int_str c in
  let n := Z.of_nat (List.length ds) in
  let decpt := n + k in
  if (decpt <=? -4) || (16 <? decpt) then
    match ds with
    | [] => []
    | d :: [] => d :: 101%N :: exponent_str (decpt - 1)
    | d :: rest => d :: 46%N :: rest ++ 101%N :: exponent_str (decpt - 1)
    end
  else if decpt <=? 0 then
    48%N :: 46%N :: zeros (- decpt) ++ ds
  else if n <=? decpt then
    ds ++ zeros (decpt - n) ++ [46%N; 48%N]
  else
    firstn (Z.to_nat decpt) ds ++ 46%N :: skipn (Z.to_nat decpt) ds.

Definition sign_str (neg : bool) : pystr := if neg then [45%N] else [].

(** [repr(x)] (and [str(x)]) of a float. *)
Definition float_repr (x : pyfloat) : pystr :=
  match x with
  | FNaN => lit "nan"
  | FInf neg => sign_str neg ++ lit "inf"
  | FZero neg => sign_str neg ++ lit "0.0"
  | FFinite neg m e =>
      let '(c, k) := shortest_decimal m e in
      sign_str neg ++ format_digits c k
  end.

End PyNum.

Import PyNum.

(* ================================================================== *)
(** * Python values and the [json] module *)
(* ================================================================== *)

Module PyJson.

(** What [json.loads] can return: [None], [bool], [int], [float], [str],
    [list], and [dict] with string keys.  A dict keeps its keys in
    insertion order, each key once. *)
#[local] Unset Elimination Schemes.
Inductive value :=
| VNone
| VBool (b : bool)
| VInt (z : Z)
| VFloat (x : pyfloat)
| VStr (s : pystr)
| VList (l : list value)
| VDict (d : list (pystr * value)).
#[local] Set Elimination Schemes.

Definition dict := list (pystr * value).

(** [d.get(k)], as an option. *)
Fixpoint dict_lookup (d : dict) (k : pystr) : option value :=
  match d with
  | [] => None
  | (k', v) :: d' => if PyStr.eqb k' k then Some v else dict_lookup d' k
  end.

(** [k in d] *)
Definition dict_has (d : dict) (k : pystr) : bool :=
  match dict_lookup d k with Some _ => true | None => false end.

(** [d.get(k, default)] *)
Definition dict_get (d : dict) (k : pystr) (default : value) : value :=
  match dict_lookup d k with Some v => v | None => default end.

(** [d[k] = v]: a key already there keeps its place and takes the new
    value; a new key goes last. *)
Fixpoint dict_set (d : dict) (k : pystr) (v : value) : dict :=
  match d with
  | [] => [(k, v)]
  | (k', v') :: d' =>
      if PyStr.eqb k' k then (k', v) :: d' else (k', v') :: dict_set d' k v
  end.

Definition dict_keys (d : dict) : list pystr := map fst d.

(** ** The decoder: [json.loads]

    The decoder is given twice.  First by itself: which texts it accepts
    and which values they stand for, with every integer literal converted
    and every nesting followed ([scan_unbounded], [loads_unbounded]).
    Then as the interpreter runs it ([scan_once], [json_loads]): the same
    scan, stopped by a [ValueError] at an integer literal of more digits
    than the interpreter converts, and by a [RecursionError] at a bracket
    that opens a container deeper than the recursion limit allows. *)

(** The scanner's white space: space, tab, line feed, carriage return. *)
Definition is_ws (c : N) : bool :=
  (c =? 32) || (c =? 9) || (c =? 10) || (c =? 13).

Fixpoint skip_ws (s : pystr) : pystr :=
  match s with
  | c :: s' => if is_ws c then skip_ws s' else s
  | [] => []
  end.

Definition hex_digit (c : N) : option N :=
  if (48 <=? c) && (c <=? 57) then Some (c - 48)
  else if (97 <=? c) && (c <=? 102) then Some (c - 87)
  else if (65 <=? c) && (c <=? 70) then Some (c - 55)
  else None.

(** The four hex digits of a [\uXXXX] escape. *)
Definition hex4 (a b c d : N) : option N :=
  match hex_digit a, hex_digit b, hex_digit c, hex_digit d with
  | Some x, Some y, Some z, Some w => Some (((x * 16 + y) * 16 + z) * 16 + w)
  | _, _, _, _ => None
  end.

Definition is_high_surrogate (c : N) : bool := (0xD800 <=? c) && (c <=? 0xDBFF).
Definition is_low_surrogate (c : N) : bool := (0xDC00 <=? c) && (c <=? 0xDFFF).
Definition join_surrogates (hi lo : N) : N :=
  0x10000 + (N.lor (N.shiftl (N.land hi 0x3FF) 10) (N.land lo 0x3FF)).

(** The one-letter escapes after a backslash. *)
Definition simple_escape (c : N) : option N :=
  if c =? 34 then Some 34            (* quote *)
  else if c =? 92 then Some 92       (* backslash *)
  else if c =? 47 then Some 47       (* slash *)
  else if c =? 98 then Some 8        (* b *)
  else if c =? 102 then Some 12      (* f *)
  else if c =? 110 then Some 10      (* n *)
  else if c =? 114 then Some 13      (* r *)
  else if c =? 116 then Some 9       (* t *)
  else None.

(** One more decoded character in front of a scanned string. *)
Definition cons_char (c : N) (r : option (pystr * pystr)) : option (pystr * pystr) :=
  match r with
  | Some (str, rest) => Some (c :: str, rest)
  | None => None
  end.

(** [scanstring], strict: the text after an opening quote, up to the
    closing quote.  [Some (decoded, rest after the closing quote)], or
    [None] for an unterminated string, a raw control character, or a bad
    escape.  A [\u] escape of a high surrogate joins with a directly
    following [\u] escape of a low surrogate, provided at least one more
    character follows that second escape. *)
Fixpoint scanstring (s : pystr) : option (pystr * pystr) :=
  match s with
  | [] => None
  | c :: rest =>
      if c =? 34 then Some ([], rest)
      else if c =? 92 then
        match rest with
        | [] => None
        | e :: rest1 =>
            if e =? 117 then
              match rest1 with
              | h1 :: h2 :: h3 :: h4 :: rest2 =>
                  match hex4 h1 h2 h3 h4 with
                  | None => None
                  | Some u1 =>
                      match rest2 with
                      | b :: u :: g1 :: g2 :: g3 :: g4 :: ((_ :: _) as rest3) =>
                          if is_high_surrogate u1 && (b =? 92) && (u =? 117) then
                            match hex4 g1 g2 g3 g4 with
                            | None => None
                            | Some u2 =>
                                if is_low_surrogate u2
                                then cons_char (join_surrogates u1 u2) (scanstring rest3)
                                else cons_char u1 (scanstring rest2)
                            end
                          else cons_char u1 (scanstring rest2)
                      | _ => cons_char u1 (scanstring rest2)
                      end
                  end
              | _ => None
              end
            else
              match simple_escape e with
              | None => None
              | Some ch => cons_char ch (scanstring rest1)
              end
        end
      else if c <=? 0x1F then None
      else cons_char c (scanstring rest)
  end.

(** The longest run of digits at the front, and what follows. *)
Fixpoint span_digits (s : pystr) : pystr * pystr :=
  match s with
  | c :: s' =>
      if isdigit c then let '(ds, r) := span_digits s' in (c :: ds, r)
      else ([], s)
  | [] => ([], [])
  end.

(** The integer part of a number: a single [0], or a digit from 1 to 9
    and any further digits. *)
Definition match_integer (s : pystr) : option (pystr * pystr) :=
  match s with
  | c :: rest =>
      if c =? 48 then Some ([48], rest)
      else if isdigit c then let '(ds, r) := span_digits rest in Some (c :: ds, r)
      else None
  | [] => None
  end.

(** The optional fraction: a dot and at least one digit. *)
Definition match_frac (s : pystr) : option (pystr * pystr) :=
  match s with
  | dot :: c :: rest =>
      if (dot =? 46) && isdigit c
      then let '(ds, r) := span_digits rest in Some (c :: ds, r)
      else None
  | _ => None
  end.

(** The digits of an exponent, at least one. *)
Definition match_exp_digits (s : pystr) : option (pystr * pystr) :=
  match span_digits s with
  | ([], _) => None
  | (ds, r) => Some (ds, r)
  end.

(** The optional exponent: [e] or [E], a sign if any, at least one digit.
    The result is the exponent's value. *)
Definition match_exp (s : pystr) : option (Z * pystr) :=
  match s with
  | e :: rest =>
      if (e =? 101) || (e =? 69) then
        match rest with
        | sign :: rest' =>
            if sign =? 45 then
              match match_exp_digits rest' with
              | Some (ds, r) => Some ((- nat_value ds)%Z, r)
              | None => None
              end
            else if sign =? 43 then
              match match_exp_digits rest' with
              | Some (ds, r) => Some (nat_value ds, r)
              | None => None
              end
            else
              match match_exp_digits rest with
              | Some (ds, r) => Some (nat_value ds, r)
              | None => None
              end
        | [] => None
        end
      else None
  | [] => None
  end.

(** The value of a number with sign [neg], integer digits, and optional
    fraction digits and exponent: an [int] when there is neither fraction
    nor exponent ([int(text)]), else a [float] ([float(text)]). *)
Definition number_value_of (neg : bool) (int_ds : pystr)
    (frac_ds : option pystr) (exp : option Z) : value :=
  match frac_ds, exp with
  | None, None =>
      let n := nat_value int_ds in
      VInt (if neg then - n else n)%Z
  | _, _ =>
      let fd := match frac_ds with Some ds => ds | None => [] end in
      let x := match exp with Some x => x | None => 0%Z end in
      VFloat (float_of_decimal neg (nat_value (int_ds ++ fd))
                (x - Z.of_nat (List.length fd))%Z)
  end.

(** The text after an optional minus sign. *)
Definition match_sign (s : pystr) : bool * pystr :=
  match s with
  | c :: s' => if c =? 45 then (true, s') else (false, s)
  | [] => (false, s)
  end.

(** [_match_number] *)
Definition match_number (s : pystr) : option (value * pystr) :=
  let '(neg, s1) := match_sign s in
  match match_integer s1 with
  | None => None
  | Some (int_ds, s2) =>
      let '(frac_ds, s3) :=
        match match_frac s2 with
        | Some (ds, r) => (Some ds, r)
        | None => (None, s2)
        end in
      let '(exp, s4) :=
        match match_exp s3 with
        | Some (x, r) => (Some x, r)
        | None => (None, s3)
        end in
      Some (number_value_of neg int_ds frac_ds exp, s4)
  end.

(** What a scan without the interpreter's limits can end in: a value and
    the text after it, a [JSONDecodeError], or an exhausted budget of the
    model's own recursion. *)
Inductive unbounded_result :=
| Scanned (v : value) (rest : pystr)
| DecodeError
| OutOfFuel.

(** The constants and numbers: what [scan_unbounded] tries when the text
    starts neither a string, nor an object, nor an array. *)
Definition scan_atom (s : pystr) : unbounded_result :=
  match strip_prefix (lit "null") s with
  | Some r => Scanned VNone r
  | None =>
  match strip_prefix (lit "true") s with
  | Some r => Scanned (VBool true) r
  | None =>
  match strip_prefix (lit "false") s with
  | Some r => Scanned (VBool false) r
  | None =>
  match strip_prefix (lit "NaN") s with
  | Some r => Scanned (VFloat FNaN) r
  | None =>
  match strip_prefix (lit "Infinity") s with
  | Some r => Scanned (VFloat (FInf false)) r
  | None =>
  match strip_prefix (lit "-Infinity") s with
  | Some r => Scanned (VFloat (FInf true)) r
  | None =>
  match match_number s with
  | Some (v, r) => Scanned v r
  | None => DecodeError
  end end end end end end end.

(** [scan_once] without the interpreter's limits, with the loops of
    [_parse_object] and [_parse_array].  [fuel] bounds the nesting of the
    model's calls; [loads_unbounded] passes enough (theorem
    [scan_unbounded_total]). *)
Fixpoint scan_unbounded (fuel : nat) (s : pystr) {struct fuel} : unbounded_result :=
  match fuel with
  | O => OutOfFuel
  | S f =>
      match s with
      | [] => DecodeError
      | c :: rest =>
          if c =? 34 then
            match scanstring rest with
            | Some (str, r) => Scanned (VStr str) r
            | None => DecodeError
            end
          else if c =? 123 then
            match skip_ws rest with
            | [] => DecodeError
            | c1 :: r =>
                if c1 =? 125 then Scanned (VDict []) r
                else members_unbounded f [] (c1 :: r)
            end
          else if c =? 91 then
            match skip_ws rest with
            | [] => DecodeError
            | c1 :: r =>
                if c1 =? 93 then Scanned (VList []) r
                else elements_unbounded f [] (c1 :: r)
            end
          else scan_atom s
      end
  end

(** The members of an object, from the first key on; [acc] is the dict so
    far. *)
with members_unbounded (fuel : nat) (acc : dict) (s : pystr) {struct fuel} : unbounded_result :=
  match fuel with
  | O => OutOfFuel
  | S f =>
      match s with
      | [] => DecodeError
      | q :: s1 =>
          if negb (q =? 34) then DecodeError
          else
            match scanstring s1 with
            | None => DecodeError
            | Some (key, s2) =>
                match skip_ws s2 with
                | [] => DecodeError
                | colon :: s3 =>
                    if negb (colon =? 58) then DecodeError
                    else
                      match scan_unbounded f (skip_ws s3) with
                      | Scanned v s4 =>
                          let acc' := dict_set acc key v in
                          match skip_ws s4 with
                          | [] => DecodeError
                          | c :: s5 =>
                              if c =? 125 then Scanned (VDict acc') s5
                              else if c =? 44 then members_unbounded f acc' (skip_ws s5)
                              else DecodeError
                          end
                      | DecodeError => DecodeError
                      | OutOfFuel => OutOfFuel
                      end
                end
            end
      end
  end

(** The elements of an array, from the first one on; [acc] holds the
    elements so far, last first. *)
with elements_unbounded (fuel : nat) (acc : list value) (s : pystr) {struct fuel} : unbounded_result :=
  match fuel with
  | O => OutOfFuel
  | S f =>
      match scan_unbounded f s with
      | Scanned v s1 =>
          match skip_ws s1 with
          | [] => DecodeError
          | c :: s2 =>
              if c =? 93 then Scanned (VList (rev (v :: acc))) s2
              else if c =? 44 then elements_unbounded f (v :: acc) (skip_ws s2)
              else DecodeError
          end
      | DecodeError => DecodeError
      | OutOfFuel => OutOfFuel
      end
  end.

(** After the top-level value only white space may follow. *)
Definition after_unbounded (r : unbounded_result) : option value :=
  match r with
  | Scanned v rest =>
      match skip_ws rest with
      | [] => Some v
      | _ => None
      end
  | _ => None
  end.

(** [json.loads(s)] for a [str], without the interpreter's limits:
    [Some] value, or [None] for [json.JSONDecodeError].  A leading
    byte-order mark is refused; after the value only white space may
    follow. *)
Definition loads_unbounded (s : pystr) : option value :=
  match s with
  | c :: _ => if c =? 0xFEFF then None else after_unbounded (scan_unbounded (2 * List.length s + 2) (skip_ws s))
  | [] => after_unbounded (scan_unbounded (2 * List.length s + 2) (skip_ws s))
  end.

(** *** The decoder as the interpreter runs it *)

(** The two exceptions of the interpreter's limits that [json.loads]
    raises besides [JSONDecodeError]: the [ValueError] of [int] for a
    literal of [digits] digits, and the [RecursionError] at the bracket
    [opening] (a brace for an object, a square bracket for an array). *)
Inductive limit_error :=
| DigitLimit (digits : nat)
| RecursionLimit (opening : N).

(** The interpreter, as far as [json.loads] depends on it:
    [sys.get_int_max_str_digits()] (4300 unless it was set; 0 for no
    limit), the number of nested containers the scanner can still enter
    when [json.loads] is called (the recursion limit less the depth of the
    call stack at that point), and [str(e)] of the two exceptions. *)
Record interpreter := mkInterpreter {
  int_max_str_digits : nat;
  recursion_room : nat;
  str_of : limit_error -> pystr
}.

(** [int] refuses a literal of [digits] digits: more than 640, the size up
    to which nothing is checked, and more than the limit, if there is
    one. *)
Definition exceeds (py : interpreter) (digits : nat) : bool :=
  (640 <? digits)%nat && (0 <? int_max_str_digits py)%nat
  && (int_max_str_digits py <? digits)%nat.

(** The number of digits of the integer literal that a text starts with:
    those of its integer part, after the sign if there is one. *)
Definition literal_digits (s : pystr) : nat :=
  match match_integer (snd (match_sign s)) with
  | Some (int_ds, _) => List.length int_ds
  | None => O
  end.

(** What a scan ends in: a value and the text after it, a
    [JSONDecodeError], an exception of a limit, or an exhausted budget of
    the model's own recursion. *)
Inductive scan_result :=
| Loaded (v : value) (rest : pystr)
| Malformed
| Exceeded (e : limit_error)
| NoFuel.

(** The constants and numbers: an integer literal is converted by [int],
    which counts its digits. *)
Definition scan_atom_limited (py : interpreter) (s : pystr) : scan_result :=
  match scan_atom s with
  | Scanned (VInt z) r =>
      if exceeds py (literal_digits s)
      then Exceeded (DigitLimit (literal_digits s))
      else Loaded (VInt z) r
  | Scanned v r => Loaded v r
  | DecodeError => Malformed
  | OutOfFuel => NoFuel
  end.

(** [scan_once], with the loops of [_parse_object] and [_parse_array].
    [depth] is the number of containers that can still be entered: the
    scanner enters a recursive call at every opening brace or bracket,
    before it looks at what follows.  [fuel] bounds the nesting of the
    model's calls; [json_loads] passes enough (theorem
    [scan_once_total]). *)
Fixpoint scan_once (py : interpreter) (depth fuel : nat) (s : pystr)
    {struct fuel} : scan_result :=
  match fuel with
  | O => NoFuel
  | S f =>
      match s with
      | [] => Malformed
      | c :: rest =>
          if c =? 34 then
            match scanstring rest with
            | Some (str, r) => Loaded (VStr str) r
            | None => Malformed
            end
          else if c =? 123 then
            match depth with
            | O => Exceeded (RecursionLimit c)
            | S d =>
                match skip_ws rest with
                | [] => Malformed
                | c1 :: r =>
                    if c1 =? 125 then Loaded (VDict []) r
                    else parse_members py d f [] (c1 :: r)
                end
            end
          else if c =? 91 then
            match depth with
            | O => Exceeded (RecursionLimit c)
            | S d =>
                match skip_ws rest with
                | [] => Malformed
                | c1 :: r =>
                    if c1 =? 93 then Loaded (VList []) r
                    else parse_elements py d f [] (c1 :: r)
                end
            end
          else scan_atom_limited py s
      end
  end

(** The members of an object, from the first key on; [acc] is the dict so
    far. *)
with parse_members (py : interpreter) (depth fuel : nat) (acc : dict)
    (s : pystr) {struct fuel} : scan_result :=
  match fuel with
  | O => NoFuel
  | S f =>
      match s with
      | [] => Malformed
      | q :: s1 =>
          if negb (q =? 34) then Malformed
          else
            match scanstring s1 with
            | None => Malformed
            | Some (key, s2) =>
                match skip_ws s2 with
                | [] => Malformed
                | colon :: s3 =>
                    if negb (colon =? 58) then Malformed
                    else
                      match scan_once py depth f (skip_ws s3) with
                      | Loaded v s4 =>
                          let acc' := dict_set acc key v in
                          match skip_ws s4 with
                          | [] => Malformed
                          | c :: s5 =>
                              if c =? 125 then Loaded (VDict acc') s5
                              else if c =? 44
                              then parse_members py depth f acc' (skip_ws s5)
                              else Malformed
                          end
                      | Malformed => Malformed
                      | Exceeded e => Exceeded e
                      | NoFuel => NoFuel
                      end
                end
            end
      end
  end

(** The elements of an array, from the first one on; [acc] holds the
    elements so far, last first. *)
with parse_elements (py : interpreter) (depth fuel : nat) (acc : list value)
    (s : pystr) {struct fuel} : scan_result :=
  match fuel with
  | O => NoFuel
  | S f =>
      match scan_once py depth f s with
      | Loaded v s1 =>
          match skip_ws s1 with
          | [] => Malformed
          | c :: s2 =>
              if c =? 93 then Loaded (VList (rev (v :: acc))) s2
              else if c =? 44
              then parse_elements py depth f (v :: acc) (skip_ws s2)
              else Malformed
          end
      | Malformed => Malformed
      | Exceeded e => Exceeded e
      | NoFuel => NoFuel
      end
  end.

(** What [json.loads] ends in: the value it returns, a
    [json.JSONDecodeError], or the exception of a limit (a [ValueError]
    that is no [JSONDecodeError], or a [RecursionError]; both are
    subclasses of [Exception]). *)
Inductive loads_result :=
| Parsed (v : value)
| DecodeFailed
| LimitHit (e : limit_error).

(** After the top-level value only white space may follow. *)
Definition after_value (r : scan_result) : loads_result :=
  match r with
  | Loaded v rest =>
      match skip_ws rest with
      | [] => Parsed v
      | _ => DecodeFailed
      end
  | Exceeded e => LimitHit e
  | Malformed | NoFuel => DecodeFailed
  end.

(** [json.loads(s)] for a [str].  A leading byte-order mark is refused;
    after the value only white space may follow. *)
Definition json_loads (py : interpreter) (s : pystr) : loads_result :=
  let scan :=
    after_value (scan_once py (recursion_room py) (2 * List.length s + 2)
                   (skip_ws s)) in
  match s with
  | c :: _ => if c =? 0xFEFF then DecodeFailed else scan
  | [] => scan
  end.

(** The scan under the limits and the scan without them go the same way
    as long as no limit is met. *)
Definition agrees (r : scan_result) (u : unbounded_result) : Prop :=
  match r with
  | Loaded v rest => u = Scanned v rest
  | Malformed => u = DecodeError
  | NoFuel => u = OutOfFuel
  | Exceeded _ => True
  end.

(** ** The encoder: [json.dumps] *)

Definition hex_char (d : N) : N := if d <? 10 then 48 + d else 87 + d.

(** A [\uXXXX] escape: backslash, [u], four lower-case hex digits. *)
Definition u_escape (n : N) : pystr :=
  [92; 117; hex_char (n / 4096 mod 16); hex_char (n / 256 mod 16);
   hex_char (n / 16 mod 16); hex_char (n mod 16)].

(** The two surrogates that stand for a code point above the basic
    plane. *)
Definition high_half (c : N) : N :=
  N.lor 0xD800 (N.land (N.shiftr (c - 0x10000) 10) 0x3FF).
Definition low_half (c : N) : N :=
  N.lor 0xDC00 (N.land (c - 0x10000) 0x3FF).

(** One character under [ensure_ascii]: quote, backslash and the five
    short control escapes; printable ASCII as it is; the rest as [\u]
    escapes, above the basic plane as a surrogate pair. *)
Definition escape_char (c : N) : pystr :=
  if c =? 34 then [92; 34]
  else if c =? 92 then [92; 92]
  else if c =? 8 then [92; 98]
  else if c =? 12 then [92; 102]
  else if c =? 10 then [92; 110]
  else if c =? 13 then [92; 114]
  else if c =? 9 then [92; 116]
  else if (32 <=? c) && (c <=? 126) then [c]
  else if c <? 0x10000 then u_escape c
  else u_escape (high_half c) ++ u_escape (low_half c).

(** [encode_basestring_ascii] *)
Definition encode_string (s : pystr) : pystr :=
  34 :: flat_map escape_char s ++ [34].

(** [floatstr]: [repr], with the three non-finite names of JavaScript. *)
Definition encode_float (x : pyfloat) : pystr :=
  match x with
  | FNaN => lit "NaN"
  | FInf false => lit "Infinity"
  | FInf true => lit "-Infinity"
  | _ => float_repr x
  end.

(** A line break and the indentation of nesting level [level]. *)
Definition newline_indent (ind level : nat) : pystr :=
  10 :: repeat 32 (ind * level)%nat.

(** An opening bracket, the encoded items and the closing bracket, laid
    out compactly ([indent=None], item separator comma-space) or one item
    per line ([indent=ind], item separator comma). *)
Definition encode_items (indent : option nat) (level : nat)
    (open close : N) (items : list pystr) : pystr :=
  match items with
  | [] => [open; close]
  | _ =>
      match indent with
      | None => open :: join (lit ", ") items ++ [close]
      | Some ind =>
          open :: newline_indent ind (S level)
            ++ join (44 :: newline_indent ind (S level)) items
            ++ newline_indent ind level ++ [close]
      end
  end.

(** The encoder at nesting level [level]. *)
Fixpoint encode (indent : option nat) (level : nat) (v : value) : pystr :=
  match v with
  | VNone => lit "null"
  | VBool true => lit "true"
  | VBool false => lit "false"
  | VInt z => int_str z
  | VFloat x => encode_float x
  | VStr s => encode_string s
  | VList l =>
      encode_items indent level 91 93 (map (encode indent (S level)) l)
  | VDict d =>
      encode_items indent level 123 125
        (map (fun kv => encode_string (fst kv) ++ lit ": "
                          ++ encode indent (S level) (snd kv)) d)
  end.

(** [json.dumps(v)] and [json.dumps(v, indent=n)]: the text that is
    written.  [json.dumps] converts every int with [int.__repr__], which
    raises a [ValueError] for an int of more digits than the interpreter
    converts ([exceeds]); the texts below are those of the values without
    such an int, as are all the values that [json_loads] returns (lemma
    [json_loads_within]). *)
Definition json_dumps (v : value) : pystr := encode None 0 v.
Definition json_dumps_indent (n : nat) (v : value) : pystr := encode (Some n) 0 v.

(** ** [str()] as an f-string applies it *)

(** [str(v)] for the scalars; [None] stands for the containers, whose
    text is the [repr] of their parts and is not modelled.  As for
    [json.dumps], the text of an int is that of an int the interpreter
    converts. *)
Definition py_str (v : value) : option pystr :=
  match v with
  | VNone => Some (lit "None")
  | VBool true => Some (lit "True")
  | VBool false => Some (lit "False")
  | VInt z => Some (int_str z)
  | VFloat x => Some (float_repr x)
  | VStr s => Some s
  | VList _ => None
  | VDict _ => None
  end.

End PyJson.

Import PyJson.

(* ================================================================== *)
(** * The program: [invoice_processor.py] *)
(* ================================================================== *)

Module Invoice.

(** ** Configuration *)

(** Truth value of an optional string: [None] and the empty string are
    false. *)
Definition truthy (s : option pystr) : bool :=
  match s with
  | Some (_ :: _) => true
  | _ => false
  end.

(** [os.getenv("GEMINI_API_KEY") or os.getenv("GEMINI_API")] *)
Definition read_credential (key_var api_var : option pystr) : option pystr :=
  if truthy key_var then key_var else api_var.

(** ** The prompt *)

(** The text of the source's constant, written with an apostrophe where
    the source has a double quote (the constant has no apostrophe). *)
Definition prompt_text : string :=
"Analyze this invoice/receipt text and extract the following information in JSON format:

{
    'vendor_name': 'Company/business name',
    'vendor_address': 'Full address if available',
    'invoice_number': 'Invoice/receipt number',
    'invoice_date': 'Date in YYYY-MM-DD format',
    'due_date': 'Due date in YYYY-MM-DD format if available',
    'subtotal': 'Subtotal amount as number',
    'tax': 'Tax amount as number',
    'total': 'Total amount as number',
    'currency': 'Currency code (USD, EUR, etc.)',
    'payment_method': 'Credit card, cash, check, etc. if mentioned',
    'line_items': [
        {
            'description': 'Item description',
            'quantity': 'Quantity as number',
            'unit_price': 'Price per unit as number',
            'amount': 'Line total as number'
        }
    ],
    'category_suggestion': 'Suggested expense category (Office Supplies, Travel, Meals, Software, Professional Services, etc.)',
    'notes': 'Any additional relevant information'
}

Be precise with numbers - extract them without currency symbols.
If a field is not found, use null.
For dates, convert to YYYY-MM-DD format.

INVOICE TEXT:
".

Definition INVOICE_EXTRACTION_PROMPT : pystr := lit_q prompt_text.

(** [prompt = INVOICE_EXTRACTION_PROMPT + text] *)
Definition build_prompt (text : pystr) : pystr :=
  INVOICE_EXTRACTION_PROMPT ++ text.

(** ** Text extraction *)

(** A document as [PdfReader] presents it: what [extract_text] gives for
    each page, in page order ([None] for a page without a text layer). *)
Definition document := list (option pystr).

(** [extract_text_from_pdf]: every page whose text is truthy adds its text
    and a line feed. *)
Fixpoint extract_text_from_pdf (pages : document) : pystr :=
  match pages with
  | [] => []
  | page_text :: rest =>
      if truthy page_text then
        match page_text with
        | Some t => t ++ [10] ++ extract_text_from_pdf rest
        | None => extract_text_from_pdf rest
        end
      else extract_text_from_pdf rest
  end.

(** ** The analysis *)

(** The exceptions as the [except] clauses tell them apart: a
    [json.JSONDecodeError], caught by the first clause; any other
    exception that is an instance of [Exception], caught by the second;
    and the exceptions outside [Exception] ([KeyboardInterrupt],
    [SystemExit], [GeneratorExit], [asyncio.CancelledError]), which
    neither clause catches. *)
Inductive exception_class :=
| JSONDecodeError
| OtherException
| OutsideException.

(** What [model.generate_content(prompt)] followed by [response.text]
    ends in: the reply text, or an exception with its class and its
    [str(e)]. *)
Inductive service_outcome :=
| Replied (response_text : pystr)
| Raised (cls : exception_class) (message : pystr).

(** The remote service: the only place of network traffic. *)
Definition service := pystr -> service_outcome.

(** What a call of the analysis ends in: a returned value, or an
    exception that leaves the function. *)
Inductive analysis :=
| Returned (result : value)
| Escapes.

(** The error dicts of the source. *)
Definition error_dict (message : pystr) : value :=
  VDict [(lit "error", VStr message)].

Definition parse_error_dict (raw : pystr) : value :=
  VDict [(lit "error", VStr (lit "Failed to parse response"));
         (lit "raw_response", VStr raw)].

Definition not_configured_message : pystr :=
  lit "GEMINI_API_KEY not configured. Set in .env file.".

Definition FENCE_JSON : pystr := lit "```json".
Definition FENCE : pystr := lit "```".

(** [s.split(sep)[i].split(FENCE)[0]]; [None] is an [IndexError]. *)
Definition between (sep : pystr) (i : nat) (s : pystr) : option pystr :=
  match nth_error (split sep s) i with
  | Some part => nth_error (split FENCE part) 0
  | None => None
  end.

(** The fence handling: the text that goes to the parser, before
    [strip]. *)
Definition unfence (response_text : pystr) : option pystr :=
  if contains FENCE_JSON response_text then between FENCE_JSON 1 response_text
  else if contains FENCE response_text then between FENCE 1 response_text
  else Some response_text.

(** The body of the [try]: fence handling, [strip], [json.loads], with
    the two [except] clauses.  A [JSONDecodeError] goes to the first
    clause; the [ValueError] and the [RecursionError] of the interpreter's
    limits go to the second, as an [IndexError] of the fence handling
    would. *)
Definition parse_response (py : interpreter) (response_text : pystr) : value :=
  match unfence response_text with
  | None => error_dict (lit "list index out of range")
  | Some candidate =>
      match json_loads py (strip candidate) with
      | Parsed v => v
      | DecodeFailed => parse_error_dict response_text
      | LimitHit e => error_dict (str_of py e)
      end
  end.

(** [analyze_invoice_with_gemini(text)], with the credential and the
    service made explicit.  [sent] is the log of prompts that went over
    the network; the result comes with the log after the call.

    An exception of the service that is an instance of [Exception] is
    caught by the second [except] clause and becomes an error dict, unless
    it is a [JSONDecodeError]: that one is caught by the first clause,
    whose [response.text] then raises in its turn ([response] is unbound,
    or its [text] fails again), and this exception leaves the function.
    An exception outside [Exception] is caught by neither clause and
    leaves the function as it is. *)
Definition analyze_invoice_with_gemini
    (py : interpreter) (GEMINI_API : option pystr) (generate_content : service)
    (text : pystr) (sent : list pystr) : analysis * list pystr :=
  if negb (truthy GEMINI_API) then
    (Returned (error_dict not_configured_message), sent)
  else
    let prompt := build_prompt text in
    let sent' := sent ++ [prompt] in
    match generate_content prompt with
    | Replied response_text =>
        (Returned (parse_response py response_text), sent')
    | Raised OtherException message => (Returned (error_dict message), sent')
    | Raised JSONDecodeError _ => (Escapes, sent')
    | Raised OutsideException _ => (Escapes, sent')
    end.

(** ** The shell's dispatch on the result *)

(** Python's [==] between a value and a string. *)
Definition equals_str (v : value) (s : pystr) : bool :=
  match v with
  | VStr t => PyStr.eqb t s
  | _ => false
  end.

(** The exceptions the dispatch can raise. *)
Inductive fault := TypeError | AttributeError.

(** [key in v] for a string [key]: membership in a dict's keys, equality
    with a list's element, substring of a string; the other types are not
    iterable. *)
Definition py_in (key : pystr) (v : value) : fault + bool :=
  match v with
  | VDict d => inr (dict_has d key)
  | VList l => inr (existsb (fun x => equals_str x key) l)
  | VStr s => inr (contains key s)
  | _ => inl TypeError
  end.

(** What the shell does with the stored result: show an error (message
    and, if any, raw response), show a record, or stop on an uncaught
    exception. *)
Inductive rendering :=
| ShowError (message : value) (raw_response : option value)
| ShowRecord (record : dict)
| Uncaught (exc : fault).

(** The dispatch of the display column: [if "error" in result: ...
    result['error'] ... else: result.get("vendor_name", "N/A") ...]. *)
Definition render (result : value) : rendering :=
  match py_in (lit "error") result with
  | inl exc => Uncaught exc
  | inr true =>
      match result with
      | VDict d =>
          match dict_lookup d (lit "error") with
          | Some message => ShowError message (dict_lookup d (lit "raw_response"))
          | None => Uncaught TypeError
          end
      | _ => Uncaught TypeError          (* result['error'] on a list or str *)
      end
  | inr false =>
      match result with
      | VDict d => ShowRecord d
      | _ => Uncaught AttributeError     (* result.get on a list or str *)
      end
  end.

(** ** The exports *)

(** [json.dumps(result, indent=2)] *)
Definition export_json (result : dict) : pystr :=
  json_dumps_indent 2 (VDict result).

(** One replacement field [{result.get(key,'')}] of the f-string. *)
Definition csv_field (result : dict) (key : pystr) : option pystr :=
  py_str (dict_get result key (VStr [])).

(** [csv_line], when each of the four fields is a scalar. *)
Definition csv_line (result : dict) : option pystr :=
  match csv_field result (lit "invoice_date"), csv_field result (lit "vendor_name"),
        csv_field result (lit "total"), csv_field result (lit "category_suggestion") with
  | Some d, Some v, Some t, Some c => Some (d ++ [44] ++ v ++ [44] ++ t ++ [44] ++ c)
  | _, _, _, _ => None
  end.

Definition CSV_HEADER : pystr := lit "date,vendor,total,category".

(** The CSV download: header, line feed, [csv_line]. *)
Definition export_csv (result : dict) : option pystr :=
  match csv_line result with
  | Some line => Some (CSV_HEADER ++ [10] ++ line)
  | None => None
  end.

End Invoice.

Import Invoice.

(* ================================================================== *)
(** * The words of the specification *)
(* ================================================================== *)

Module Spec.

(** ** Where a number ends *)

(** The text is empty or starts with something else than a digit. *)
Definition digits_end (s : pystr) : bool :=
  match s with
  | [] => true
  | c :: _ => negb (isdigit c)
  end.

(** The text cannot continue a number: it is empty or starts with
    something else than a digit, a dot or an exponent letter. *)
Definition number_end (s : pystr) : bool :=
  match s with
  | [] => true
  | c :: _ => negb (isdigit c) && negb (c =? 46) && negb (c =? 101) && negb (c =? 69)
  end.

(** ** Values that serialize and read back *)

(** A Unicode scalar value: a code point that is not a surrogate. *)
Definition scalar (c : N) : bool :=
  (c <? 0xD800) || ((0xDFFF <? c) && (c <? 0x110000)).

(** A text: a string of scalar values. *)
Definition text_ok (s : pystr) : bool := forallb scalar s.

(** A finite float in canonical form: [2^52 <= m < 2^53] with
    [-1074 <= e <= 971], or [0 < m < 2^52] with [e = -1074]; or a zero. *)
Definition float_ok (x : pyfloat) : bool :=
  match x with
  | FZero _ => true
  | FFinite _ m e =>
      (0 <? m)%Z && (m <? 2 ^ 53)%Z && (-1074 <=? e)%Z && (e <=? 971)%Z
      && ((2 ^ 52 <=? m)%Z || (e =? -1074)%Z)
  | _ => false
  end.

Fixpoint unique_keys (ks : list pystr) : bool :=
  match ks with
  | [] => true
  | k :: ks' => negb (existsb (PyStr.eqb k) ks') && unique_keys ks'
  end.

(** A value as [json.dumps] and [json.loads] exchange it faithfully:
    texts, finite floats, dicts with each key once. *)
Fixpoint value_ok (v : value) : bool :=
  match v with
  | VNone | VBool _ | VInt _ => true
  | VFloat x => float_ok x
  | VStr s => text_ok s
  | VList l => forallb value_ok l
  | VDict d =>
      unique_keys (map fst d)
      && forallb (fun kv => text_ok (fst kv) && value_ok (snd kv)) d
  end.

(** ** Values within the interpreter's limits *)

(** The number of decimal digits of an int. *)
Definition int_digits (z : Z) : nat := List.length (int_str (Z.abs z)).

(** A value within the limits of the interpreter: every int has a number
    of digits that [int] converts, and the containers nest at most [depth]
    deep. *)
Fixpoint within (py : interpreter) (depth : nat) (v : value) {struct v} : bool :=
  match v with
  | VInt z => negb (exceeds py (int_digits z))
  | VList l =>
      match depth with
      | O => false
      | S d => forallb (within py d) l
      end
  | VDict m =>
      match depth with
      | O => false
      | S d => forallb (fun kv => within py d (snd kv)) m
      end
  | _ => true
  end.

(** The longest run of digits in a text. *)
Fixpoint longest_digit_run (s : pystr) : nat :=
  match s with
  | [] => O
  | _ :: s' =>
      Nat.max (List.length (fst (span_digits s))) (longest_digit_run s')
  end.

(** The characters an encoded value can start with: quote, brace,
    bracket, minus, digit, and the first letters of [null], [true],
    [false], [NaN], [Infinity]. *)
Definition value_start (c : N) : bool :=
  (c =? 34) || (c =? 123) || (c =? 91) || (c =? 45) || isdigit c
  || (c =? 110) || (c =? 116) || (c =? 102) || (c =? 78) || (c =? 73).

(** The recursion budget that scanning an encoded value takes. *)
Fixpoint weight (v : value) : nat :=
  match v with
  | VList l => S (list_sum (map (fun x => S (weight x)) l))
  | VDict d => S (list_sum (map (fun kv => S (weight (snd kv))) d))
  | _ => 1%nat
  end.

(** ** The InvoiceRecord of the data model *)

(** Modelled from the spec: the InvoiceRecord and LineItem of section 3.
    The source has no such type; it names the same thirteen keys, in this
    order, in the JSON template of its prompt. *)
Inductive number :=
| NInt (z : Z)
| NFloat (x : pyfloat).

Record LineItem := mkLineItem {
  description : option pystr;
  quantity : option number;
  unit_price : option number;
  amount : option number
}.

Record InvoiceRecord := mkInvoiceRecord {
  vendor_name : option pystr;
  vendor_address : option pystr;
  invoice_number : option pystr;
  invoice_date : option pystr;
  due_date : option pystr;
  subtotal : option number;
  tax : option number;
  total : option number;
  currency : option pystr;
  payment_method : option pystr;
  line_items : list LineItem;
  category_suggestion : option pystr;
  notes : option pystr
}.

Definition text_value (t : option pystr) : value :=
  match t with
  | Some s => VStr s
  | None => VNone
  end.

Definition number_value (n : option number) : value :=
  match n with
  | Some (NInt z) => VInt z
  | Some (NFloat x) => VFloat x
  | None => VNone
  end.

Definition line_item_value (i : LineItem) : value :=
  VDict [(lit "description", text_value (description i));
         (lit "quantity", number_value (quantity i));
         (lit "unit_price", number_value (unit_price i));
         (lit "amount", number_value (amount i))].

(** The record as the JSON object of the schema: every key present, null
    for an absent field. *)
Definition record_dict (r : InvoiceRecord) : dict :=
  [(lit "vendor_name", text_value (vendor_name r));
   (lit "vendor_address", text_value (vendor_address r));
   (lit "invoice_number", text_value (invoice_number r));
   (lit "invoice_date", text_value (invoice_date r));
   (lit "due_date", text_value (due_date r));
   (lit "subtotal", number_value (subtotal r));
   (lit "tax", number_value (tax r));
   (lit "total", number_value (total r));
   (lit "currency", text_value (currency r));
   (lit "payment_method", text_value (payment_method r));
   (lit "line_items", VList (map line_item_value (line_items r)));
   (lit "category_suggestion", text_value (category_suggestion r));
   (lit "notes", text_value (notes r))].

Definition SCHEMA_KEYS : list pystr :=
  map lit ["vendor_name"; "vendor_address"; "invoice_number"; "invoice_date";
           "due_date"; "subtotal"; "tax"; "total"; "currency";
           "payment_method"; "line_items"; "category_suggestion"; "notes"]%string.

(** A valid record: its texts are texts and its numbers are integers or
    finite floats. *)
Definition valid_record (r : InvoiceRecord) : bool :=
  value_ok (VDict (record_dict r)).

(** A reply as the model writes it: commentary, a JSON-tagged fence on
    its own line, the JSON text, the closing fence on its own line,
    commentary. *)
Definition fenced_reply (before json_text after : pystr) : pystr :=
  before ++ FENCE_JSON ++ [10] ++ json_text ++ [10] ++ FENCE ++ after.

(** ** The fence rule in the specification's words *)

(** The content between the first marker [opening] and the closing
    marker that follows it; to the end of the text when none follows. *)
Definition fenced_content (opening text : pystr) : option pystr :=
  match partition opening text with
  | Some (_, inside) =>
      match partition FENCE inside with
      | Some (content, _) => Some content
      | None => Some inside
      end
  | None => None
  end.

(** Steps 1 to 3 of the normalizer: the JSON-tagged block, else the
    generic block, else the whole text. *)
Definition spec_candidate (text : pystr) : pystr :=
  match fenced_content FENCE_JSON text with
  | Some c => c
  | None =>
      match fenced_content FENCE text with
      | Some c => c
      | None => text
      end
  end.

(** ** The header of the prompt *)

(** The fixed instruction header: the text of the source's constant up
    to [INVOICE TEXT:].  The line feed that ends the constant is what
    joins the header and the invoice text. *)
Definition INSTRUCTION_HEADER : pystr := removelast INVOICE_EXTRACTION_PROMPT.

(** ** The page texts of a document *)

(** The texts of the pages that yield text, in page order. *)
Fixpoint page_texts (pages : document) : list pystr :=
  match pages with
  | [] => []
  | Some (c :: t) :: rest => (c :: t) :: page_texts rest
  | _ :: rest => page_texts rest
  end.

End Spec.

Import Spec.

(* ================================================================== *)
(** * Sample replies and records *)
(* ================================================================== *)

Module Examples.

(** An interpreter: CPython with its default limit of 4300 digits and
    with room for 900 nested containers at the call of [json.loads]; the
    texts of the two exceptions are those of CPython 3.11. *)
Definition cpython : interpreter :=
  {| int_max_str_digits := 4300;
     recursion_room := 900;
     str_of := fun e =>
       match e with
       | DigitLimit n =>
           lit "Exceeds the limit (4300 digits) for integer string conversion: value has "
             ++ int_str (Z.of_nat n)
             ++ lit " digits; use sys.set_int_max_str_digits() to increase the limit"
       | RecursionLimit c =>
           lit "maximum recursion depth exceeded while decoding a JSON "
             ++ (if c =? 123 then lit "object" else lit "array")
             ++ lit " from a unicode string"
       end |}.

(** A credential and a document text. *)
Definition some_key : option pystr := Some (lit "k-123").
Definition some_text : pystr := lit "Acme Corp" ++ [10] ++ lit "Total: $45.00".

(** The reply of the scenario in section 8 of the specification. *)
Definition scenario_json : pystr :=
  lit_q "{'vendor_name':'Acme Corp','invoice_number':'100','invoice_date':'2024-03-14','total':45.00,'currency':'USD','line_items':[],'category_suggestion':'Office Supplies'}".

Definition scenario_reply : pystr :=
  lit "Here is the data:" ++ [10] ++ FENCE_JSON ++ [10] ++ scenario_json
    ++ [10] ++ FENCE.

(** 45.0 as a binary64: 6333186975989760 * 2^-47. *)
Definition float_45 : pyfloat := FFinite false 6333186975989760 (-47).

(** The record of the scenario. *)
Definition scenario_record : InvoiceRecord :=
  {| vendor_name := Some (lit "Acme Corp");
     vendor_address := None;
     invoice_number := Some (lit "100");
     invoice_date := Some (lit "2024-03-14");
     due_date := None;
     subtotal := None;
     tax := None;
     total := Some (NFloat float_45);
     currency := Some (lit "USD");
     payment_method := None;
     line_items := [ {| description := Some (lit "Paper");
                        quantity := Some (NInt 2);
                        unit_price := None;
                        amount := None |} ];
     category_suggestion := Some (lit "Office Supplies");
     notes := None |}.

(** A reply that is a JSON array, not an object. *)
Definition list_reply : pystr := lit "[1, 2]".

(** A reply whose closing fence is directly followed by a backtick and
    [json]. *)
Definition crowded_reply : pystr :=
  FENCE_JSON ++ [10] ++ lit "{}" ++ [10] ++ FENCE ++ lit "`json".

(** A reply cut off after its opening brace. *)
Definition truncated_reply : pystr := lit "{".

(** Replies with strings where numbers are expected. *)
Definition string_total_reply : pystr := lit_q "{'total': '123.45'}".
Definition string_tax_reply : pystr := lit_q "{'tax': 'n/a'}".

(** A reply with strings where the numbers of a line item are
    expected. *)
Definition string_items_reply : pystr :=
  lit_q "{'total': '123.45', 'line_items': [{'description': 'Paper', 'quantity': '2', 'unit_price': 'n/a', 'amount': '9.90'}]}".

(** A fenced reply that stops in the middle of a number: the text of the
    object [{"vendor_name": "Acme Corp", "total": 45.0}] without its last
    two characters. *)
Definition cut_off_reply : pystr :=
  lit "Here is the data:" ++ [10] ++ FENCE_JSON ++ [10]
    ++ lit_q "{'vendor_name': 'Acme Corp', 'total': 45.".

(** A reply with a key outside the schema. *)
Definition foreign_key_reply : pystr := lit_q "{'foo': 1}".

(** A reply with nulls, as the prompt asks for fields that are not
    found. *)
Definition null_fields_reply : pystr :=
  lit_q "{'invoice_date': null, 'vendor_name': 'Acme Corp', 'total': null, 'category_suggestion': null}".

(** A record with a triple backtick in its notes. *)
Definition backtick_record : InvoiceRecord :=
  {| vendor_name := Some (lit "Acme Corp");
     vendor_address := None; invoice_number := None; invoice_date := None;
     due_date := None; subtotal := None; tax := None; total := None;
     currency := None; payment_method := None; line_items := [];
     category_suggestion := None;
     notes := Some (lit "see ``` above") |}.

(** A service that answers every prompt with the same text. *)
Definition always (reply : pystr) : service := fun _ => Replied reply.

(** A service whose transport fails on a malformed HTTP body. *)
Definition broken_transport : service :=
  fun _ => Raised JSONDecodeError (lit "Expecting value: line 1 column 1 (char 0)").

End Examples.

Import Examples.

(* ================================================================== *)
(** * Objects with each key once *)
(* ================================================================== *)

Module Keys.

(** Every object in the value, at any depth, has each key once. *)
Fixpoint keys_unique (v : value) : bool :=
  match v with
  | VList l => forallb keys_unique l
  | VDict d =>
      unique_keys (map fst d) && forallb (fun kv => keys_unique (snd kv)) d
  | _ => true
  end.

(** [dict(members)]: the pairs assigned one after the other, so that of a
    key that comes more than once the first place and the last value
    stay. *)
Definition dict_of (members : list (pystr * value)) : dict :=
  fold_left (fun acc kv => dict_set acc (fst kv) (snd kv)) members [].

End Keys.

Import Keys.

(* ================================================================== *)
(** * The shell: what the script shows *)
(* ================================================================== *)

Module Shell.

(** ** Truth values and number formats *)

(** [bool(v)], as [if v:] and [A if v else B] apply it. *)
Definition truthy_value (v : value) : bool :=
  match v with
  | VNone => false
  | VBool b => b
  | VInt z => negb (z =? 0)%Z
  | VFloat (FZero _) => false
  | VFloat _ => true
  | VStr [] => false
  | VStr _ => true
  | VList [] => false
  | VList _ => true
  | VDict [] => false
  | VDict _ => true
  end.

(** The exceptions the script's own expressions can raise: those of the
    dispatch, a missing key, a format code that does not fit the value,
    an int beyond the range of a float. *)
Inductive exception :=
| Fault (exc : fault)
| KeyError
| ValueError
| OverflowError.

(** [float(z)] for an int: the nearest binary64, ties to even; [None] is
    the [OverflowError] of an int beyond the range. *)
Definition float_of_int (z : Z) : option pyfloat :=
  if (z =? 0)%Z then Some (FZero false)
  else
    match round_pos (z <? 0)%Z (Z.abs z) 1 with
    | FInf _ => None
    | x => Some x
    end.

(** The integer nearest to [n / d], ties to even. *)
Definition round_half_even (n d : Z) : Z :=
  let q := (n / d)%Z in
  let r := (n mod d)%Z in
  if (d <? 2 * r)%Z || ((d =? 2 * r)%Z && Z.odd q) then (q + 1)%Z else q.

Definition two_digits (n : Z) : pystr :=
  [Z.to_N (48 + n / 10); Z.to_N (48 + n mod 10)].

(** The text of [h] hundredths: sign, integer part, point, two digits. *)
Definition fixed_2 (neg : bool) (h : Z) : pystr :=
  sign_str neg ++ int_str (h / 100) ++ [46] ++ two_digits (h mod 100).

(** [format(x, '.2f')] of a float: its exact value rounded to the nearest
    hundredth, ties to even. *)
Definition format_2f_float (x : pyfloat) : pystr :=
  match x with
  | FNaN => lit "nan"
  | FInf neg => sign_str neg ++ lit "inf"
  | FZero neg => fixed_2 neg 0
  | FFinite neg m e =>
      let '(n, d) := scale2 (100 * m) 1 (- e) in
      fixed_2 neg (round_half_even n d)
  end.

(** [format(v, '.2f')], the format of a replacement field [{v:.2f}]: an
    int (and a bool, which is one) goes through [float]; a [str] does not
    know the code [f]; the other types take no format at all. *)
Definition format_2f (v : value) : exception + pystr :=
  match v with
  | VFloat x => inr (format_2f_float x)
  | VInt z =>
      match float_of_int z with
      | Some x => inr (format_2f_float x)
      | None => inl OverflowError
      end
  | VBool b =>
      match float_of_int (Z.b2z b) with
      | Some x => inr (format_2f_float x)
      | None => inl OverflowError
      end
  | VStr _ => inl ValueError
  | VNone | VList _ | VDict _ => inl (Fault TypeError)
  end.

(** [a + b] for two texts where either may be the text of a container
    ([py_str] gives [None] for those). *)
Definition text_app (a b : option pystr) : option pystr :=
  match a, b with
  | Some x, Some y => Some (x ++ y)
  | _, _ => None
  end.

(** ** What is shown *)

(** The calls that put data on the page, with their arguments.  A text
    built by an f-string is [None] when one of its fields is a container
    (see [py_str]).  Layout calls ([st.columns], [st.expander],
    [st.spinner]) and the headings and controls that every run shows are
    not recorded; what Streamlit does with an argument is outside the
    model. *)
Inductive widget :=
| StError (body : option pystr)
| StText (body : value)
| StMetric (label : pystr) (v : value)
| StSubheader (body : pystr)
| StWrite (body : option pystr)
| StJson (body : value)
| StDownload (label : pystr) (data : option pystr)
    (file_name : option pystr) (mime : pystr)
| StInfo (body : pystr).

(** A stretch of the script: the widgets it shows, and the exception that
    ends it, if one does. *)
Definition shown := (list widget * option exception)%type.

Definition emit (w : widget) : shown := ([w], None).
Definition raise (e : exception) : shown := ([], Some e).
Definition nothing : shown := ([], None).

(** One stretch after the other: the second runs when the first ends
    without an exception. *)
Definition and_then (a b : shown) : shown :=
  match a with
  | (ws, None) => (ws ++ fst b, snd b)
  | (ws, Some e) => (ws, Some e)
  end.

Notation "a ;; b" := (and_then a b) (at level 61, right associativity).

(** ** The preview of the extracted text *)

(** [text[:3000] + "..." if len(text) > 3000 else text] *)
Definition preview (text : pystr) : pystr :=
  if (3000 <? length text)%nat then firstn 3000 text ++ lit "..." else text.

(** ** The record view *)

(** [f"${result.get('total', 0):.2f}" if result.get('total') else "N/A"] *)
Definition total_metric (result : dict) : exception + pystr :=
  if truthy_value (dict_get result (lit "total") VNone) then
    match format_2f (dict_get result (lit "total") (VInt 0)) with
    | inr t => inr (lit "$" ++ t)
    | inl e => inl e
    end
  else inr (lit "N/A").

(** The text of one line item, [i] counting from 0:
    [f"**{i+1}.** {item.get('description', 'N/A')} - ${item.get('amount', 0):.2f}"
     if item.get('amount') else f"**{i+1}.** {item.get('description', 'N/A')}"].
    Only a dict has [get]. *)
Definition item_line (i : nat) (item : value) : exception + option pystr :=
  match item with
  | VDict d =>
      let head :=
        text_app (Some (lit "**" ++ int_str (Z.of_nat i + 1) ++ lit ".** "))
                 (py_str (dict_get d (lit "description") (VStr (lit "N/A")))) in
      if truthy_value (dict_get d (lit "amount") VNone) then
        match format_2f (dict_get d (lit "amount") (VInt 0)) with
        | inr t => inr (text_app head (Some (lit " - $" ++ t)))
        | inl e => inl e
        end
      else inr head
  | _ => inl (Fault AttributeError)
  end.

(** What [enumerate(v)] runs over: the elements of a list, the characters
    of a string, the keys of a dict; the other types are not iterable. *)
Definition iterate (v : value) : exception + list value :=
  match v with
  | VList l => inr l
  | VStr s => inr (map (fun c => VStr [c]) s)
  | VDict d => inr (map (fun kv => VStr (fst kv)) d)
  | _ => inl (Fault TypeError)
  end.

(** The loop over the line items, from position [i] on: an item that is
    false is passed over, the others are written. *)
Fixpoint show_items (i : nat) (items : list value) : shown :=
  match items with
  | [] => nothing
  | item :: rest =>
      (if truthy_value item then
         match item_line i item with
         | inr line => emit (StWrite line)
         | inl e => raise e
         end
       else nothing) ;;
      show_items (S i) rest
  end.

(** [if result.get("line_items"): ... for i, item in
    enumerate(result["line_items"]): ...] *)
Definition show_line_items (result : dict) : shown :=
  if truthy_value (dict_get result (lit "line_items") VNone) then
    emit (StSubheader (lit "Line Items")) ;;
    match dict_lookup result (lit "line_items") with
    | None => raise KeyError
    | Some v =>
        match iterate v with
        | inr items => show_items 0 items
        | inl e => raise e
        end
    end
  else nothing.

(** [f"invoice_{result.get('invoice_number', 'data')}.json"] *)
Definition json_file_name (result : dict) : option pystr :=
  text_app (text_app (Some (lit "invoice_"))
              (py_str (dict_get result (lit "invoice_number") (VStr (lit "data")))))
           (Some (lit ".json")).

Definition DOWNLOAD_JSON : pystr := [0x1F4E5; 32] ++ lit "Download JSON".
Definition DOWNLOAD_CSV : pystr := [0x1F4E5; 32] ++ lit "Download CSV Line".

(** The [else] branch of the dispatch: the four metrics, the line items,
    the full JSON and the two downloads, in the order of the script. *)
Definition show_record (result : dict) : shown :=
  emit (StMetric (lit "Vendor")
          (dict_get result (lit "vendor_name") (VStr (lit "N/A")))) ;;
  (match total_metric result with
   | inr t => emit (StMetric (lit "Total") (VStr t))
   | inl e => raise e
   end) ;;
  emit (StMetric (lit "Date")
          (dict_get result (lit "invoice_date") (VStr (lit "N/A")))) ;;
  emit (StMetric (lit "Category")
          (dict_get result (lit "category_suggestion") (VStr (lit "N/A")))) ;;
  show_line_items result ;;
  emit (StJson (VDict result)) ;;
  emit (StSubheader (lit "Export")) ;;
  emit (StDownload DOWNLOAD_JSON (Some (export_json result))
          (json_file_name result) (lit "application/json")) ;;
  emit (StDownload DOWNLOAD_CSV (export_csv result)
          (Some (lit "invoice_data.csv")) (lit "text/csv")).

(** The [if "error" in result:] branch on a dict. *)
Definition show_error (result : dict) : shown :=
  match dict_lookup result (lit "error") with
  | None => raise KeyError
  | Some message =>
      emit (StError (text_app (Some (lit "Error: ")) (py_str message))) ;;
      (if dict_has result (lit "raw_response") then
         match dict_lookup result (lit "raw_response") with
         | Some raw => emit (StText raw)
         | None => raise KeyError
         end
       else nothing)
  end.

(** The display column on the stored result. *)
Definition show_result (result : value) : shown :=
  match py_in (lit "error") result with
  | inl exc => raise (Fault exc)
  | inr true =>
      match result with
      | VDict d => show_error d
      | _ => raise (Fault TypeError)         (* result['error'] on a list or str *)
      end
  | inr false =>
      match result with
      | VDict d => show_record d
      | _ => raise (Fault AttributeError)    (* result.get on a list or str *)
      end
  end.

Definition UPLOAD_HINT : pystr :=
  lit "Upload a PDF and click 'Analyze Invoice' to extract data".

(** The display column: the stored result if there is one, else the
    hint. *)
Definition show_session (analysis_result : option value) : shown :=
  match analysis_result with
  | Some result => show_result result
  | None => emit (StInfo UPLOAD_HINT)
  end.

(** ** One run of the script *)

(** How a run ends early: an exception of the display, or the exception
    that left the analysis. *)
Inductive stop :=
| Raises (e : exception)
| AnalysisEscapes.

(** After a run: what was shown, the slot [st.session_state.analysis_result],
    the log of requests, and how the run ended. *)
Record run := mkRun {
  page : list widget;
  slot : option value;
  requests : list pystr;
  stopped : option stop
}.

(** The display column at the end of a run. *)
Definition finish (before : list widget) (analysis_result : option value)
    (sent : list pystr) : run :=
  let '(ws, exc) := show_session analysis_result in
  mkRun (before ++ ws) analysis_result sent
        (match exc with Some e => Some (Raises e) | None => None end).

(** The main part of the script, run once: [pdf] is the uploaded document,
    if any; [button] tells whether this run was started by the Analyze
    button (the button is there only with a document); [analysis_result]
    is the slot as the run finds it. *)
Definition script_run
    (py : interpreter) (GEMINI_API : option pystr) (generate_content : service)
    (pdf : option document) (button : bool)
    (analysis_result : option value) (sent : list pystr) : run :=
  match pdf with
  | None => finish [] analysis_result sent
  | Some doc =>
      let text := extract_text_from_pdf doc in
      let raw_text := [StText (VStr (preview text))] in
      if button then
        match analyze_invoice_with_gemini py GEMINI_API generate_content text sent with
        | (Returned result, sent') => finish raw_text (Some result) sent'
        | (Escapes, sent') => mkRun raw_text analysis_result sent' (Some AnalysisEscapes)
        end
      else finish raw_text analysis_result sent
  end.

(** ** Replies as the prompt asks for them *)

(** [enumerate(l)], counting from [i]. *)
Definition enumerate_from {A} (i : nat) (l : list A) : list (nat * A) :=
  combine (seq i (length l)) l.

(** An amount as the prompt asks for it: a number, or null when it is not
    found; [None] is a key that is not there.  An int is taken below
    [2^53] in size, where [float] keeps it as it is. *)
Definition plain_amount (v : option value) : bool :=
  match v with
  | None | Some VNone | Some (VFloat _) => true
  | Some (VInt z) => (Z.abs z <? 2 ^ 53)%Z
  | _ => false
  end.

(** A line item: null, or an object with such an amount. *)
Definition plain_item (item : value) : bool :=
  match item with
  | VNone => true
  | VDict d => plain_amount (dict_lookup d (lit "amount"))
  | _ => false
  end.

(** A record: such a total, and line items that are not there, null, or a
    list of such items. *)
Definition plain_record (result : dict) : bool :=
  plain_amount (dict_lookup result (lit "total"))
  && match dict_lookup result (lit "line_items") with
     | None | Some VNone => true
     | Some (VList items) => forallb plain_item items
     | _ => false
     end.

End Shell.

Import Shell.

(* ================================================================== *)
(** * Facts about strings *)
(* ================================================================== *)

Section StringFacts.

Local Open Scope nat_scope.

Lemma eqb_eq (a b : pystr) : PyStr.eqb a b = true <-> a = b.
Proof.
  revert b; induction a as [|x a IH]; intros [|y b]; simpl; split; intros H;
    try reflexivity; try discriminate.
  - apply andb_true_iff in H as [H1 H2].
    apply N.eqb_eq in H1. apply IH in H2. congruence.
  - injection H as -> ->. rewrite N.eqb_refl. simpl. now apply IH.
Qed.

Lemma eqb_refl (a : pystr) : PyStr.eqb a a = true.
Proof. now apply eqb_eq. Qed.

Lemma strip_prefix_app (p t : pystr) : strip_prefix p (p ++ t) = Some t.
Proof.
  induction p as [|a p IH]; simpl; [reflexivity|].
  now rewrite N.eqb_refl.
Qed.

Lemma strip_prefix_some (p s t : pystr) :
  strip_prefix p s = Some t -> s = p ++ t.
Proof.
  revert s; induction p as [|a p IH]; intros s H; simpl in *.
  - congruence.
  - destruct s as [|b s]; [discriminate|].
    destruct (N.eqb_spec a b); [subst|discriminate].
    simpl. f_equal. now apply IH.
Qed.

(** A failed prefix test fails for every longer pattern. *)
Lemma strip_prefix_none_app (p q s : pystr) :
  strip_prefix p s = None -> strip_prefix (p ++ q) s = None.
Proof.
  revert s; induction p as [|a p IH]; intros s H; simpl in *.
  - discriminate.
  - destruct s as [|b s]; [reflexivity|].
    destruct (N.eqb a b); [now apply IH | reflexivity].
Qed.

Lemma partition_sound (sep s pre post : pystr) :
  partition sep s = Some (pre, post) -> s = pre ++ sep ++ post.
Proof.
  revert pre post; induction s as [|c s IH]; intros pre post H.
  - simpl in H. destruct (strip_prefix sep []) eqn:E; [|discriminate].
    injection H as <- <-. now apply strip_prefix_some in E.
  - simpl in H. destruct (strip_prefix sep (c :: s)) eqn:E.
    + injection H as <- <-. now apply strip_prefix_some in E.
    + destruct (partition sep s) as [[p q]|] eqn:P; [|discriminate].
      injection H as <- <-. simpl. f_equal. now apply IH.
Qed.

Lemma partition_shorter (sep s pre post : pystr) :
  sep <> [] -> partition sep s = Some (pre, post) ->
  length post < length s.
Proof.
  intros Hs H. apply partition_sound in H. subst s.
  rewrite !length_app. destruct sep; [congruence|simpl; lia].
Qed.

(** Where no occurrence of [sep] starts inside [pre], the search goes on
    behind [pre]. *)
Lemma partition_skip (sep pre s : pystr) :
  (forall a b, pre = a ++ b -> b <> [] -> strip_prefix sep (b ++ s) = None) ->
  partition sep (pre ++ s) =
  match partition sep s with
  | Some (p, q) => Some (pre ++ p, q)
  | None => None
  end.
Proof.
  induction pre as [|c pre IH]; intros H.
  - simpl. now destruct (partition sep s) as [[p q]|].
  - change ((c :: pre) ++ s) with (c :: (pre ++ s)).
    assert (E : strip_prefix sep (c :: pre ++ s) = None)
      by (apply (H [] (c :: pre)); [reflexivity | discriminate]).
    destruct sep as [|x sep]; [discriminate|].
    cbn [partition]. rewrite E. rewrite IH.
    + now destruct (partition (x :: sep) s) as [[p q]|].
    + intros a b -> Hb. apply (H (c :: a) b); [reflexivity | assumption].
Qed.

Lemma partition_here (sep post : pystr) :
  partition sep (sep ++ post) = Some ([], post).
Proof.
  destruct (sep ++ post) eqn:E; cbn [partition]; rewrite <- E;
    now rewrite strip_prefix_app.
Qed.

(** [sep] does not occur in [s]: no suffix of [s] starts with it. *)
Lemma contains_false (sep s : pystr) :
  contains sep s = false <->
  (forall a b, s = a ++ b -> strip_prefix sep b = None).
Proof.
  unfold contains. split.
  - induction s as [|c s IH]; intros H a b E.
    + destruct a; [|discriminate]. simpl in E. subst b.
      simpl in H. now destruct (strip_prefix sep []).
    + cbn [partition] in H.
      destruct (strip_prefix sep (c :: s)) eqn:E1; [discriminate|].
      destruct a as [|x a]; simpl in E.
      * now subst b.
      * injection E as _ E. apply (IH) with (a := a); [|assumption].
        now destruct (partition sep s) as [[p q]|].
  - intros H. destruct (partition sep s) as [[p q]|] eqn:P; [|reflexivity].
    apply partition_sound in P.
    specialize (H p (sep ++ q) P). now rewrite strip_prefix_app in H.
Qed.

Lemma contains_true (sep s : pystr) :
  contains sep s = true -> exists pre post, partition sep s = Some (pre, post).
Proof.
  unfold contains. destruct (partition sep s) as [[p q]|]; [eauto|discriminate].
Qed.

(** ** [split] *)

Lemma partition_nil (sep : pystr) : sep <> [] -> partition sep [] = None.
Proof. destruct sep; [congruence|reflexivity]. Qed.

Lemma split_fuel_head (sep s : pystr) (n : nat) :
  sep <> [] -> length s <= n ->
  nth_error (split_fuel n sep s) 0 = Some (first_chunk sep s).
Proof.
  intros Hs Hn. unfold first_chunk. destruct n as [|n].
  - destruct s; [|simpl in Hn; lia]. now rewrite partition_nil.
  - cbn [split_fuel]. now destruct (partition sep s) as [[p q]|].
Qed.

(** The fuel of [split] is enough: more changes nothing. *)
Lemma split_fuel_enough (sep : pystr) :
  sep <> [] ->
  forall n m s, length s <= n -> length s <= m ->
  split_fuel n sep s = split_fuel m sep s.
Proof.
  intros Hs. induction n as [|n IH]; intros m s Hn Hm.
  - destruct s; [|simpl in Hn; lia].
    destruct m; cbn [split_fuel]; [reflexivity|]. now rewrite partition_nil.
  - destruct m as [|m].
    + destruct s; [|simpl in Hm; lia]. cbn [split_fuel]. now rewrite partition_nil.
    + cbn [split_fuel]. destruct (partition sep s) as [[p q]|] eqn:P; [|reflexivity].
      f_equal. pose proof (partition_shorter _ _ _ _ Hs P).
      apply IH; lia.
Qed.

Lemma split_unfold (sep s : pystr) :
  sep <> [] ->
  split sep s =
  match partition sep s with
  | Some (pre, post) => pre :: split sep post
  | None => [s]
  end.
Proof.
  intros Hs. unfold split.
  destruct (partition sep s) as [[p q]|] eqn:P.
  - pose proof (partition_shorter _ _ _ _ Hs P) as L.
    destruct (length s) as [|n] eqn:E; [lia|].
    cbn [split_fuel]. rewrite P. f_equal. apply split_fuel_enough; [assumption|lia|lia].
  - destruct (length s); cbn [split_fuel]; [reflexivity | now rewrite P].
Qed.

Lemma split_first (sep s : pystr) :
  sep <> [] -> nth_error (split sep s) 0 = Some (first_chunk sep s).
Proof. intros Hs. now apply split_fuel_head. Qed.

Lemma split_second (sep s pre post : pystr) :
  sep <> [] -> partition sep s = Some (pre, post) ->
  nth_error (split sep s) 1 = Some (first_chunk sep post).
Proof.
  intros Hs P. rewrite split_unfold, P by assumption.
  simpl. now apply split_first.
Qed.

End StringFacts.

(* ================================================================== *)
(** * Facts about the fence handling *)
(* ================================================================== *)

Section FenceFacts.

Local Open Scope nat_scope.

Lemma FENCE_unfold : FENCE = [96; 96; 96]%N.
Proof. reflexivity. Qed.

Lemma FENCE_JSON_unfold : FENCE_JSON = [96; 96; 96; 106; 115; 111; 110]%N.
Proof. reflexivity. Qed.

Lemma FENCE_JSON_split : FENCE_JSON = FENCE ++ lit "json".
Proof. reflexivity. Qed.

Lemma FENCE_nonempty : FENCE <> [].
Proof. discriminate. Qed.

Lemma FENCE_JSON_nonempty : FENCE_JSON <> [].
Proof. discriminate. Qed.

Lemma partition_cons (sep : pystr) (c : N) (s : pystr) :
  partition sep (c :: s) =
  match strip_prefix sep (c :: s) with
  | Some post => Some ([], post)
  | None =>
      match partition sep s with
      | Some (pre, post) => Some (c :: pre, post)
      | None => None
      end
  end.
Proof. reflexivity. Qed.

(** A prefix test that fails on a text fails on each of its prefixes. *)
Lemma strip_prefix_app_none (p b t : pystr) :
  strip_prefix p (b ++ t) = None -> strip_prefix p b = None.
Proof.
  revert b; induction p as [|a p IH]; intros b H; simpl in *.
  - discriminate.
  - destruct b as [|x b]; [reflexivity|]. simpl in H.
    destruct (N.eqb a x); [now apply IH | reflexivity].
Qed.

(** The test reads no further than the pattern is long. *)
Lemma strip_prefix_long (p s t t' : pystr) :
  length p <= length s ->
  strip_prefix p (s ++ t) = None -> strip_prefix p (s ++ t') = None.
Proof.
  revert s; induction p as [|a p IH]; intros s L H; simpl in *.
  - discriminate.
  - destruct s as [|x s]; simpl in *; [lia|].
    destruct (N.eqb a x); [apply IH; [lia|assumption] | reflexivity].
Qed.

(** The text before the first occurrence holds no start of an
    occurrence. *)
Lemma partition_first (sep s pre post : pystr) :
  partition sep s = Some (pre, post) ->
  forall a b, pre = a ++ b -> b <> [] ->
  strip_prefix sep (b ++ sep ++ post) = None.
Proof.
  revert pre post; induction s as [|c s IH]; intros pre post H a b E Hb.
  - simpl in H. destruct (strip_prefix sep []); [|discriminate].
    injection H as <- <-. destruct a; destruct b; try discriminate. congruence.
  - rewrite partition_cons in H.
    destruct (strip_prefix sep (c :: s)) eqn:E1.
    + injection H as <- <-. destruct a; destruct b; try discriminate. congruence.
    + destruct (partition sep s) as [[p q]|] eqn:P; [|discriminate].
      injection H as <- <-.
      destruct a as [|x a]; simpl in E.
      * subst b. apply partition_sound in P. simpl. now rewrite <- P.
      * injection E as _ E. now apply (IH p q eq_refl a b).
Qed.

Lemma partition_first_clean (sep s pre post : pystr) :
  sep <> [] -> partition sep s = Some (pre, post) -> contains sep pre = false.
Proof.
  intros Hs P. apply contains_false. intros a b E.
  destruct b as [|x b].
  - destruct sep; [congruence|reflexivity].
  - apply strip_prefix_app_none with (t := sep ++ post).
    apply (partition_first _ _ _ _ P a (x :: b) E). discriminate.
Qed.

Lemma first_chunk_clean (sep s : pystr) :
  contains sep s = false -> first_chunk sep s = s.
Proof.
  unfold contains, first_chunk.
  now destruct (partition sep s) as [[p q]|].
Qed.

Lemma first_chunk_idem (sep s : pystr) :
  sep <> [] -> first_chunk sep (first_chunk sep s) = first_chunk sep s.
Proof.
  intros Hs. apply first_chunk_clean. unfold first_chunk.
  destruct (partition sep s) as [[p q]|] eqn:Q.
  - now apply (partition_first_clean _ _ _ _ Hs Q).
  - unfold contains. now rewrite Q.
Qed.

(** Where [FENCE] does not occur, [FENCE_JSON] does not occur. *)
Lemma no_fence_no_json (s : pystr) :
  contains FENCE s = false -> contains FENCE_JSON s = false.
Proof.
  rewrite !contains_false. intros H a b E.
  rewrite FENCE_JSON_split. apply strip_prefix_none_app. now apply (H a b).
Qed.

(** ** What [unfence] computes *)

Lemma between_second (sep s pre post : pystr) :
  sep <> [] -> partition sep s = Some (pre, post) ->
  between sep 1 s = Some (first_chunk FENCE (first_chunk sep post)).
Proof.
  intros Hs P. unfold between.
  rewrite (split_second _ _ _ _ Hs P).
  apply split_first. exact FENCE_nonempty.
Qed.

Lemma unfence_json (s pre post : pystr) :
  partition FENCE_JSON s = Some (pre, post) ->
  unfence s = Some (first_chunk FENCE (first_chunk FENCE_JSON post)).
Proof.
  intros P. unfold unfence, contains. rewrite P.
  now apply between_second with (pre := pre).
Qed.

Lemma unfence_generic (s pre post : pystr) :
  contains FENCE_JSON s = false ->
  partition FENCE s = Some (pre, post) ->
  unfence s = Some (first_chunk FENCE post).
Proof.
  intros C P. unfold unfence. rewrite C.
  unfold contains. rewrite P.
  rewrite (between_second _ _ _ _ FENCE_nonempty P).
  f_equal. apply first_chunk_idem. exact FENCE_nonempty.
Qed.

Lemma unfence_plain (s : pystr) :
  contains FENCE s = false -> unfence s = Some s.
Proof.
  intros C. unfold unfence. now rewrite (no_fence_no_json _ C), C.
Qed.

(** The two index expressions of the fence handling never raise. *)
Lemma unfence_defined (s : pystr) : exists c, unfence s = Some c.
Proof.
  destruct (contains FENCE_JSON s) eqn:C.
  - apply contains_true in C as (pre & post & P).
    rewrite (unfence_json _ _ _ P). eauto.
  - destruct (contains FENCE s) eqn:D.
    + apply contains_true in D as (pre & post & P).
      rewrite (unfence_generic _ _ _ C P). eauto.
    + rewrite (unfence_plain _ D). eauto.
Qed.

End FenceFacts.

Section ClosingFence.

Local Open Scope nat_scope.

(** The search for the JSON-tagged marker, started on a closing fence. *)
Lemma partition_json_at_fence (after : pystr) :
  strip_prefix (lit "`json") after = None ->
  strip_prefix (lit "``json") after = None ->
  partition FENCE_JSON (FENCE ++ after) =
  match strip_prefix (lit "json") after with
  | Some t => Some ([], t)
  | None =>
      match partition FENCE_JSON after with
      | Some (p, q) => Some (FENCE ++ p, q)
      | None => None
      end
  end.
Proof.
  intros H1 H2. rewrite FENCE_unfold.
  change ([96; 96; 96]%N ++ after) with (96 :: 96 :: 96 :: after)%N.
  rewrite !partition_cons.
  change (strip_prefix FENCE_JSON (96 :: 96 :: 96 :: after)%N)
    with (strip_prefix (lit "json") after).
  destruct (strip_prefix (lit "json") after) as [t|]; [reflexivity|].
  change (strip_prefix FENCE_JSON (96 :: 96 :: after)%N)
    with (strip_prefix (lit "`json") after).
  rewrite H1.
  change (strip_prefix FENCE_JSON (96 :: after)%N)
    with (strip_prefix (lit "``json") after).
  rewrite H2.
  now destruct (partition FENCE_JSON after) as [[p q]|].
Qed.

(** A text that starts no fence inside [body] and has one right after it
    is cut at that fence. *)
Lemma first_chunk_at (body rest : pystr) :
  (forall a b, body = a ++ b -> b <> [] ->
     strip_prefix FENCE (b ++ FENCE ++ rest) = None) ->
  first_chunk FENCE (body ++ FENCE ++ rest) = body.
Proof.
  intros H. unfold first_chunk.
  rewrite (partition_skip _ _ _ H), partition_here.
  now rewrite app_nil_r.
Qed.

Lemma first_chunk_whole (body rest : pystr) :
  (forall a b, body = a ++ b -> b <> [] ->
     strip_prefix FENCE (b ++ FENCE ++ rest) = None) ->
  first_chunk FENCE body = body.
Proof.
  intros H. apply first_chunk_clean, contains_false. intros a b E.
  destruct b as [|x b]; [reflexivity|].
  apply strip_prefix_app_none with (t := FENCE ++ rest).
  apply (H a); [assumption|discriminate].
Qed.

Lemma no_start_any_rest (body rest rest' : pystr) :
  (forall a b, body = a ++ b -> b <> [] ->
     strip_prefix FENCE (b ++ FENCE ++ rest) = None) ->
  forall a b, body = a ++ b -> b <> [] ->
     strip_prefix FENCE (b ++ FENCE ++ rest') = None.
Proof.
  intros H a b E Hb. specialize (H a b E Hb).
  rewrite app_assoc in *. revert H. apply strip_prefix_long.
  rewrite length_app. simpl. lia.
Qed.

(** The code's two cuts give the text up to the closing fence, unless
    that fence is directly followed by one or two backticks and [json]. *)
Lemma closing_chunk (post body after : pystr) :
  partition FENCE post = Some (body, after) ->
  strip_prefix (lit "`json") after = None ->
  strip_prefix (lit "``json") after = None ->
  first_chunk FENCE (first_chunk FENCE_JSON post) = body.
Proof.
  intros P H1 H2.
  pose proof (partition_first _ _ _ _ P) as Hmin.
  apply partition_sound in P. subst post.
  assert (Hskip : forall a b, body = a ++ b -> b <> [] ->
            strip_prefix FENCE_JSON (b ++ FENCE ++ after) = None).
  { intros a b E Hb. rewrite FENCE_JSON_split.
    apply strip_prefix_none_app. now apply (Hmin a b). }
  unfold first_chunk at 2.
  rewrite (partition_skip _ _ _ Hskip).
  rewrite (partition_json_at_fence _ H1 H2).
  destruct (strip_prefix (lit "json") after) as [t|].
  - rewrite app_nil_r. now apply first_chunk_whole with (rest := after).
  - destruct (partition FENCE_JSON after) as [[p q]|].
    + apply first_chunk_at. now apply no_start_any_rest with (rest := after).
    + now apply first_chunk_at.
Qed.

End ClosingFence.

Section FencedReply.

Local Open Scope nat_scope.

(** Walk down a text against a literal pattern: at each character either
    the comparison fails, or the text ends and the rest of the comparison
    is a closed computation. *)
Ltac walk b :=
  repeat (destruct b as [|? b];
          [ reflexivity
          | cbn [strip_prefix app];
            match goal with
            | |- context [N.eqb ?x ?y] =>
                destruct (N.eqb_spec x y); [subst|reflexivity]
            end ]).

(** No occurrence of the JSON-tagged marker straddles the end of a text
    that is followed by the marker: the marker does not overlap itself. *)
Lemma json_marker_no_overlap (b rest : pystr) :
  strip_prefix FENCE_JSON b = None -> b <> [] ->
  strip_prefix FENCE_JSON (b ++ FENCE_JSON ++ rest) = None.
Proof.
  intros H Hb. rewrite FENCE_JSON_unfold in *.
  destruct b as [|c0 b]; [congruence|]. clear Hb.
  cbn [strip_prefix app].
  destruct (N.eqb_spec 96 c0); [subst|reflexivity].
  walk b.
  all: try (exfalso; cbn in H; discriminate).
Qed.

(** A fence does not start in a text without fences that is followed by a
    line feed. *)
Lemma fence_not_over_newline (b rest : pystr) :
  strip_prefix FENCE b = None ->
  strip_prefix FENCE (b ++ 10%N :: rest) = None.
Proof.
  intros H. rewrite FENCE_unfold in *.
  walk b.
  all: try (exfalso; cbn in H; discriminate).
Qed.

Lemma suffix_snoc (a b J : pystr) (x : N) :
  a ++ b = J ++ [x] -> b <> [] -> exists b', b = b' ++ [x] /\ J = a ++ b'.
Proof.
  intros E Hb. destruct (exists_last Hb) as (b' & y & ->).
  rewrite app_assoc in E. apply app_inj_tail in E as [E1 E2].
  subst. eauto.
Qed.

(** Inside a block [line feed, text, line feed] whose text has no fence,
    no fence starts. *)
Lemma block_holds_no_fence (J rest : pystr) :
  contains FENCE J = false ->
  forall a b, [10%N] ++ J ++ [10%N] = a ++ b -> b <> [] ->
  strip_prefix FENCE (b ++ FENCE ++ rest) = None.
Proof.
  intros C a b E Hb. rewrite contains_false in C.
  destruct a as [|x a].
  - simpl in E. subst b. reflexivity.
  - simpl in E. injection E as _ E. symmetry in E.
    destruct (suffix_snoc _ _ _ _ E Hb) as (b' & -> & EJ).
    rewrite <- app_assoc. simpl.
    apply fence_not_over_newline. now apply (C a b').
Qed.

(** The candidate of a fenced reply is the fenced block. *)
Lemma unfence_fenced_reply (before J after : pystr) :
  contains FENCE_JSON before = false ->
  contains FENCE J = false ->
  strip_prefix (lit "`json") after = None ->
  strip_prefix (lit "``json") after = None ->
  unfence (fenced_reply before J after) = Some ([10%N] ++ J ++ [10%N]).
Proof.
  intros Cb CJ H1 H2. unfold fenced_reply.
  set (post := [10%N] ++ J ++ [10%N] ++ FENCE ++ after).
  assert (P : partition FENCE_JSON (before ++ FENCE_JSON ++ post)
              = Some (before, post)).
  { rewrite partition_skip.
    - now rewrite partition_here, app_nil_r.
    - intros a b E Hb. apply json_marker_no_overlap; [|assumption].
      rewrite contains_false in Cb. now apply (Cb a b). }
  rewrite (unfence_json _ _ _ P). f_equal.
  apply closing_chunk with (after := after); [|assumption|assumption].
  unfold post.
  replace ([10%N] ++ J ++ [10%N] ++ FENCE ++ after)
    with (([10%N] ++ J ++ [10%N]) ++ FENCE ++ after)
    by (now rewrite <- !app_assoc).
  rewrite partition_skip.
  - now rewrite partition_here, app_nil_r.
  - intros a b E Hb. now apply (block_holds_no_fence J after CJ a b).
Qed.

(** Outside the one case of a closing fence followed by one or two
    backticks and [json], the code's candidate is the specification's. *)
Lemma unfence_meets_spec (s : pystr) :
  (forall pre post body after,
     partition FENCE_JSON s = Some (pre, post) ->
     partition FENCE post = Some (body, after) ->
     strip_prefix (lit "`json") after = None
     /\ strip_prefix (lit "``json") after = None) ->
  unfence s = Some (spec_candidate s).
Proof.
  intros H. unfold spec_candidate, fenced_content.
  destruct (partition FENCE_JSON s) as [[pre post]|] eqn:P.
  - rewrite (unfence_json _ _ _ P). f_equal.
    destruct (partition FENCE post) as [[body after]|] eqn:Q.
    + destruct (H pre post body after eq_refl Q) as [H1 H2].
      now apply closing_chunk with (after := after).
    + assert (C : contains FENCE post = false)
        by (unfold contains; now rewrite Q).
      rewrite (first_chunk_clean FENCE_JSON) by now apply no_fence_no_json.
      now apply first_chunk_clean.
  - assert (C : contains FENCE_JSON s = false)
      by (unfold contains; now rewrite P).
    destruct (partition FENCE s) as [[pre post]|] eqn:Q.
    + rewrite (unfence_generic _ _ _ C Q). f_equal. unfold first_chunk.
      now destruct (partition FENCE post) as [[c r]|].
    + apply unfence_plain. unfold contains. now rewrite Q.
Qed.

End FencedReply.

(* ================================================================== *)
(** * Facts about numbers *)
(* ================================================================== *)

Section NumberFacts.

Lemma digits_are_digits (d : Decimal.uint) :
  forallb isdigit (digits_of_uint d) = true.
Proof. induction d; simpl; auto. Qed.

(** Horner's rule on the digits of a numeral, continued from the value of
    a numeral read before. *)
Lemma nat_value_from_revapp (d a : Decimal.uint) :
  nat_value_from (Z.of_N (DecimalPos.Unsigned.of_lu a)) (digits_of_uint d)
  = Z.of_N (DecimalPos.Unsigned.of_lu (Decimal.revapp d a)).
Proof.
  revert a; induction d; intros a; cbn [digits_of_uint nat_value_from Decimal.revapp];
    [reflexivity | rewrite <- IHd; f_equal;
      cbn [DecimalPos.Unsigned.of_lu]; lia ..].
Qed.

Lemma nat_value_uint (d : Decimal.uint) :
  nat_value (digits_of_uint d) = Z.of_N (Pos.of_uint d).
Proof.
  unfold nat_value. rewrite DecimalPos.Unsigned.of_uint_alt.
  change 0%Z with (Z.of_N (DecimalPos.Unsigned.of_lu Decimal.Nil)).
  apply nat_value_from_revapp.
Qed.

Lemma nat_value_pos (p : positive) :
  nat_value (digits_of_uint (Pos.to_uint p)) = Z.pos p.
Proof.
  rewrite nat_value_uint. now rewrite DecimalPos.Unsigned.of_to.
Qed.

(** The numeral of a positive number does not start with a zero. *)
Lemma pos_uint_head (p : positive) :
  forall d, Pos.to_uint p <> Decimal.D0 d.
Proof.
  intros d E.
  pose proof (DecimalPos.Unsigned.to_of (Pos.to_uint p)) as T.
  rewrite DecimalPos.Unsigned.of_to in T. simpl in T.
  assert (N : Decimal.nzhead (Pos.to_uint p) <> Decimal.Nil).
  { intros Z. apply DecimalFacts.unorm_0 in Z.
    rewrite <- T in Z. now apply DecimalPos.Unsigned.to_uint_nonzero in Z. }
  rewrite (DecimalFacts.unorm_nzhead _ N) in T.
  rewrite E in T at 1. symmetry in T.
  now apply DecimalFacts.nzhead_nonzero in T.
Qed.

Lemma pos_digits_head (p : positive) :
  exists c ds, digits_of_uint (Pos.to_uint p) = c :: ds
               /\ isdigit c = true /\ (c =? 48) = false.
Proof.
  pose proof (pos_uint_head p) as H.
  pose proof (DecimalPos.Unsigned.to_uint_nonnil p) as HN.
  destruct (Pos.to_uint p) as [|d|d|d|d|d|d|d|d|d|d]; simpl;
    try congruence; try (now eexists _, _; repeat split).
Qed.

(** ** The scanners read no further than they must *)

Lemma span_digits_local (s ds r rest : pystr) :
  span_digits s = (ds, r) ->
  (r = [] -> digits_end rest = true) ->
  span_digits (s ++ rest) = (ds, r ++ rest).
Proof.
  revert ds r; induction s as [|c s IH]; intros ds r H E.
  - simpl in H. injection H as <- <-. simpl.
    specialize (E eq_refl). destruct rest as [|x rest]; [reflexivity|].
    simpl in *. now destruct (isdigit x).
  - simpl in *. destruct (isdigit c).
    + destruct (span_digits s) as [ds' r'] eqn:S.
      injection H as <- <-. now rewrite (IH ds' r' eq_refl E).
    + now injection H as <- <-.
Qed.

Lemma span_digits_all (ds rest : pystr) :
  forallb isdigit ds = true -> digits_end rest = true ->
  span_digits (ds ++ rest) = (ds, rest).
Proof.
  induction ds as [|c ds IH]; intros H E; simpl in *.
  - destruct rest as [|x rest]; [reflexivity|]. cbn [digits_end] in E.
    cbn [span_digits]. now destruct (isdigit x).
  - apply andb_true_iff in H as [H1 H2]. rewrite H1.
    now rewrite (IH H2 E).
Qed.

Lemma match_integer_local (s ds r rest : pystr) :
  match_integer s = Some (ds, r) ->
  (r = [] -> digits_end rest = true) ->
  match_integer (s ++ rest) = Some (ds, r ++ rest).
Proof.
  intros H E. destruct s as [|c s]; [discriminate|].
  simpl in *. destruct (c =? 48).
  - now injection H as <- <-.
  - destruct (isdigit c); [|discriminate].
    destruct (span_digits s) as [ds' r'] eqn:S.
    injection H as <- <-. now rewrite (span_digits_local _ _ _ _ S E).
Qed.

Lemma match_frac_local (s ds r rest : pystr) :
  match_frac s = Some (ds, r) ->
  (r = [] -> digits_end rest = true) ->
  match_frac (s ++ rest) = Some (ds, r ++ rest).
Proof.
  intros H E. destruct s as [|dot [|c s]]; try discriminate.
  simpl in *. destruct ((dot =? 46) && isdigit c); [|discriminate].
  destruct (span_digits s) as [ds' r'] eqn:S.
  injection H as <- <-. now rewrite (span_digits_local _ _ _ _ S E).
Qed.

Lemma match_frac_none (s rest : pystr) :
  match_frac s = None -> number_end rest = true ->
  match_frac (s ++ rest) = None.
Proof.
  intros H E. destruct s as [|dot [|c s]].
  - simpl. destruct rest as [|x [|y rest]]; try reflexivity.
    simpl in *. destruct (N.eqb_spec x 46); [subst; discriminate|reflexivity].
  - simpl. destruct rest as [|x rest].
    + reflexivity.
    + simpl in E. destruct (isdigit x); [discriminate|].
      now rewrite andb_false_r.
  - simpl in *. destruct ((dot =? 46) && isdigit c); [|reflexivity].
    now destruct (span_digits s).
Qed.

Lemma match_exp_digits_local (s ds r rest : pystr) :
  match_exp_digits s = Some (ds, r) ->
  (r = [] -> digits_end rest = true) ->
  match_exp_digits (s ++ rest) = Some (ds, r ++ rest).
Proof.
  unfold match_exp_digits. intros H E.
  destruct (span_digits s) as [ds' r'] eqn:S.
  destruct ds' as [|d ds']; [discriminate|]. injection H as <- <-.
  now rewrite (span_digits_local _ _ _ _ S E).
Qed.

Lemma match_exp_local (s : pystr) (x : Z) (r rest : pystr) :
  match_exp s = Some (x, r) ->
  (r = [] -> digits_end rest = true) ->
  match_exp (s ++ rest) = Some (x, r ++ rest).
Proof.
  intros H E. destruct s as [|e s]; [discriminate|].
  simpl in *. destruct ((e =? 101) || (e =? 69)); [|discriminate].
  destruct s as [|sign s]; [discriminate|]. simpl.
  destruct (sign =? 45).
  - destruct (match_exp_digits s) as [[ds r']|] eqn:D; [|discriminate].
    injection H as <- <-. now rewrite (match_exp_digits_local _ _ _ _ D E).
  - destruct (sign =? 43).
    + destruct (match_exp_digits s) as [[ds r']|] eqn:D; [|discriminate].
      injection H as <- <-. now rewrite (match_exp_digits_local _ _ _ _ D E).
    + destruct (match_exp_digits (sign :: s)) as [[ds r']|] eqn:D; [|discriminate].
      injection H as <- <-.
      change (sign :: s ++ rest) with ((sign :: s) ++ rest).
      now rewrite (match_exp_digits_local _ _ _ _ D E).
Qed.

Lemma match_exp_end (rest : pystr) :
  number_end rest = true -> match_exp rest = None.
Proof.
  destruct rest as [|c rest]; [reflexivity|]. simpl. intros H.
  destruct (c =? 101); [now rewrite !andb_false_r in H|].
  destruct (c =? 69); [now rewrite !andb_false_r in H|]. reflexivity.
Qed.

Lemma number_end_digits_end (rest : pystr) :
  number_end rest = true -> digits_end rest = true.
Proof.
  destruct rest as [|c rest]; [reflexivity|]. simpl.
  now destruct (isdigit c).
Qed.

Lemma match_sign_local (s s1 rest : pystr) (neg : bool) :
  match_sign s = (neg, s1) -> s1 <> [] ->
  match_sign (s ++ rest) = (neg, s1 ++ rest).
Proof.
  intros H N. destruct s as [|c s]; simpl in *.
  - injection H as <- <-. congruence.
  - destruct (c =? 45); now injection H as <- <-.
Qed.

(** A number that fills its text is read the same way in front of a text
    that cannot continue it. *)
Lemma match_number_local (l rest : pystr) (v : value) :
  match_number l = Some (v, []) -> number_end rest = true ->
  match_number (l ++ rest) = Some (v, rest).
Proof.
  unfold match_number. intros H E.
  pose proof (number_end_digits_end _ E) as E'.
  destruct (match_sign l) as [neg s1] eqn:S.
  destruct (match_integer s1) as [[int_ds s2]|] eqn:I; [|discriminate].
  assert (N1 : s1 <> []) by (intros ->; discriminate).
  rewrite (match_sign_local _ _ rest _ S N1).
  rewrite (match_integer_local _ _ _ rest I (fun _ => E')).
  destruct (match_frac s2) as [[fds s3]|] eqn:F.
  - rewrite (match_frac_local _ _ _ rest F (fun _ => E')).
    destruct (match_exp s3) as [[x s4]|] eqn:X.
    + rewrite (match_exp_local _ _ _ rest X (fun _ => E')).
      injection H as <- ->. reflexivity.
    + injection H as <- ->. simpl. now rewrite (match_exp_end _ E).
  - rewrite (match_frac_none _ rest F E).
    destruct (match_exp s2) as [[x s4]|] eqn:X.
    + rewrite (match_exp_local _ _ _ rest X (fun _ => E')).
      injection H as <- ->. reflexivity.
    + injection H as <- ->. simpl. now rewrite (match_exp_end _ E).
Qed.

(** The text of an integer is read back as that integer. *)
Lemma match_number_int (z : Z) :
  match_number (int_str z) = Some (VInt z, []).
Proof.
  assert (P : forall p, match_integer (digits_of_uint (Pos.to_uint p))
                        = Some (digits_of_uint (Pos.to_uint p), [])).
  { intros p. destruct (pos_digits_head p) as (c & ds & E & D & Z0).
    pose proof (digits_are_digits (Pos.to_uint p)) as A.
    rewrite E in *. simpl in A. apply andb_true_iff in A as [_ A].
    simpl. rewrite Z0, D.
    rewrite <- (app_nil_r ds) at 1.
    now rewrite (span_digits_all ds [] A eq_refl). }
  destruct z as [|p|p]; unfold int_str, match_number.
  - reflexivity.
  - cbn [Z.to_int].
    destruct (pos_digits_head p) as (c & ds & E & D & Z0).
    assert (S : match_sign (digits_of_uint (Pos.to_uint p))
                = (false, digits_of_uint (Pos.to_uint p))).
    { rewrite E. simpl. destruct (N.eqb_spec c 45); [subst; discriminate|reflexivity]. }
    rewrite S, P. simpl. unfold number_value_of. now rewrite nat_value_pos.
  - cbn [Z.to_int]. cbn [match_sign]. rewrite N.eqb_refl, P. simpl.
    unfold number_value_of. now rewrite nat_value_pos.
Qed.

End NumberFacts.

(* ================================================================== *)
(** * Facts about string escapes *)
(* ================================================================== *)

Section EscapeFacts.

Ltac divmod := zify; Z.to_euclidean_division_equations; lia.

Lemma hex_digit_hex_char (d : N) : d < 16 -> hex_digit (hex_char d) = Some d.
Proof.
  intros H. unfold hex_char, hex_digit.
  destruct (N.ltb_spec d 10).
  - replace ((48 <=? 48 + d) && (48 + d <=? 57)) with true
      by (symmetry; apply andb_true_iff; split; apply N.leb_le; lia).
    f_equal. lia.
  - replace ((48 <=? 87 + d) && (87 + d <=? 57)) with false
      by (symmetry; apply andb_false_iff; right; apply N.leb_gt; lia).
    replace ((97 <=? 87 + d) && (87 + d <=? 102)) with true
      by (symmetry; apply andb_true_iff; split; apply N.leb_le; lia).
    f_equal. lia.
Qed.

Lemma hex4_hex_chars (n : N) :
  n < 65536 ->
  hex4 (hex_char (n / 4096 mod 16)) (hex_char (n / 256 mod 16))
       (hex_char (n / 16 mod 16)) (hex_char (n mod 16)) = Some n.
Proof.
  intros H. unfold hex4.
  rewrite !hex_digit_hex_char by (apply N.mod_lt; discriminate).
  f_equal. divmod.
Qed.

(** ** Surrogate pairs *)

Lemma lor_shiftl_low (a x : N) :
  N.lor (N.shiftl a 10) (x mod 2 ^ 10) = a * 2 ^ 10 + x mod 2 ^ 10.
Proof.
  rewrite <- N.shiftl_mul_pow2.
  rewrite <- N.lxor_lor, <- N.add_nocarry_lxor; try reflexivity.
  all: apply N.bits_inj; intros i; rewrite N.land_spec, N.bits_0;
    destruct (N.ltb_spec i 10);
    [ now rewrite N.shiftl_spec_low
    | rewrite N.mod_pow2_bits_high by assumption; apply andb_false_r ].
Qed.

Lemma land_low (x : N) : N.land x 0x3FF = x mod 2 ^ 10.
Proof. change 0x3FF with (N.ones 10). apply N.land_ones. Qed.

Lemma high_half_value (c : N) :
  high_half c = 0xD800 + ((c - 0x10000) / 1024) mod 1024.
Proof.
  unfold high_half. rewrite land_low, N.shiftr_div_pow2.
  change 0xD800 with (N.shiftl 54 10) at 1.
  rewrite lor_shiftl_low. reflexivity.
Qed.

Lemma low_half_value (c : N) :
  low_half c = 0xDC00 + (c - 0x10000) mod 1024.
Proof.
  unfold low_half. rewrite land_low.
  change 0xDC00 with (N.shiftl 55 10) at 1.
  rewrite lor_shiftl_low. reflexivity.
Qed.

Lemma join_halves (c : N) :
  0x10000 <= c -> c < 0x110000 ->
  join_surrogates (high_half c) (low_half c) = c.
Proof.
  intros L U. unfold join_surrogates.
  rewrite !land_low, high_half_value, low_half_value.
  replace ((0xD800 + (c - 0x10000) / 1024 mod 1024) mod 2 ^ 10)
    with ((c - 0x10000) / 1024) by (change (2 ^ 10) with 1024; divmod).
  replace ((0xDC00 + (c - 0x10000) mod 1024) mod 2 ^ 10)
    with ((c - 0x10000) mod 2 ^ 10) by (change (2 ^ 10) with 1024; divmod).
  rewrite lor_shiftl_low. change (2 ^ 10) with 1024. divmod.
Qed.

Lemma halves_are_surrogates (c : N) :
  is_high_surrogate (high_half c) = true
  /\ is_low_surrogate (low_half c) = true
  /\ high_half c < 65536 /\ low_half c < 65536.
Proof.
  rewrite high_half_value, low_half_value.
  unfold is_high_surrogate, is_low_surrogate.
  repeat split; try (apply andb_true_iff; split; apply N.leb_le); divmod.
Qed.

End EscapeFacts.

Section StringScan.

Lemma scanstring_cons (c : N) (rest : pystr) :
  scanstring (c :: rest) =
  if c =? 34 then Some ([], rest)
  else if c =? 92 then
    match rest with
    | [] => None
    | e :: rest1 =>
        if e =? 117 then
          match rest1 with
          | h1 :: h2 :: h3 :: h4 :: rest2 =>
              match hex4 h1 h2 h3 h4 with
              | None => None
              | Some u1 =>
                  match rest2 with
                  | b :: u :: g1 :: g2 :: g3 :: g4 :: ((_ :: _) as rest3) =>
                      if is_high_surrogate u1 && (b =? 92) && (u =? 117) then
                        match hex4 g1 g2 g3 g4 with
                        | None => None
                        | Some u2 =>
                            if is_low_surrogate u2
                            then cons_char (join_surrogates u1 u2) (scanstring rest3)
                            else cons_char u1 (scanstring rest2)
                        end
                      else cons_char u1 (scanstring rest2)
                  | _ => cons_char u1 (scanstring rest2)
                  end
              end
          | _ => None
          end
        else
          match simple_escape e with
          | None => None
          | Some ch => cons_char ch (scanstring rest1)
          end
    end
  else if c <=? 0x1F then None
  else cons_char c (scanstring rest).
Proof. reflexivity. Qed.

(** A [\u] escape of something else than a high surrogate stands for
    itself. *)
Lemma scanstring_u_lone (h1 h2 h3 h4 u1 : N) (rest2 : pystr) :
  hex4 h1 h2 h3 h4 = Some u1 -> is_high_surrogate u1 = false ->
  scanstring (92 :: 117 :: h1 :: h2 :: h3 :: h4 :: rest2)
  = cons_char u1 (scanstring rest2).
Proof.
  intros H S. rewrite scanstring_cons.
  change (92 =? 34) with false. change (92 =? 92) with true.
  change (117 =? 117) with true. cbv iota. rewrite H, S.
  destruct rest2 as [|b [|u [|g1 [|g2 [|g3 [|g4 [|x r]]]]]]]; reflexivity.
Qed.

(** Two [\u] escapes, of a high and a low surrogate, with more text
    behind them, stand for one code point. *)
Lemma scanstring_u_pair (h1 h2 h3 h4 g1 g2 g3 g4 u1 u2 x : N) (r : pystr) :
  hex4 h1 h2 h3 h4 = Some u1 -> is_high_surrogate u1 = true ->
  hex4 g1 g2 g3 g4 = Some u2 -> is_low_surrogate u2 = true ->
  scanstring (92 :: 117 :: h1 :: h2 :: h3 :: h4
                :: 92 :: 117 :: g1 :: g2 :: g3 :: g4 :: x :: r)
  = cons_char (join_surrogates u1 u2) (scanstring (x :: r)).
Proof.
  intros H S G L. rewrite scanstring_cons.
  change (92 =? 34) with false. change (92 =? 92) with true.
  change (117 =? 117) with true. cbv iota. rewrite H, S.
  cbn [andb]. cbv iota. now rewrite G, L.
Qed.

Lemma u_escape_unfold (n : N) :
  u_escape n = [92; 117; hex_char (n / 4096 mod 16); hex_char (n / 256 mod 16);
                hex_char (n / 16 mod 16); hex_char (n mod 16)].
Proof. reflexivity. Qed.

(** One escaped character in front of a string is read back as that
    character. *)
Lemma scanstring_escape_char (c : N) (tail : pystr) :
  scalar c = true -> tail <> [] ->
  scanstring (escape_char c ++ tail) = cons_char c (scanstring tail).
Proof.
  intros Sc Ht. unfold escape_char.
  destruct (N.eqb_spec c 34); [subst; reflexivity|].
  destruct (N.eqb_spec c 92); [subst; reflexivity|].
  destruct (N.eqb_spec c 8); [subst; reflexivity|].
  destruct (N.eqb_spec c 12); [subst; reflexivity|].
  destruct (N.eqb_spec c 10); [subst; reflexivity|].
  destruct (N.eqb_spec c 13); [subst; reflexivity|].
  destruct (N.eqb_spec c 9); [subst; reflexivity|].
  destruct ((32 <=? c) && (c <=? 126)) eqn:P.
  - apply andb_true_iff in P as [P1 P2].
    apply N.leb_le in P1. cbn [app]. rewrite scanstring_cons.
    destruct (N.eqb_spec c 34); [congruence|].
    destruct (N.eqb_spec c 92); [congruence|].
    destruct (N.leb_spec c 0x1F); [lia|reflexivity].
  - unfold scalar in Sc.
    destruct (N.ltb_spec c 0x10000) as [Lt|Ge].
    + rewrite u_escape_unfold. cbn [app].
      apply scanstring_u_lone; [now apply hex4_hex_chars|].
      unfold is_high_surrogate.
      apply orb_true_iff in Sc as [Sc|Sc].
      * apply N.ltb_lt in Sc. apply andb_false_iff. left. apply N.leb_gt. lia.
      * apply andb_true_iff in Sc as [Sc _]. apply N.ltb_lt in Sc.
        apply andb_false_iff. right. apply N.leb_gt. lia.
    + assert (U : c < 0x110000).
      { apply orb_true_iff in Sc as [Sc|Sc].
        - apply N.ltb_lt in Sc. lia.
        - apply andb_true_iff in Sc as [_ Sc]. now apply N.ltb_lt in Sc. }
      destruct (halves_are_surrogates c) as (Hh & Hl & Bh & Bl).
      rewrite !u_escape_unfold. cbn [app].
      destruct tail as [|x r]; [congruence|].
      rewrite (scanstring_u_pair _ _ _ _ _ _ _ _ (high_half c) (low_half c));
        try assumption; try now apply hex4_hex_chars.
      now rewrite join_halves.
Qed.

(** An encoded string is read back as the string. *)
Lemma scanstring_escaped (s rest : pystr) :
  text_ok s = true ->
  scanstring (flat_map escape_char s ++ 34 :: rest) = Some (s, rest).
Proof.
  induction s as [|c s IH]; intros T.
  - reflexivity.
  - cbn [text_ok forallb] in T. apply andb_true_iff in T as [Tc Ts].
    cbn [flat_map]. rewrite <- app_assoc.
    rewrite scanstring_escape_char; [|assumption|].
    + now rewrite (IH Ts).
    + destruct (flat_map escape_char s); discriminate.
Qed.

End StringScan.

(* ================================================================== *)
(** * Reading back what the encoder wrote *)
(* ================================================================== *)

Section ValueInduction.

Variable P : value -> Prop.
Hypothesis HNone : P VNone.
Hypothesis HBool : forall b, P (VBool b).
Hypothesis HInt : forall z, P (VInt z).
Hypothesis HFloat : forall x, P (VFloat x).
Hypothesis HStr : forall s, P (VStr s).
Hypothesis HList : forall l, Forall P l -> P (VList l).
Hypothesis HDict : forall d, Forall (fun kv => P (snd kv)) d -> P (VDict d).

(** Induction over values, with the hypothesis for every element of a
    list and every value of a dict. *)
Lemma value_ind : forall v, P v.
Proof.
  fix IH 1. intros [ | b | z | x | s | l | d].
  - exact HNone.
  - apply HBool.
  - apply HInt.
  - apply HFloat.
  - apply HStr.
  - apply HList. induction l as [|v l IHl]; constructor; [apply IH | exact IHl].
  - apply HDict. induction d as [|[k v] d IHd]; constructor; [apply IH | exact IHd].
Qed.

End ValueInduction.

Section ScanFacts.

Local Open Scope nat_scope.

Lemma skip_ws_app (w s : pystr) :
  forallb is_ws w = true -> skip_ws (w ++ s) = skip_ws s.
Proof.
  induction w as [|c w IH]; intros H; simpl in *; [reflexivity|].
  apply andb_true_iff in H as [H1 H2]. rewrite H1. now apply IH.
Qed.

Lemma skip_ws_stop (c : N) (s : pystr) :
  is_ws c = false -> skip_ws (c :: s) = c :: s.
Proof. intros H. simpl. now rewrite H. Qed.

Lemma newline_indent_ws (ind level : nat) :
  forallb is_ws (newline_indent ind level) = true.
Proof.
  unfold newline_indent. simpl.
  induction (ind * level) as [|n IH]; simpl; auto.
Qed.

(** What the first character of a value excludes. *)
Lemma value_start_facts (c : N) :
  value_start c = true ->
  is_ws c = false /\ isspace c = false
  /\ (c =? 93)%N = false /\ (c =? 125)%N = false
  /\ (c =? 44)%N = false /\ (c =? 0xFEFF)%N = false.
Proof.
  unfold value_start, isdigit. intros H.
  repeat (apply orb_true_iff in H as [H|H]);
    try (apply N.eqb_eq in H; subst c; now repeat split).
  apply andb_true_iff in H as [H1 H2].
  apply N.leb_le in H1. apply N.leb_le in H2.
  unfold is_ws, isspace.
  repeat split;
    repeat match goal with
      | |- context [N.eqb ?a ?b] =>
          destruct (N.eqb_spec a b); [lia|]
      | |- context [N.leb ?a ?b] =>
          destruct (N.leb_spec a b); try lia
      end; reflexivity.
Qed.

Lemma scan_unbounded_cons (f : nat) (c : N) (rest : pystr) :
  scan_unbounded (S f) (c :: rest) =
  if (c =? 34)%N then
    match scanstring rest with
    | Some (str, r) => Scanned (VStr str) r
    | None => DecodeError
    end
  else if (c =? 123)%N then
    match skip_ws rest with
    | [] => DecodeError
    | c1 :: r =>
        if (c1 =? 125)%N then Scanned (VDict []) r
        else members_unbounded f [] (c1 :: r)
    end
  else if (c =? 91)%N then
    match skip_ws rest with
    | [] => DecodeError
    | c1 :: r =>
        if (c1 =? 93)%N then Scanned (VList []) r
        else elements_unbounded f [] (c1 :: r)
    end
  else scan_atom (c :: rest).
Proof. reflexivity. Qed.

(** A text that [match_number] accepts starts with a digit, or with a
    minus sign and a digit. *)
Lemma match_number_shape (l : pystr) (v : value) (r : pystr) :
  match_number l = Some (v, r) ->
  exists c t, l = c :: t
    /\ ((isdigit c = true) \/ (c = 45%N /\ exists d t', t = d :: t' /\ isdigit d = true)).
Proof.
  unfold match_number. intros H.
  destruct l as [|c t]; [discriminate|].
  exists c, t. split; [reflexivity|].
  cbn [match_sign] in H. destruct (N.eqb_spec c 45).
  - right. split; [assumption|].
    destruct t as [|d t']; [discriminate|].
    exists d, t'. split; [reflexivity|].
    cbn [match_integer] in H.
    destruct (N.eqb_spec d 48); [now subst|].
    destruct (isdigit d); [reflexivity|discriminate].
  - left. cbn [match_integer] in H.
    destruct (N.eqb_spec c 48); [now subst|].
    destruct (isdigit c); [reflexivity|discriminate].
Qed.

Lemma digit_range (c : N) : isdigit c = true -> (48 <= c /\ c <= 57)%N.
Proof.
  unfold isdigit. intros H. apply andb_true_iff in H as [H1 H2].
  apply N.leb_le in H1. apply N.leb_le in H2. lia.
Qed.

Lemma digit_value_start (c : N) : isdigit c = true -> value_start c = true.
Proof. intros H. unfold value_start. rewrite H. now rewrite !orb_true_r. Qed.

(** [scan_unbounded] reads a number where [match_number] does. *)
Lemma scan_unbounded_number (f : nat) (l : pystr) (v : value) (r : pystr) :
  match_number l = Some (v, r) -> scan_unbounded (S f) l = Scanned v r.
Proof.
  intros H. destruct (match_number_shape _ _ _ H) as (c & t & -> & [D|(-> & d & t' & -> & D)]).
  - apply digit_range in D. rewrite scan_unbounded_cons.
    destruct (N.eqb_spec c 34); [lia|].
    destruct (N.eqb_spec c 123); [lia|].
    destruct (N.eqb_spec c 91); [lia|].
    unfold scan_atom. cbn [strip_prefix lit map list_ascii_of_string].
    repeat match goal with
      | |- context [N.eqb ?a c] => destruct (N.eqb_spec a c); [cbn in *; lia|]
      end.
    now rewrite H.
  - apply digit_range in D. rewrite scan_unbounded_cons.
    change (45 =? 34)%N with false. change (45 =? 123)%N with false.
    change (45 =? 91)%N with false. cbv iota.
    unfold scan_atom.
    change (strip_prefix (lit "null") (45%N :: d :: t')) with (@None pystr).
    change (strip_prefix (lit "true") (45%N :: d :: t')) with (@None pystr).
    change (strip_prefix (lit "false") (45%N :: d :: t')) with (@None pystr).
    change (strip_prefix (lit "NaN") (45%N :: d :: t')) with (@None pystr).
    change (strip_prefix (lit "Infinity") (45%N :: d :: t')) with (@None pystr).
    cbv iota.
    assert (E : strip_prefix (lit "-Infinity") (45%N :: d :: t') = None).
    { change (strip_prefix (lit "-Infinity") (45%N :: d :: t'))
        with (if (73 =? d)%N then strip_prefix (lit "nfinity") t' else None).
      destruct (N.eqb_spec 73 d); [lia|reflexivity]. }
    now rewrite E, H.
Qed.

End ScanFacts.

Section FloatFacts.

Local Open Scope Z_scope.

Lemma pow2_pos (x : Z) : 0 <= x -> 0 < 2 ^ x.
Proof. intros. apply Z.pow_pos_nonneg; lia. Qed.

Lemma pow2_add (a b : Z) : 0 <= a -> 0 <= b -> 2 ^ (a + b) = 2 ^ a * 2 ^ b.
Proof. intros. now apply Z.pow_add_r. Qed.

(** [scale2 n d g = (a, b)] stands for [n / (d * 2^g)]: [a / b] is
    [(n * 2^B) / (d * 2^(B+g))] for any shift [B] that makes both exponents
    natural. *)
Lemma scale2_cross (n d g B a b : Z) :
  0 <= B -> 0 <= B + g -> scale2 n d g = (a, b) ->
  a * (d * 2 ^ (B + g)) = b * (n * 2 ^ B).
Proof.
  intros HB HBg. unfold scale2.
  destruct (Z.leb_spec 0 g); intros E; injection E as <- <-.
  - rewrite (Z.add_comm B g), (pow2_add g B) by lia. ring.
  - replace (2 ^ B) with (2 ^ (B + g) * 2 ^ (- g)).
    + ring.
    + rewrite <- pow2_add by lia. f_equal. ring.
Qed.

Lemma scale2_positive (n d g a b : Z) :
  0 < n -> 0 < d -> scale2 n d g = (a, b) -> 0 < a /\ 0 < b.
Proof.
  intros Hn Hd. unfold scale2.
  destruct (Z.leb_spec 0 g); intros E; injection E as <- <-.
  - split; [assumption|]. apply Z.mul_pos_pos; [assumption | now apply pow2_pos].
  - split; [|assumption]. apply Z.mul_pos_pos; [assumption | apply pow2_pos; lia].
Qed.

(** Scaling numerator and denominator by the same factor scales the
    pair. *)
Lemma scale2_mul (n d g t : Z) :
  scale2 (n * t) (d * t) g
  = (fst (scale2 n d g) * t, snd (scale2 n d g) * t).
Proof.
  unfold scale2. destruct (0 <=? g); cbn [fst snd]; f_equal; ring.
Qed.

(** Two fractions with positive denominators in the same ratio compare
    alike with one. *)
Lemma cross_lt (a b x y : Z) :
  0 < b -> 0 < y -> a * y = b * x -> (a < b <-> x < y).
Proof. intros Hb Hy E. split; intros H; nia. Qed.

(** [floor_log2 n d] is the [g] with [2^g <= n/d < 2^(g+1)]. *)
Lemma floor_log2_spec (n d B : Z) :
  0 < n -> 0 < d ->
  0 <= B -> 0 <= B + floor_log2 n d ->
  d * 2 ^ (B + floor_log2 n d) <= n * 2 ^ B
  /\ n * 2 ^ B < d * 2 ^ (B + floor_log2 n d + 1).
Proof.
  intros Hn Hd HB. unfold floor_log2.
  pose proof (Z.log2_spec n Hn) as [Ln Un].
  pose proof (Z.log2_spec d Hd) as [Ld Ud].
  pose proof (Z.log2_nonneg n) as Pn. pose proof (Z.log2_nonneg d) as Pd.
  set (a := Z.log2 n) in *. set (b := Z.log2 d) in *.
  destruct (scale2 n d (a - b)) as [n0 d0] eqn:S.
  (* a common, larger shift for the estimates *)
  set (C := B + a + b + 2).
  assert (HC : 0 <= C) by (unfold C; lia).
  assert (P : forall x, 0 <= x -> 0 < 2 ^ x) by (intros; now apply pow2_pos).
  assert (Lower : d * 2 ^ (C + (a - b - 1)) < n * 2 ^ C).
  { (* d < 2^(b+1), 2^a <= n *)
    replace (C + (a - b - 1)) with ((C + a) - (b + 1)) by ring.
    assert (E : 2 ^ (C + a) = 2 ^ (C + a - (b + 1)) * 2 ^ (b + 1)).
    { rewrite <- pow2_add by (unfold C; lia). f_equal. ring. }
    assert (E2 : 2 ^ (C + a) = 2 ^ C * 2 ^ a) by (apply pow2_add; lia).
    pose proof (P (C + a - (b + 1)) ltac:(unfold C; lia)).
    pose proof (P C HC). unfold Z.succ in *. nia. }
  assert (Upper : n * 2 ^ C < d * 2 ^ (C + (a - b + 1))).
  { replace (C + (a - b + 1)) with ((C + a + 1) - b) by ring.
    assert (E : 2 ^ (C + a + 1) = 2 ^ (C + a + 1 - b) * 2 ^ b).
    { rewrite <- pow2_add by (unfold C; lia). f_equal. ring. }
    assert (E2 : 2 ^ (C + a + 1) = 2 ^ C * 2 ^ (a + 1)).
    { replace (C + a + 1) with (C + (a + 1)) by ring. apply pow2_add; lia. }
    pose proof (P (C + a + 1 - b) ltac:(unfold C; lia)).
    pose proof (P C HC). unfold Z.succ in *. nia. }
  (* moving between the shifts [B] and [C] *)
  assert (Move : forall g, 0 <= B + g ->
            2 ^ (C + g) = 2 ^ (B + g) * 2 ^ (a + b + 2)
            /\ 2 ^ C = 2 ^ B * 2 ^ (a + b + 2)).
  { intros g Hg. split.
    - rewrite <- pow2_add by lia. f_equal. unfold C. ring.
    - rewrite <- pow2_add by lia. f_equal. unfold C. ring. }
  pose proof (P (a + b + 2) ltac:(lia)) as PK.
  pose proof (scale2_cross n d (a - b) C n0 d0 HC ltac:(unfold C; lia) S) as X.
  destruct (scale2_positive _ _ _ _ _ Hn Hd S) as [Pn0 Pd0].
  destruct (Z.ltb_spec n0 d0) as [Lt|Ge]; intros HBg.
  - (* n/d < 2^(a-b): the logarithm is a-b-1 *)
    assert (Y : n * 2 ^ C < d * 2 ^ (C + (a - b))).
    { apply (cross_lt n0 d0 (n * 2 ^ C) (d * 2 ^ (C + (a - b)))); try assumption.
      apply Z.mul_pos_pos; [assumption | apply P; unfold C; lia]. }
    destruct (Move (a - b - 1) HBg) as [M1 M2].
    destruct (Move (a - b) ltac:(lia)) as [M3 _].
    replace (B + (a - b - 1) + 1) with (B + (a - b)) by ring.
    rewrite M1, M2 in Lower. rewrite M3, M2 in Y. split; nia.
  - assert (Y : d * 2 ^ (C + (a - b)) <= n * 2 ^ C).
    { destruct (Z.le_gt_cases (d * 2 ^ (C + (a - b))) (n * 2 ^ C)) as [|Gt];
        [assumption|].
      apply (cross_lt n0 d0 (n * 2 ^ C) (d * 2 ^ (C + (a - b)))) in Gt;
        try assumption; [lia|].
      apply Z.mul_pos_pos; [assumption | apply P; unfold C; lia]. }
    destruct (Move (a - b) HBg) as [M1 M2].
    destruct (Move (a - b + 1) ltac:(lia)) as [M3 _].
    replace (B + (a - b) + 1) with (B + (a - b + 1)) by ring.
    rewrite M1, M2 in Y. rewrite M3, M2 in Upper. split; nia.
Qed.


Lemma floor_log2_unique (n d g B : Z) :
  0 < n -> 0 < d -> 0 <= B -> 0 <= B + g ->
  d * 2 ^ (B + g) <= n * 2 ^ B -> n * 2 ^ B < d * 2 ^ (B + g + 1) ->
  floor_log2 n d = g.
Proof.
  intros Hn Hd HB HBg Lo Hi.
  set (g' := floor_log2 n d).
  set (K := Z.abs g').
  assert (HK : 0 <= K) by (unfold K; lia).
  destruct (floor_log2_spec n d (B + K) Hn Hd ltac:(lia) ltac:(fold g'; unfold K; lia))
    as [Lo' Hi'].
  fold g' in Lo', Hi'.
  assert (P : forall x, 0 <= x -> 0 < 2 ^ x) by (intros; now apply pow2_pos).
  assert (E1 : 2 ^ (B + K + g) = 2 ^ (B + g) * 2 ^ K).
  { rewrite <- pow2_add by lia. f_equal. ring. }
  assert (E2 : 2 ^ (B + K + g + 1) = 2 ^ (B + g + 1) * 2 ^ K).
  { rewrite <- pow2_add by lia. f_equal. ring. }
  assert (E3 : 2 ^ (B + K) = 2 ^ B * 2 ^ K) by (apply pow2_add; lia).
  pose proof (P K HK) as PK.
  assert (Lo2 : d * 2 ^ (B + K + g) <= n * 2 ^ (B + K)) by (rewrite E1, E3; nia).
  assert (Hi2 : n * 2 ^ (B + K) < d * 2 ^ (B + K + g + 1)) by (rewrite E2, E3; nia).
  assert (A : 2 ^ (B + K + g) < 2 ^ (B + K + g' + 1)) by nia.
  assert (A' : 2 ^ (B + K + g') < 2 ^ (B + K + g + 1)) by nia.
  apply Z.pow_lt_mono_r_iff in A; [|lia|unfold K; lia].
  apply Z.pow_lt_mono_r_iff in A'; [|lia|lia].
  lia.
Qed.

Lemma floor_log2_scale (n d t : Z) :
  0 < n -> 0 < d -> 0 < t ->
  floor_log2 (n * t) (d * t) = floor_log2 n d.
Proof.
  intros Hn Hd Ht.
  set (g := floor_log2 n d). set (B := Z.abs g).
  destruct (floor_log2_spec n d B Hn Hd ltac:(unfold B; lia) ltac:(fold g; unfold B; lia))
    as [Lo Hi].
  fold g in Lo, Hi.
  apply (floor_log2_unique (n * t) (d * t) g B); try nia; unfold B; lia.
Qed.

(** Rounding depends on the ratio only. *)
Lemma round_pos_scale (neg : bool) (n d t : Z) :
  0 < n -> 0 < d -> 0 < t ->
  round_pos neg (n * t) (d * t) = round_pos neg n d.
Proof.
  intros Hn Hd Ht. unfold round_pos.
  rewrite floor_log2_scale by assumption.
  set (e := Z.max (floor_log2 n d - 52) (-1074)).
  rewrite scale2_mul.
  destruct (scale2 n d e) as [a b] eqn:S. cbn [fst snd].
  destruct (scale2_positive _ _ _ _ _ Hn Hd S) as [Pa Pb].
  rewrite Z.div_mul_cancel_r by lia.
  rewrite Z.mul_mod_distr_r by lia.
  replace (b * t <? 2 * (a mod b * t)) with (b <? 2 * (a mod b)).
  2:{ destruct (Z.ltb_spec b (2 * (a mod b))), (Z.ltb_spec (b * t) (2 * (a mod b * t)));
        try reflexivity; nia. }
  replace (b * t =? 2 * (a mod b * t)) with (b =? 2 * (a mod b)).
  2:{ destruct (Z.eqb_spec b (2 * (a mod b))), (Z.eqb_spec (b * t) (2 * (a mod b * t)));
        try reflexivity; nia. }
  reflexivity.
Qed.

(** Two fractions of the same value round alike. *)
Lemma round_pos_ratio (neg : bool) (n d n' d' : Z) :
  0 < n -> 0 < d -> 0 < n' -> 0 < d' -> n * d' = n' * d ->
  round_pos neg n d = round_pos neg n' d'.
Proof.
  intros Hn Hd Hn' Hd' E.
  rewrite <- (round_pos_scale neg n d d') by assumption.
  rewrite <- (round_pos_scale neg n' d' d) by assumption.
  rewrite E. f_equal. ring.
Qed.

Lemma scale10_positive (n d k a b : Z) :
  0 < n -> 0 < d -> scale10 n d k = (a, b) -> 0 < a /\ 0 < b.
Proof.
  intros Hn Hd. unfold scale10.
  destruct (Z.leb_spec 0 k); intros E; injection E as <- <-.
  - split; [assumption|]. apply Z.mul_pos_pos; [assumption|].
    apply Z.pow_pos_nonneg; lia.
  - split; [|assumption]. apply Z.mul_pos_pos; [assumption|].
    apply Z.pow_pos_nonneg; lia.
Qed.

(** [scale10 n d k = (a, b)] stands for [n / (d * 10^k)]. *)
Lemma scale10_cross (n d k B a b : Z) :
  0 <= B -> 0 <= B + k -> scale10 n d k = (a, b) ->
  a * (d * 10 ^ (B + k)) = b * (n * 10 ^ B).
Proof.
  intros HB HBk. unfold scale10.
  destruct (Z.leb_spec 0 k); intros E; injection E as <- <-.
  - rewrite (Z.add_comm B k), (Z.pow_add_r 10 k B) by lia. ring.
  - replace (10 ^ B) with (10 ^ (B + k) * 10 ^ (- k)).
    + ring.
    + rewrite <- Z.pow_add_r by lia. f_equal. ring.
Qed.

(** The same decimal written with more digits and a smaller exponent is
    the same float. *)
Lemma float_of_decimal_shift (neg : bool) (c k j : Z) :
  0 < c -> 0 <= j ->
  float_of_decimal neg (c * 10 ^ j) (k - j) = float_of_decimal neg c k.
Proof.
  intros Hc Hj. unfold float_of_decimal.
  assert (P10 : forall x, 0 <= x -> 0 < 10 ^ x)
    by (intros; apply Z.pow_pos_nonneg; lia).
  pose proof (P10 j Hj) as Pj.
  assert (Pcj : 0 < c * 10 ^ j) by now apply Z.mul_pos_pos.
  destruct (Z.eqb_spec (c * 10 ^ j) 0); [lia|].
  destruct (Z.eqb_spec c 0); [lia|].
  destruct (scale10 (c * 10 ^ j) 1 (- (k - j))) as [a b] eqn:S1.
  destruct (scale10 c 1 (- k)) as [a' b'] eqn:S2.
  destruct (scale10_positive _ _ _ _ _ Pcj Z.lt_0_1 S1) as [Pa Pb].
  destruct (scale10_positive _ _ _ _ _ Hc Z.lt_0_1 S2) as [Pa' Pb'].
  apply round_pos_ratio; try assumption.
  set (B := Z.abs k + j).
  assert (HB : 0 <= B) by (unfold B; lia).
  assert (HB1 : 0 <= B + - (k - j)) by (unfold B; lia).
  assert (HB2 : 0 <= B + - k) by (unfold B; lia).
  pose proof (scale10_cross _ _ _ B _ _ HB HB1 S1) as X1.
  pose proof (scale10_cross _ _ _ B _ _ HB HB2 S2) as X2.
  assert (E : 10 ^ (B + - (k - j)) = 10 ^ (B + - k) * 10 ^ j).
  { rewrite <- Z.pow_add_r by lia. f_equal. ring. }
  rewrite E in X1.
  pose proof (P10 B HB) as PB.
  pose proof (P10 (B + - k) HB2) as PBk.
  (* a / b = c 10^j 10^B / 10^(B-k) 10^j and a' / b' = c 10^B / 10^(B-k) *)
  apply (Z.mul_cancel_r _ _ (10 ^ (B + - k) * 10 ^ j * 10 ^ B)); [nia|].
  transitivity ((a * (1 * (10 ^ (B + - k) * 10 ^ j))) * (b' * 10 ^ B)); [ring|].
  rewrite X1.
  transitivity ((a' * (1 * 10 ^ (B + - k))) * (b * 10 ^ j * 10 ^ B)); [|ring].
  rewrite X2. ring.
Qed.

(** The sign rides along. *)
Lemma round_pos_sign (neg : bool) (n d m e : Z) :
  round_pos false n d = FFinite false m e ->
  round_pos neg n d = FFinite neg m e.
Proof.
  unfold round_pos.
  destruct (scale2 n d _) as [a b].
  destruct (if _ =? 2 ^ 53 then _ else _) as [m' e'].
  destruct (_ =? 0); [discriminate|].
  destruct (971 <? e'); [discriminate|].
  intros H. injection H as <- <-. reflexivity.
Qed.

Lemma float_of_decimal_sign (neg : bool) (c k m e : Z) :
  float_of_decimal false c k = FFinite false m e ->
  float_of_decimal neg c k = FFinite neg m e.
Proof.
  unfold float_of_decimal. destruct (c =? 0); [discriminate|].
  destruct (scale10 c 1 (- k)) as [a b]. apply round_pos_sign.
Qed.

End FloatFacts.

Section FloatExact.

Local Open Scope Z_scope.

Lemma pyfloat_eqb_eq (a b : pyfloat) : pyfloat_eqb a b = true -> a = b.
Proof.
  destruct a as [|s|s|s m e], b as [|t|t|t n f]; simpl; intros H;
    try discriminate; try reflexivity.
  - apply Bool.eqb_prop in H. now subst.
  - apply Bool.eqb_prop in H. now subst.
  - apply andb_true_iff in H as [H H3]. apply andb_true_iff in H as [H1 H2].
    apply Bool.eqb_prop in H1. apply Z.eqb_eq in H2. apply Z.eqb_eq in H3.
    now subst.
Qed.

(** What the canonical form says. *)
Lemma canonical_facts (neg : bool) (m e : Z) :
  float_ok (FFinite neg m e) = true ->
  0 < m < 2 ^ 53 /\ -1074 <= e <= 971 /\ (2 ^ 52 <= m \/ e = -1074).
Proof. cbn [float_ok]. intros H. lia. Qed.

(** The logarithm of a canonical mantissa. *)
Lemma canonical_exponent (m e : Z) :
  0 < m < 2 ^ 53 -> -1074 <= e -> (2 ^ 52 <= m \/ e = -1074) ->
  Z.max (Z.log2 m + e - 52) (-1074) = e.
Proof.
  intros [Pm Um] Le N.
  pose proof (Z.log2_spec m Pm) as [Lm Hm]. pose proof (Z.log2_nonneg m) as Nm.
  destruct N as [N|N].
  - assert (Z.log2 m = 52).
    { apply Z.log2_unique; [lia|]. change (2 ^ Z.succ 52) with (2 ^ 53). lia. }
    lia.
  - assert (Z.log2 m <= 52).
    { destruct (Z.le_gt_cases (Z.log2 m) 52); [assumption|].
      assert (2 ^ 53 <= 2 ^ Z.log2 m) by (apply Z.pow_le_mono_r; lia). lia. }
    lia.
Qed.

(** A fraction [n / d] of value [m * 2^e], for a canonical float, rounds
    to that float. *)
Lemma round_pos_exact (m e n d S0 : Z) :
  float_ok (FFinite false m e) = true ->
  0 < n -> 0 < d -> 0 <= S0 -> 0 <= S0 - e ->
  n * 2 ^ (S0 - e) = d * m * 2 ^ S0 ->
  round_pos false n d = FFinite false m e.
Proof.
  intros C Pn Pd HS HSe X.
  apply canonical_facts in C as ((Pm & Um) & (Le & Ue) & N).
  assert (P : forall x, 0 <= x -> 0 < 2 ^ x) by (intros; now apply pow2_pos).
  pose proof (Z.log2_spec m Pm) as [Lm Hm]. pose proof (Z.log2_nonneg m) as Nm.
  pose proof (canonical_exponent m e (conj Pm Um) Le N) as E'.
  set (L := Z.log2 m) in *.
  pose proof (P S0 HS) as P0. pose proof (P (S0 - e) HSe) as P1.
  (* the logarithm *)
  assert (G : floor_log2 n d = L + e).
  { set (B := Z.abs e).
    assert (HB : 0 <= B) by (unfold B; lia).
    assert (HB1 : 0 <= B + (L + e)) by (unfold B; lia).
    pose proof (P B HB) as PB. pose proof (P _ HB1) as PB1.
    assert (R : 2 ^ (B + (L + e)) * 2 ^ (S0 - e) = 2 ^ L * 2 ^ S0 * 2 ^ B).
    { rewrite <- !pow2_add by lia. f_equal. ring. }
    assert (R' : 2 ^ (B + (L + e) + 1) = 2 * 2 ^ (B + (L + e))).
    { rewrite (pow2_add (B + (L + e)) 1) by lia. change (2 ^ 1) with 2. ring. }
    apply (floor_log2_unique n d (L + e) B); try assumption.
    - (* d 2^(B+L+e) <= n 2^B, after multiplying by 2^(S0-e) *)
      apply (Z.mul_le_mono_pos_r _ _ (2 ^ (S0 - e))); [assumption|].
      transitivity (d * (2 ^ L * 2 ^ S0 * 2 ^ B)); [rewrite <- R; lia|].
      transitivity (d * m * 2 ^ S0 * 2 ^ B); [|rewrite <- X; lia].
      assert (0 < d * 2 ^ S0 * 2 ^ B) by (repeat apply Z.mul_pos_pos; assumption).
      nia.
    - apply (Z.mul_lt_mono_pos_r (2 ^ (S0 - e))); [assumption|].
      rewrite R'.
      replace (n * 2 ^ B * 2 ^ (S0 - e)) with (d * m * 2 ^ S0 * 2 ^ B)
        by (rewrite <- X; ring).
      replace (d * (2 * 2 ^ (B + (L + e))) * 2 ^ (S0 - e))
        with (d * (2 * (2 ^ L * 2 ^ S0 * 2 ^ B))) by (rewrite <- R; ring).
      assert (0 < d * 2 ^ S0 * 2 ^ B) by (repeat apply Z.mul_pos_pos; assumption).
      change (2 ^ Z.succ L) with (2 ^ (L + 1)) in Hm.
      rewrite (pow2_add L 1) in Hm by lia. change (2 ^ 1) with 2 in Hm.
      nia. }
  unfold round_pos. rewrite G, E'.
  destruct (scale2 n d e) as [a b] eqn:S.
  destruct (scale2_positive _ _ _ _ _ Pn Pd S) as [Pa Pb].
  set (B := Z.abs e).
  assert (HB : 0 <= B) by (unfold B; lia).
  assert (HB1 : 0 <= B + e) by (unfold B; lia).
  pose proof (scale2_cross n d e B a b HB HB1 S) as Y.
  pose proof (P B HB) as PB. pose proof (P _ HB1) as PB1.
  assert (A : a = m * b).
  { assert (R : 2 ^ (B + e) * 2 ^ (S0 - e) = 2 ^ S0 * 2 ^ B).
    { rewrite <- !pow2_add by lia. f_equal. ring. }
    apply (Z.mul_cancel_r _ _ (d * (2 ^ S0 * 2 ^ B))).
    { assert (0 < d * (2 ^ S0 * 2 ^ B)) by (repeat apply Z.mul_pos_pos; assumption). lia. }
    rewrite <- R.
    transitivity ((a * (d * 2 ^ (B + e))) * 2 ^ (S0 - e)); [ring|].
    rewrite Y.
    transitivity (b * 2 ^ B * (n * 2 ^ (S0 - e))); [ring|].
    rewrite X, R. ring. }
  subst a. rewrite Z.div_mul, Z.mod_mul by lia.
  replace (b <? 2 * 0) with false by lia.
  replace (b =? 2 * 0) with false by lia.
  cbn [orb andb].
  replace (m =? 2 ^ 53) with false by lia.
  replace (m =? 0) with false by lia.
  replace (971 <? e) with false by lia.
  reflexivity.
Qed.

(** The number itself, as a decimal, reads back. *)
Lemma exact_decimal_reads (m e : Z) :
  float_ok (FFinite false m e) = true ->
  0 < fst (exact_decimal m e)
  /\ float_of_decimal false (fst (exact_decimal m e)) (snd (exact_decimal m e))
     = FFinite false m e.
Proof.
  intros C. pose proof (canonical_facts _ _ _ C) as ((Pm & Um) & (Le & Ue) & N).
  unfold exact_decimal. destruct (Z.ltb_spec e 0) as [Neg|Pos]; cbn [fst snd].
  - assert (P5 : 0 < 5 ^ (- e)) by (apply Z.pow_pos_nonneg; lia).
    assert (Pc : 0 < m * 5 ^ (- e)) by now apply Z.mul_pos_pos.
    split; [assumption|].
    unfold float_of_decimal. replace (m * 5 ^ (- e) =? 0) with false by lia.
    unfold scale10. replace (0 <=? - e) with true by lia.
    apply (round_pos_exact m e _ _ 0 C); [assumption | | lia | lia | ].
    + apply Z.mul_pos_pos; [lia | apply Z.pow_pos_nonneg; lia].
    + change 10 with (2 * 5). rewrite Z.pow_mul_l.
      replace (0 - e) with (- e) by ring. change (2 ^ 0) with 1. ring.
  - assert (P2 : 0 < 2 ^ e) by (apply pow2_pos; lia).
    assert (Pc : 0 < m * 2 ^ e) by now apply Z.mul_pos_pos.
    split; [assumption|].
    unfold float_of_decimal. replace (m * 2 ^ e =? 0) with false by lia.
    unfold scale10. cbn [Z.opp Z.leb Z.compare]. cbv iota.
    apply (round_pos_exact m e _ _ e C); [assumption | lia | lia | lia | ].
    replace (e - e) with 0 by ring. change (2 ^ 0) with 1. change (10 ^ 0) with 1. ring.
Qed.

(** What the search returns reads back. *)
Lemma candidate_reads (m e k c : Z) :
  candidate_at m e k = Some c -> reads_as m e c k = true.
Proof.
  unfold candidate_at. destruct (scaled m e k) as [a b].
  set (c1 := a / b). set (c2 := if a mod b =? 0 then c1 else c1 + 1).
  destruct (reads_as m e c1 k) eqn:R1, (reads_as m e c2 k) eqn:R2;
    try discriminate.
  - destruct (_ <? _); [intros H; injection H as <-; assumption|].
    destruct (_ <? _); [intros H; injection H as <-; assumption|].
    destruct (Z.even c1); intros H; injection H as <-; assumption.
  - intros H; injection H as <-; assumption.
  - intros H; injection H as <-; assumption.
Qed.

Lemma shortest_from_reads (m e : Z) (fuel : nat) :
  float_ok (FFinite false m e) = true ->
  forall k,
    0 < fst (shortest_from fuel m e k)
    /\ float_of_decimal false (fst (shortest_from fuel m e k))
         (snd (shortest_from fuel m e k)) = FFinite false m e.
Proof.
  intros C. induction fuel as [|fuel IH]; intros k; cbn [shortest_from];
    destruct (candidate_at m e k) as [c|] eqn:K;
    try (apply candidate_reads in K; unfold reads_as in K;
         apply andb_true_iff in K as [K1 K2]; apply pyfloat_eqb_eq in K2;
         cbn [fst snd]; split; [lia | assumption]).
  - now apply exact_decimal_reads.
  - apply IH.
Qed.

(** The digits of [repr] read back as the float. *)
Lemma shortest_decimal_reads (neg : bool) (m e : Z) :
  float_ok (FFinite neg m e) = true ->
  0 < fst (shortest_decimal m e)
  /\ float_of_decimal neg (fst (shortest_decimal m e)) (snd (shortest_decimal m e))
     = FFinite neg m e.
Proof.
  intros C. unfold shortest_decimal.
  destruct (shortest_from_reads m e
              (Z.to_nat ((if 0 <=? Z.log2 m + e + 2
                          then (Z.log2 m + e + 2) * 30103
                          else (Z.log2 m + e + 2) * 30102) / 100000 + 1
                         - Z.min e 0)) C
              ((if 0 <=? Z.log2 m + e + 2
                then (Z.log2 m + e + 2) * 30103
                else (Z.log2 m + e + 2) * 30102) / 100000 + 1)) as [H1 H2].
  split; [assumption|]. now apply float_of_decimal_sign.
Qed.

End FloatExact.

Section FloatText.

Local Open Scope Z_scope.

(** ** Digit strings *)

Lemma nat_value_from_app (acc : Z) (a b : pystr) :
  nat_value_from acc (a ++ b) = nat_value_from (nat_value_from acc a) b.
Proof. revert acc; induction a as [|c a IH]; intros acc; simpl; auto. Qed.

Lemma nat_value_from_shift (acc : Z) (s : pystr) :
  nat_value_from acc s = acc * 10 ^ Z.of_nat (length s) + nat_value s.
Proof.
  unfold nat_value. revert acc; induction s as [|c s IH]; intros acc.
  - simpl. lia.
  - cbn [nat_value_from length]. rewrite (IH (10 * acc + _)), (IH (10 * 0 + _)).
    rewrite Nat2Z.inj_succ, Z.pow_succ_r by lia. ring.
Qed.

Lemma nat_value_app (a b : pystr) :
  nat_value (a ++ b) = nat_value a * 10 ^ Z.of_nat (length b) + nat_value b.
Proof.
  unfold nat_value at 1. rewrite nat_value_from_app.
  now rewrite nat_value_from_shift.
Qed.

Lemma zeros_digits (z : Z) : forallb isdigit (zeros z) = true.
Proof. unfold zeros. induction (Z.to_nat z); simpl; auto. Qed.

Lemma zeros_length (z : Z) : length (zeros z) = Z.to_nat z.
Proof. apply repeat_length. Qed.

Lemma nat_value_zeros (z : Z) : nat_value (zeros z) = 0.
Proof.
  unfold zeros, nat_value. induction (Z.to_nat z) as [|n IH]; simpl; auto.
Qed.

(** The text of a natural number: digits, at least one, of that value. *)
Lemma int_str_natural (z : Z) :
  0 <= z ->
  forallb isdigit (int_str z) = true /\ int_str z <> []
  /\ nat_value (int_str z) = z.
Proof.
  intros H. destruct z as [|p|p]; [repeat split; discriminate | | lia].
  unfold int_str. cbn [Z.to_int].
  split; [apply digits_are_digits|]. split; [|apply nat_value_pos].
  destruct (pos_digits_head p) as (c & ds & -> & _). discriminate.
Qed.

(** The text of a positive number starts with a digit from 1 to 9. *)
Lemma int_str_positive (c : Z) :
  0 < c ->
  exists d rest, int_str c = d :: rest
    /\ isdigit d = true /\ (d =? 48)%N = false
    /\ forallb isdigit rest = true /\ nat_value (d :: rest) = c.
Proof.
  intros H. destruct c as [|p|p]; try lia.
  unfold int_str. cbn [Z.to_int].
  destruct (pos_digits_head p) as (d & rest & E & D & Z0).
  pose proof (digits_are_digits (Pos.to_uint p)) as A.
  pose proof (nat_value_pos p) as V. rewrite E in *.
  cbn [forallb] in A. apply andb_true_iff in A as [_ A].
  now exists d, rest.
Qed.

(** ** The exponent *)

Lemma match_exp_digits_all (ds : pystr) :
  forallb isdigit ds = true -> ds <> [] ->
  match_exp_digits ds = Some (ds, []).
Proof.
  intros D N. unfold match_exp_digits.
  rewrite <- (app_nil_r ds) at 1. rewrite (span_digits_all ds [] D eq_refl).
  destruct ds; [congruence|reflexivity].
Qed.

Lemma match_exp_exponent_str (x : Z) :
  match_exp (101%N :: exponent_str x) = Some (x, []).
Proof.
  unfold exponent_str.
  destruct (int_str_natural (Z.abs x) (Z.abs_nonneg x)) as (D & N & V).
  set (d2 := if Z.abs x <? 10 then 48%N :: int_str (Z.abs x) else int_str (Z.abs x)).
  assert (D2 : forallb isdigit d2 = true /\ d2 <> [] /\ nat_value d2 = Z.abs x).
  { unfold d2. destruct (Z.abs x <? 10); [|now repeat split].
    repeat split; [cbn [forallb]; now rewrite D | discriminate |].
    change (48%N :: ?s) with ([48%N] ++ s). rewrite nat_value_app, V.
    reflexivity. }
  destruct D2 as (Dd & Nd & Vd).
  cbn [match_exp]. change ((101 =? 101)%N || (101 =? 69)%N) with true. cbv iota.
  destruct (Z.ltb_spec x 0).
  - change (45 =? 45)%N with true. cbv iota.
    rewrite (match_exp_digits_all d2 Dd Nd). f_equal. f_equal. lia.
  - change (43 =? 45)%N with false. change (43 =? 43)%N with true. cbv iota.
    rewrite (match_exp_digits_all d2 Dd Nd). f_equal. f_equal. lia.
Qed.

(** ** The sign *)

Lemma match_sign_text (neg : bool) (c0 : N) (t : pystr) :
  isdigit c0 = true ->
  match_sign (sign_str neg ++ c0 :: t) = (neg, c0 :: t).
Proof.
  intros D. destruct neg; [reflexivity|]. cbn [sign_str app match_sign].
  apply digit_range in D. destruct (N.eqb_spec c0 45); [lia | reflexivity].
Qed.

(** ** The four layouts of [repr] *)

(** Scientific: one digit, the other digits if any behind a dot, and the
    exponent. *)
Lemma parse_scientific (neg : bool) (d : N) (rest : pystr) (x : Z) :
  isdigit d = true -> (d =? 48)%N = false -> forallb isdigit rest = true ->
  match_number
    (sign_str neg ++
     match rest with
     | [] => d :: 101%N :: exponent_str x
     | _ => d :: 46%N :: rest ++ 101%N :: exponent_str x
     end)
  = Some (VFloat (float_of_decimal neg (nat_value (d :: rest))
                    (x - Z.of_nat (length rest))), []).
Proof.
  intros D Z0 R. unfold match_number.
  destruct rest as [|r1 rest].
  - rewrite (match_sign_text neg d _ D).
    cbn [match_integer]. rewrite Z0, D.
    change (span_digits (101%N :: exponent_str x)) with (@nil N, 101%N :: exponent_str x).
    cbv iota beta.
    change (match_frac (101%N :: exponent_str x)) with (@None (pystr * pystr)).
    cbv iota beta. rewrite match_exp_exponent_str.
    cbn [number_value_of app length]. rewrite ?app_nil_r.
    reflexivity.
  - rewrite (match_sign_text neg d _ D).
    cbn [forallb] in R. apply andb_true_iff in R as [R1 R].
    cbn [match_integer]. rewrite Z0, D.
    change (span_digits (46%N :: ?s)) with (@nil N, 46%N :: s).
    cbv iota beta. cbn [app match_frac].
    change (46 =? 46)%N with true. rewrite R1. cbn [andb]. cbv iota.
    rewrite (span_digits_all rest (101%N :: exponent_str x) R eq_refl).
    cbv iota beta. rewrite match_exp_exponent_str.
    cbn [number_value_of]. reflexivity.
Qed.

(** Below one: a zero, a dot, zeros and the digits. *)
Lemma parse_below_one (neg : bool) (z : Z) (ds : pystr) :
  forallb isdigit ds = true -> ds <> [] ->
  match_number (sign_str neg ++ 48%N :: 46%N :: zeros z ++ ds)
  = Some (VFloat (float_of_decimal neg (nat_value ds)
                    (- Z.of_nat (length (zeros z ++ ds)))), []).
Proof.
  intros D N. unfold match_number.
  rewrite (match_sign_text neg 48 _ eq_refl).
  cbn [match_integer]. change (48 =? 48)%N with true. cbv iota.
  assert (F : forallb isdigit (zeros z ++ ds) = true)
    by (rewrite forallb_app, zeros_digits, D; reflexivity).
  destruct (zeros z ++ ds) as [|f1 fr] eqn:E.
  { destruct (zeros z); [simpl in E; congruence | discriminate]. }
  cbn [forallb] in F. apply andb_true_iff in F as [F1 F].
  cbn [match_frac]. change (46 =? 46)%N with true. rewrite F1. cbn [andb].
  cbv iota. rewrite <- (app_nil_r fr) at 1.
  rewrite (span_digits_all fr [] F eq_refl). cbv iota beta.
  change (match_exp []) with (@None (Z * pystr)). cbv iota beta.
  cbn [number_value_of].
  replace (nat_value ([48%N] ++ f1 :: fr)) with (nat_value ds).
  - repeat f_equal.
  - rewrite <- E. rewrite nat_value_app.
    change (nat_value [48%N]) with 0. rewrite nat_value_app, nat_value_zeros. ring.
Qed.

(** A whole number: the digits, zeros, and [.0]. *)
Lemma parse_whole (neg : bool) (d : N) (rest : pystr) (z : Z) :
  isdigit d = true -> (d =? 48)%N = false -> forallb isdigit rest = true ->
  0 <= z ->
  match_number (sign_str neg ++ (d :: rest) ++ zeros z ++ [46%N; 48%N])
  = Some (VFloat (float_of_decimal neg (nat_value (d :: rest) * 10 ^ (z + 1))
                    (- 1)), []).
Proof.
  intros D Z0 R Hz. unfold match_number. cbn [app].
  rewrite (match_sign_text neg d _ D).
  cbn [match_integer]. rewrite Z0, D.
  rewrite app_assoc.
  rewrite (span_digits_all (rest ++ zeros z) [46%N; 48%N]);
    [| rewrite forallb_app, R, zeros_digits; reflexivity | reflexivity].
  cbv iota beta.
  change (match_frac [46%N; 48%N]) with (Some ([48%N], @nil N)).
  cbv iota beta. change (match_exp []) with (@None (Z * pystr)). cbv iota beta.
  cbn [number_value_of length]. repeat f_equal.
  change (d :: rest ++ zeros z) with ((d :: rest) ++ zeros z).
  rewrite !nat_value_app, nat_value_zeros, zeros_length.
  change (nat_value [48%N]) with 0. cbn [length].
  rewrite Z2Nat.id by lia. rewrite Z.pow_add_r by lia. simpl (Z.of_nat 1).
  ring.
Qed.

(** In between: digits, a dot, digits. *)
Lemma parse_fixed (neg : bool) (d : N) (a b : pystr) :
  isdigit d = true -> (d =? 48)%N = false ->
  forallb isdigit a = true -> forallb isdigit b = true -> b <> [] ->
  match_number (sign_str neg ++ (d :: a) ++ 46%N :: b)
  = Some (VFloat (float_of_decimal neg (nat_value ((d :: a) ++ b))
                    (- Z.of_nat (length b))), []).
Proof.
  intros D Z0 A Bd Nb. unfold match_number. cbn [app].
  rewrite (match_sign_text neg d _ D).
  cbn [match_integer]. rewrite Z0, D.
  rewrite (span_digits_all a (46%N :: b) A eq_refl). cbv iota beta.
  destruct b as [|b1 b]; [congruence|].
  cbn [forallb] in Bd. apply andb_true_iff in Bd as [B1 Bd].
  cbn [match_frac]. change (46 =? 46)%N with true. rewrite B1. cbn [andb].
  cbv iota. rewrite <- (app_nil_r b) at 1.
  rewrite (span_digits_all b [] Bd eq_refl). cbv iota beta.
  change (match_exp []) with (@None (Z * pystr)). cbv iota beta.
  cbn [number_value_of]. repeat f_equal.
Qed.

End FloatText.

Section FloatReadBack.

Local Open Scope Z_scope.

(** [repr] of the decimal [c * 10^k], with its sign, reads as the float
    nearest to that decimal. *)
Lemma format_digits_reads (neg : bool) (c k : Z) :
  0 < c ->
  match_number (sign_str neg ++ format_digits c k)
  = Some (VFloat (float_of_decimal neg c k), []).
Proof.
  intros Hc.
  destruct (int_str_positive c Hc) as (d & rest & E & D & Z0 & R & V).
  unfold format_digits. rewrite E. cbn [length]. rewrite Nat2Z.inj_succ.
  set (n := Z.of_nat (length rest)).
  assert (Hn : 0 <= n) by (unfold n; lia).
  destruct ((Z.succ n + k <=? -4) || (16 <? Z.succ n + k)).
  { pose proof (parse_scientific neg d rest (Z.succ n + k - 1) D Z0 R) as P.
    rewrite V in P. fold n in P.
    replace (Z.succ n + k - 1 - n) with k in P by lia.
    destruct rest; exact P. }
  destruct (Z.leb_spec (Z.succ n + k) 0) as [L0|L0].
  { rewrite (parse_below_one neg _ (d :: rest));
      [| cbn [forallb]; now rewrite D, R | discriminate].
    rewrite V, length_app, zeros_length. cbn [length]. fold n.
    repeat f_equal. unfold n in *. lia. }
  destruct (Z.leb_spec (Z.succ n) (Z.succ n + k)) as [L1|L1].
  { rewrite (parse_whole neg d rest _ D Z0 R) by lia.
    rewrite V. replace (Z.succ n + k - Z.succ n + 1) with (k + 1) by lia.
    replace (-1) with (k - (k + 1)) by lia.
    now rewrite float_of_decimal_shift by lia. }
  destruct (Z.to_nat (Z.succ n + k)) as [|m] eqn:M; [lia|].
  cbn [firstn skipn].
  assert (Lm : (m < length rest)%nat) by (unfold n in *; lia).
  rewrite <- (firstn_skipn m rest) in V.
  rewrite <- (firstn_skipn m rest), forallb_app in R.
  apply andb_true_iff in R as [Ra Rb].
  rewrite (parse_fixed neg d (firstn m rest) (skipn m rest) D Z0 Ra Rb).
  - cbn [app]. rewrite V. repeat f_equal.
    rewrite length_skipn. unfold n in *. lia.
  - intros N0. apply (f_equal (@length N)) in N0.
    rewrite length_skipn in N0. simpl in N0. lia.
Qed.

(** The text of a canonical finite float reads back as that float. *)
Lemma float_ok_reads (x : pyfloat) :
  float_ok x = true -> match_number (encode_float x) = Some (VFloat x, []).
Proof.
  intros H. destruct x as [ | neg | neg | neg m e]; try discriminate.
  - now destruct neg.
  - destruct (shortest_decimal_reads neg m e H) as [Hc Hr].
    cbn [encode_float float_repr].
    destruct (shortest_decimal m e) as [c k]. cbn [fst snd] in Hc, Hr.
    now rewrite format_digits_reads, Hr.
Qed.

End FloatReadBack.

Section RoundTrip.

Local Open Scope nat_scope.

Lemma join_head (sep p : pystr) (ps : list pystr) :
  join sep (p :: ps) = p ++ match ps with [] => [] | _ => sep ++ join sep ps end.
Proof. destruct ps; simpl; [now rewrite app_nil_r | reflexivity]. Qed.

(** Every encoded value starts with a character that starts a value. *)
Lemma encode_head (indent : option nat) (level : nat) (v : value) :
  value_ok v = true ->
  exists c t, encode indent level v = c :: t /\ value_start c = true.
Proof.
  intros H. destruct v as [ | [|] | z | x | s | l | d]; cbn [encode].
  - now eexists _, _.
  - now eexists _, _.
  - now eexists _, _.
  - destruct z as [|p|p]; unfold int_str; cbn [Z.to_int].
    + now eexists _, _.
    + destruct (pos_digits_head p) as (c & ds & -> & D & _).
      exists c, ds. split; [reflexivity | now apply digit_value_start].
    + now eexists _, _.
  - cbn [value_ok] in H. apply float_ok_reads in H.
    destruct (match_number_shape _ _ _ H) as (c & t & -> & [D|(-> & _)]).
    + exists c, t. split; [reflexivity | now apply digit_value_start].
    + now eexists _, _.
  - now eexists _, _.
  - unfold encode_items.
    destruct (map _ l); [|destruct indent]; now eexists _, _.
  - unfold encode_items.
    destruct (map _ d); [|destruct indent]; now eexists _, _.
Qed.

Lemma skip_ws_encoded (indent : option nat) (level : nat) (v : value) (tail : pystr) :
  value_ok v = true ->
  skip_ws (encode indent level v ++ tail) = encode indent level v ++ tail.
Proof.
  intros H. destruct (encode_head indent level v H) as (c & t & -> & S).
  apply value_start_facts in S as (W & _). now apply skip_ws_stop.
Qed.

(** White space, then a closing bracket: a number can end there. *)
Lemma number_end_closing (post : pystr) (close : N) (rest : pystr) :
  forallb is_ws post = true -> (close = 93%N \/ close = 125%N) ->
  number_end (post ++ close :: rest) = true.
Proof.
  intros W C. destruct post as [|c post].
  - destruct C; subst; reflexivity.
  - simpl in *. apply andb_true_iff in W as [W _].
    unfold is_ws in W. unfold isdigit.
    repeat (apply orb_true_iff in W as [W|W]);
      apply N.eqb_eq in W; subst; reflexivity.
Qed.

(** The layout of a bracketed sequence: white space after the opening
    bracket, after each comma, and before the closing bracket. *)
Lemma encode_items_shape (indent : option nat) (level : nat)
    (open close : N) (items : list pystr) :
  items <> [] ->
  exists pre w post,
    forallb is_ws pre = true /\ forallb is_ws w = true
    /\ forallb is_ws post = true
    /\ encode_items indent level open close items
       = open :: pre ++ join (44%N :: w) items ++ post ++ [close].
Proof.
  intros N. unfold encode_items. destruct items as [|i items]; [congruence|].
  destruct indent as [ind|].
  - exists (newline_indent ind (S level)), (newline_indent ind (S level)),
      (newline_indent ind level).
    repeat split; try apply newline_indent_ws.
  - exists [], [32%N], []. repeat split.
Qed.

Section Elements.

Variable indent : option nat.
Variable lvl : nat.
Variables w post rest : pystr.
Hypothesis Hw : forallb is_ws w = true.
Hypothesis Hpost : forallb is_ws post = true.

(** What the induction gives for one value: it is well formed and is read
    back in front of any text that can follow a number. *)
Local Abbreviation reads_back :=
  (fun v : value =>
     value_ok v = true /\
     forall tail fuel, number_end tail = true -> weight v <= fuel ->
       scan_unbounded fuel (encode indent lvl v ++ tail) = Scanned v tail).

Lemma elements_unbounded_encoded (l : list value) :
  l <> [] -> Forall reads_back l ->
  forall acc fuel,
    list_sum (map (fun x => S (weight x)) l) <= fuel ->
    elements_unbounded fuel acc
      (join (44%N :: w) (map (encode indent lvl) l) ++ post ++ 93%N :: rest)
    = Scanned (VList (rev acc ++ l)) rest.
Proof.
  induction l as [|v l IH]; [congruence|]. intros _ F acc fuel Hf.
  inversion F as [|? ? [Ok Rd] F']; subst.
  cbn [map list_sum] in Hf. destruct fuel as [|f]; [simpl in Hf; lia|].
  cbn [map]. rewrite join_head. cbn [elements_unbounded].
  destruct l as [|v2 l'].
  - cbn [map]. rewrite app_nil_r.
    rewrite Rd; [| apply number_end_closing; auto | simpl in Hf; lia].
    rewrite skip_ws_app by assumption.
    rewrite (skip_ws_stop 93) by reflexivity.
    change (93 =? 93)%N with true. cbv iota.
    cbn [rev]. reflexivity.
  - cbn [map] in *. cbv iota.
    rewrite <- !app_assoc. change ((44%N :: w) ++ ?x) with (44%N :: w ++ x).
    rewrite Rd; [| reflexivity | simpl in Hf |- *; lia].
    rewrite (skip_ws_stop 44) by reflexivity.
    change (44 =? 93)%N with false. change (44 =? 44)%N with true.
    cbv iota. rewrite skip_ws_app by assumption.
    inversion F' as [|? ? [Ok2 _] _]; subst.
    rewrite join_head at 1. rewrite <- app_assoc.
    rewrite skip_ws_encoded by assumption.
    rewrite app_assoc. rewrite <- join_head.
    rewrite IH; [| discriminate | assumption | simpl in Hf |- *; lia].
    cbn [rev]. now rewrite <- app_assoc.
Qed.

End Elements.

End RoundTrip.

Section Members.

Local Open Scope nat_scope.

Variable indent : option nat.
Variable lvl : nat.
Variables w post rest : pystr.
Hypothesis Hw : forallb is_ws w = true.
Hypothesis Hpost : forallb is_ws post = true.

Lemma eqb_sym (a b : pystr) : PyStr.eqb a b = PyStr.eqb b a.
Proof.
  destruct (PyStr.eqb a b) eqn:E1, (PyStr.eqb b a) eqn:E2; try reflexivity.
  - apply eqb_eq in E1. subst. now rewrite eqb_refl in E2.
  - apply eqb_eq in E2. subst. now rewrite eqb_refl in E1.
Qed.

Lemma dict_set_fresh (acc : dict) (k : pystr) (v : value) :
  existsb (PyStr.eqb k) (map fst acc) = false ->
  dict_set acc k v = acc ++ [(k, v)].
Proof.
  induction acc as [|[k' v'] acc IH]; simpl; intros H; [reflexivity|].
  apply orb_false_iff in H as [H1 H2].
  rewrite eqb_sym, H1. now rewrite IH.
Qed.

Lemma unique_keys_fresh (a b : list pystr) (k : pystr) :
  unique_keys (a ++ k :: b) = true -> existsb (PyStr.eqb k) a = false.
Proof.
  induction a as [|x a IH]; simpl; intros H; [reflexivity|].
  apply andb_true_iff in H as [H1 H2].
  apply negb_true_iff in H1. rewrite existsb_app in H1.
  apply orb_false_iff in H1 as [_ H1]. simpl in H1.
  apply orb_false_iff in H1 as [H1 _].
  rewrite eqb_sym, H1. now apply IH.
Qed.

Lemma members_unbounded_cons (f : nat) (acc : dict) (q : N) (s1 : pystr) :
  members_unbounded (S f) acc (q :: s1) =
  if negb (q =? 34)%N then DecodeError
  else
    match scanstring s1 with
    | None => DecodeError
    | Some (key, s2) =>
        match skip_ws s2 with
        | [] => DecodeError
        | colon :: s3 =>
            if negb (colon =? 58)%N then DecodeError
            else
              match scan_unbounded f (skip_ws s3) with
              | Scanned v s4 =>
                  let acc' := dict_set acc key v in
                  match skip_ws s4 with
                  | [] => DecodeError
                  | c :: s5 =>
                      if (c =? 125)%N then Scanned (VDict acc') s5
                      else if (c =? 44)%N then members_unbounded f acc' (skip_ws s5)
                      else DecodeError
                  end
              | DecodeError => DecodeError
              | OutOfFuel => OutOfFuel
              end
        end
    end.
Proof. reflexivity. Qed.

(** One member as the encoder writes it: key, colon, space, value. *)
Local Abbreviation member :=
  (fun kv : pystr * value =>
     encode_string (fst kv) ++ lit ": " ++ encode indent lvl (snd kv)).

Local Abbreviation member_reads_back :=
  (fun kv : pystr * value =>
     text_ok (fst kv) = true /\ value_ok (snd kv) = true /\
     forall tail fuel, number_end tail = true -> weight (snd kv) <= fuel ->
       scan_unbounded fuel (encode indent lvl (snd kv) ++ tail) = Scanned (snd kv) tail).

Lemma member_unfold (k : pystr) (v : value) (tail : pystr) :
  (encode_string k ++ lit ": " ++ encode indent lvl v) ++ tail
  = 34%N :: flat_map escape_char k
      ++ 34%N :: 58%N :: 32%N :: encode indent lvl v ++ tail.
Proof.
  unfold encode_string. cbn [app]. rewrite <- !app_assoc. reflexivity.
Qed.

Lemma skip_ws_members_head (kv : pystr * value) (more : list (pystr * value))
    (tail : pystr) :
  skip_ws (join (44%N :: w) (map member (kv :: more)) ++ tail)
  = join (44%N :: w) (map member (kv :: more)) ++ tail.
Proof. cbn [map]. rewrite join_head. reflexivity. Qed.

(** Reading one member: the rest of the loop decides on what follows. *)
Lemma members_unbounded_member (f : nat) (acc : dict) (k : pystr) (v : value)
    (tail : pystr) :
  text_ok k = true -> value_ok v = true ->
  scan_unbounded f (encode indent lvl v ++ tail) = Scanned v tail ->
  members_unbounded (S f) acc
    ((encode_string k ++ lit ": " ++ encode indent lvl v) ++ tail)
  = match skip_ws tail with
    | [] => DecodeError
    | c :: s5 =>
        if (c =? 125)%N then Scanned (VDict (dict_set acc k v)) s5
        else if (c =? 44)%N then members_unbounded f (dict_set acc k v) (skip_ws s5)
        else DecodeError
    end.
Proof.
  intros Tk Ok Rd. rewrite member_unfold.
  rewrite members_unbounded_cons. change (negb (34 =? 34)%N) with false. cbv iota.
  rewrite scanstring_escaped by assumption.
  rewrite (skip_ws_stop 58) by reflexivity.
  change (negb (58 =? 58)%N) with false. cbv iota.
  change (skip_ws (32%N :: ?x)) with (skip_ws x).
  rewrite skip_ws_encoded by assumption.
  now rewrite Rd.
Qed.

Lemma members_unbounded_encoded (d : dict) :
  d <> [] -> Forall member_reads_back d ->
  forall acc fuel,
    unique_keys (map fst (acc ++ d)) = true ->
    list_sum (map (fun kv => S (weight (snd kv))) d) <= fuel ->
    members_unbounded fuel acc
      (join (44%N :: w) (map member d) ++ post ++ 125%N :: rest)
    = Scanned (VDict (acc ++ d)) rest.
Proof.
  induction d as [|[k v] d IH]; [congruence|]. intros _ F acc fuel U Hf.
  inversion F as [|? ? (Tk & Ok & Rd) F']; subst. cbn [fst snd] in *.
  cbn [map list_sum] in Hf. destruct fuel as [|f]; [simpl in Hf; lia|].
  assert (Fresh : dict_set acc k v = acc ++ [(k, v)]).
  { apply dict_set_fresh. rewrite map_app in U. cbn [map fst] in U.
    now apply unique_keys_fresh in U. }
  cbn [map fst snd]. rewrite join_head.
  destruct d as [|kv2 d'].
  - cbn [map]. rewrite app_nil_r.
    rewrite members_unbounded_member; try assumption.
    + rewrite skip_ws_app by assumption.
      rewrite (skip_ws_stop 125) by reflexivity.
      change (125 =? 125)%N with true. cbv iota. now rewrite Fresh.
    + apply Rd; [apply number_end_closing; auto | simpl in Hf; lia].
  - cbn [map] in *. cbv iota.
    rewrite <- app_assoc.
    rewrite members_unbounded_member; try assumption.
    + rewrite <- app_assoc.
      change ((44%N :: w) ++ ?x) with (44%N :: w ++ x).
      rewrite (skip_ws_stop 44) by reflexivity.
      change (44 =? 125)%N with false. change (44 =? 44)%N with true.
      cbv iota. rewrite skip_ws_app by assumption.
      change (?a :: map member d') with (map member (kv2 :: d')).
      rewrite skip_ws_members_head.
      rewrite Fresh.
      rewrite IH; [| discriminate | assumption | | simpl in Hf |- *; lia].
      * now rewrite <- app_assoc.
      * now rewrite <- app_assoc.
    + apply Rd; [reflexivity | simpl in Hf |- *; lia].
Qed.

End Members.

Section ReadBack.

Local Open Scope nat_scope.

(** The start of a bracketed sequence: the scanner skips the white space
    and, as the first item does not close the sequence, enters the loop. *)
Lemma skip_to_first_item (pre items_text : pystr) (c : N) (t : pystr) :
  forallb is_ws pre = true -> items_text = c :: t -> value_start c = true ->
  skip_ws (pre ++ items_text) = c :: t.
Proof.
  intros W -> S. rewrite skip_ws_app by assumption.
  apply value_start_facts in S as (Ws & _). now apply skip_ws_stop.
Qed.

(** The scanner reads back every well-formed value from its encoding, in
    both layouts, in front of any text that cannot continue a number, with
    a budget of the value's weight. *)
Theorem scan_unbounded_encoded (v : value) :
  value_ok v = true ->
  forall indent level tail fuel,
    number_end tail = true -> weight v <= fuel ->
    scan_unbounded fuel (encode indent level v ++ tail) = Scanned v tail.
Proof.
  induction v as [ | b | z | x | s | l IH | d IH] using value_ind;
    intros Ok indent level tail fuel E Hf;
    (destruct fuel as [|f]; [simpl in Hf; lia|]).
  - reflexivity.
  - destruct b; reflexivity.
  - cbn [encode]. apply scan_unbounded_number, match_number_local;
      [apply match_number_int | assumption].
  - cbn [encode]. apply scan_unbounded_number, match_number_local;
      [now apply float_ok_reads | assumption].
  - cbn [encode]. unfold encode_string. cbn [app]. rewrite <- app_assoc.
    cbn [app]. rewrite scan_unbounded_cons. change (34 =? 34)%N with true.
    cbv iota. now rewrite scanstring_escaped.
  - cbn [encode]. destruct l as [|v l]; [reflexivity|].
    destruct (encode_items_shape indent level 91 93
                (map (encode indent (S level)) (v :: l)))
      as (pre & w & post & Wp & Ww & Wq & ->); [discriminate|].
    cbn [value_ok] in Ok.
    assert (F : Forall (fun v => value_ok v = true /\
                 forall tail fuel, number_end tail = true -> weight v <= fuel ->
                 scan_unbounded fuel (encode indent (S level) v ++ tail) = Scanned v tail)
                (v :: l)).
    { rewrite forallb_forall in Ok. rewrite Forall_forall in IH |- *.
      intros y Hy. split; [now apply Ok|]. intros. now apply IH; auto. }
    cbn [app]. rewrite scan_unbounded_cons.
    change (91 =? 34)%N with false. change (91 =? 123)%N with false.
    change (91 =? 91)%N with true. cbv iota.
    rewrite <- !app_assoc. cbn [app].
    set (X := join (44%N :: w) (map (encode indent (S level)) (v :: l))
              ++ post ++ 93%N :: tail).
    assert (HX : exists c t, X = c :: t /\ value_start c = true).
    { unfold X. cbn [map]. rewrite join_head.
      inversion F as [|? ? [Okv _] _]; subst.
      destruct (encode_head indent (S level) v Okv) as (c & t & -> & S).
      now eexists _, _. }
    destruct HX as (c & t & HX & S).
    rewrite (skip_to_first_item pre X c t Wp HX S).
    apply value_start_facts in S as (_ & _ & N93 & _). rewrite N93.
    rewrite <- HX. unfold X.
    rewrite (elements_unbounded_encoded indent (S level) w post tail Ww Wq);
      [reflexivity | discriminate | assumption | cbn [weight] in Hf; lia].
  - cbn [encode]. destruct d as [|kv d]; [reflexivity|].
    destruct (encode_items_shape indent level 123 125
                (map (fun kv => encode_string (fst kv) ++ lit ": "
                        ++ encode indent (S level) (snd kv)) (kv :: d)))
      as (pre & w & post & Wp & Ww & Wq & ->); [discriminate|].
    cbn [value_ok] in Ok. apply andb_true_iff in Ok as [U Ok].
    assert (F : Forall (fun kv : pystr * value =>
                 text_ok (fst kv) = true /\ value_ok (snd kv) = true /\
                 forall tail fuel, number_end tail = true ->
                   weight (snd kv) <= fuel ->
                   scan_unbounded fuel (encode indent (S level) (snd kv) ++ tail)
                   = Scanned (snd kv) tail)
                (kv :: d)).
    { rewrite forallb_forall in Ok. rewrite Forall_forall in IH |- *.
      intros y Hy. specialize (Ok y Hy). apply andb_true_iff in Ok as [O1 O2].
      repeat split; try assumption. intros. now apply IH; auto. }
    cbn [app]. rewrite scan_unbounded_cons.
    change (123 =? 34)%N with false. change (123 =? 123)%N with true.
    cbv iota. rewrite <- !app_assoc. cbn [app].
    set (X := join (44%N :: w)
                (map (fun kv => encode_string (fst kv) ++ lit ": "
                        ++ encode indent (S level) (snd kv)) (kv :: d))
              ++ post ++ 125%N :: tail).
    assert (HX : exists t, X = 34%N :: t).
    { unfold X. cbn [map]. rewrite join_head. now eexists. }
    destruct HX as (t & HX).
    rewrite (skip_to_first_item pre X 34 t Wp HX eq_refl).
    change (34 =? 125)%N with false. cbv iota.
    rewrite <- HX. unfold X.
    rewrite (members_unbounded_encoded indent (S level) w post tail Ww Wq);
      [reflexivity | discriminate | assumption | assumption
      | cbn [weight] in Hf; lia].
Qed.

End ReadBack.

Section Loads.

Local Open Scope nat_scope.

Lemma join_length (sep : pystr) (items : list pystr) :
  sep <> [] ->
  list_sum (map (fun i => S (length i)) items) <= length (join sep items) + 1.
Proof.
  intros Hs. induction items as [|p items IH]; [simpl; lia|].
  rewrite join_head. cbn [map list_sum]. rewrite length_app.
  destruct items as [|q items].
  - simpl. lia.
  - rewrite length_app. destruct sep; [congruence|]. simpl in *. lia.
Qed.

Lemma list_sum_le {A} (f g : A -> nat) (l : list A) :
  Forall (fun x => f x <= g x) l ->
  list_sum (map f l) <= list_sum (map g l).
Proof. induction 1; simpl; lia. Qed.

Lemma encode_items_length (indent : option nat) (level : nat)
    (open close : N) (items : list pystr) :
  list_sum (map (fun i => S (length i)) items)
  < length (encode_items indent level open close items).
Proof.
  destruct items as [|i items]; [simpl; lia|].
  destruct (encode_items_shape indent level open close (i :: items))
    as (pre & w & post & _ & _ & _ & ->); [discriminate|].
  pose proof (join_length (44%N :: w) (i :: items)) as J.
  cbn [length]. rewrite !length_app. cbn [length].
  assert (44%N :: w <> []) by discriminate. specialize (J H). lia.
Qed.

(** The budget a value takes is within the length of its text. *)
Lemma weight_le_length (v : value) :
  value_ok v = true ->
  forall indent level, weight v <= length (encode indent level v).
Proof.
  induction v as [ | b | z | x | s | l IH | d IH] using value_ind;
    intros Ok indent level;
    try (destruct (encode_head indent level _ Ok) as (c & t & -> & _);
         simpl; lia).
  - cbn [encode weight value_ok] in *.
    pose proof (encode_items_length indent level 91 93
                  (map (encode indent (S level)) l)) as L.
    rewrite map_map in L.
    enough (list_sum (map (fun x => S (weight x)) l)
            <= list_sum (map (fun x => S (length (encode indent (S level) x))) l))
      by lia.
    apply list_sum_le. rewrite forallb_forall in Ok.
    rewrite Forall_forall in IH |- *. intros y Hy.
    specialize (IH y Hy (Ok y Hy) indent (S level)). lia.
  - cbn [encode weight value_ok] in *. apply andb_true_iff in Ok as [_ Ok].
    pose proof (encode_items_length indent level 123 125
                  (map (fun kv => encode_string (fst kv) ++ lit ": "
                          ++ encode indent (S level) (snd kv)) d)) as L.
    rewrite map_map in L.
    enough (list_sum (map (fun kv => S (weight (snd kv))) d)
            <= list_sum (map (fun kv => S (length (encode_string (fst kv)
                 ++ lit ": " ++ encode indent (S level) (snd kv)))) d))
      by lia.
    apply list_sum_le. rewrite forallb_forall in Ok.
    rewrite Forall_forall in IH |- *. intros y Hy.
    specialize (Ok y Hy). apply andb_true_iff in Ok as [_ Ok].
    specialize (IH y Hy Ok indent (S level)).
    rewrite !length_app. lia.
Qed.

(** [json.loads] reads back what [json.dumps] wrote, in both layouts. *)
Theorem loads_unbounded_encoded (v : value) (indent : option nat) (level : nat) :
  value_ok v = true -> loads_unbounded (encode indent level v) = Some v.
Proof.
  intros Ok.
  pose proof (weight_le_length v Ok indent level) as W.
  pose proof (scan_unbounded_encoded v Ok indent level [] (2 * length (encode indent level v) + 2)
                eq_refl) as R.
  rewrite app_nil_r in R.
  destruct (encode_head indent level v Ok) as (c & t & E & S).
  apply value_start_facts in S as (Ws & _ & _ & _ & _ & Bom).
  unfold loads_unbounded. rewrite E in *. rewrite Bom.
  rewrite (skip_ws_stop c t Ws). rewrite R by lia. reflexivity.
Qed.

(** ** [strip] of a fenced block *)

Lemma lstrip_stop (c : N) (s : pystr) :
  isspace c = false -> lstrip (c :: s) = c :: s.
Proof. intros H. simpl. now rewrite H. Qed.

(** A text that starts and ends with something else than white space,
    between two line feeds, is what [strip] leaves. *)
Lemma strip_block (c z : N) (body : pystr) :
  isspace c = false -> isspace z = false ->
  strip ([10%N] ++ (c :: body ++ [z]) ++ [10%N]) = c :: body ++ [z].
Proof.
  intros Hc Hz. unfold strip, rstrip. cbn [app].
  change (lstrip (10%N :: ?x)) with (lstrip x).
  rewrite lstrip_stop by assumption.
  change (c :: (body ++ [z]) ++ [10%N]) with ((c :: body ++ [z]) ++ [10%N]).
  rewrite rev_app_distr. cbn [rev app].
  change (lstrip (10%N :: ?x)) with (lstrip x).
  change (c :: body ++ [z]) with ((c :: body) ++ [z]).
  rewrite rev_app_distr. cbn [rev app].
  rewrite lstrip_stop by assumption.
  change (z :: rev body ++ [c]) with ([z] ++ (rev body ++ [c])).
  rewrite rev_app_distr, rev_app_distr, rev_involutive. reflexivity.
Qed.

(** The text of a dict: a brace, something, a brace. *)
Lemma encode_dict_braces (indent : option nat) (level : nat) (d : dict) :
  exists body, encode indent level (VDict d) = 123%N :: body ++ [125%N].
Proof.
  cbn [encode].
  destruct (map _ d) as [|i more].
  - exists []. reflexivity.
  - destruct (encode_items_shape indent level 123 125 (i :: more))
      as (pre & w & post & _ & _ & _ & ->); [discriminate|].
    exists (pre ++ join (44%N :: w) (i :: more) ++ post).
    now rewrite <- !app_assoc.
Qed.

Lemma strip_dict_block (indent : option nat) (level : nat) (d : dict) :
  strip ([10%N] ++ encode indent level (VDict d) ++ [10%N])
  = encode indent level (VDict d).
Proof.
  destruct (encode_dict_braces indent level d) as (body & ->).
  now apply strip_block.
Qed.

End Loads.

(* ================================================================== *)
(** * The scanner's budget is enough *)
(* ================================================================== *)

Section ScanTotal.

Local Open Scope nat_scope.

Lemma skip_ws_length (s : pystr) : length (skip_ws s) <= length s.
Proof.
  induction s as [|c s IH]; simpl; [lia|].
  destruct (is_ws c); simpl; lia.
Qed.

Lemma cons_char_some (c : N) (r : option (pystr * pystr)) (str rest : pystr) :
  cons_char c r = Some (str, rest) ->
  exists str', r = Some (str', rest).
Proof.
  destruct r as [[s' r']|]; simpl; [|discriminate].
  intros H. injection H as _ <-. eauto.
Qed.

(** A scanned string leaves less text than there was. *)
Lemma scanstring_shorter (n : nat) :
  forall s str r, length s <= n ->
    scanstring s = Some (str, r) -> length r < length s.
Proof.
  induction n as [|n IH]; intros s str r L H.
  - destruct s; [discriminate | simpl in L; lia].
  - destruct s as [|c rest]; [discriminate|].
    rewrite scanstring_cons in H. cbn [length] in *.
    destruct (c =? 34)%N.
    { injection H as _ <-. lia. }
    destruct (c =? 92)%N.
    2:{ destruct (c <=? 31)%N; [discriminate|].
        apply cons_char_some in H as (str' & H).
        apply IH in H; [lia | lia]. }
    destruct rest as [|e rest1]; [discriminate|]. cbn [length] in *.
    destruct (e =? 117)%N.
    2:{ destruct (simple_escape e); [|discriminate].
        apply cons_char_some in H as (str' & H).
        apply IH in H; [lia | lia]. }
    destruct rest1 as [|h1 [|h2 [|h3 [|h4 rest2]]]]; try discriminate.
    cbn [length] in *.
    destruct (hex4 h1 h2 h3 h4) as [u1|]; [|discriminate].
    assert (Lone : forall str', cons_char u1 (scanstring rest2) = Some (str', r) ->
                    length r < S (S (S (S (S (S (length rest2))))))).
    { intros str' H'. apply cons_char_some in H' as (s' & H').
      apply IH in H'; [lia | lia]. }
    destruct rest2 as [|b [|u [|g1 [|g2 [|g3 [|g4 [|x rest3]]]]]]];
      try (now apply Lone in H).
    destruct (is_high_surrogate u1 && (b =? 92)%N && (u =? 117)%N);
      [|now apply Lone in H].
    destruct (hex4 g1 g2 g3 g4) as [u2|]; [|discriminate].
    destruct (is_low_surrogate u2); [|now apply Lone in H].
    apply cons_char_some in H as (s' & H).
    apply IH in H; cbn [length] in *; lia.
Qed.

Lemma strip_prefix_length (p s t : pystr) :
  strip_prefix p s = Some t -> length s = length p + length t.
Proof.
  intros H. apply strip_prefix_some in H. subst. apply length_app.
Qed.

Lemma span_digits_length (s ds r : pystr) :
  span_digits s = (ds, r) -> length r <= length s.
Proof.
  revert ds r; induction s as [|c s IH]; intros ds r H; simpl in *.
  - now injection H as <- <-.
  - destruct (isdigit c).
    + destruct (span_digits s) as [ds' r'] eqn:S. injection H as <- <-.
      specialize (IH _ _ eq_refl). lia.
    + injection H as <- <-. simpl. lia.
Qed.

Lemma match_integer_shorter (s ds r : pystr) :
  match_integer s = Some (ds, r) -> length r < length s.
Proof.
  destruct s as [|c s]; [discriminate|]. simpl.
  destruct (c =? 48)%N.
  - intros H. injection H as _ <-. lia.
  - destruct (isdigit c); [|discriminate].
    destruct (span_digits s) as [ds' r'] eqn:S. intros H. injection H as _ <-.
    apply span_digits_length in S. lia.
Qed.

Lemma match_frac_shorter (s ds r : pystr) :
  match_frac s = Some (ds, r) -> length r <= length s.
Proof.
  destruct s as [|dot [|c s]]; try discriminate. simpl.
  destruct ((dot =? 46)%N && isdigit c); [|discriminate].
  destruct (span_digits s) as [ds' r'] eqn:S. intros H. injection H as _ <-.
  apply span_digits_length in S. lia.
Qed.

Lemma match_exp_digits_shorter (s ds r : pystr) :
  match_exp_digits s = Some (ds, r) -> length r <= length s.
Proof.
  unfold match_exp_digits. destruct (span_digits s) as [ds' r'] eqn:S.
  apply span_digits_length in S.
  destruct ds'; [discriminate|]. intros H. now injection H as _ <-.
Qed.

Lemma match_exp_shorter (s : pystr) (x : Z) (r : pystr) :
  match_exp s = Some (x, r) -> length r <= length s.
Proof.
  destruct s as [|e s]; [discriminate|]. simpl.
  destruct ((e =? 101)%N || (e =? 69)%N); [|discriminate].
  destruct s as [|sign s]; [discriminate|].
  destruct (sign =? 45)%N; [|destruct (sign =? 43)%N].
  - destruct (match_exp_digits s) as [[ds r']|] eqn:D; [|discriminate].
    intros H. injection H as _ <-. apply match_exp_digits_shorter in D.
    simpl. lia.
  - destruct (match_exp_digits s) as [[ds r']|] eqn:D; [|discriminate].
    intros H. injection H as _ <-. apply match_exp_digits_shorter in D.
    simpl. lia.
  - destruct (match_exp_digits (sign :: s)) as [[ds r']|] eqn:D; [|discriminate].
    intros H. injection H as _ <-. apply match_exp_digits_shorter in D.
    simpl in *. lia.
Qed.

Lemma match_sign_length (s s1 : pystr) (neg : bool) :
  match_sign s = (neg, s1) -> length s1 <= length s.
Proof.
  destruct s as [|c s]; simpl.
  - intros H. now injection H as _ <-.
  - destruct (c =? 45)%N; intros H; injection H as _ <-; simpl; lia.
Qed.

Lemma match_number_shorter (s : pystr) (v : value) (r : pystr) :
  match_number s = Some (v, r) -> length r < length s.
Proof.
  unfold match_number. destruct (match_sign s) as [neg s1] eqn:S.
  apply match_sign_length in S.
  destruct (match_integer s1) as [[ids s2]|] eqn:I; [|discriminate].
  apply match_integer_shorter in I.
  destruct (match_frac s2) as [[fds s3]|] eqn:F.
  - apply match_frac_shorter in F.
    destruct (match_exp s3) as [[x s4]|] eqn:X.
    + apply match_exp_shorter in X. intros H. injection H as _ <-. lia.
    + intros H. injection H as _ <-. lia.
  - destruct (match_exp s2) as [[x s4]|] eqn:X.
    + apply match_exp_shorter in X. intros H. injection H as _ <-. lia.
    + intros H. injection H as _ <-. lia.
Qed.

Lemma scan_atom_shorter (s : pystr) (v : value) (r : pystr) :
  scan_atom s = Scanned v r -> length r < length s.
Proof.
  unfold scan_atom.
  repeat match goal with
    | |- context [strip_prefix ?p s] =>
        let E := fresh "E" in
        destruct (strip_prefix p s) eqn:E;
        [ apply strip_prefix_length in E; intros H; injection H as _ <-;
          simpl in E; lia | ]
    end.
  destruct (match_number s) as [[v' r']|] eqn:M; [|discriminate].
  intros H. injection H as _ <-. now apply match_number_shorter in M.
Qed.

End ScanTotal.

Section ScanBudget.

Local Open Scope nat_scope.

Lemma elements_unbounded_S (f : nat) (acc : list value) (s : pystr) :
  elements_unbounded (S f) acc s =
  match scan_unbounded f s with
  | Scanned v s1 =>
      match skip_ws s1 with
      | [] => DecodeError
      | c :: s2 =>
          if (c =? 93)%N then Scanned (VList (rev (v :: acc))) s2
          else if (c =? 44)%N then elements_unbounded f (v :: acc) (skip_ws s2)
          else DecodeError
      end
  | DecodeError => DecodeError
  | OutOfFuel => OutOfFuel
  end.
Proof. reflexivity. Qed.

(** Whatever is scanned leaves less text than there was. *)
Lemma scan_shorter (f : nat) :
  (forall s v r, scan_unbounded f s = Scanned v r -> length r < length s)
  /\ (forall acc s v r, members_unbounded f acc s = Scanned v r -> length r < length s)
  /\ (forall acc s v r, elements_unbounded f acc s = Scanned v r -> length r < length s).
Proof.
  induction f as [|f (IHs & IHm & IHe)]; [repeat split; discriminate|].
  assert (Hs : forall s v r, scan_unbounded (S f) s = Scanned v r -> length r < length s).
  { intros [|c rest] v r H; [discriminate|].
    rewrite scan_unbounded_cons in H. cbn [length].
    destruct (c =? 34)%N.
    { destruct (scanstring rest) as [[str r']|] eqn:S; [|discriminate].
      injection H as _ <-. apply (scanstring_shorter _ _ _ _ (le_n _)) in S. lia. }
    pose proof (skip_ws_length rest) as W.
    destruct (c =? 123)%N.
    { destruct (skip_ws rest) as [|c1 r1]; [discriminate|]. cbn [length] in W.
      destruct (c1 =? 125)%N.
      - injection H as _ <-. lia.
      - apply IHm in H. cbn [length] in H. lia. }
    destruct (c =? 91)%N.
    { destruct (skip_ws rest) as [|c1 r1]; [discriminate|]. cbn [length] in W.
      destruct (c1 =? 93)%N.
      - injection H as _ <-. lia.
      - apply IHe in H. cbn [length] in H. lia. }
    apply scan_atom_shorter in H. cbn [length] in H. lia. }
  repeat split; [exact Hs | |].
  - intros acc [|q s1] v r H; [discriminate|].
    rewrite members_unbounded_cons in H. cbn [length].
    destruct (negb (q =? 34)%N); [discriminate|].
    destruct (scanstring s1) as [[key s2]|] eqn:S; [|discriminate].
    apply (scanstring_shorter _ _ _ _ (le_n _)) in S.
    pose proof (skip_ws_length s2) as W2.
    destruct (skip_ws s2) as [|colon s3]; [discriminate|]. cbn [length] in W2.
    destruct (negb (colon =? 58)%N); [discriminate|].
    pose proof (skip_ws_length s3) as W3.
    destruct (scan_unbounded f (skip_ws s3)) as [v' s4| |] eqn:V; try discriminate.
    apply IHs in V. cbv zeta in H.
    pose proof (skip_ws_length s4) as W4.
    destruct (skip_ws s4) as [|c s5]; [discriminate|]. cbn [length] in W4.
    destruct (c =? 125)%N.
    + injection H as _ <-. lia.
    + destruct (c =? 44)%N; [|discriminate].
      apply IHm in H. pose proof (skip_ws_length s5). lia.
  - intros acc s v r H. rewrite elements_unbounded_S in H.
    destruct (scan_unbounded f s) as [v' s1| |] eqn:V; try discriminate.
    apply IHs in V. pose proof (skip_ws_length s1) as W1.
    destruct (skip_ws s1) as [|c s2]; [discriminate|]. cbn [length] in W1.
    destruct (c =? 93)%N.
    + injection H as _ <-. lia.
    + destruct (c =? 44)%N; [|discriminate].
      apply IHe in H. pose proof (skip_ws_length s2). lia.
Qed.

(** On a text of at most [n] characters, [2n+1] rounds are enough for a
    value and [2n+2] for the rest of an object or an array. *)
Lemma scan_budget (n : nat) :
  forall s, length s <= n ->
    (forall f, 2 * n + 1 <= f -> scan_unbounded f s <> OutOfFuel)
    /\ (forall f acc, 2 * n + 2 <= f -> members_unbounded f acc s <> OutOfFuel)
    /\ (forall f acc, 2 * n + 2 <= f -> elements_unbounded f acc s <> OutOfFuel).
Proof.
  induction n as [n IH] using lt_wf_ind. intros s L.
  assert (Hs : forall f, 2 * n + 1 <= f -> scan_unbounded f s <> OutOfFuel).
  { intros [|f] Hf; [lia|]. destruct s as [|c rest]; [discriminate|].
    cbn [length] in L. rewrite scan_unbounded_cons.
    destruct (c =? 34)%N.
    { now destruct (scanstring rest) as [[str r']|]. }
    pose proof (skip_ws_length rest) as W.
    destruct (c =? 123)%N.
    { destruct (skip_ws rest) as [|c1 r1] eqn:E; [discriminate|].
      destruct (c1 =? 125)%N; [discriminate|].
      apply (IH (n - 1)); [lia | lia | lia]. }
    destruct (c =? 91)%N.
    { destruct (skip_ws rest) as [|c1 r1] eqn:E; [discriminate|].
      destruct (c1 =? 93)%N; [discriminate|].
      apply (IH (n - 1)); [lia | lia | lia]. }
    unfold scan_atom.
    repeat match goal with
      | |- context [strip_prefix ?p (c :: rest)] =>
          destruct (strip_prefix p (c :: rest)); [discriminate|]
      end.
    now destruct (match_number (c :: rest)) as [[v r]|]. }
  repeat split; [exact Hs | |].
  - intros [|f] acc Hf; [lia|]. destruct s as [|q s1]; [discriminate|].
    cbn [length] in L. rewrite members_unbounded_cons.
    destruct (negb (q =? 34)%N); [discriminate|].
    destruct (scanstring s1) as [[key s2]|] eqn:S; [|discriminate].
    apply (scanstring_shorter _ _ _ _ (le_n _)) in S.
    pose proof (skip_ws_length s2) as W2.
    destruct (skip_ws s2) as [|colon s3]; [discriminate|]. cbn [length] in W2.
    destruct (negb (colon =? 58)%N); [discriminate|].
    pose proof (skip_ws_length s3) as W3.
    destruct (scan_unbounded f (skip_ws s3)) as [v' s4| |] eqn:V.
    + apply (proj1 (scan_shorter f)) in V. cbv zeta.
      pose proof (skip_ws_length s4) as W4.
      destruct (skip_ws s4) as [|c s5]; [discriminate|]. cbn [length] in W4.
      destruct (c =? 125)%N; [discriminate|].
      destruct (c =? 44)%N; [|discriminate].
      pose proof (skip_ws_length s5).
      apply (IH (n - 1)); [lia | lia | lia].
    + discriminate.
    + exfalso. revert V. apply (IH (n - 1)); [lia | lia | lia].
  - intros [|f] acc Hf; [lia|]. rewrite elements_unbounded_S.
    destruct (scan_unbounded f s) as [v' s1| |] eqn:V.
    + apply (proj1 (scan_shorter f)) in V.
      pose proof (skip_ws_length s1) as W1.
      destruct (skip_ws s1) as [|c s2]; [discriminate|]. cbn [length] in W1.
      destruct (c =? 93)%N; [discriminate|].
      destruct (c =? 44)%N; [|discriminate].
      pose proof (skip_ws_length s2).
      apply (IH (n - 1)); [lia | lia | lia].
    + discriminate.
    + exfalso. revert V. apply Hs. lia.
Qed.

(** [loads_unbounded] never runs out of budget: when it gives [None], the
    scanner has found a decode error. *)
Theorem scan_unbounded_total (s : pystr) :
  scan_unbounded (2 * length s + 2) (skip_ws s) <> OutOfFuel.
Proof.
  apply (scan_budget (length s)); [apply skip_ws_length | lia].
Qed.

End ScanBudget.

(* ================================================================== *)
(** ** White space around a text *)
(* ================================================================== *)

Section Padding.

Local Open Scope nat_scope.

Lemma lstrip_spaces (w s : pystr) :
  forallb isspace w = true -> lstrip (w ++ s) = lstrip s.
Proof.
  induction w as [|c w IH]; [reflexivity|]. cbn [forallb app lstrip].
  intros H. apply andb_true_iff in H as [-> H]. now apply IH.
Qed.

(** [lstrip] stops in the first part when that holds something else than
    white space. *)
Lemma lstrip_app (u v : pystr) :
  forallb isspace u = false -> lstrip (u ++ v) = lstrip u ++ v.
Proof.
  induction u as [|c u IH]; [discriminate|]. cbn [forallb app lstrip].
  destruct (isspace c); [|reflexivity]. cbn [andb]. apply IH.
Qed.

Lemma lstrip_head (s : pystr) (c : N) (t : pystr) :
  lstrip s = c :: t -> isspace c = false.
Proof.
  induction s as [|x s IH]; [discriminate|]. cbn [lstrip].
  destruct (isspace x) eqn:X; [assumption|]. intros H. now injection H as <- _.
Qed.

Lemma lstrip_nonempty (u : pystr) :
  forallb isspace u = false -> lstrip u <> [].
Proof.
  induction u as [|c u IH]; [discriminate|]. cbn [forallb lstrip].
  destruct (isspace c); [exact IH | discriminate].
Qed.

Lemma forallb_rev {A} (f : A -> bool) (l : list A) :
  forallb f (rev l) = forallb f l.
Proof.
  induction l as [|x l IH]; [reflexivity|]. cbn [rev forallb].
  rewrite forallb_app, IH. cbn [forallb]. rewrite andb_true_r. apply andb_comm.
Qed.

Lemma rstrip_spaces (s w : pystr) :
  forallb isspace w = true -> rstrip (s ++ w) = rstrip s.
Proof.
  intros H. unfold rstrip. rewrite rev_app_distr, lstrip_spaces; [reflexivity|].
  now rewrite forallb_rev.
Qed.

(** [rstrip] stops in the last part when that holds something else than
    white space. *)
Lemma rstrip_app (s tail : pystr) :
  forallb isspace tail = false -> rstrip (s ++ tail) = s ++ rstrip tail.
Proof.
  intros H. unfold rstrip. rewrite rev_app_distr, lstrip_app.
  - now rewrite rev_app_distr, rev_involutive.
  - now rewrite forallb_rev.
Qed.

Lemma rstrip_last (s : pystr) (z : N) :
  isspace z = false -> rstrip (s ++ [z]) = s ++ [z].
Proof.
  intros H. unfold rstrip. rewrite rev_app_distr. cbn [rev app].
  rewrite lstrip_stop by assumption. cbn [rev]. now rewrite rev_involutive.
Qed.

(** What [rstrip] leaves of a text that is not all white space ends with
    something else than white space. *)
Lemma rstrip_ends (tail : pystr) :
  forallb isspace tail = false ->
  exists t z, rstrip tail = t ++ [z] /\ isspace z = false.
Proof.
  intros H. unfold rstrip. rewrite <- forallb_rev in H.
  pose proof (lstrip_nonempty _ H) as N.
  destruct (lstrip (rev tail)) as [|z t] eqn:E; [congruence|].
  exists (rev t), z. split; [reflexivity|]. now apply lstrip_head in E.
Qed.

(** [strip] of a text that starts and ends with something else than white
    space, with white space around it, is the text. *)
Lemma strip_padded (w1 w2 t : pystr) (c z : N) (body : pystr) :
  forallb isspace w1 = true -> forallb isspace w2 = true ->
  c :: body = t ++ [z] -> isspace c = false -> isspace z = false ->
  strip (w1 ++ (c :: body) ++ w2) = c :: body.
Proof.
  intros W1 W2 E Hc Hz. unfold strip.
  rewrite lstrip_spaces by assumption. cbn [app].
  rewrite lstrip_stop by assumption.
  change (c :: body ++ w2) with ((c :: body) ++ w2).
  rewrite rstrip_spaces by assumption. rewrite E. now apply rstrip_last.
Qed.

Lemma strip_tight (t : pystr) (c z : N) (body : pystr) :
  c :: body = t ++ [z] -> isspace c = false -> isspace z = false ->
  strip (c :: body) = c :: body.
Proof.
  intros E Hc Hz.
  pose proof (strip_padded [] [] t c z body eq_refl eq_refl E Hc Hz) as S.
  cbn [app] in S. now rewrite app_nil_r in S.
Qed.

(** The scanner's white space is white space for [strip]. *)
Lemma is_ws_isspace (c : N) : is_ws c = true -> isspace c = true.
Proof.
  unfold is_ws, isspace. intros H.
  repeat (apply orb_true_iff in H as [H|H]); apply N.eqb_eq in H; subst;
    reflexivity.
Qed.

Lemma skip_ws_keeps (t : pystr) (z : N) :
  isspace z = false -> skip_ws (t ++ [z]) <> [].
Proof.
  intros H. induction t as [|c t IH]; cbn [app skip_ws].
  - destruct (is_ws z) eqn:W; [|discriminate].
    apply is_ws_isspace in W. congruence.
  - destruct (is_ws c); [exact IH | discriminate].
Qed.

End Padding.

(* ================================================================== *)
(** ** Where a fence can start *)
(* ================================================================== *)

Section FenceStarts.

Local Open Scope nat_scope.

Lemma isspace_not_backtick (c : N) : isspace c = true -> (96 =? c)%N = false.
Proof.
  intros H. destruct (N.eqb_spec 96 c); [subst; discriminate | reflexivity].
Qed.

(** No fence starts in white space. *)
Lemma contains_after_spaces (w s : pystr) :
  forallb isspace w = true -> contains FENCE (w ++ s) = contains FENCE s.
Proof.
  intros W. unfold contains. rewrite partition_skip.
  - now destruct (partition FENCE s) as [[p q]|].
  - intros a b -> Hb. rewrite forallb_app in W.
    apply andb_true_iff in W as [_ W].
    destruct b as [|c b]; [congruence|].
    cbn [forallb] in W. apply andb_true_iff in W as [W _].
    rewrite FENCE_unfold. cbn [app strip_prefix].
    now rewrite (isspace_not_backtick c W).
Qed.

(** A fence does not start in a text without fences that is followed by
    white space. *)
Lemma fence_not_over_spaces (b w : pystr) :
  strip_prefix FENCE b = None -> forallb isspace w = true ->
  strip_prefix FENCE (b ++ w) = None.
Proof.
  intros H W. rewrite FENCE_unfold in *.
  assert (Hw : match w with
               | c :: _ => (96 =? c)%N = false
               | [] => True
               end).
  { destruct w as [|c w]; [exact I|].
    cbn [forallb] in W. apply andb_true_iff in W as [W _].
    now apply isspace_not_backtick. }
  destruct b as [|c0 b]; cbn [app strip_prefix].
  { destruct w as [|c w]; [reflexivity|]. now rewrite Hw. }
  destruct (N.eqb_spec 96 c0); [subst|reflexivity].
  destruct b as [|c1 b]; cbn [app strip_prefix].
  { destruct w as [|c w]; [reflexivity|]. now rewrite Hw. }
  destruct (N.eqb_spec 96 c1); [subst|reflexivity].
  destruct b as [|c2 b]; cbn [app strip_prefix].
  { destruct w as [|c w]; [reflexivity|]. now rewrite Hw. }
  destruct (N.eqb_spec 96 c2); [subst|reflexivity].
  exfalso. cbn in H. discriminate.
Qed.

(** Two ways to cut the same text: one cut is inside the other's second
    part, or the other way round. *)
Lemma app_eq_app_cases {A} (s w a b : list A) :
  s ++ w = a ++ b ->
  (exists b', b = b' ++ w /\ s = a ++ b')
  \/ (exists a', a = s ++ a' /\ w = a' ++ b).
Proof.
  revert a; induction s as [|x s IH]; intros a E.
  - right. exists a. now split.
  - destruct a as [|y a].
    + left. exists (x :: s). now split.
    + cbn [app] in E. injection E as -> E.
      destruct (IH a E) as [(b' & -> & ->)|(a' & -> & ->)].
      * left. now exists b'.
      * right. now exists a'.
Qed.

(** White space after a text without fences brings no fence. *)
Lemma contains_before_spaces (s w : pystr) :
  contains FENCE s = false -> forallb isspace w = true ->
  contains FENCE (s ++ w) = false.
Proof.
  intros C W. rewrite contains_false in *. intros a b E.
  destruct (app_eq_app_cases _ _ _ _ E) as [(b' & -> & ->)|(a' & -> & ->)].
  - apply fence_not_over_spaces; [|assumption]. now apply (C a b').
  - rewrite forallb_app in W. apply andb_true_iff in W as [_ W].
    destruct b as [|c b]; [reflexivity|].
    cbn [forallb] in W. apply andb_true_iff in W as [W _].
    rewrite FENCE_unfold. cbn [strip_prefix].
    now rewrite (isspace_not_backtick c W).
Qed.

Lemma contains_padded (w1 s w2 : pystr) :
  contains FENCE s = false ->
  forallb isspace w1 = true -> forallb isspace w2 = true ->
  contains FENCE (w1 ++ s ++ w2) = false.
Proof.
  intros C W1 W2. rewrite contains_after_spaces by assumption.
  now apply contains_before_spaces.
Qed.

(** What [first_chunk] returns is the start of the text. *)
Lemma first_chunk_prefix (sep s : pystr) :
  exists rest, s = first_chunk sep s ++ rest.
Proof.
  unfold first_chunk. destruct (partition sep s) as [[p q]|] eqn:P.
  - apply partition_sound in P. now exists (sep ++ q).
  - exists []. now rewrite app_nil_r.
Qed.

Lemma first_chunk_no_fence (s : pystr) :
  contains FENCE (first_chunk FENCE s) = false.
Proof.
  unfold first_chunk. destruct (partition FENCE s) as [[p q]|] eqn:P.
  - apply (partition_first_clean FENCE s p q FENCE_nonempty P).
  - unfold contains. now rewrite P.
Qed.

End FenceStarts.

(* ================================================================== *)
(** ** The ends of an encoded value *)
(* ================================================================== *)

Section EncodedEnds.

Local Open Scope nat_scope.

Local Abbreviation solid := (fun c : N => negb (isspace c)).

Lemma digit_solid (c : N) : isdigit c = true -> solid c = true.
Proof.
  intros H. apply digit_value_start, value_start_facts in H as (_ & -> & _).
  reflexivity.
Qed.

Lemma digits_solid (ds : pystr) :
  forallb isdigit ds = true -> forallb solid ds = true.
Proof.
  induction ds as [|c ds IH]; [reflexivity|]. cbn [forallb].
  intros H. apply andb_true_iff in H as [H1 H2].
  now rewrite (digit_solid c H1), IH.
Qed.

Lemma span_digits_split (s ds r : pystr) :
  span_digits s = (ds, r) -> s = ds ++ r /\ forallb isdigit ds = true.
Proof.
  revert ds r; induction s as [|c s IH]; intros ds r H; cbn [span_digits] in H.
  - injection H as <- <-. now split.
  - destruct (isdigit c) eqn:D.
    + destruct (span_digits s) as [ds' r'] eqn:S. injection H as <- <-.
      destruct (IH _ _ eq_refl) as [-> F]. cbn [forallb]. now rewrite D.
    + injection H as <- <-. now split.
Qed.

Lemma match_integer_split (s ds r : pystr) :
  match_integer s = Some (ds, r) -> s = ds ++ r /\ forallb solid ds = true.
Proof.
  destruct s as [|c s]; [discriminate|]. cbn [match_integer].
  destruct (N.eqb_spec c 48) as [->|_].
  - intros H. injection H as <- <-. now split.
  - destruct (isdigit c) eqn:D; [|discriminate].
    destruct (span_digits s) as [ds' r'] eqn:S. intros H. injection H as <- <-.
    apply span_digits_split in S as [-> F]. split; [reflexivity|].
    cbn [forallb]. now rewrite (digit_solid c D), (digits_solid _ F).
Qed.

Lemma match_frac_split (s ds r : pystr) :
  match_frac s = Some (ds, r) ->
  exists p, s = p ++ r /\ forallb solid p = true.
Proof.
  destruct s as [|dot [|c s]]; try discriminate. cbn [match_frac].
  destruct (N.eqb_spec dot 46) as [->|_]; [|discriminate].
  destruct (isdigit c) eqn:D; [|discriminate]. cbn [andb].
  destruct (span_digits s) as [ds' r'] eqn:S. intros H. injection H as <- <-.
  apply span_digits_split in S as [-> F]. exists (46%N :: c :: ds').
  split; [reflexivity|]. cbn [forallb].
  now rewrite (digit_solid c D), (digits_solid _ F).
Qed.

Lemma match_exp_digits_split (s ds r : pystr) :
  match_exp_digits s = Some (ds, r) -> s = ds ++ r /\ forallb solid ds = true.
Proof.
  unfold match_exp_digits. destruct (span_digits s) as [ds' r'] eqn:S.
  apply span_digits_split in S as [-> F].
  destruct ds'; [discriminate|]. intros H. injection H as <- <-.
  split; [reflexivity|]. now apply digits_solid.
Qed.

Lemma match_exp_split (s : pystr) (x : Z) (r : pystr) :
  match_exp s = Some (x, r) ->
  exists p, s = p ++ r /\ forallb solid p = true.
Proof.
  destruct s as [|e s]; [discriminate|]. cbn [match_exp].
  destruct ((e =? 101)%N || (e =? 69)%N) eqn:E; [|discriminate].
  assert (He : solid e = true).
  { apply orb_true_iff in E as [E|E]; apply N.eqb_eq in E; now subst. }
  destruct s as [|sign s]; [discriminate|].
  destruct (N.eqb_spec sign 45) as [->|_]; [|destruct (N.eqb_spec sign 43) as [->|_]].
  - destruct (match_exp_digits s) as [[ds r']|] eqn:D; [|discriminate].
    intros H. injection H as _ <-. apply match_exp_digits_split in D as [-> F].
    exists (e :: 45%N :: ds). split; [reflexivity|]. cbn [forallb].
    now rewrite He, F.
  - destruct (match_exp_digits s) as [[ds r']|] eqn:D; [|discriminate].
    intros H. injection H as _ <-. apply match_exp_digits_split in D as [-> F].
    exists (e :: 43%N :: ds). split; [reflexivity|]. cbn [forallb].
    now rewrite He, F.
  - destruct (match_exp_digits (sign :: s)) as [[ds r']|] eqn:D; [|discriminate].
    intros H. injection H as _ <-. apply match_exp_digits_split in D as [-> F].
    exists (e :: ds). split; [reflexivity|]. cbn [forallb]. now rewrite He, F.
Qed.

(** The text that the number pattern takes holds no white space. *)
Lemma match_number_split (s : pystr) (v : value) (r : pystr) :
  match_number s = Some (v, r) ->
  exists p, s = p ++ r /\ forallb solid p = true.
Proof.
  unfold match_number. destruct (match_sign s) as [neg s1] eqn:S.
  assert (Hs : exists p0, s = p0 ++ s1 /\ forallb solid p0 = true).
  { destruct s as [|c s]; cbn [match_sign] in S.
    - injection S as <- <-. now exists [].
    - destruct (N.eqb_spec c 45) as [->|_]; injection S as <- <-;
        [now exists [45%N] | now exists []]. }
  destruct Hs as (p0 & -> & F0).
  destruct (match_integer s1) as [[ids s2]|] eqn:I; [|discriminate].
  apply match_integer_split in I as [-> F1].
  assert (K : forall s4, (exists p, s2 = p ++ s4 /\ forallb solid p = true) ->
              exists p, p0 ++ ids ++ s2 = p ++ s4 /\ forallb solid p = true).
  { intros s4 (p & -> & F). exists (p0 ++ ids ++ p).
    split; [now rewrite <- !app_assoc|]. now rewrite !forallb_app, F0, F1, F. }
  destruct (match_frac s2) as [[fds s3]|] eqn:F.
  - apply match_frac_split in F as (pf & -> & Ff).
    destruct (match_exp s3) as [[x s4]|] eqn:X.
    + apply match_exp_split in X as (px & -> & Fx).
      intros H. injection H as _ <-. apply K. exists (pf ++ px).
      split; [now rewrite <- app_assoc|]. now rewrite forallb_app, Ff, Fx.
    + intros H. injection H as _ <-. apply K. now exists pf.
  - destruct (match_exp s2) as [[x s4]|] eqn:X.
    + apply match_exp_split in X as (px & -> & Fx).
      intros H. injection H as _ <-. apply K. now exists px.
    + intros H. injection H as _ <-. apply K. exists []. now split.
Qed.

Lemma solid_last (s : pystr) :
  s <> [] -> forallb solid s = true ->
  exists t z, s = t ++ [z] /\ isspace z = false.
Proof.
  intros N F. destruct (exists_last N) as (t & z & ->).
  exists t, z. split; [reflexivity|].
  rewrite forallb_app in F. apply andb_true_iff in F as [_ F].
  cbn [forallb] in F. rewrite andb_true_r in F. now apply negb_true_iff in F.
Qed.

Lemma number_text_last (s : pystr) (v : value) :
  match_number s = Some (v, []) ->
  exists t z, s = t ++ [z] /\ isspace z = false.
Proof.
  intros H. pose proof (match_number_shorter _ _ _ H) as L.
  apply match_number_split in H as (p & -> & F). rewrite app_nil_r in *.
  apply solid_last; [|assumption]. intros ->. simpl in L. lia.
Qed.

Lemma encode_items_last (indent : option nat) (level : nat)
    (open close : N) (items : list pystr) :
  exists t, encode_items indent level open close items = t ++ [close].
Proof.
  destruct items as [|i items]; [now exists [open]|].
  unfold encode_items. destruct indent as [ind|].
  - exists (open :: newline_indent ind (S level)
              ++ join (44%N :: newline_indent ind (S level)) (i :: items)
              ++ newline_indent ind level).
    cbn [app]. now rewrite <- !app_assoc.
  - exists (open :: join (lit ", ") (i :: items)). reflexivity.
Qed.

(** Every encoded value ends with something else than white space. *)
Lemma encode_last (indent : option nat) (level : nat) (v : value) :
  value_ok v = true ->
  exists t z, encode indent level v = t ++ [z] /\ isspace z = false.
Proof.
  intros Ok. destruct v as [ | [|] | z | x | s | l | d]; cbn [encode].
  - now exists (lit "nul"), 108%N.
  - now exists (lit "tru"), 101%N.
  - now exists (lit "fals"), 101%N.
  - apply (number_text_last _ (VInt z)), match_number_int.
  - apply (number_text_last _ (VFloat x)), float_ok_reads. exact Ok.
  - unfold encode_string. exists (34%N :: flat_map escape_char s), 34%N.
    now split.
  - destruct (encode_items_last indent level 91 93
                (map (encode indent (S level)) l)) as (t & ->).
    now exists t, 93%N.
  - destruct (encode_items_last indent level 123 125
                (map (fun kv => encode_string (fst kv) ++ lit ": "
                        ++ encode indent (S level) (snd kv)) d)) as (t & ->).
    now exists t, 125%N.
Qed.

(** [strip] takes the white space around an encoded value, and nothing of
    the value. *)
Lemma strip_encoded (indent : option nat) (level : nat) (v : value)
    (w1 w2 : pystr) :
  value_ok v = true ->
  forallb isspace w1 = true -> forallb isspace w2 = true ->
  strip (w1 ++ encode indent level v ++ w2) = encode indent level v.
Proof.
  intros Ok W1 W2.
  destruct (encode_head indent level v Ok) as (c & body & E & S).
  destruct (encode_last indent level v Ok) as (t & z & E' & Hz).
  apply value_start_facts in S as (_ & Hc & _).
  rewrite E. apply (strip_padded w1 w2 t c z body); try assumption.
  congruence.
Qed.

End EncodedEnds.

(* ================================================================== *)
(** ** What every parsed value is like *)
(* ================================================================== *)

Section ParsedValues.

Local Open Scope nat_scope.

(** Assigning to a key leaves the other keys as they are. *)
Lemma dict_set_other_keys (d : dict) (k x : pystr) (v : value) :
  PyStr.eqb x k = false ->
  existsb (PyStr.eqb x) (map fst (dict_set d k v))
  = existsb (PyStr.eqb x) (map fst d).
Proof.
  intros H. induction d as [|[k' v'] d IH]; cbn [dict_set map fst existsb].
  - now rewrite H.
  - destruct (PyStr.eqb k' k); cbn [map fst existsb]; [reflexivity|].
    now rewrite IH.
Qed.

Lemma dict_set_keys_unique (d : dict) (k : pystr) (v : value) :
  unique_keys (map fst d) = true ->
  unique_keys (map fst (dict_set d k v)) = true.
Proof.
  induction d as [|[k' v'] d IH]; [reflexivity|].
  cbn [dict_set map fst unique_keys]. intros H.
  apply andb_true_iff in H as [H1 H2].
  destruct (PyStr.eqb k' k) eqn:E; cbn [map fst unique_keys].
  - now rewrite H1, H2.
  - rewrite dict_set_other_keys by assumption. now rewrite H1, IH.
Qed.

Lemma dict_set_values (P : value -> bool) (d : dict) (k : pystr) (v : value) :
  forallb (fun kv => P (snd kv)) d = true -> P v = true ->
  forallb (fun kv => P (snd kv)) (dict_set d k v) = true.
Proof.
  intros H Hv. induction d as [|[k' v'] d IH]; cbn [dict_set forallb snd].
  - now rewrite Hv.
  - cbn [forallb snd] in H. apply andb_true_iff in H as [H1 H2].
    destruct (PyStr.eqb k' k); cbn [forallb snd].
    + now rewrite Hv, H2.
    + now rewrite H1, IH.
Qed.

Lemma dict_set_keeps_unique (d : dict) (k : pystr) (v : value) :
  keys_unique (VDict d) = true -> keys_unique v = true ->
  keys_unique (VDict (dict_set d k v)) = true.
Proof.
  intros H Hv.
  change (unique_keys (map fst d)
          && forallb (fun kv => keys_unique (snd kv)) d = true) in H.
  change (unique_keys (map fst (dict_set d k v))
          && forallb (fun kv => keys_unique (snd kv)) (dict_set d k v) = true).
  apply andb_true_iff in H as [H1 H2].
  rewrite dict_set_keys_unique by assumption.
  now rewrite (dict_set_values keys_unique).
Qed.

(** Looking up a key after assigning to it gives the value assigned. *)
Lemma dict_lookup_set (d : dict) (k : pystr) (v : value) :
  dict_lookup (dict_set d k v) k = Some v.
Proof.
  induction d as [|[k' v'] d IH]; cbn [dict_set dict_lookup].
  - now rewrite eqb_refl.
  - destruct (PyStr.eqb k' k) eqn:E; cbn [dict_lookup]; now rewrite E.
Qed.

Lemma match_number_plain (s : pystr) (v : value) (r : pystr) :
  match_number s = Some (v, r) -> keys_unique v = true.
Proof.
  unfold match_number. destruct (match_sign s) as [neg s1].
  destruct (match_integer s1) as [[ids s2]|]; [|discriminate].
  destruct (match_frac s2) as [[fds s3]|];
    destruct (match_exp _) as [[x s4]|];
    intros H; injection H as <- _; reflexivity.
Qed.

Lemma scan_atom_plain (s : pystr) (v : value) (r : pystr) :
  scan_atom s = Scanned v r -> keys_unique v = true.
Proof.
  unfold scan_atom.
  repeat match goal with
         | |- context [strip_prefix ?p s] =>
             destruct (strip_prefix p s);
             [intros H; injection H as <- _; reflexivity|]
         end.
  destruct (match_number s) as [[v' r']|] eqn:M; [|discriminate].
  intros H. injection H as <- _. now apply match_number_plain in M.
Qed.

(** The scanner builds objects by assignment, so what it returns has each
    key once. *)
Lemma scan_keys_unique (f : nat) :
  (forall s v r, scan_unbounded f s = Scanned v r -> keys_unique v = true)
  /\ (forall acc s v r, keys_unique (VDict acc) = true ->
        members_unbounded f acc s = Scanned v r -> keys_unique v = true)
  /\ (forall acc s v r, forallb keys_unique acc = true ->
        elements_unbounded f acc s = Scanned v r -> keys_unique v = true).
Proof.
  induction f as [|f (IH1 & IH2 & IH3)];
    [repeat split; intros; discriminate|].
  split; [|split].
  - intros [|c rest] v r; [discriminate|]. rewrite scan_unbounded_cons.
    destruct (c =? 34)%N.
    { destruct (scanstring rest) as [[str r']|]; [|discriminate].
      intros H. injection H as <- _. reflexivity. }
    destruct (c =? 123)%N.
    { destruct (skip_ws rest) as [|c1 r1]; [discriminate|].
      destruct (c1 =? 125)%N.
      - intros H. injection H as <- _. reflexivity.
      - now apply IH2. }
    destruct (c =? 91)%N.
    { destruct (skip_ws rest) as [|c1 r1]; [discriminate|].
      destruct (c1 =? 93)%N.
      - intros H. injection H as <- _. reflexivity.
      - now apply IH3. }
    apply scan_atom_plain.
  - intros acc [|q s1] v r A; [discriminate|]. rewrite members_unbounded_cons.
    destruct (negb (q =? 34)%N); [discriminate|].
    destruct (scanstring s1) as [[key s2]|]; [|discriminate].
    destruct (skip_ws s2) as [|colon s3]; [discriminate|].
    destruct (negb (colon =? 58)%N); [discriminate|].
    destruct (scan_unbounded f (skip_ws s3)) as [v0 s4| |] eqn:V; try discriminate.
    apply IH1 in V. cbv zeta.
    pose proof (dict_set_keeps_unique acc key v0 A V) as A'.
    destruct (skip_ws s4) as [|c s5]; [discriminate|].
    destruct (c =? 125)%N.
    + intros H. now injection H as <- _.
    + destruct (c =? 44)%N; [|discriminate]. now apply IH2.
  - intros acc s v r A. rewrite elements_unbounded_S.
    destruct (scan_unbounded f s) as [v0 s1| |] eqn:V; try discriminate.
    apply IH1 in V.
    destruct (skip_ws s1) as [|c s2]; [discriminate|].
    destruct (c =? 93)%N.
    + intros H. injection H as <- _.
      change (forallb keys_unique (rev (v0 :: acc)) = true).
      rewrite forallb_rev. cbn [forallb]. now rewrite V, A.
    + destruct (c =? 44)%N; [|discriminate]. apply IH3.
      cbn [forallb]. now rewrite V, A.
Qed.

End ParsedValues.

(* ================================================================== *)
(** * The decoder under the interpreter's limits *)
(* ================================================================== *)

Section LimitedScan.

Local Open Scope nat_scope.

Variable py : interpreter.

Lemma scan_once_cons (depth f : nat) (c : N) (rest : pystr) :
  scan_once py depth (S f) (c :: rest) =
  if (c =? 34)%N then
    match scanstring rest with
    | Some (str, r) => Loaded (VStr str) r
    | None => Malformed
    end
  else if (c =? 123)%N then
    match depth with
    | O => Exceeded (RecursionLimit c)
    | S d =>
        match skip_ws rest with
        | [] => Malformed
        | c1 :: r =>
            if (c1 =? 125)%N then Loaded (VDict []) r
            else parse_members py d f [] (c1 :: r)
        end
    end
  else if (c =? 91)%N then
    match depth with
    | O => Exceeded (RecursionLimit c)
    | S d =>
        match skip_ws rest with
        | [] => Malformed
        | c1 :: r =>
            if (c1 =? 93)%N then Loaded (VList []) r
            else parse_elements py d f [] (c1 :: r)
        end
    end
  else scan_atom_limited py (c :: rest).
Proof. reflexivity. Qed.

Lemma parse_members_cons (depth f : nat) (acc : dict) (q : N) (s1 : pystr) :
  parse_members py depth (S f) acc (q :: s1) =
  if negb (q =? 34)%N then Malformed
  else
    match scanstring s1 with
    | None => Malformed
    | Some (key, s2) =>
        match skip_ws s2 with
        | [] => Malformed
        | colon :: s3 =>
            if negb (colon =? 58)%N then Malformed
            else
              match scan_once py depth f (skip_ws s3) with
              | Loaded v s4 =>
                  let acc' := dict_set acc key v in
                  match skip_ws s4 with
                  | [] => Malformed
                  | c :: s5 =>
                      if (c =? 125)%N then Loaded (VDict acc') s5
                      else if (c =? 44)%N
                      then parse_members py depth f acc' (skip_ws s5)
                      else Malformed
                  end
              | Malformed => Malformed
              | Exceeded e => Exceeded e
              | NoFuel => NoFuel
              end
        end
    end.
Proof. reflexivity. Qed.

Lemma parse_elements_S (depth f : nat) (acc : list value) (s : pystr) :
  parse_elements py depth (S f) acc s =
  match scan_once py depth f s with
  | Loaded v s1 =>
      match skip_ws s1 with
      | [] => Malformed
      | c :: s2 =>
          if (c =? 93)%N then Loaded (VList (rev (v :: acc))) s2
          else if (c =? 44)%N
          then parse_elements py depth f (v :: acc) (skip_ws s2)
          else Malformed
      end
  | Malformed => Malformed
  | Exceeded e => Exceeded e
  | NoFuel => NoFuel
  end.
Proof. reflexivity. Qed.

Lemma scan_atom_agrees (s : pystr) : agrees (scan_atom_limited py s) (scan_atom s).
Proof.
  unfold scan_atom_limited.
  destruct (scan_atom s) as [[ | b | z | x | t | l | d] r| |]; try reflexivity.
  now destruct (exceeds py (literal_digits s)).
Qed.

Lemma scan_agrees (f : nat) :
  (forall depth s, agrees (scan_once py depth f s) (scan_unbounded f s))
  /\ (forall depth acc s,
        agrees (parse_members py depth f acc s) (members_unbounded f acc s))
  /\ (forall depth acc s,
        agrees (parse_elements py depth f acc s) (elements_unbounded f acc s)).
Proof.
  induction f as [|f (IHs & IHm & IHe)]; [repeat split; reflexivity|].
  split; [|split].
  - intros depth [|c rest]; [reflexivity|].
    rewrite scan_once_cons, scan_unbounded_cons.
    destruct (c =? 34)%N.
    { now destruct (scanstring rest) as [[str r]|]. }
    destruct (c =? 123)%N.
    { destruct depth as [|d]; [exact I|].
      destruct (skip_ws rest) as [|c1 r]; [reflexivity|].
      destruct (c1 =? 125)%N; [reflexivity | apply IHm]. }
    destruct (c =? 91)%N.
    { destruct depth as [|d]; [exact I|].
      destruct (skip_ws rest) as [|c1 r]; [reflexivity|].
      destruct (c1 =? 93)%N; [reflexivity | apply IHe]. }
    apply scan_atom_agrees.
  - intros depth acc [|q s1]; [reflexivity|].
    rewrite parse_members_cons, members_unbounded_cons.
    destruct (negb (q =? 34)%N); [reflexivity|].
    destruct (scanstring s1) as [[key s2]|]; [|reflexivity].
    destruct (skip_ws s2) as [|colon s3]; [reflexivity|].
    destruct (negb (colon =? 58)%N); [reflexivity|].
    specialize (IHs depth (skip_ws s3)).
    destruct (scan_once py depth f (skip_ws s3)) as [v s4| |e|];
      cbn [agrees] in IHs; try rewrite IHs; try reflexivity.
    cbv zeta. destruct (skip_ws s4) as [|c s5]; [reflexivity|].
    destruct (c =? 125)%N; [reflexivity|].
    destruct (c =? 44)%N; [apply IHm | reflexivity].
  - intros depth acc s.
    rewrite parse_elements_S, elements_unbounded_S.
    specialize (IHs depth s).
    destruct (scan_once py depth f s) as [v s1| |e|];
      cbn [agrees] in IHs; try rewrite IHs; try reflexivity.
    destruct (skip_ws s1) as [|c s2]; [reflexivity|].
    destruct (c =? 93)%N; [reflexivity|].
    destruct (c =? 44)%N; [apply IHe | reflexivity].
Qed.

(** [json_loads] never runs out of the model's budget. *)
Theorem scan_once_total (depth : nat) (s : pystr) :
  scan_once py depth (2 * length s + 2) (skip_ws s) <> NoFuel.
Proof.
  intros H.
  pose proof (proj1 (scan_agrees (2 * length s + 2)) depth (skip_ws s)) as A.
  rewrite H in A. now apply (scan_unbounded_total s).
Qed.

(** Where [json.loads] returns a value or raises a [JSONDecodeError], the
    decoder without limits does the same. *)
Lemma json_loads_agrees (s : pystr) :
  match json_loads py s with
  | Parsed v => loads_unbounded s = Some v
  | DecodeFailed => loads_unbounded s = None
  | LimitHit _ => True
  end.
Proof.
  unfold json_loads, loads_unbounded.
  pose proof (proj1 (scan_agrees (2 * length s + 2)) (recursion_room py)
                (skip_ws s)) as A.
  pose proof (scan_once_total (recursion_room py) s) as T.
  assert (G : match after_value (scan_once py (recursion_room py)
                                   (2 * length s + 2) (skip_ws s)) with
              | Parsed v =>
                  after_unbounded (scan_unbounded (2 * length s + 2) (skip_ws s))
                  = Some v
              | DecodeFailed =>
                  after_unbounded (scan_unbounded (2 * length s + 2) (skip_ws s))
                  = None
              | LimitHit _ => True
              end).
  { destruct (scan_once py (recursion_room py) (2 * length s + 2) (skip_ws s))
      as [v r| |e|]; cbn [agrees after_value] in *; try congruence;
      try (rewrite A; cbn [after_unbounded]); try exact I; try reflexivity.
    now destruct (skip_ws r). }
  destruct s as [|c t]; [exact G|].
  destruct (c =? 0xFEFF)%N; [reflexivity | exact G].
Qed.

End LimitedScan.
(* ================================================================== *)
(** * Reading back under the limits *)
(* ================================================================== *)

Section LimitedNumbers.

Local Open Scope nat_scope.

Variable py : interpreter.

(** The text of an int is its sign and the digits of its absolute
    value. *)
Lemma int_str_sign (z : Z) :
  int_str z = sign_str (z <? 0)%Z ++ int_str (Z.abs z).
Proof. now destruct z. Qed.

(** The integer part of the text of a natural number is the whole
    text. *)
Lemma match_integer_int (a : Z) :
  (0 <= a)%Z -> match_integer (int_str a) = Some (int_str a, []).
Proof.
  intros H. destruct a as [|p|p]; [reflexivity | | lia].
  unfold int_str. cbn [Z.to_int].
  destruct (pos_digits_head p) as (c & ds & E & D & Z0).
  pose proof (digits_are_digits (Pos.to_uint p)) as A.
  rewrite E in *. cbn [forallb] in A. apply andb_true_iff in A as [_ A].
  cbn [match_integer]. rewrite Z0, D.
  rewrite <- (app_nil_r ds) at 1.
  now rewrite (span_digits_all ds [] A eq_refl).
Qed.

(** The integer literal at the head of the text of an int has the int's
    digits. *)
Lemma literal_digits_int (z : Z) (tail : pystr) :
  digits_end tail = true ->
  literal_digits (int_str z ++ tail) = int_digits z.
Proof.
  intros E. unfold literal_digits, int_digits.
  destruct (int_str_natural (Z.abs z) (Z.abs_nonneg z)) as (D & N0 & _).
  pose proof (match_integer_int (Z.abs z) (Z.abs_nonneg z)) as M.
  rewrite int_str_sign.
  destruct (int_str (Z.abs z)) as [|c0 t] eqn:A; [congruence|].
  cbn [forallb] in D. apply andb_true_iff in D as [D0 D].
  rewrite <- app_assoc.
  change ((c0 :: t) ++ tail) with (c0 :: t ++ tail).
  rewrite match_sign_text by assumption. cbn [snd].
  change (c0 :: t ++ tail) with ((c0 :: t) ++ tail).
  now rewrite (match_integer_local _ _ _ tail M (fun _ => E)).
Qed.

(** Where a number starts, the scanner reads an atom. *)
Lemma number_starts_atom (l : pystr) (v : value) (r : pystr) :
  match_number l = Some (v, r) ->
  exists c t, l = c :: t
    /\ (c =? 34)%N = false /\ (c =? 123)%N = false /\ (c =? 91)%N = false.
Proof.
  intros H. destruct (match_number_shape _ _ _ H) as (c & t & -> & S).
  exists c, t. split; [reflexivity|].
  destruct S as [D|(-> & _)]; [|repeat split; reflexivity].
  apply digit_range in D. repeat split; apply N.eqb_neq; lia.
Qed.

Lemma number_is_atom (l : pystr) (v : value) (r : pystr) :
  match_number l = Some (v, r) -> scan_atom l = Scanned v r.
Proof.
  intros H. pose proof (scan_unbounded_number 0 l v r H) as U.
  destruct (number_starts_atom l v r H) as (c & t & -> & C1 & C2 & C3).
  rewrite scan_unbounded_cons in U. now rewrite C1, C2, C3 in U.
Qed.

(** [scan_once] reads a number where [match_number] does, unless it is an
    integer literal of too many digits. *)
Lemma scan_once_number (depth f : nat) (l : pystr) (v : value) (r : pystr) :
  match_number l = Some (v, r) ->
  (forall z, v = VInt z -> exceeds py (literal_digits l) = false) ->
  scan_once py depth (S f) l = Loaded v r.
Proof.
  intros H X. pose proof (number_is_atom l v r H) as A.
  destruct (number_starts_atom l v r H) as (c & t & -> & C1 & C2 & C3).
  rewrite scan_once_cons, C1, C2, C3.
  unfold scan_atom_limited. rewrite A.
  destruct v as [ | b | z | fl | s | l' | d]; try reflexivity.
  now rewrite (X z eq_refl).
Qed.

End LimitedNumbers.

Section LimitedElements.

Local Open Scope nat_scope.

Variable py : interpreter.
Variable depth : nat.
Variable indent : option nat.
Variable lvl : nat.
Variables w post rest : pystr.
Hypothesis Hw : forallb is_ws w = true.
Hypothesis Hpost : forallb is_ws post = true.

(** What the induction gives for one value: it is well formed and is read
    back in front of any text that can follow a number. *)
Local Abbreviation reads_back :=
  (fun v : value =>
     value_ok v = true /\
     forall tail fuel, number_end tail = true -> weight v <= fuel ->
       scan_once py depth fuel (encode indent lvl v ++ tail) = Loaded v tail).

Lemma parse_elements_encoded (l : list value) :
  l <> [] -> Forall reads_back l ->
  forall acc fuel,
    list_sum (map (fun x => S (weight x)) l) <= fuel ->
    parse_elements py depth fuel acc
      (join (44%N :: w) (map (encode indent lvl) l) ++ post ++ 93%N :: rest)
    = Loaded (VList (rev acc ++ l)) rest.
Proof.
  induction l as [|v l IH]; [congruence|]. intros _ F acc fuel Hf.
  inversion F as [|? ? [Ok Rd] F']; subst.
  cbn [map list_sum] in Hf. destruct fuel as [|f]; [simpl in Hf; lia|].
  cbn [map]. rewrite join_head. rewrite parse_elements_S.
  destruct l as [|v2 l'].
  - cbn [map]. rewrite app_nil_r.
    rewrite Rd; [| apply number_end_closing; auto | simpl in Hf; lia].
    rewrite skip_ws_app by assumption.
    rewrite (skip_ws_stop 93) by reflexivity.
    change (93 =? 93)%N with true. cbv iota.
    cbn [rev]. reflexivity.
  - cbn [map] in *. cbv iota.
    rewrite <- !app_assoc. change ((44%N :: w) ++ ?x) with (44%N :: w ++ x).
    rewrite Rd; [| reflexivity | simpl in Hf |- *; lia].
    rewrite (skip_ws_stop 44) by reflexivity.
    change (44 =? 93)%N with false. change (44 =? 44)%N with true.
    cbv iota. rewrite skip_ws_app by assumption.
    inversion F' as [|? ? [Ok2 _] _]; subst.
    rewrite join_head at 1. rewrite <- app_assoc.
    rewrite skip_ws_encoded by assumption.
    rewrite app_assoc. rewrite <- join_head.
    rewrite IH; [| discriminate | assumption | simpl in Hf |- *; lia].
    cbn [rev]. now rewrite <- app_assoc.
Qed.

(** One member as the encoder writes it: key, colon, space, value. *)
Local Abbreviation member :=
  (fun kv : pystr * value =>
     encode_string (fst kv) ++ lit ": " ++ encode indent lvl (snd kv)).

Local Abbreviation member_reads_back :=
  (fun kv : pystr * value =>
     text_ok (fst kv) = true /\ value_ok (snd kv) = true /\
     forall tail fuel, number_end tail = true -> weight (snd kv) <= fuel ->
       scan_once py depth fuel (encode indent lvl (snd kv) ++ tail)
       = Loaded (snd kv) tail).

(** Reading one member: the rest of the loop decides on what follows. *)
Lemma parse_members_member (f : nat) (acc : dict) (k : pystr) (v : value)
    (tail : pystr) :
  text_ok k = true -> value_ok v = true ->
  scan_once py depth f (encode indent lvl v ++ tail) = Loaded v tail ->
  parse_members py depth (S f) acc
    ((encode_string k ++ lit ": " ++ encode indent lvl v) ++ tail)
  = match skip_ws tail with
    | [] => Malformed
    | c :: s5 =>
        if (c =? 125)%N then Loaded (VDict (dict_set acc k v)) s5
        else if (c =? 44)%N
        then parse_members py depth f (dict_set acc k v) (skip_ws s5)
        else Malformed
    end.
Proof.
  intros Tk Ok Rd. rewrite member_unfold.
  rewrite parse_members_cons. change (negb (34 =? 34)%N) with false. cbv iota.
  rewrite scanstring_escaped by assumption.
  rewrite (skip_ws_stop 58) by reflexivity.
  change (negb (58 =? 58)%N) with false. cbv iota.
  change (skip_ws (32%N :: ?x)) with (skip_ws x).
  rewrite skip_ws_encoded by assumption.
  now rewrite Rd.
Qed.

Lemma parse_members_encoded (d : dict) :
  d <> [] -> Forall member_reads_back d ->
  forall acc fuel,
    unique_keys (map fst (acc ++ d)) = true ->
    list_sum (map (fun kv => S (weight (snd kv))) d) <= fuel ->
    parse_members py depth fuel acc
      (join (44%N :: w) (map member d) ++ post ++ 125%N :: rest)
    = Loaded (VDict (acc ++ d)) rest.
Proof.
  induction d as [|[k v] d IH]; [congruence|]. intros _ F acc fuel U Hf.
  inversion F as [|? ? (Tk & Ok & Rd) F']; subst. cbn [fst snd] in *.
  cbn [map list_sum] in Hf. destruct fuel as [|f]; [simpl in Hf; lia|].
  assert (Fresh : dict_set acc k v = acc ++ [(k, v)]).
  { apply dict_set_fresh. rewrite map_app in U. cbn [map fst] in U.
    now apply unique_keys_fresh in U. }
  cbn [map fst snd]. rewrite join_head.
  destruct d as [|kv2 d'].
  - cbn [map]. rewrite app_nil_r.
    rewrite parse_members_member; try assumption.
    + rewrite skip_ws_app by assumption.
      rewrite (skip_ws_stop 125) by reflexivity.
      change (125 =? 125)%N with true. cbv iota. now rewrite Fresh.
    + apply Rd; [apply number_end_closing; auto | simpl in Hf; lia].
  - cbn [map] in *. cbv iota.
    rewrite <- app_assoc.
    rewrite parse_members_member; try assumption.
    + rewrite <- app_assoc.
      change ((44%N :: w) ++ ?x) with (44%N :: w ++ x).
      rewrite (skip_ws_stop 44) by reflexivity.
      change (44 =? 125)%N with false. change (44 =? 44)%N with true.
      cbv iota. rewrite skip_ws_app by assumption.
      change (?a :: map member d') with (map member (kv2 :: d')).
      rewrite (skip_ws_members_head indent lvl w).
      rewrite Fresh.
      rewrite IH; [| discriminate | assumption | | simpl in Hf |- *; lia].
      * now rewrite <- app_assoc.
      * now rewrite <- app_assoc.
    + apply Rd; [reflexivity | simpl in Hf |- *; lia].
Qed.

End LimitedElements.

Section LimitedReadBack.

Local Open Scope nat_scope.

Variable py : interpreter.

(** The scanner reads back every well-formed value within the limits from
    its encoding, in both layouts, in front of any text that cannot
    continue a number, with a budget of the value's weight. *)
Theorem scan_encoded (v : value) :
  value_ok v = true ->
  forall depth indent level tail fuel,
    within py depth v = true ->
    number_end tail = true -> weight v <= fuel ->
    scan_once py depth fuel (encode indent level v ++ tail) = Loaded v tail.
Proof.
  induction v as [ | b | z | x | s | l IH | d IH] using value_ind;
    intros Ok depth indent level tail fuel Wi E Hf;
    (destruct fuel as [|f]; [simpl in Hf; lia|]).
  - reflexivity.
  - destruct b; reflexivity.
  - cbn [encode]. apply scan_once_number.
    + apply match_number_local; [apply match_number_int | assumption].
    + intros z' _. rewrite literal_digits_int
        by now apply number_end_digits_end.
      cbn [within] in Wi. now apply negb_true_iff in Wi.
  - cbn [encode]. apply scan_once_number; [|discriminate].
    apply match_number_local; [now apply float_ok_reads | assumption].
  - cbn [encode]. unfold encode_string. cbn [app]. rewrite <- app_assoc.
    cbn [app]. rewrite scan_once_cons. change (34 =? 34)%N with true.
    cbv iota. now rewrite scanstring_escaped.
  - cbn [encode]. cbn [within] in Wi.
    destruct depth as [|dp]; [discriminate|].
    destruct l as [|v l]; [reflexivity|].
    destruct (encode_items_shape indent level 91 93
                (map (encode indent (S level)) (v :: l)))
      as (pre & w & post & Wp & Ww & Wq & ->); [discriminate|].
    cbn [value_ok] in Ok.
    assert (F : Forall (fun v => value_ok v = true /\
                 forall tail fuel, number_end tail = true -> weight v <= fuel ->
                 scan_once py dp fuel (encode indent (S level) v ++ tail)
                 = Loaded v tail)
                (v :: l)).
    { rewrite forallb_forall in Ok, Wi. rewrite Forall_forall in IH |- *.
      intros y Hy. split; [now apply Ok|]. intros. now apply IH; auto. }
    cbn [app]. rewrite scan_once_cons.
    change (91 =? 34)%N with false. change (91 =? 123)%N with false.
    change (91 =? 91)%N with true. cbv iota.
    rewrite <- !app_assoc. cbn [app].
    set (X := join (44%N :: w) (map (encode indent (S level)) (v :: l))
              ++ post ++ 93%N :: tail).
    assert (HX : exists c t, X = c :: t /\ value_start c = true).
    { unfold X. cbn [map]. rewrite join_head.
      inversion F as [|? ? [Okv _] _]; subst.
      destruct (encode_head indent (S level) v Okv) as (c & t & -> & S).
      now eexists _, _. }
    destruct HX as (c & t & HX & S).
    rewrite (skip_to_first_item pre X c t Wp HX S).
    apply value_start_facts in S as (_ & _ & N93 & _). rewrite N93.
    rewrite <- HX. unfold X.
    rewrite (parse_elements_encoded py dp indent (S level) w post tail Ww Wq);
      [reflexivity | discriminate | assumption | cbn [weight] in Hf; lia].
  - cbn [encode]. cbn [within] in Wi.
    destruct depth as [|dp]; [discriminate|].
    destruct d as [|kv d]; [reflexivity|].
    destruct (encode_items_shape indent level 123 125
                (map (fun kv => encode_string (fst kv) ++ lit ": "
                        ++ encode indent (S level) (snd kv)) (kv :: d)))
      as (pre & w & post & Wp & Ww & Wq & ->); [discriminate|].
    cbn [value_ok] in Ok. apply andb_true_iff in Ok as [U Ok].
    assert (F : Forall (fun kv : pystr * value =>
                 text_ok (fst kv) = true /\ value_ok (snd kv) = true /\
                 forall tail fuel, number_end tail = true ->
                   weight (snd kv) <= fuel ->
                   scan_once py dp fuel (encode indent (S level) (snd kv) ++ tail)
                   = Loaded (snd kv) tail)
                (kv :: d)).
    { rewrite forallb_forall in Ok, Wi. rewrite Forall_forall in IH |- *.
      intros y Hy. specialize (Ok y Hy). apply andb_true_iff in Ok as [O1 O2].
      repeat split; try assumption. intros. now apply IH; auto. }
    cbn [app]. rewrite scan_once_cons.
    change (123 =? 34)%N with false. change (123 =? 123)%N with true.
    cbv iota. rewrite <- !app_assoc. cbn [app].
    set (X := join (44%N :: w)
                (map (fun kv => encode_string (fst kv) ++ lit ": "
                        ++ encode indent (S level) (snd kv)) (kv :: d))
              ++ post ++ 125%N :: tail).
    assert (HX : exists t, X = 34%N :: t).
    { unfold X. cbn [map]. rewrite join_head. now eexists. }
    destruct HX as (t & HX).
    rewrite (skip_to_first_item pre X 34 t Wp HX eq_refl).
    change (34 =? 125)%N with false. cbv iota.
    rewrite <- HX. unfold X.
    rewrite (parse_members_encoded py dp indent (S level) w post tail Ww Wq);
      [reflexivity | discriminate | assumption | assumption
      | cbn [weight] in Hf; lia].
Qed.

(** [json.loads] reads back what [json.dumps] wrote, in both layouts, for
    a value within the interpreter's limits. *)
Theorem json_loads_encoded (v : value) (indent : option nat) (level : nat) :
  value_ok v = true -> within py (recursion_room py) v = true ->
  json_loads py (encode indent level v) = Parsed v.
Proof.
  intros Ok Wi.
  pose proof (weight_le_length v Ok indent level) as W.
  pose proof (scan_encoded v Ok (recursion_room py) indent level []
                (2 * length (encode indent level v) + 2) Wi eq_refl) as R.
  rewrite app_nil_r in R.
  destruct (encode_head indent level v Ok) as (c & t & E & S).
  apply value_start_facts in S as (Ws & _ & _ & _ & _ & Bom).
  unfold json_loads. rewrite E in *. rewrite Bom.
  rewrite (skip_ws_stop c t Ws). rewrite R by lia. reflexivity.
Qed.

End LimitedReadBack.
(* ================================================================== *)
(** * What [json.loads] returns is within the limits *)
(* ================================================================== *)

Section LoadedWithin.

Local Open Scope nat_scope.

Variable py : interpreter.

(** Every run of digits is the text of a decimal numeral. *)
Lemma digits_numeral (ds : pystr) :
  forallb isdigit ds = true -> exists d, digits_of_uint d = ds.
Proof.
  induction ds as [|c ds IH]; intros H; [now exists Decimal.Nil|].
  cbn [forallb] in H. apply andb_true_iff in H as [Hc Hd].
  destruct (IH Hd) as (d & <-). apply digit_range in Hc.
  assert (C : (c = 48 \/ c = 49 \/ c = 50 \/ c = 51 \/ c = 52
               \/ c = 53 \/ c = 54 \/ c = 55 \/ c = 56 \/ c = 57)%N) by lia.
  destruct C as [->|[->|[->|[->|[->|[->|[->|[->|[->| ->]]]]]]]]].
  - now exists (Decimal.D0 d).
  - now exists (Decimal.D1 d).
  - now exists (Decimal.D2 d).
  - now exists (Decimal.D3 d).
  - now exists (Decimal.D4 d).
  - now exists (Decimal.D5 d).
  - now exists (Decimal.D6 d).
  - now exists (Decimal.D7 d).
  - now exists (Decimal.D8 d).
  - now exists (Decimal.D9 d).
Qed.

Lemma nat_value_from_nonneg (s : pystr) (acc : Z) :
  (0 <= acc)%Z -> (0 <= nat_value_from acc s)%Z.
Proof.
  revert acc; induction s as [|c s IH]; intros acc H; cbn [nat_value_from];
    [assumption|]. apply IH. lia.
Qed.

(** A run of digits that does not start with a zero is the text of its
    value. *)
Lemma int_str_nat_value (c : N) (t : pystr) :
  forallb isdigit (c :: t) = true -> (c =? 48)%N = false ->
  int_str (nat_value (c :: t)) = c :: t.
Proof.
  intros D Z0. destruct (digits_numeral _ D) as (d & E).
  rewrite <- E, nat_value_uint.
  pose proof (DecimalPos.Unsigned.to_of d) as T.
  assert (U : Decimal.unorm d = d).
  { apply N.eqb_neq in Z0.
    destruct d; cbn [digits_of_uint] in E; try discriminate;
      try reflexivity. injection E as E _. congruence. }
  rewrite U in T.
  destruct (Pos.of_uint d) as [|p].
  - cbn in T. rewrite <- T in E. cbn in E. injection E as E _.
    apply N.eqb_neq in Z0. congruence.
  - cbn [N.to_uint] in T. unfold int_str. cbn [Z.of_N Z.to_int].
    now rewrite T.
Qed.

(** The int that an integer literal stands for has the digits of the
    literal. *)
Lemma match_number_digits (s : pystr) (z : Z) (r : pystr) :
  match_number s = Some (VInt z, r) -> int_digits z = literal_digits s.
Proof.
  unfold match_number, literal_digits, int_digits.
  destruct (match_sign s) as [neg s1]. cbn [snd].
  destruct (match_integer s1) as [[ids s2]|] eqn:I; [|discriminate].
  destruct (match_frac s2) as [[fds s3]|];
    destruct (match_exp _) as [[x s4]|]; try discriminate.
  cbn [number_value_of]. intros H. injection H as <- _.
  assert (A : Z.abs (if neg then (- nat_value ids)%Z else nat_value ids)
              = nat_value ids).
  { pose proof (nat_value_from_nonneg ids 0 (Z.le_refl 0)) as P.
    fold (nat_value ids) in P. destruct neg; lia. }
  rewrite A. clear A.
  destruct s1 as [|c s1']; [discriminate|]. cbn [match_integer] in I.
  destruct (N.eqb_spec c 48) as [->|Nz].
  - now injection I as <- _.
  - destruct (isdigit c) eqn:D; [|discriminate].
    destruct (span_digits s1') as [ds' r'] eqn:Sp. injection I as <- _.
    apply span_digits_split in Sp as [_ F].
    rewrite int_str_nat_value; [reflexivity | | now apply N.eqb_neq].
    cbn [forallb]. now rewrite D, F.
Qed.

Lemma match_number_scalar (s : pystr) (v : value) (r : pystr) :
  match_number s = Some (v, r) ->
  (exists z, v = VInt z) \/ (exists x, v = VFloat x).
Proof.
  unfold match_number. destruct (match_sign s) as [neg s1].
  destruct (match_integer s1) as [[ids s2]|]; [|discriminate].
  destruct (match_frac s2) as [[fds s3]|];
    destruct (match_exp _) as [[x s4]|];
    intros H; injection H as <- _; cbn [number_value_of]; eauto.
Qed.

Lemma scan_atom_within (depth : nat) (s : pystr) (v : value) (r : pystr) :
  scan_atom_limited py s = Loaded v r -> within py depth v = true.
Proof.
  unfold scan_atom_limited.
  destruct (scan_atom s) as [v' r'| |] eqn:A; try discriminate.
  assert (K : (exists z, v' = VInt z /\ match_number s = Some (VInt z, r'))
              \/ (forall d, within py d v' = true)).
  { unfold scan_atom in A.
    repeat match type of A with
           | context [strip_prefix ?p s] =>
               destruct (strip_prefix p s);
               [injection A as <- _; now right|]
           end.
    destruct (match_number s) as [[v0 r0]|] eqn:M; [|discriminate].
    injection A as <- <-.
    destruct (match_number_scalar _ _ _ M) as [(z & ->)|(x & ->)].
    - left. now exists z.
    - now right. }
  destruct K as [(z & -> & M)|K].
  - destruct (exceeds py (literal_digits s)) eqn:X; [discriminate|].
    intros H. injection H as <- _. cbn [within].
    now rewrite (match_number_digits _ _ _ M), X.
  - intros H.
    destruct v'; try (destruct (exceeds py _); [discriminate|]);
      injection H as <- _; apply K.
Qed.

(** Whatever the scanner returns is within the limits: its ints have a
    number of digits that [int] converts, and it nests no deeper than the
    scanner could enter. *)
Lemma scan_within (f : nat) :
  (forall depth s v r,
     scan_once py depth f s = Loaded v r -> within py depth v = true)
  /\ (forall depth acc s v r,
        forallb (fun kv => within py depth (snd kv)) acc = true ->
        parse_members py depth f acc s = Loaded v r ->
        within py (S depth) v = true)
  /\ (forall depth acc s v r,
        forallb (within py depth) acc = true ->
        parse_elements py depth f acc s = Loaded v r ->
        within py (S depth) v = true).
Proof.
  induction f as [|f (IH1 & IH2 & IH3)];
    [repeat split; intros; discriminate|].
  split; [|split].
  - intros depth [|c rest] v r; [discriminate|]. rewrite scan_once_cons.
    destruct (c =? 34)%N.
    { destruct (scanstring rest) as [[str r']|]; [|discriminate].
      intros H. injection H as <- _. reflexivity. }
    destruct (c =? 123)%N.
    { destruct depth as [|d]; [discriminate|].
      destruct (skip_ws rest) as [|c1 r1]; [discriminate|].
      destruct (c1 =? 125)%N.
      - intros H. injection H as <- _. reflexivity.
      - now apply IH2. }
    destruct (c =? 91)%N.
    { destruct depth as [|d]; [discriminate|].
      destruct (skip_ws rest) as [|c1 r1]; [discriminate|].
      destruct (c1 =? 93)%N.
      - intros H. injection H as <- _. reflexivity.
      - now apply IH3. }
    apply scan_atom_within.
  - intros depth acc [|q s1] v r A; [discriminate|]. rewrite parse_members_cons.
    destruct (negb (q =? 34)%N); [discriminate|].
    destruct (scanstring s1) as [[key s2]|]; [|discriminate].
    destruct (skip_ws s2) as [|colon s3]; [discriminate|].
    destruct (negb (colon =? 58)%N); [discriminate|].
    destruct (scan_once py depth f (skip_ws s3)) as [v0 s4| |e|] eqn:V;
      try discriminate.
    apply IH1 in V. cbv zeta.
    pose proof (dict_set_values (within py depth) acc key v0 A V) as A'.
    destruct (skip_ws s4) as [|c s5]; [discriminate|].
    destruct (c =? 125)%N.
    + intros H. now injection H as <- _.
    + destruct (c =? 44)%N; [|discriminate]. now apply IH2.
  - intros depth acc s v r A. rewrite parse_elements_S.
    destruct (scan_once py depth f s) as [v0 s1| |e|] eqn:V; try discriminate.
    apply IH1 in V.
    destruct (skip_ws s1) as [|c s2]; [discriminate|].
    destruct (c =? 93)%N.
    + intros H. injection H as <- _.
      change (forallb (within py depth) (rev (v0 :: acc)) = true).
      rewrite forallb_rev. cbn [forallb]. now rewrite V, A.
    + destruct (c =? 44)%N; [|discriminate]. apply IH3.
      cbn [forallb]. now rewrite V, A.
Qed.

(** Every value that [json.loads] returns is within the limits of the
    interpreter that ran it, so that [str] and [json.dumps] convert each
    of its ints. *)
Lemma json_loads_within (s : pystr) (v : value) :
  json_loads py s = Parsed v -> within py (recursion_room py) v = true.
Proof.
  unfold json_loads. intros H.
  assert (H' : after_value (scan_once py (recursion_room py)
                              (2 * length s + 2) (skip_ws s)) = Parsed v).
  { destruct s as [|c s]; [exact H|].
    destruct (c =? 0xFEFF)%N; [discriminate | exact H]. }
  destruct (scan_once py (recursion_room py) (2 * length s + 2) (skip_ws s))
    as [v' rest| |e|] eqn:E; try discriminate.
  cbn [after_value] in H'. destruct (skip_ws rest); [|discriminate].
  injection H' as <-. now apply (proj1 (scan_within _)) in E.
Qed.

End LoadedWithin.
(* ================================================================== *)
(** * A text and its continuations *)
(* ================================================================== *)

Section StringSteps.

Local Open Scope nat_scope.

Lemma cons_char_inv (c : N) (o : option (pystr * pystr)) (str r : pystr) :
  cons_char c o = Some (str, r) ->
  exists str', o = Some (str', r) /\ str = c :: str'.
Proof.
  destruct o as [[s' r']|]; cbn [cons_char]; [|discriminate].
  intros H. injection H as <- <-. eauto.
Qed.

(** A [\u] escape that is not followed by another one stands for
    itself. *)
Lemma scanstring_u_default (h1 h2 h3 h4 u1 : N) (z : pystr) :
  hex4 h1 h2 h3 h4 = Some u1 ->
  (forall t, z <> 92%N :: 117%N :: t) ->
  scanstring (92%N :: 117%N :: h1 :: h2 :: h3 :: h4 :: z)
  = cons_char u1 (scanstring z).
Proof.
  intros H Z. rewrite scanstring_cons.
  change (92 =? 34)%N with false. change (92 =? 92)%N with true.
  change (117 =? 117)%N with true. cbv iota. rewrite H.
  destruct z as [|b [|u [|g1 [|g2 [|g3 [|g4 [|y r]]]]]]]; try reflexivity.
  destruct (N.eqb_spec b 92) as [->|_];
    [|now rewrite andb_false_r].
  destruct (N.eqb_spec u 117) as [->|_];
    [|now rewrite andb_false_r].
  now specialize (Z (g1 :: g2 :: g3 :: g4 :: y :: r)).
Qed.

(** After the two characters of a [\u] escape a string goes on for five
    characters at least: the four hex digits and what closes it. *)
Lemma scanstring_u_long (t str r : pystr) :
  scanstring (92%N :: 117%N :: t) = Some (str, r) ->
  exists h1 h2 h3 h4 c t', t = h1 :: h2 :: h3 :: h4 :: c :: t'.
Proof.
  rewrite scanstring_cons.
  change (92 =? 34)%N with false. change (92 =? 92)%N with true.
  change (117 =? 117)%N with true. cbv iota.
  destruct t as [|h1 [|h2 [|h3 [|h4 [|c t']]]]]; try discriminate.
  - destruct (hex4 h1 h2 h3 h4); discriminate.
  - intros _. now exists h1, h2, h3, h4, c, t'.
Qed.

(** One step of [scanstring]: the closing quote, or a first piece [p]
    that stands for one character [c], whatever follows the rest [t] of
    the text. *)
Lemma scanstring_step (s str r : pystr) :
  scanstring s = Some (str, r) ->
  (s = 34%N :: r /\ str = [])
  \/ (exists p c t str',
        s = p ++ t /\ p <> [] /\ str = c :: str'
        /\ scanstring t = Some (str', r)
        /\ forall x, scanstring (p ++ t ++ x) = cons_char c (scanstring (t ++ x))).
Proof.
  destruct s as [|c rest]; [discriminate|].
  intros H0. pose proof H0 as H. rewrite scanstring_cons in H.
  destruct (N.eqb_spec c 34) as [->|C34].
  { injection H as <- <-. now left. }
  right.
  destruct (N.eqb_spec c 92) as [->|C92].
  2:{ destruct (c <=? 31)%N eqn:C31; [discriminate|].
      apply cons_char_inv in H as (str' & H & ->).
      exists [c], c, rest, str'. repeat split; try easy.
      intros x. cbn [app]. rewrite scanstring_cons.
      destruct (N.eqb_spec c 34); [congruence|].
      destruct (N.eqb_spec c 92); [congruence|]. now rewrite C31. }
  destruct rest as [|e rest1]; [discriminate|].
  destruct (N.eqb_spec e 117) as [->|E117].
  2:{ destruct (simple_escape e) as [ch|] eqn:SE; [|discriminate].
      apply cons_char_inv in H as (str' & H & ->).
      exists [92%N; e], ch, rest1, str'. repeat split; try easy.
      intros x. cbn [app]. rewrite scanstring_cons.
      change (92 =? 34)%N with false. change (92 =? 92)%N with true.
      cbv iota. destruct (N.eqb_spec e 117); [congruence|]. now rewrite SE. }
  destruct rest1 as [|h1 [|h2 [|h3 [|h4 rest2]]]]; try discriminate.
  destruct (hex4 h1 h2 h3 h4) as [u1|] eqn:H1; [|discriminate].
  (* the escape by itself *)
  assert (Lone : cons_char u1 (scanstring rest2) = Some (str, r) ->
                 (forall x, scanstring (92%N :: 117%N :: h1 :: h2 :: h3 :: h4
                                          :: rest2 ++ x)
                            = cons_char u1 (scanstring (rest2 ++ x))) ->
                 exists p c t str',
                   92%N :: 117%N :: h1 :: h2 :: h3 :: h4 :: rest2 = p ++ t
                   /\ p <> [] /\ str = c :: str'
                   /\ scanstring t = Some (str', r)
                   /\ forall x, scanstring (p ++ t ++ x)
                                = cons_char c (scanstring (t ++ x))).
  { intros H' X. apply cons_char_inv in H' as (str' & H' & ->).
    exists [92%N; 117%N; h1; h2; h3; h4], u1, rest2, str'.
    repeat split; try easy. }
  (* what follows is no second escape *)
  assert (Plain : (forall t, rest2 <> 92%N :: 117%N :: t) ->
                  cons_char u1 (scanstring rest2) = Some (str, r) ->
                  forall x, scanstring (92%N :: 117%N :: h1 :: h2 :: h3 :: h4
                                          :: rest2 ++ x)
                            = cons_char u1 (scanstring (rest2 ++ x))).
  { intros Z H' x. apply scanstring_u_default; [assumption|].
    apply cons_char_inv in H' as (str' & H' & _).
    destruct rest2 as [|b [|u rest2']]; [discriminate| |].
    - intros t E. cbn [app] in E. injection E as -> _. discriminate.
    - intros t E. cbn [app] in E. injection E as -> -> _.
      now apply (Z rest2'). }
  destruct rest2 as [|b [|u rest2']].
  - apply Lone; [exact H|]. apply Plain; [discriminate | exact H].
  - apply Lone; [exact H|]. apply Plain; [discriminate | exact H].
  - destruct (N.eqb_spec b 92) as [->|B].
    2:{ assert (Z : forall t, b :: u :: rest2' <> 92%N :: 117%N :: t)
          by (intros t E; congruence).
        rewrite (scanstring_u_default h1 h2 h3 h4 u1 _ H1 Z) in H0.
        apply Lone; [exact H0|]. now apply Plain. }
    destruct (N.eqb_spec u 117) as [->|U].
    2:{ assert (Z : forall t, 92%N :: u :: rest2' <> 92%N :: 117%N :: t)
          by (intros t E; congruence).
        rewrite (scanstring_u_default h1 h2 h3 h4 u1 _ H1 Z) in H0.
        apply Lone; [exact H0|]. now apply Plain. }
    (* a second escape follows *)
    assert (Long : exists g1 g2 g3 g4 y t3, rest2' = g1 :: g2 :: g3 :: g4 :: y :: t3).
    { destruct rest2' as [|g1 [|g2 [|g3 [|g4 [|y t3]]]]];
        try (apply cons_char_inv in H as (str' & H & _);
             apply scanstring_u_long in H
               as (a1 & a2 & a3 & a4 & a5 & a6 & E); discriminate).
      now exists g1, g2, g3, g4, y, t3. }
    destruct Long as (g1 & g2 & g3 & g4 & y & t3 & ->).
    destruct (is_high_surrogate u1) eqn:Hi.
    2:{ rewrite (scanstring_u_lone h1 h2 h3 h4 u1 _ H1 Hi) in H0.
        apply Lone; [exact H0|]. intros x. now apply scanstring_u_lone. }
    cbn [andb] in H. change (92 =? 92)%N with true in H.
    change (117 =? 117)%N with true in H. cbn [andb] in H.
    destruct (hex4 g1 g2 g3 g4) as [u2|] eqn:H2; [|discriminate].
    destruct (is_low_surrogate u2) eqn:Lo.
    + apply cons_char_inv in H as (str' & H & ->).
      exists [92%N; 117%N; h1; h2; h3; h4; 92%N; 117%N; g1; g2; g3; g4],
        (join_surrogates u1 u2), (y :: t3), str'.
      repeat split; try easy.
      intros x. cbn [app]. now apply scanstring_u_pair.
    + apply Lone; [exact H|]. intros x. cbn [app].
      rewrite scanstring_cons at 1.
      change (92 =? 34)%N with false. change (92 =? 92)%N with true.
      change (117 =? 117)%N with true. cbv iota.
      now rewrite H1, Hi, H2, Lo.
Qed.

End StringSteps.
Section Continuations.

Local Open Scope nat_scope.

(** What [scanstring] leaves is the end of its text, and it reads the same
    string whatever follows. *)
Lemma scanstring_rest (n : nat) :
  forall s str r, length s <= n ->
    scanstring s = Some (str, r) ->
    (exists p, s = p ++ r)
    /\ forall x, scanstring (s ++ x) = Some (str, r ++ x).
Proof.
  induction n as [|n IH]; intros s str r L H.
  - destruct s; [discriminate | simpl in L; lia].
  - destruct (scanstring_step s str r H)
      as [(-> & ->)|(p & c & t & str' & -> & P & -> & Ht & X)].
    + split; [now exists [34%N] | reflexivity].
    + assert (Lt : length t <= n).
      { rewrite length_app in L. destruct p; [congruence|].
        cbn [length] in L. lia. }
      destruct (IH t str' r Lt Ht) as ((q & ->) & E).
      split; [exists (p ++ q); now rewrite app_assoc|].
      intros x. rewrite <- app_assoc, X, E. reflexivity.
Qed.

Lemma scanstring_suffix (s str r : pystr) :
  scanstring s = Some (str, r) -> exists p, s = p ++ r.
Proof. intros H. now apply (scanstring_rest (length s) s str r (le_n _)). Qed.

Lemma scanstring_extends (s str r x : pystr) :
  scanstring s = Some (str, r) -> scanstring (s ++ x) = Some (str, r ++ x).
Proof. intros H. now apply (scanstring_rest (length s) s str r (le_n _)). Qed.

Lemma skip_ws_suffix (s : pystr) : exists p, s = p ++ skip_ws s.
Proof.
  induction s as [|c s (p & IH)]; [now exists []|]. cbn [skip_ws].
  destruct (is_ws c); [|now exists []].
  exists (c :: p). cbn [app]. now f_equal.
Qed.

Lemma skip_ws_extends (s : pystr) (c : N) (r x : pystr) :
  skip_ws s = c :: r -> skip_ws (s ++ x) = c :: r ++ x.
Proof.
  induction s as [|a s IH]; cbn [skip_ws app]; [discriminate|].
  destruct (is_ws a); [exact IH|].
  intros H. injection H as <- <-. reflexivity.
Qed.

Lemma strip_prefix_extends (p s r x : pystr) :
  strip_prefix p s = Some r -> strip_prefix p (s ++ x) = Some (r ++ x).
Proof.
  intros H. apply strip_prefix_some in H. subst.
  rewrite <- app_assoc. apply strip_prefix_app.
Qed.

(** ** Numbers *)

Lemma number_end_app (r x : pystr) :
  r <> [] -> number_end (r ++ x) = number_end r.
Proof. destruct r; [congruence | reflexivity]. Qed.

Lemma match_frac_dot (s : pystr) :
  match s with c :: _ => (c =? 46)%N = false | [] => False end ->
  match_frac s = None.
Proof.
  destruct s as [|dot [|c s]]; try easy; cbn [match_frac]; intros ->;
    reflexivity.
Qed.

(** The number pattern takes the same text whatever follows, when what
    it leaves, or else what follows, cannot continue a number. *)
Lemma match_number_extends (l : pystr) (v : value) (r x : pystr) :
  match_number l = Some (v, r) -> number_end (r ++ x) = true ->
  match_number (l ++ x) = Some (v, r ++ x).
Proof.
  unfold match_number. intros H E.
  destruct (match_sign l) as [neg s1] eqn:S.
  destruct (match_integer s1) as [[ids s2]|] eqn:I; [|discriminate].
  assert (N1 : s1 <> []) by (intros ->; discriminate).
  rewrite (match_sign_local _ _ x _ S N1).
  assert (Ex : r = [] -> digits_end x = true).
  { intros ->. now apply number_end_digits_end. }
  assert (Hi : match_integer (s1 ++ x) = Some (ids, s2 ++ x)).
  { apply match_integer_local; [assumption|]. intros ->.
    apply Ex. cbn in H. now injection H as _ <-. }
  rewrite Hi.
  destruct (match_frac s2) as [[fds s3]|] eqn:F.
  - assert (Hf : match_frac (s2 ++ x) = Some (fds, s3 ++ x)).
    { apply match_frac_local; [assumption|]. intros ->.
      apply Ex. cbn in H. now injection H as _ <-. }
    rewrite Hf.
    destruct (match_exp s3) as [[e s4]|] eqn:X.
    + injection H as <- <-.
      rewrite (match_exp_local _ _ _ x X Ex). reflexivity.
    + injection H as <- <-. now rewrite (match_exp_end _ E).
  - assert (Hf : match_frac (s2 ++ x) = None).
    { destruct s2 as [|c s2'].
      - cbn in H. injection H as _ <-. cbn [app] in *.
        destruct x as [|c x]; [reflexivity|].
        apply match_frac_dot. cbn [number_end] in E.
        destruct (c =? 46)%N; [|reflexivity].
        now rewrite !andb_false_r in E.
      - destruct (N.eqb_spec c 46) as [->|C].
        + destruct s2' as [|d s2''].
          * cbn in H. injection H as _ <-. discriminate.
          * cbn [match_frac] in F. change (46 =? 46)%N with true in F.
            cbn [andb] in F. cbn [app match_frac].
            change (46 =? 46)%N with true. cbn [andb].
            destruct (isdigit d); [|reflexivity].
            destruct (span_digits s2''); discriminate.
        + apply match_frac_dot. cbn [app]. now apply N.eqb_neq. }
    rewrite Hf.
    destruct (match_exp s2) as [[e s4]|] eqn:X.
    + injection H as <- <-.
      rewrite (match_exp_local _ _ _ x X Ex). reflexivity.
    + injection H as <- <-. now rewrite (match_exp_end _ E).
Qed.

(** The integer literal at the head of a text has the same digits
    whatever follows the number. *)
Lemma literal_digits_extends (l : pystr) (v : value) (r x : pystr) :
  match_number l = Some (v, r) -> number_end (r ++ x) = true ->
  literal_digits (l ++ x) = literal_digits l.
Proof.
  unfold match_number, literal_digits. intros H E.
  destruct (match_sign l) as [neg s1] eqn:S.
  destruct (match_integer s1) as [[ids s2]|] eqn:I; [|discriminate].
  assert (N1 : s1 <> []) by (intros ->; discriminate).
  rewrite (match_sign_local _ _ x _ S N1). cbn [snd].
  assert (Hi : match_integer (s1 ++ x) = Some (ids, s2 ++ x)).
  { apply match_integer_local; [assumption|]. intros ->.
    assert (R : r = []).
    { cbn in H. now injection H as _ <-. }
    subst r. now apply number_end_digits_end. }
  now rewrite Hi, I.
Qed.

(** An atom is read the same whatever follows, when what it leaves, or
    else what follows, cannot continue a number. *)
Lemma scan_atom_extends (s : pystr) (v : value) (r x : pystr) :
  scan_atom s = Scanned v r -> number_end (r ++ x) = true ->
  scan_atom (s ++ x) = Scanned v (r ++ x).
Proof.
  intros H E. unfold scan_atom in H.
  destruct (strip_prefix (lit "null") s) as [r0|] eqn:P1.
  { injection H as <- <-. apply strip_prefix_some in P1 as ->.
    now rewrite <- app_assoc. }
  destruct (strip_prefix (lit "true") s) as [r0|] eqn:P2.
  { injection H as <- <-. apply strip_prefix_some in P2 as ->.
    now rewrite <- app_assoc. }
  destruct (strip_prefix (lit "false") s) as [r0|] eqn:P3.
  { injection H as <- <-. apply strip_prefix_some in P3 as ->.
    now rewrite <- app_assoc. }
  destruct (strip_prefix (lit "NaN") s) as [r0|] eqn:P4.
  { injection H as <- <-. apply strip_prefix_some in P4 as ->.
    now rewrite <- app_assoc. }
  destruct (strip_prefix (lit "Infinity") s) as [r0|] eqn:P5.
  { injection H as <- <-. apply strip_prefix_some in P5 as ->.
    now rewrite <- app_assoc. }
  destruct (strip_prefix (lit "-Infinity") s) as [r0|] eqn:P6.
  { injection H as <- <-. apply strip_prefix_some in P6 as ->.
    now rewrite <- app_assoc. }
  destruct (match_number s) as [[v0 r0]|] eqn:M; [|discriminate].
  injection H as <- <-.
  pose proof (match_number_extends _ _ _ x M E) as M'.
  now apply number_is_atom in M'.
Qed.

End Continuations.
Section ScanContinued.

Local Open Scope nat_scope.

Variable py : interpreter.
Variable x : pystr.

(** The text starts a string, an object or an array. *)
Local Abbreviation opens :=
  (fun s : pystr =>
     match s with
     | c :: _ => (c =? 34)%N || (c =? 123)%N || (c =? 91)%N
     | [] => false
     end).

Lemma scan_atom_is_number (s : pystr) (z : Z) (r : pystr) :
  scan_atom s = Scanned (VInt z) r -> match_number s = Some (VInt z, r).
Proof.
  unfold scan_atom.
  repeat match goal with
         | |- context [strip_prefix ?p s] =>
             destruct (strip_prefix p s); [discriminate|]
         end.
  destruct (match_number s) as [[v0 r0]|]; [|discriminate].
  intros H. now injection H as -> ->.
Qed.

Lemma scan_atom_limited_extends (s : pystr) (v : value) (r : pystr) :
  scan_atom_limited py s = Loaded v r -> number_end (r ++ x) = true ->
  scan_atom_limited py (s ++ x) = Loaded v (r ++ x).
Proof.
  unfold scan_atom_limited. intros H E.
  destruct (scan_atom s) as [v' r'| |] eqn:A; try discriminate.
  assert (R : r' = r /\ v' = v).
  { destruct v'; try (destruct (exceeds py _); [discriminate|]);
      now injection H as <- <-. }
  destruct R as [-> ->].
  rewrite (scan_atom_extends _ _ _ x A E).
  destruct v as [ | b | z | fl | t | l | d]; try reflexivity.
  apply scan_atom_is_number in A.
  rewrite (literal_digits_extends _ _ _ x A E).
  now destruct (exceeds py (literal_digits s)).
Qed.

Lemma scan_atom_no_recursion (s : pystr) (c : N) :
  scan_atom_limited py s <> Exceeded (RecursionLimit c).
Proof.
  unfold scan_atom_limited.
  destruct (scan_atom s) as [[ | b | z | fl | t | l | d] r| |];
    try discriminate.
  now destruct (exceeds py (literal_digits s)).
Qed.

(** After a value, with a comma or a closing bracket next, the text
    cannot continue a number. *)
Lemma number_end_separator (s : pystr) (c : N) (r : pystr) :
  skip_ws s = c :: r -> (c = 125 \/ c = 44 \/ c = 93)%N ->
  number_end (s ++ x) = true.
Proof.
  destruct s as [|a s]; [discriminate|]. cbn [skip_ws app number_end].
  destruct (is_ws a) eqn:W.
  - intros _ _. unfold is_ws in W. unfold isdigit.
    repeat (apply orb_true_iff in W as [W|W]);
      apply N.eqb_eq in W; subst; reflexivity.
  - intros H C. injection H as -> _.
    destruct C as [->|[->| ->]]; reflexivity.
Qed.

Lemma scan_once_nil (depth f : nat) :
  scan_once py depth f [] = Malformed \/ scan_once py depth f [] = NoFuel.
Proof. destruct f; [now right | now left]. Qed.

Lemma parse_members_nil (depth f : nat) (acc : dict) :
  parse_members py depth f acc [] = Malformed
  \/ parse_members py depth f acc [] = NoFuel.
Proof. destruct f; [now right | now left]. Qed.

Lemma parse_elements_nil (depth f : nat) (acc : list value) :
  parse_elements py depth f acc [] = Malformed
  \/ parse_elements py depth f acc [] = NoFuel.
Proof.
  destruct f as [|f]; [now right|]. rewrite parse_elements_S.
  destruct (scan_once_nil depth f) as [-> | ->]; [now left | now right].
Qed.

(** What the scanner does with a text does not depend on what follows
    the text, nor on a larger budget: when it returns a value (from a
    string or a container, or with something behind the value that cannot
    continue a number), and when it stops at the recursion limit. *)
Lemma scan_extends (f : nat) :
  (forall depth s f', f <= f' ->
     (forall v r, scan_once py depth f s = Loaded v r ->
        opens s = true \/ number_end (r ++ x) = true ->
        scan_once py depth f' (s ++ x) = Loaded v (r ++ x))
     /\ (forall c, scan_once py depth f s = Exceeded (RecursionLimit c) ->
           scan_once py depth f' (s ++ x) = Exceeded (RecursionLimit c)))
  /\ (forall depth acc s f', f <= f' ->
        (forall v r, parse_members py depth f acc s = Loaded v r ->
           parse_members py depth f' acc (s ++ x) = Loaded v (r ++ x))
        /\ (forall c, parse_members py depth f acc s = Exceeded (RecursionLimit c) ->
              parse_members py depth f' acc (s ++ x)
              = Exceeded (RecursionLimit c)))
  /\ (forall depth acc s f', f <= f' ->
        (forall v r, parse_elements py depth f acc s = Loaded v r ->
           parse_elements py depth f' acc (s ++ x) = Loaded v (r ++ x))
        /\ (forall c, parse_elements py depth f acc s = Exceeded (RecursionLimit c) ->
              parse_elements py depth f' acc (s ++ x)
              = Exceeded (RecursionLimit c))).
Proof.
  induction f as [|f (IHs & IHm & IHe)];
    [repeat split; intros; discriminate|].
  (* the loops go on after a comma *)
  assert (Km : forall depth acc s f',
             f <= f' ->
             (forall v r, parse_members py depth f acc (skip_ws s) = Loaded v r ->
                parse_members py depth f' acc (skip_ws (s ++ x)) = Loaded v (r ++ x))
             /\ (forall c, parse_members py depth f acc (skip_ws s)
                           = Exceeded (RecursionLimit c) ->
                   parse_members py depth f' acc (skip_ws (s ++ x))
                   = Exceeded (RecursionLimit c))).
  { intros depth acc s f' L.
    destruct (skip_ws s) as [|c r] eqn:W.
    - destruct (parse_members_nil depth f acc) as [-> | ->];
        split; intros; discriminate.
    - rewrite (skip_ws_extends _ _ _ x W). now apply IHm. }
  assert (Ke : forall depth acc s f',
             f <= f' ->
             (forall v r, parse_elements py depth f acc (skip_ws s) = Loaded v r ->
                parse_elements py depth f' acc (skip_ws (s ++ x)) = Loaded v (r ++ x))
             /\ (forall c, parse_elements py depth f acc (skip_ws s)
                           = Exceeded (RecursionLimit c) ->
                   parse_elements py depth f' acc (skip_ws (s ++ x))
                   = Exceeded (RecursionLimit c))).
  { intros depth acc s f' L.
    destruct (skip_ws s) as [|c r] eqn:W.
    - destruct (parse_elements_nil depth f acc) as [-> | ->];
        split; intros; discriminate.
    - rewrite (skip_ws_extends _ _ _ x W). now apply IHe. }
  split; [|split].
  - intros depth [|c rest] [|f'] L; try lia;
      [split; intros; discriminate|].
    apply le_S_n in L. cbn [app]. rewrite !scan_once_cons.
    destruct (c =? 34)%N eqn:C34.
    { destruct (scanstring rest) as [[str r']|] eqn:S;
        [|split; intros; discriminate].
      rewrite (scanstring_extends _ _ _ x S).
      split; intros; [|discriminate]. congruence. }
    destruct (c =? 123)%N eqn:C123.
    { destruct depth as [|d]; [split; intros; [discriminate | assumption]|].
      destruct (skip_ws rest) as [|c1 r1] eqn:W;
        [split; intros; discriminate|].
      rewrite (skip_ws_extends _ _ _ x W).
      destruct (c1 =? 125)%N.
      - split; intros; [|discriminate]. congruence.
      - destruct (IHm d [] (c1 :: r1) f' L) as [I1 I2].
        split; [intros v r H _; now apply I1 | exact I2]. }
    destruct (c =? 91)%N eqn:C91.
    { destruct depth as [|d]; [split; intros; [discriminate | assumption]|].
      destruct (skip_ws rest) as [|c1 r1] eqn:W;
        [split; intros; discriminate|].
      rewrite (skip_ws_extends _ _ _ x W).
      destruct (c1 =? 93)%N.
      - split; intros; [|discriminate]. congruence.
      - destruct (IHe d [] (c1 :: r1) f' L) as [I1 I2].
        split; [intros v r H _; now apply I1 | exact I2]. }
    split.
    + intros v r H [O|E]; [discriminate|].
      change (c :: rest ++ x) with ((c :: rest) ++ x).
      now apply scan_atom_limited_extends.
    + intros c' H. now apply scan_atom_no_recursion in H.
  - intros depth acc [|q s1] [|f'] L; try lia;
      [split; intros; discriminate|].
    apply le_S_n in L. cbn [app]. rewrite !parse_members_cons.
    destruct (negb (q =? 34)%N); [split; intros; discriminate|].
    destruct (scanstring s1) as [[key s2]|] eqn:S;
      [|split; intros; discriminate].
    rewrite (scanstring_extends _ _ _ x S).
    destruct (skip_ws s2) as [|colon s3] eqn:W2;
      [split; intros; discriminate|].
    rewrite (skip_ws_extends _ _ _ x W2).
    destruct (negb (colon =? 58)%N); [split; intros; discriminate|].
    destruct (skip_ws s3) as [|c3 r3] eqn:W3.
    { destruct (scan_once_nil depth f) as [-> | ->];
        split; intros; discriminate. }
    rewrite (skip_ws_extends _ _ _ x W3).
    change (c3 :: r3 ++ x) with ((c3 :: r3) ++ x).
    destruct (IHs depth (c3 :: r3) f' L) as [I1 I2].
    destruct (scan_once py depth f (c3 :: r3)) as [v0 s4| |e|] eqn:V;
      try (split; intros; discriminate).
    + cbv zeta.
      destruct (skip_ws s4) as [|c s5] eqn:W4;
        [split; intros; discriminate|].
      destruct (Km depth (dict_set acc key v0) s5 f' L) as [J1 J2].
      destruct (N.eqb_spec c 125) as [->|C125].
      * rewrite (I1 v0 s4 eq_refl)
          by (right; apply (number_end_separator _ _ _ W4); auto).
        rewrite (skip_ws_extends _ _ _ x W4).
        change (125 =? 125)%N with true. cbv iota.
        split; intros; [|discriminate]. congruence.
      * destruct (N.eqb_spec c 44) as [->|C44];
          [|split; intros; discriminate].
        rewrite (I1 v0 s4 eq_refl)
          by (right; apply (number_end_separator _ _ _ W4); auto).
        rewrite (skip_ws_extends _ _ _ x W4).
        change (44 =? 125)%N with false. change (44 =? 44)%N with true.
        cbv iota. split; [exact J1 | exact J2].
    + split; intros; [discriminate|].
      now rewrite (I2 c) by congruence.
  - intros depth acc s [|f'] L; try lia.
    apply le_S_n in L. rewrite !parse_elements_S.
    destruct (IHs depth s f' L) as [I1 I2].
    destruct (scan_once py depth f s) as [v0 s1| |e|] eqn:V;
      try (split; intros; discriminate).
    + destruct (skip_ws s1) as [|c s2] eqn:W1;
        [split; intros; discriminate|].
      destruct (Ke depth (v0 :: acc) s2 f' L) as [J1 J2].
      destruct (N.eqb_spec c 93) as [->|C93].
      * rewrite (I1 v0 s1 eq_refl)
          by (right; apply (number_end_separator _ _ _ W1); auto).
        rewrite (skip_ws_extends _ _ _ x W1).
        change (93 =? 93)%N with true. cbv iota.
        split; intros; [|discriminate]. congruence.
      * destruct (N.eqb_spec c 44) as [->|C44];
          [|split; intros; discriminate].
        rewrite (I1 v0 s1 eq_refl)
          by (right; apply (number_end_separator _ _ _ W1); auto).
        rewrite (skip_ws_extends _ _ _ x W1).
        change (44 =? 93)%N with false. change (44 =? 44)%N with true.
        cbv iota. split; [exact J1 | exact J2].
    + split; intros; [discriminate|].
      now rewrite (I2 c) by congruence.
Qed.

End ScanContinued.
Section DigitRuns.

Local Open Scope nat_scope.

Variable py : interpreter.

(** [r] is the end of [s]. *)
Local Abbreviation suffix := (fun r s : pystr => exists p, s = p ++ r).

Lemma suffix_refl (s : pystr) : suffix s s.
Proof. now exists []. Qed.

Lemma suffix_trans (a b c : pystr) : suffix a b -> suffix b c -> suffix a c.
Proof. intros (p & ->) (q & ->). exists (q ++ p). now rewrite app_assoc. Qed.

Lemma suffix_cons (c : N) (r s : pystr) : suffix r s -> suffix r (c :: s).
Proof. intros (p & ->). now exists (c :: p). Qed.

Lemma exceeds_mono (n m : nat) :
  n <= m -> exceeds py n = true -> exceeds py m = true.
Proof.
  unfold exceeds. intros L H.
  apply andb_true_iff in H as [H H3]. apply andb_true_iff in H as [H1 H2].
  apply Nat.ltb_lt in H1, H3.
  rewrite H2, andb_true_r. apply andb_true_iff.
  split; apply Nat.ltb_lt; lia.
Qed.

Lemma run_suffix (r s : pystr) :
  suffix r s -> longest_digit_run r <= longest_digit_run s.
Proof.
  intros (p & ->). induction p as [|c p IH]; [apply le_n|].
  cbn [app longest_digit_run]. lia.
Qed.

Lemma span_digits_prefix (s x : pystr) :
  length (fst (span_digits s)) <= length (fst (span_digits (s ++ x))).
Proof.
  induction s as [|c s IH]; [apply Nat.le_0_l|].
  cbn [app span_digits]. destruct (isdigit c); [|apply le_n].
  destruct (span_digits s), (span_digits (s ++ x)). cbn [fst length] in *. lia.
Qed.

Lemma run_prefix (p x : pystr) :
  longest_digit_run p <= longest_digit_run (p ++ x).
Proof.
  induction p as [|c p IH]; [apply Nat.le_0_l|].
  change ((c :: p) ++ x) with (c :: p ++ x).
  cbn [longest_digit_run].
  pose proof (span_digits_prefix (c :: p) x) as S.
  change ((c :: p) ++ x) with (c :: p ++ x) in S. lia.
Qed.

Lemma run_head (s : pystr) :
  length (fst (span_digits s)) <= longest_digit_run s.
Proof. destruct s as [|c s]; [apply le_n|]. cbn [longest_digit_run]. lia. Qed.

(** An integer literal is a run of digits of its text. *)
Lemma literal_digits_run (s : pystr) : literal_digits s <= longest_digit_run s.
Proof.
  unfold literal_digits.
  assert (S1 : suffix (snd (match_sign s)) s).
  { destruct s as [|c s]; [apply suffix_refl|]. cbn [match_sign].
    destruct (c =? 45)%N; [now exists [c] | apply suffix_refl]. }
  apply run_suffix in S1.
  destruct (snd (match_sign s)) as [|c s1]; [apply Nat.le_0_l|].
  pose proof (run_head (c :: s1)) as R.
  cbn [match_integer]. cbn [span_digits] in R.
  destruct (c =? 48)%N eqn:Z.
  - apply N.eqb_eq in Z. subst c. change (isdigit 48) with true in R.
    destruct (span_digits s1). cbn [fst length] in *. lia.
  - destruct (isdigit c); [|apply Nat.le_0_l].
    destruct (span_digits s1). cbn [fst length] in *. lia.
Qed.

Lemma scan_atom_suffix (s : pystr) (v : value) (r : pystr) :
  scan_atom s = Scanned v r -> suffix r s.
Proof.
  unfold scan_atom.
  repeat match goal with
         | |- context [strip_prefix ?p s] =>
             let E := fresh "E" in
             destruct (strip_prefix p s) eqn:E;
             [intros H; injection H as _ <-;
              apply strip_prefix_some in E; now exists p|]
         end.
  destruct (match_number s) as [[v0 r0]|] eqn:M; [|discriminate].
  intros H. injection H as _ <-.
  apply match_number_split in M as (p & -> & _). now exists p.
Qed.

(** What the scanner leaves is the end of its text; and where it stops at
    the digit limit, the text has a run of more digits than [int]
    converts. *)
Local Abbreviation sound :=
  (fun (s : pystr) (res : scan_result) =>
     match res with
     | Loaded _ r => suffix r s
     | Exceeded (DigitLimit _) => exceeds py (longest_digit_run s) = true
     | _ => True
     end).

Lemma sound_suffix (t s : pystr) (res : scan_result) :
  suffix t s -> sound t res -> sound s res.
Proof.
  intros S. destruct res as [v r| |[n|c]|]; cbn; try easy.
  - intros R. exact (suffix_trans _ _ _ R S).
  - apply exceeds_mono. now apply run_suffix.
Qed.

Lemma scan_atom_sound (s : pystr) : sound s (scan_atom_limited py s).
Proof.
  unfold scan_atom_limited.
  destruct (scan_atom s) as [v r| |] eqn:A; try exact I.
  apply scan_atom_suffix in A.
  destruct v; try exact A.
  destruct (exceeds py (literal_digits s)) eqn:X; [|exact A].
  cbn. exact (exceeds_mono _ _ (literal_digits_run s) X).
Qed.

Lemma scan_sound (f : nat) :
  (forall depth s, sound s (scan_once py depth f s))
  /\ (forall depth acc s, sound s (parse_members py depth f acc s))
  /\ (forall depth acc s, sound s (parse_elements py depth f acc s)).
Proof.
  induction f as [|f (IHs & IHm & IHe)]; [repeat split; exact I|].
  split; [|split].
  - intros depth [|c rest]; [exact I|]. rewrite scan_once_cons.
    destruct (c =? 34)%N.
    { destruct (scanstring rest) as [[str r]|] eqn:S; [|exact I].
      apply scanstring_suffix in S. now apply suffix_cons. }
    destruct (c =? 123)%N.
    { destruct depth as [|d]; [exact I|].
      pose proof (skip_ws_suffix rest) as W.
      destruct (skip_ws rest) as [|c1 r1]; [exact I|].
      destruct (c1 =? 125)%N.
      - apply suffix_cons. destruct W as (p & ->). exists (p ++ [c1]).
        now rewrite <- app_assoc.
      - apply (sound_suffix (c1 :: r1)); [now apply suffix_cons | apply IHm]. }
    destruct (c =? 91)%N.
    { destruct depth as [|d]; [exact I|].
      pose proof (skip_ws_suffix rest) as W.
      destruct (skip_ws rest) as [|c1 r1]; [exact I|].
      destruct (c1 =? 93)%N.
      - apply suffix_cons. destruct W as (p & ->). exists (p ++ [c1]).
        now rewrite <- app_assoc.
      - apply (sound_suffix (c1 :: r1)); [now apply suffix_cons | apply IHe]. }
    apply scan_atom_sound.
  - intros depth acc [|q s1]; [exact I|]. rewrite parse_members_cons.
    destruct (negb (q =? 34)%N); [exact I|].
    destruct (scanstring s1) as [[key s2]|] eqn:S; [|exact I].
    apply scanstring_suffix in S.
    pose proof (skip_ws_suffix s2) as W2.
    destruct (skip_ws s2) as [|colon s3]; [exact I|].
    destruct (negb (colon =? 58)%N); [exact I|].
    pose proof (skip_ws_suffix s3) as W3.
    assert (S3 : suffix (skip_ws s3) (q :: s1)).
    { apply suffix_cons. refine (suffix_trans _ _ _ _ S).
      refine (suffix_trans _ _ _ _ W2). apply suffix_cons. exact W3. }
    specialize (IHs depth (skip_ws s3)).
    destruct (scan_once py depth f (skip_ws s3)) as [v s4| |e|];
      try exact I; [|exact (sound_suffix _ _ (Exceeded e) S3 IHs)].
    cbv zeta. cbn in IHs.
    pose proof (skip_ws_suffix s4) as W4.
    destruct (skip_ws s4) as [|c s5]; [exact I|].
    assert (S5 : suffix s5 (q :: s1)).
    { refine (suffix_trans _ _ _ _ S3). refine (suffix_trans _ _ _ _ IHs).
      refine (suffix_trans _ _ _ _ W4). now exists [c]. }
    destruct (c =? 125)%N; [exact S5|].
    destruct (c =? 44)%N; [|exact I].
    apply (sound_suffix (skip_ws s5)); [|apply IHm].
    exact (suffix_trans _ _ _ (skip_ws_suffix s5) S5).
  - intros depth acc s. rewrite parse_elements_S.
    specialize (IHs depth s).
    destruct (scan_once py depth f s) as [v s1| |e|]; try exact I;
      [|exact IHs].
    cbn in IHs. pose proof (skip_ws_suffix s1) as W1.
    destruct (skip_ws s1) as [|c s2]; [exact I|].
    assert (S2 : suffix s2 s).
    { refine (suffix_trans _ _ _ _ IHs).
      refine (suffix_trans _ _ _ _ W1). now exists [c]. }
    destruct (c =? 93)%N; [exact S2|].
    destruct (c =? 44)%N; [|exact I].
    apply (sound_suffix (skip_ws s2)); [|apply IHe].
    exact (suffix_trans _ _ _ (skip_ws_suffix s2) S2).
Qed.

(** On a text without a run of more digits than [int] converts, the
    scanner does not stop at the digit limit. *)
Lemma no_digit_limit (depth f : nat) (s : pystr) (n : nat) :
  exceeds py (longest_digit_run s) = false ->
  scan_once py depth f s <> Exceeded (DigitLimit n).
Proof.
  intros X H. pose proof (proj1 (scan_sound f) depth s) as S.
  rewrite H in S. cbn in S. congruence.
Qed.

End DigitRuns.
Section Truncated.

Local Open Scope nat_scope.

Variable py : interpreter.

(** The text of an object that is cut off before its end is no JSON:
    [json.loads] raises a [JSONDecodeError] on every proper start of the
    text of a well-formed object, when the object is within the limits
    and its text has no run of more digits than [int] converts. *)
Lemma truncated_object_rejected (d : dict) (indent : option nat)
    (q x : pystr) :
  value_ok (VDict d) = true ->
  within py (recursion_room py) (VDict d) = true ->
  exceeds py (longest_digit_run (encode indent 0 (VDict d))) = false ->
  encode indent 0 (VDict d) = q ++ x -> x <> [] ->
  json_loads py q = DecodeFailed.
Proof.
  intros Ok Wi Runs E Nx.
  destruct q as [|c q']; [reflexivity|].
  destruct (encode_dict_braces indent 0 d) as (body & B).
  assert (C : c = 123%N) by (rewrite B in E; now injection E as ->).
  subst c. unfold json_loads. change (123 =? 0xFEFF)%N with false. cbv iota.
  pose proof (scan_once_total py (recursion_room py) (123%N :: q')) as T.
  rewrite (skip_ws_stop 123) in * by reflexivity.
  set (F := 2 * length (123%N :: q') + 2) in *.
  set (Ft := 2 * length (encode indent 0 (VDict d)) + 2).
  assert (LF : F <= Ft).
  { unfold F, Ft. rewrite E, length_app. lia. }
  pose proof (weight_le_length (VDict d) Ok indent 0) as W.
  pose proof (scan_encoded py (VDict d) Ok (recursion_room py) indent 0 [] Ft
                Wi eq_refl ltac:(unfold Ft; lia)) as Full.
  rewrite app_nil_r, E in Full.
  destruct (proj1 (scan_extends py x F) (recursion_room py) (123%N :: q') Ft LF)
    as [X1 X2].
  destruct (scan_once py (recursion_room py) F (123%N :: q'))
    as [v r| |[n|c]|] eqn:R.
  - exfalso. rewrite (X1 v r eq_refl (or_introl eq_refl)) in Full.
    injection Full as _ Er. apply app_eq_nil in Er as [_ Er]. congruence.
  - reflexivity.
  - exfalso. apply (no_digit_limit py _ _ _ n) in R; [assumption|].
    destruct (exceeds py (longest_digit_run (123%N :: q'))) eqn:Xq;
      [|reflexivity].
    rewrite <- Runs. symmetry. rewrite E.
    exact (exceeds_mono py _ _ (run_prefix _ x) Xq).
  - exfalso. rewrite (X2 c eq_refl) in Full. discriminate.
  - congruence.
Qed.

End Truncated.

(* ================================================================== *)
(** * The claims *)
(* ================================================================== *)

Section Extraction.

Local Open Scope nat_scope.

(** C9, counterexample.  A one-page document with the text "a": the
    extractor returns "a" and a line feed, not the newline-joined page
    texts, which would be "a". *)
Lemma C9_joined_counterexample :
  extract_text_from_pdf [Some (lit "a")]
  <> join [10%N] (page_texts [Some (lit "a")]).
Proof. vm_compute. discriminate. Qed.

(** C9, amended.  For every document, the extractor returns the texts of
    the pages that yield text, in page order, each followed by a line
    feed: nothing for no such page, else the newline-joined texts and one
    more line feed.  There are at most as many such texts as pages, and a
    page without text adds nothing. *)
Theorem C9_extract_text_newline_terminated (pages : document) :
  extract_text_from_pdf pages
  = flat_map (fun t => t ++ [10%N]) (page_texts pages)
  /\ extract_text_from_pdf pages
     = match page_texts pages with
       | [] => []
       | ts => join [10%N] ts ++ [10%N]
       end
  /\ length (page_texts pages) <= length pages.
Proof.
  induction pages as [|[[|c t]|] pages (IH1 & IH2 & IH3)]; cbn [page_texts].
  - repeat split; reflexivity.
  - cbn [extract_text_from_pdf truthy length]. repeat split; auto.
  - cbn [extract_text_from_pdf truthy flat_map length].
    split; [|split; [|lia]].
    + now rewrite IH1, <- app_assoc.
    + rewrite join_head, IH2.
      destruct (page_texts pages) as [|t2 ts].
      * now rewrite !app_nil_r.
      * now rewrite <- !app_assoc.
  - cbn [extract_text_from_pdf truthy length]. repeat split; auto.
Qed.

End Extraction.

Section Prompt.

Local Open Scope nat_scope.

(** C10.  For every text, the prompt is the fixed instruction header (the
    constant up to [INVOICE TEXT:], 1160 characters), one line feed as the
    join, and the text as it is: nothing of the text is cut or escaped
    (what follows the header and the join is the text, and two texts with
    the same prompt are the same text), equal texts give equal prompts,
    and the length is the header's plus the text's plus one for the
    join. *)
Theorem C10_prompt_is_header_join_text (text : pystr) :
  build_prompt text = INSTRUCTION_HEADER ++ [10%N] ++ text
  /\ length (build_prompt text)
     = length INSTRUCTION_HEADER + length text + 1
  /\ length INSTRUCTION_HEADER = 1160
  /\ (exists h, INSTRUCTION_HEADER = h ++ lit "INVOICE TEXT:")
  /\ skipn (length INSTRUCTION_HEADER + 1) (build_prompt text) = text
  /\ (forall text', text = text' -> build_prompt text = build_prompt text')
  /\ (forall text', build_prompt text = build_prompt text' -> text = text').
Proof.
  assert (E : INVOICE_EXTRACTION_PROMPT = INSTRUCTION_HEADER ++ [10%N])
    by (vm_compute; reflexivity).
  assert (L : length INSTRUCTION_HEADER = 1160) by (vm_compute; reflexivity).
  assert (B : forall t, build_prompt t = INSTRUCTION_HEADER ++ [10%N] ++ t).
  { intros t. unfold build_prompt. now rewrite E, <- app_assoc. }
  split; [apply B|]. split; [|split; [exact L|split; [|split; [|split]]]].
  - rewrite B, !length_app. cbn [length]. lia.
  - exists (firstn 1147 INSTRUCTION_HEADER). vm_compute. reflexivity.
  - rewrite B, app_assoc.
    replace (length INSTRUCTION_HEADER + 1)
      with (length (INSTRUCTION_HEADER ++ [10%N]))
      by (rewrite length_app; reflexivity).
    generalize (INSTRUCTION_HEADER ++ [10%N]) as header. intros header.
    rewrite skipn_app, Nat.sub_diag, skipn_all. reflexivity.
  - now intros text' ->.
  - intros text' H. rewrite !B in H.
    apply app_inv_head in H. now apply app_inv_head in H.
Qed.

End Prompt.

Section Client.

(** C8, counterexample.  Without a credential the message of the error
    is the source's own text, not "service not configured". *)
Lemma C8_message_counterexample :
  fst (analyze_invoice_with_gemini cpython None (always list_reply) some_text [])
  <> Returned (error_dict (lit "service not configured")).
Proof. vm_compute. discriminate. Qed.

(** C8, amended.  For every text, every service and every log of
    requests: if no credential is configured (none, or an empty one), the
    analysis returns the error "GEMINI_API_KEY not configured. Set in .env
    file." and the log of requests is unchanged: nothing is sent. *)
Theorem C8_no_credential_no_request
    (py : interpreter) (GEMINI_API : option pystr) (generate_content : service)
    (text : pystr) (sent : list pystr) :
  truthy GEMINI_API = false ->
  analyze_invoice_with_gemini py GEMINI_API generate_content text sent
  = (Returned (error_dict not_configured_message), sent).
Proof.
  intros H. unfold analyze_invoice_with_gemini. now rewrite H.
Qed.

Lemma C8_no_credential_witness :
  truthy None = false
  /\ analyze_invoice_with_gemini cpython None (always list_reply) some_text []
     = (Returned (error_dict not_configured_message), []).
Proof.
  split; [reflexivity|].
  apply (C8_no_credential_no_request cpython None (always list_reply)
           some_text []).
  reflexivity.
Defined.

(** With a credential, one request goes out: the prompt. *)
Lemma configured_sends_prompt
    (py : interpreter) (GEMINI_API : option pystr) (generate_content : service)
    (text : pystr) (sent : list pystr) :
  truthy GEMINI_API = true ->
  snd (analyze_invoice_with_gemini py GEMINI_API generate_content text sent)
  = sent ++ [build_prompt text].
Proof.
  intros H. unfold analyze_invoice_with_gemini. rewrite H. simpl.
  now destruct (generate_content (build_prompt text)) as [raw|[| |] message].
Qed.

End Client.

Section Normalizer.

(** An interpreter whose recursion limit leaves room for [n] more
    containers at least gives the scanner a depth of that form. *)
Lemma room_for (py : interpreter) (n : nat) :
  (n <= recursion_room py)%nat ->
  exists m msg extra,
    py = mkInterpreter m (n + extra) msg.
Proof.
  destruct py as [m room msg]. cbn [recursion_room]. intros H.
  exists m, msg, (room - n)%nat. f_equal. lia.
Qed.

(** What the normalizer makes of a reply, by what [json.loads] does with
    the candidate: the value, the parse error with the whole reply, or the
    error of the exception of a limit, without the reply. *)
Lemma parse_response_outcomes (py : interpreter) (raw candidate : pystr) :
  unfence raw = Some candidate ->
  parse_response py raw
  = match json_loads py (strip candidate) with
    | Parsed v => v
    | DecodeFailed => parse_error_dict raw
    | LimitHit e => error_dict (str_of py e)
    end.
Proof. intros U. unfold parse_response. now rewrite U. Qed.

(** What every analysis ends in: one of the error dicts of the source,
    the value that [json.loads] returned, or, when the service raised a
    [JSONDecodeError] or an exception outside [Exception], an exception
    that leaves the function. *)
Lemma analysis_outcomes
    (py : interpreter) (GEMINI_API : option pystr) (generate_content : service)
    (text : pystr) (sent : list pystr) :
  let outcome :=
    fst (analyze_invoice_with_gemini py GEMINI_API generate_content text sent) in
  outcome = Returned (error_dict not_configured_message)
  \/ (exists message,
        generate_content (build_prompt text) = Raised OtherException message
        /\ outcome = Returned (error_dict message))
  \/ (exists raw, generate_content (build_prompt text) = Replied raw
                  /\ outcome = Returned (parse_error_dict raw))
  \/ (exists raw candidate e,
        generate_content (build_prompt text) = Replied raw
        /\ unfence raw = Some candidate
        /\ json_loads py (strip candidate) = LimitHit e
        /\ outcome = Returned (error_dict (str_of py e)))
  \/ (exists raw candidate result,
        generate_content (build_prompt text) = Replied raw
        /\ unfence raw = Some candidate
        /\ json_loads py (strip candidate) = Parsed result
        /\ outcome = Returned result)
  \/ (exists cls message,
        generate_content (build_prompt text) = Raised cls message
        /\ (cls = JSONDecodeError \/ cls = OutsideException)
        /\ outcome = Escapes).
Proof.
  unfold analyze_invoice_with_gemini.
  destruct (truthy GEMINI_API); cbn [negb]; [|now left].
  destruct (generate_content (build_prompt text)) as [raw|[| |] message] eqn:G;
    cbn [fst].
  - destruct (unfence_defined raw) as (candidate & U).
    rewrite (parse_response_outcomes py raw candidate U).
    destruct (json_loads py (strip candidate)) as [v| |e] eqn:J.
    + do 4 right. left. now exists raw, candidate, v.
    + right. right. left. now exists raw.
    + do 3 right. left. now exists raw, candidate, e.
  - do 5 right. exists JSONDecodeError, message. auto.
  - right. left. now exists message.
  - do 5 right. exists OutsideException, message. auto.
Qed.

(** A dict is shown as an error when it has the key [error], else as a
    record: the dispatch raises nothing on a dict. *)
Lemma render_dict (d : dict) :
  render (VDict d)
  = match dict_lookup d (lit "error") with
    | Some message => ShowError message (dict_lookup d (lit "raw_response"))
    | None => ShowRecord d
    end.
Proof.
  unfold render, py_in, dict_has.
  now destruct (dict_lookup d (lit "error")).
Qed.

(** C1, the code at the failing input.  With a credential configured and
    the model replying [[1, 2]], on an interpreter with room for one
    container, the analysis returns the list itself, which is neither a
    record nor an error dict, and the shell's dispatch on it raises an
    uncaught AttributeError; on the reply [42] it raises an uncaught
    TypeError. *)
Theorem C1_non_object_reply_escapes (py : interpreter) :
  (1 <= recursion_room py)%nat ->
  fst (analyze_invoice_with_gemini py some_key (always list_reply) some_text [])
  = Returned (VList [VInt 1; VInt 2])
  /\ render (VList [VInt 1; VInt 2]) = Uncaught AttributeError
  /\ fst (analyze_invoice_with_gemini py some_key (always (lit "42")) some_text [])
     = Returned (VInt 42)
  /\ render (VInt 42) = Uncaught TypeError.
Proof.
  intros R. destruct (room_for py 1 R) as (m & msg & extra & ->).
  vm_compute. repeat split.
Qed.

Lemma C1_non_object_witness :
  (1 <= recursion_room cpython)%nat
  /\ fst (analyze_invoice_with_gemini cpython some_key (always list_reply)
            some_text [])
     = Returned (VList [VInt 1; VInt 2])
  /\ render (VList [VInt 1; VInt 2]) = Uncaught AttributeError
  /\ fst (analyze_invoice_with_gemini cpython some_key (always (lit "42"))
            some_text [])
     = Returned (VInt 42)
  /\ render (VInt 42) = Uncaught TypeError.
Proof.
  split; [vm_compute; lia|].
  apply (C1_non_object_reply_escapes cpython). vm_compute. lia.
Defined.

(** A [JSONDecodeError] of the service itself is not turned into an error
    dict: it leaves the analysis as an exception. *)
Lemma decode_error_of_service_escapes (py : interpreter) :
  fst (analyze_invoice_with_gemini py some_key broken_transport some_text [])
  = Escapes.
Proof. reflexivity. Qed.

(** C3, the code at the failing input.  For the reply made of a
    JSON-tagged fence, a line with [{}], and a closing fence directly
    followed by a backtick and [json], the content between the opening
    marker and its closing marker is the line with [{}], which is valid
    JSON; the code's candidate has one more backtick at its end, and the
    reply is reported as a parse failure (on an interpreter with room for
    one container). *)
Theorem C3_crowded_closing_fence (py : interpreter) :
  (1 <= recursion_room py)%nat ->
  spec_candidate crowded_reply = [10] ++ lit "{}" ++ [10]
  /\ unfence crowded_reply = Some ([10] ++ lit "{}" ++ [10] ++ lit "`")
  /\ json_loads py (strip (spec_candidate crowded_reply)) = Parsed (VDict [])
  /\ parse_response py crowded_reply = parse_error_dict crowded_reply.
Proof.
  intros R. destruct (room_for py 1 R) as (m & msg & extra & ->).
  vm_compute. repeat split.
Qed.

Lemma C3_crowded_witness :
  (1 <= recursion_room cpython)%nat
  /\ spec_candidate crowded_reply = [10] ++ lit "{}" ++ [10]
  /\ unfence crowded_reply = Some ([10] ++ lit "{}" ++ [10] ++ lit "`")
  /\ json_loads cpython (strip (spec_candidate crowded_reply)) = Parsed (VDict [])
  /\ parse_response cpython crowded_reply = parse_error_dict crowded_reply.
Proof.
  split; [vm_compute; lia|].
  apply (C3_crowded_closing_fence cpython). vm_compute. lia.
Defined.

(** A reply on whose candidate [json.loads] raises a [JSONDecodeError]
    becomes the parse error with the whole reply. *)
Lemma decode_failure_keeps_raw_reply (py : interpreter) (raw candidate : pystr) :
  unfence raw = Some candidate ->
  json_loads py (strip candidate) = DecodeFailed ->
  parse_response py raw = parse_error_dict raw.
Proof.
  intros U J. now rewrite (parse_response_outcomes py raw candidate U), J.
Qed.




(** C5, counterexample.  The reply [{"total": "123.45"}] normalizes to a
    dict whose total is the string "123.45", not the number 123.45; the
    reply [{"tax": "n/a"}] normalizes to a dict whose tax is the string
    "n/a", not null. *)
Lemma C5_coercion_counterexample :
  parse_response cpython string_total_reply
  = VDict [(lit "total", VStr (lit "123.45"))]
  /\ VStr (lit "123.45") <> VFloat (float_of_decimal false 12345 (-2))
  /\ parse_response cpython string_tax_reply
     = VDict [(lit "tax", VStr (lit "n/a"))]
  /\ VStr (lit "n/a") <> VNone.
Proof. vm_compute. repeat split; discriminate. Qed.

(** C5, amended.  For every reply whose candidate [json.loads] reads as
    an object, the normalizer returns that object itself, at every depth:
    a field that arrives as a JSON string is that same string in the
    result, whether or not it reads as a number (no coercion to a number,
    no mapping to null), among the fields of the object as among the
    fields of its line items. *)
Theorem C5_string_fields_stay_strings
    (py : interpreter) (raw candidate : pystr) (d : dict) :
  unfence raw = Some candidate ->
  json_loads py (strip candidate) = Parsed (VDict d) ->
  parse_response py raw = VDict d
  /\ (forall key s,
        dict_lookup d key = Some (VStr s) ->
        exists result,
          parse_response py raw = VDict result
          /\ dict_lookup result key = Some (VStr s))
  /\ (forall items i item key s,
        dict_lookup d (lit "line_items") = Some (VList items) ->
        nth_error items i = Some (VDict item) ->
        dict_lookup item key = Some (VStr s) ->
        exists result items' item',
          parse_response py raw = VDict result
          /\ dict_lookup result (lit "line_items") = Some (VList items')
          /\ length items' = length items
          /\ nth_error items' i = Some (VDict item')
          /\ dict_lookup item' key = Some (VStr s)).
Proof.
  intros U J.
  assert (E : parse_response py raw = VDict d)
    by now rewrite (parse_response_outcomes py raw candidate U), J.
  split; [exact E|]. split.
  - intros key s L. now exists d.
  - intros items i item key s L N K. now exists d, items, item.
Qed.

Lemma C5_string_fields_witness :
  let item := [(lit "description", VStr (lit "Paper"));
               (lit "quantity", VStr (lit "2"));
               (lit "unit_price", VStr (lit "n/a"));
               (lit "amount", VStr (lit "9.90"))] in
  let d := [(lit "total", VStr (lit "123.45"));
            (lit "line_items", VList [VDict item])] in
  unfence string_items_reply = Some string_items_reply
  /\ json_loads cpython (strip string_items_reply) = Parsed (VDict d)
  /\ parse_response cpython string_items_reply = VDict d
  /\ (forall key s,
        dict_lookup d key = Some (VStr s) ->
        exists result,
          parse_response cpython string_items_reply = VDict result
          /\ dict_lookup result key = Some (VStr s))
  /\ (forall items i item key s,
        dict_lookup d (lit "line_items") = Some (VList items) ->
        nth_error items i = Some (VDict item) ->
        dict_lookup item key = Some (VStr s) ->
        exists result items' item',
          parse_response cpython string_items_reply = VDict result
          /\ dict_lookup result (lit "line_items") = Some (VList items')
          /\ length items' = length items
          /\ nth_error items' i = Some (VDict item')
          /\ dict_lookup item' key = Some (VStr s)).
Proof.
  cbv zeta.
  split; [vm_compute; reflexivity|]. split; [vm_compute; reflexivity|].
  apply (C5_string_fields_stay_strings cpython string_items_reply
           string_items_reply);
    vm_compute; reflexivity.
Defined.

(** C7, the code at the failing input.  For the reply with
    [invoice_date], [total] and [category_suggestion] null, as the prompt
    asks for fields that are not found, the flat export has [None] in the
    three columns, not the empty string (on an interpreter with room for
    one container). *)
Theorem C7_null_fields_export_None (py : interpreter) :
  (1 <= recursion_room py)%nat ->
  parse_response py null_fields_reply
  = VDict [(lit "invoice_date", VNone); (lit "vendor_name", VStr (lit "Acme Corp"));
           (lit "total", VNone); (lit "category_suggestion", VNone)]
  /\ export_csv [(lit "invoice_date", VNone);
                 (lit "vendor_name", VStr (lit "Acme Corp"));
                 (lit "total", VNone); (lit "category_suggestion", VNone)]
     = Some (lit "date,vendor,total,category" ++ [10]
               ++ lit "None,Acme Corp,None,None").
Proof.
  intros R. destruct (room_for py 1 R) as (m & msg & extra & ->).
  vm_compute. split; reflexivity.
Qed.

Lemma C7_null_fields_witness :
  (1 <= recursion_room cpython)%nat
  /\ parse_response cpython null_fields_reply
     = VDict [(lit "invoice_date", VNone);
              (lit "vendor_name", VStr (lit "Acme Corp"));
              (lit "total", VNone); (lit "category_suggestion", VNone)]
  /\ export_csv [(lit "invoice_date", VNone);
                 (lit "vendor_name", VStr (lit "Acme Corp"));
                 (lit "total", VNone); (lit "category_suggestion", VNone)]
     = Some (lit "date,vendor,total,category" ++ [10]
               ++ lit "None,Acme Corp,None,None").
Proof.
  split; [vm_compute; lia|].
  apply (C7_null_fields_export_None cpython). vm_compute. lia.
Defined.

(** The scenario of section 8: the reply normalizes to the object the
    model wrote (the keys it wrote, in its order), and the flat export is
    the header and the row [2024-03-14,Acme Corp,45.0,Office Supplies]. *)
Lemma scenario_export (py : interpreter) :
  (2 <= recursion_room py)%nat ->
  parse_response py scenario_reply
  = VDict [(lit "vendor_name", VStr (lit "Acme Corp"));
           (lit "invoice_number", VStr (lit "100"));
           (lit "invoice_date", VStr (lit "2024-03-14"));
           (lit "total", VFloat float_45);
           (lit "currency", VStr (lit "USD"));
           (lit "line_items", VList []);
           (lit "category_suggestion", VStr (lit "Office Supplies"))]
  /\ (forall d, parse_response py scenario_reply = VDict d ->
        export_csv d
        = Some (lit "date,vendor,total,category" ++ [10]
                  ++ lit "2024-03-14,Acme Corp,45.0,Office Supplies")).
Proof.
  intros R. destruct (room_for py 2 R) as (m & msg & extra & ->).
  assert (E : parse_response (mkInterpreter m (2 + extra) msg) scenario_reply
    = VDict [(lit "vendor_name", VStr (lit "Acme Corp"));
           (lit "invoice_number", VStr (lit "100"));
           (lit "invoice_date", VStr (lit "2024-03-14"));
           (lit "total", VFloat float_45);
           (lit "currency", VStr (lit "USD"));
           (lit "line_items", VList []);
           (lit "category_suggestion", VStr (lit "Office Supplies"))])
    by (vm_compute; reflexivity).
  split; [exact E|]. intros d H. rewrite E in H. injection H as <-.
  vm_compute. reflexivity.
Qed.

(** A field that is missing contributes the empty string to the flat
    export; a field that is a string contributes itself. *)
Lemma csv_field_missing (d : dict) (key : pystr) :
  dict_lookup d key = None -> csv_field d key = Some [].
Proof. intros H. unfold csv_field, dict_get. now rewrite H. Qed.

Lemma csv_field_string (d : dict) (key s : pystr) :
  dict_lookup d key = Some (VStr s) -> csv_field d key = Some s.
Proof. intros H. unfold csv_field, dict_get. now rewrite H. Qed.

(** A fenced reply around the text of any well-formed object within the
    limits, in either layout, normalizes to that object. *)
Lemma parse_response_fenced (py : interpreter) (d : dict) (indent : option nat)
    (before after : pystr) :
  value_ok (VDict d) = true ->
  within py (recursion_room py) (VDict d) = true ->
  contains FENCE (encode indent 0 (VDict d)) = false ->
  contains FENCE_JSON before = false ->
  strip_prefix (lit "`json") after = None ->
  strip_prefix (lit "``json") after = None ->
  parse_response py (fenced_reply before (encode indent 0 (VDict d)) after)
  = VDict d.
Proof.
  intros Ok Wi CJ Cb H1 H2. unfold parse_response.
  rewrite (unfence_fenced_reply _ _ _ Cb CJ H1 H2).
  rewrite strip_dict_block.
  now rewrite (json_loads_encoded py _ _ _ Ok Wi).
Qed.

(** The object of a record determines the record. *)
Lemma record_dict_inj (r1 r2 : InvoiceRecord) :
  record_dict r1 = record_dict r2 -> r1 = r2.
Proof.
  assert (T : forall a b, text_value a = text_value b -> a = b).
  { intros [a|] [b|]; simpl; congruence. }
  assert (Nm : forall a b, number_value a = number_value b -> a = b).
  { intros [[a|a]|] [[b|b]|]; simpl; congruence. }
  assert (Li : forall a b, line_item_value a = line_item_value b -> a = b).
  { intros [a1 a2 a3 a4] [b1 b2 b3 b4]. unfold line_item_value. simpl.
    intros H. injection H as H1 H2 H3 H4.
    apply T in H1. apply Nm in H2. apply Nm in H3. apply Nm in H4.
    congruence. }
  assert (Ls : forall a b, map line_item_value a = map line_item_value b -> a = b).
  { induction a as [|x a IH]; intros [|y b]; simpl; try discriminate;
      [reflexivity|]. intros H.
    assert (H1 : line_item_value x = line_item_value y) by congruence.
    assert (H2 : map line_item_value a = map line_item_value b) by congruence.
    apply Li in H1. apply IH in H2. congruence. }
  destruct r1, r2. unfold record_dict. simpl. intros H.
  injection H as H1 H2 H3 H4 H5 H6 H7 H8 H9 H10 H11 H12 H13.
  apply T in H1, H2, H3, H4, H5, H9, H10, H12, H13.
  apply Nm in H6, H7, H8. apply Ls in H11. congruence.
Qed.

(** C2, counterexample.  Three valid records, serialized and fenced,
    that the normalizer does not recover: with commentary before the block
    that itself mentions the JSON-tagged marker (the cut is at the first
    marker, the one in the commentary); with a triple backtick inside a
    text of the record; with commentary after the block that starts with a
    backtick and [json]. *)
Lemma C2_commentary_counterexample :
  valid_record scenario_record = true
  /\ parse_response cpython
       (fenced_reply (lit "A ```json block follows.")
          (json_dumps (VDict (record_dict scenario_record))) [])
     <> VDict (record_dict scenario_record)
  /\ valid_record backtick_record = true
  /\ parse_response cpython
       (fenced_reply [] (json_dumps (VDict (record_dict backtick_record))) [])
     <> VDict (record_dict backtick_record)
  /\ parse_response cpython
       (fenced_reply [] (json_dumps (VDict (record_dict scenario_record)))
          (lit "`json"))
     <> VDict (record_dict scenario_record).
Proof.
  vm_compute.
  split; [reflexivity|]. split; [discriminate|].
  split; [reflexivity|]. split; discriminate.
Qed.

(** C2, amended.  Round trip: for every valid InvoiceRecord within the
    limits of the interpreter (each int with a number of digits that [int]
    converts, and room for the object, its list of line items and a line
    item) whose JSON text holds no triple backtick, serialized with
    [json.dumps] and wrapped in a JSON-tagged fence (marker, line feed,
    JSON, line feed, closing marker), with any commentary before that does
    not contain the JSON-tagged marker and any commentary after that does
    not begin with one or two backticks followed by [json], the normalizer
    returns the object of the record, which determines the record. *)
Theorem C2_fenced_record_round_trip
    (py : interpreter) (r : InvoiceRecord) (before after : pystr) :
  valid_record r = true ->
  within py (recursion_room py) (VDict (record_dict r)) = true ->
  contains FENCE (json_dumps (VDict (record_dict r))) = false ->
  contains FENCE_JSON before = false ->
  strip_prefix (lit "`json") after = None ->
  strip_prefix (lit "``json") after = None ->
  parse_response py
    (fenced_reply before (json_dumps (VDict (record_dict r))) after)
  = VDict (record_dict r)
  /\ (forall r', record_dict r' = record_dict r -> r' = r).
Proof.
  intros V W C B A1 A2. split.
  - now apply parse_response_fenced.
  - intros r'. apply record_dict_inj.
Qed.

Lemma C2_round_trip_witness :
  valid_record scenario_record = true
  /\ within cpython (recursion_room cpython)
       (VDict (record_dict scenario_record)) = true
  /\ contains FENCE (json_dumps (VDict (record_dict scenario_record))) = false
  /\ contains FENCE_JSON (lit "Here is the data:" ++ [10]) = false
  /\ strip_prefix (lit "`json") ([10] ++ lit "Anything else?") = None
  /\ strip_prefix (lit "``json") ([10] ++ lit "Anything else?") = None
  /\ parse_response cpython
       (fenced_reply (lit "Here is the data:" ++ [10])
          (json_dumps (VDict (record_dict scenario_record)))
          ([10] ++ lit "Anything else?"))
     = VDict (record_dict scenario_record)
  /\ (forall r', record_dict r' = record_dict scenario_record ->
        r' = scenario_record).
Proof.
  split; [vm_compute; reflexivity|]. split; [vm_compute; reflexivity|].
  split; [vm_compute; reflexivity|]. split; [vm_compute; reflexivity|].
  split; [reflexivity|]. split; [reflexivity|].
  apply (C2_fenced_record_round_trip cpython scenario_record
           (lit "Here is the data:" ++ [10]) ([10] ++ lit "Anything else?"));
    vm_compute; reflexivity.
Defined.

(** C6, counterexample.  The reply [{"foo": 1}] normalizes without
    error; its structured export is the object with the one key [foo],
    which is not in the schema, and without any of the schema's keys. *)
Lemma C6_schema_counterexample :
  parse_response cpython foreign_key_reply = VDict [(lit "foo", VInt 1)]
  /\ export_json [(lit "foo", VInt 1)]
     = lit "{" ++ [10] ++ lit_q "  'foo': 1" ++ [10] ++ lit "}"
  /\ json_loads cpython (export_json [(lit "foo", VInt 1)])
     = Parsed (VDict [(lit "foo", VInt 1)])
  /\ dict_keys [(lit "foo", VInt 1)] <> SCHEMA_KEYS.
Proof. vm_compute. repeat split. discriminate. Qed.

(** C6, amended.  For every reply whose candidate [json.loads] reads as
    an object (with texts for strings and finite floats), the normalizer
    returns that object, and the structured JSON export of what it returns
    is a text that reads back as exactly that object: the keys the model
    wrote, in its order, with their values.  So a key that the model
    omitted is absent from the export, not null, and a key outside the
    schema is kept. *)
Theorem C6_export_is_the_reply_object
    (py : interpreter) (raw candidate : pystr) (d : dict) :
  unfence raw = Some candidate ->
  json_loads py (strip candidate) = Parsed (VDict d) ->
  value_ok (VDict d) = true ->
  exists result,
    parse_response py raw = VDict result
    /\ json_loads py (export_json result) = Parsed (VDict d)
    /\ dict_keys result = dict_keys d
    /\ (forall key, dict_lookup result key = dict_lookup d key).
Proof.
  intros U J Ok. exists d.
  split; [now rewrite (parse_response_outcomes py raw candidate U), J|].
  split; [|split; reflexivity].
  unfold export_json, json_dumps_indent.
  apply json_loads_encoded; [assumption|].
  now apply json_loads_within in J.
Qed.

Lemma C6_export_witness :
  unfence foreign_key_reply = Some foreign_key_reply
  /\ json_loads cpython (strip foreign_key_reply)
     = Parsed (VDict [(lit "foo", VInt 1)])
  /\ value_ok (VDict [(lit "foo", VInt 1)]) = true
  /\ exists result,
       parse_response cpython foreign_key_reply = VDict result
       /\ json_loads cpython (export_json result)
          = Parsed (VDict [(lit "foo", VInt 1)])
       /\ dict_keys result = dict_keys [(lit "foo", VInt 1)]
       /\ (forall key, dict_lookup result key
                       = dict_lookup [(lit "foo", VInt 1)] key).
Proof.
  split; [reflexivity|]. split; [vm_compute; reflexivity|].
  split; [reflexivity|].
  apply (C6_export_is_the_reply_object cpython foreign_key_reply
           foreign_key_reply [(lit "foo", VInt 1)]);
    vm_compute; reflexivity.
Defined.

End Normalizer.

(* ================================================================== *)
(** * Further properties of the program *)
(* ================================================================== *)

Section Pages.

Local Open Scope nat_scope.

(** X2.  Extraction goes page by page: the text of a document made of two
    runs of pages is the text of the first run followed by the text of the
    second, and leaving out the pages that yield no text changes
    nothing. *)
Theorem X2_extract_text_by_parts (a b : document) :
  extract_text_from_pdf (a ++ b)
  = extract_text_from_pdf a ++ extract_text_from_pdf b
  /\ extract_text_from_pdf (filter truthy a) = extract_text_from_pdf a.
Proof.
  split.
  - induction a as [|[[|c t]|] a IH]; cbn [app extract_text_from_pdf truthy];
      try assumption; [reflexivity|].
    rewrite IH. now rewrite <- !app_assoc.
  - induction a as [|[[|c t]|] a IH]; cbn [filter extract_text_from_pdf truthy];
      try assumption; [reflexivity|].
    now rewrite IH.
Qed.

(** A line feed is not found in a text that has none. *)
Lemma partition_line_feed (t rest : pystr) :
  existsb (N.eqb 10) t = false ->
  partition [10%N] (t ++ [10%N] ++ rest) = Some (t, rest).
Proof.
  intros H. rewrite partition_skip.
  - now rewrite partition_here, app_nil_r.
  - intros a b -> Hb. rewrite existsb_app in H.
    apply orb_false_iff in H as [_ H].
    destruct b as [|c b]; [congruence|].
    cbn [existsb] in H. apply orb_false_iff in H as [H _].
    cbn [app strip_prefix]. now rewrite H.
Qed.

(** X3.  When no page text holds a line feed, cutting the extracted text
    at the line feeds gives back the texts of the pages that yield text, in
    page order, followed by one empty piece (the text ends with a line
    feed). *)
Theorem X3_lines_are_page_texts (pages : document) :
  forallb (fun p => match p with
                    | Some t => negb (existsb (N.eqb 10) t)
                    | None => true
                    end) pages = true ->
  split [10%N] (extract_text_from_pdf pages)
  = flat_map (fun p => match p with
                       | Some (c :: t) => [c :: t]
                       | _ => []
                       end) pages ++ [[]].
Proof.
  assert (S : [10%N] <> []) by discriminate.
  induction pages as [|[[|c t]|] pages IH]; intros H;
    cbn [forallb] in H; cbn [extract_text_from_pdf truthy flat_map].
  - reflexivity.
  - apply andb_true_iff in H as [_ H]. now apply IH.
  - apply andb_true_iff in H as [Hc H]. apply negb_true_iff in Hc.
    rewrite (split_unfold _ _ S).
    rewrite (partition_line_feed (c :: t) _ Hc). now rewrite IH.
  - apply andb_true_iff in H as [_ H]. now apply IH.
Qed.

Lemma X3_lines_witness :
  forallb (fun p => match p with
                    | Some t => negb (existsb (N.eqb 10) t)
                    | None => true
                    end) [Some (lit "Acme Corp"); None; Some []; Some (lit "Total 45")]
  = true
  /\ split [10%N]
       (extract_text_from_pdf
          [Some (lit "Acme Corp"); None; Some []; Some (lit "Total 45")])
     = [lit "Acme Corp"; lit "Total 45"; []].
Proof.
  split; [reflexivity|].
  apply (X3_lines_are_page_texts
           [Some (lit "Acme Corp"); None; Some []; Some (lit "Total 45")]).
  reflexivity.
Defined.

(** Cutting a text after [n] characters and appending [dots]. *)
Lemma cut_bounds (n : nat) (dots text : pystr) :
  let cut := if n <? length text then firstn n text ++ dots else text in
  firstn n cut = firstn n text
  /\ length cut = if n <? length text then n + length dots else length text.
Proof.
  cbv zeta. destruct (Nat.ltb_spec n (length text)) as [L|L].
  - assert (F : length (firstn n text) = n) by (rewrite length_firstn; lia).
    split.
    + rewrite firstn_app, F, Nat.sub_diag, firstn_O, app_nil_r.
      rewrite firstn_firstn. f_equal. lia.
    + now rewrite length_app, F.
  - split; reflexivity.
Qed.

(** X4.  The preview of the extracted text: a text of up to 3000
    characters is shown whole; a longer one is cut after its first 3000
    characters and gets three dots, so that what follows the 3000
    characters is the three dots and nothing else.  The preview is never
    longer than 3003 characters, and its first 3000 characters are those of
    the text. *)
Theorem X4_preview_bounds (text : pystr) :
  (length text <= 3000 -> preview text = text)
  /\ (3000 < length text ->
      preview text = firstn 3000 text ++ lit "..."
      /\ skipn 3000 (preview text) = lit "...")
  /\ length (preview text) <= 3003
  /\ firstn 3000 (preview text) = firstn 3000 text
  /\ length (preview text)
     = if 3000 <? length text then 3003 else length text.
Proof.
  destruct (cut_bounds 3000 (lit "...") text) as [F L].
  change (3000 + length (lit "...")) with 3003 in L.
  assert (L' : length (preview text)
               = if 3000 <? length text then 3003 else length text) by exact L.
  split; [|split; [|split; [|split; [exact F|exact L']]]].
  - intros H. unfold preview.
    destruct (Nat.ltb_spec 3000 (length text)); [lia | reflexivity].
  - intros H. unfold preview.
    destruct (Nat.ltb_spec 3000 (length text)) as [_|N]; [|lia].
    split; [reflexivity|].
    assert (E : length (firstn 3000 text) = 3000)
      by (rewrite length_firstn; lia).
    rewrite skipn_app, E, Nat.sub_diag, skipn_O.
    rewrite <- E at 1. now rewrite skipn_all.
  - rewrite L'. destruct (Nat.ltb_spec 3000 (length text)); lia.
Qed.

End Pages.

(* ================================================================== *)
(** ** Objects in front of any text, and texts that start no value *)
(* ================================================================== *)

Section ScanEdges.

Local Open Scope nat_scope.

Variable py : interpreter.

(** The scanner reads an encoded object within the limits back in front
    of any text at all: the closing brace ends it. *)
Lemma scan_dict_encoded (d : dict) (indent : option nat) (level : nat)
    (tail : pystr) (depth fuel : nat) :
  value_ok (VDict d) = true -> within py depth (VDict d) = true ->
  weight (VDict d) <= fuel ->
  scan_once py depth fuel (encode indent level (VDict d) ++ tail)
  = Loaded (VDict d) tail.
Proof.
  intros Ok Wi Hf. destruct fuel as [|f]; [simpl in Hf; lia|].
  cbn [within] in Wi. destruct depth as [|dp]; [discriminate|].
  cbn [encode]. destruct d as [|kv d]; [reflexivity|].
  destruct (encode_items_shape indent level 123 125
              (map (fun kv => encode_string (fst kv) ++ lit ": "
                      ++ encode indent (S level) (snd kv)) (kv :: d)))
    as (pre & w & post & Wp & Ww & Wq & ->); [discriminate|].
  cbn [value_ok] in Ok. apply andb_true_iff in Ok as [U Ok].
  assert (F : Forall (fun kv : pystr * value =>
               text_ok (fst kv) = true /\ value_ok (snd kv) = true /\
               forall tail fuel, number_end tail = true ->
                 weight (snd kv) <= fuel ->
                 scan_once py dp fuel (encode indent (S level) (snd kv) ++ tail)
                 = Loaded (snd kv) tail)
              (kv :: d)).
  { rewrite forallb_forall in Ok, Wi. rewrite Forall_forall.
    intros y Hy. specialize (Ok y Hy). apply andb_true_iff in Ok as [O1 O2].
    repeat split; try assumption. intros. apply scan_encoded; auto. }
  cbn [app]. rewrite scan_once_cons.
  change (123 =? 34)%N with false. change (123 =? 123)%N with true.
  cbv iota. rewrite <- !app_assoc. cbn [app].
  set (X := join (44%N :: w)
              (map (fun kv => encode_string (fst kv) ++ lit ": "
                      ++ encode indent (S level) (snd kv)) (kv :: d))
            ++ post ++ 125%N :: tail).
  assert (HX : exists t, X = 34%N :: t).
  { unfold X. cbn [map]. rewrite join_head. now eexists. }
  destruct HX as (t & HX).
  rewrite (skip_to_first_item pre X 34 t Wp HX eq_refl).
  change (34 =? 125)%N with false. cbv iota.
  rewrite <- HX. unfold X.
  rewrite (parse_members_encoded py dp indent (S level) w post tail Ww Wq);
    [reflexivity | discriminate | assumption | assumption
    | cbn [weight] in Hf; lia].
Qed.

(** A text whose first character starts no value is not JSON: the
    scanner stops at that character, before any limit can be met. *)
Lemma json_loads_bad_start (c : N) (t : pystr) :
  value_start c = false -> is_ws c = false ->
  json_loads py (c :: t) = DecodeFailed.
Proof.
  intros St W. unfold json_loads.
  destruct (c =? 0xFEFF)%N; [reflexivity|].
  rewrite (skip_ws_stop c t W).
  replace (2 * length (c :: t) + 2) with (S (2 * length (c :: t) + 1)) by lia.
  rewrite scan_once_cons.
  unfold value_start in St.
  repeat (apply orb_false_iff in St as [St ?]).
  assert (D : isdigit c = false) by assumption.
  repeat match goal with
         | H : (c =? _)%N = false |- _ => apply N.eqb_neq in H
         end.
  repeat match goal with
         | |- context [N.eqb c ?a] =>
             destruct (N.eqb_spec c a) as [->|_]; [congruence|]
         end.
  assert (M : match_number (c :: t) = None).
  { unfold match_number. cbn [match_sign].
    destruct (N.eqb_spec c 45) as [->|_]; [congruence|].
    cbn [match_integer].
    destruct (N.eqb_spec c 48) as [->|_]; [discriminate|]. now rewrite D. }
  assert (L : forall p, match p with
                        | a :: _ => a <> c
                        | [] => False
                        end -> strip_prefix p (c :: t) = None).
  { intros [|a p] Hp; [contradiction|]. cbn [strip_prefix].
    now destruct (N.eqb_spec a c). }
  unfold scan_atom_limited, scan_atom.
  rewrite !L by (vm_compute; congruence).
  now rewrite M.
Qed.

End ScanEdges.

(* ================================================================== *)
(** ** The fence handling at its edges *)
(* ================================================================== *)

Section FenceEdges.

Local Open Scope nat_scope.

(** X5.  The fence handling never fails and only cuts: for every reply
    the text handed to the parser is one stretch of the reply and holds no
    triple backtick, and the result is one of three: the parsed value; the
    parse error with the whole reply, when the decoder rejects the text;
    the error dict with the interpreter's message and no reply, when the
    decoder stops at a limit of the interpreter (an integer of too many
    digits, brackets nested too deep).  The [IndexError] that
    [split(...)[1]] could raise is ruled out by the [in] test before it. *)
Theorem X5_fence_handling_only_cuts (py : interpreter) (raw : pystr) :
  exists before candidate after,
    raw = before ++ candidate ++ after
    /\ unfence raw = Some candidate
    /\ contains FENCE candidate = false
    /\ parse_response py raw
       = match json_loads py (strip candidate) with
         | Parsed v => v
         | DecodeFailed => parse_error_dict raw
         | LimitHit e => error_dict (str_of py e)
         end.
Proof.
  assert (K : forall before candidate after,
            raw = before ++ candidate ++ after ->
            unfence raw = Some candidate ->
            contains FENCE candidate = false ->
            exists before candidate after,
              raw = before ++ candidate ++ after
              /\ unfence raw = Some candidate
              /\ contains FENCE candidate = false
              /\ parse_response py raw
                 = match json_loads py (strip candidate) with
                   | Parsed v => v
                   | DecodeFailed => parse_error_dict raw
                   | LimitHit e => error_dict (str_of py e)
                   end).
  { intros b c a E U C. exists b, c, a. repeat split; try assumption.
    unfold parse_response. now rewrite U. }
  destruct (partition FENCE_JSON raw) as [[pre post]|] eqn:P.
  - pose proof (unfence_json _ _ _ P) as U.
    destruct (first_chunk_prefix FENCE_JSON post) as (r1 & E1).
    destruct (first_chunk_prefix FENCE (first_chunk FENCE_JSON post)) as (r2 & E2).
    apply (K (pre ++ FENCE_JSON)
             (first_chunk FENCE (first_chunk FENCE_JSON post)) (r2 ++ r1));
      [|exact U|apply first_chunk_no_fence].
    apply partition_sound in P. rewrite P at 1. rewrite E1 at 1.
    rewrite E2 at 1. now rewrite <- !app_assoc.
  - assert (C : contains FENCE_JSON raw = false)
      by (unfold contains; now rewrite P).
    destruct (partition FENCE raw) as [[pre post]|] eqn:Q.
    + pose proof (unfence_generic _ _ _ C Q) as U.
      destruct (first_chunk_prefix FENCE post) as (r1 & E1).
      apply (K (pre ++ FENCE) (first_chunk FENCE post) r1);
        [|exact U|apply first_chunk_no_fence].
      apply partition_sound in Q. rewrite Q at 1. rewrite E1 at 1.
      now rewrite <- !app_assoc.
    + assert (C' : contains FENCE raw = false)
        by (unfold contains; now rewrite Q).
      apply (K [] raw []); [now rewrite app_nil_r | now apply unfence_plain
                           | exact C'].
Qed.

(** X6.  Fallback without fences: the JSON text of any well-formed value
    within the interpreter's limits (no integer of more digits than the
    conversion limit, nesting no deeper than the recursion room), in any
    layout, with any white space around it and no triple backtick inside,
    normalizes to that value. *)
Theorem X6_unfenced_json_is_parsed
    (py : interpreter) (v : value) (indent : option nat)
    (w1 w2 : pystr) :
  value_ok v = true ->
  within py (recursion_room py) v = true ->
  contains FENCE (encode indent 0 v) = false ->
  forallb isspace w1 = true -> forallb isspace w2 = true ->
  parse_response py (w1 ++ encode indent 0 v ++ w2) = v.
Proof.
  intros Ok Wi C W1 W2. unfold parse_response.
  rewrite unfence_plain by now apply contains_padded.
  rewrite strip_encoded by assumption.
  now rewrite json_loads_encoded.
Qed.

Lemma X6_unfenced_witness :
  value_ok (VList [VInt 1; VDict [(lit "total", VFloat float_45)]]) = true
  /\ within cpython (recursion_room cpython)
       (VList [VInt 1; VDict [(lit "total", VFloat float_45)]]) = true
  /\ contains FENCE
       (encode (Some 2) 0 (VList [VInt 1; VDict [(lit "total", VFloat float_45)]]))
     = false
  /\ forallb isspace [10%N; 32%N] = true
  /\ forallb isspace [10%N] = true
  /\ parse_response cpython
       ([10%N; 32%N]
          ++ encode (Some 2) 0
               (VList [VInt 1; VDict [(lit "total", VFloat float_45)]])
          ++ [10%N])
     = VList [VInt 1; VDict [(lit "total", VFloat float_45)]].
Proof.
  split; [reflexivity|]. split; [reflexivity|].
  split; [vm_compute; reflexivity|].
  split; [reflexivity|]. split; [reflexivity|].
  apply (X6_unfenced_json_is_parsed cpython
           (VList [VInt 1; VDict [(lit "total", VFloat float_45)]])
           (Some 2) [10%N; 32%N] [10%N]);
    vm_compute; reflexivity.
Defined.

Lemma last_app_right {A} (a b : list A) (d : A) :
  b <> [] -> last (a ++ b) d = last b d.
Proof.
  intros Hb. induction a as [|x a IH]; [reflexivity|].
  cbn [app last]. rewrite IH.
  destruct (a ++ b) eqn:E; [|reflexivity].
  apply app_eq_nil in E as [_ ->]. congruence.
Qed.

(** The first fence of a reply is where a text without fences that does
    not end in a backtick is followed by one. *)
Lemma partition_fence_after (before post : pystr) :
  contains FENCE before = false -> last before 0%N <> 96%N ->
  partition FENCE (before ++ FENCE ++ post) = Some (before, post).
Proof.
  intros C L. rewrite partition_skip.
  - now rewrite partition_here, app_nil_r.
  - intros a b -> Hb. rewrite contains_false in C. specialize (C a b eq_refl).
    assert (Lb : last b 0%N <> 96%N).
    { intros E. apply L. now rewrite last_app_right. }
    rewrite FENCE_unfold in *. clear L.
    destruct b as [|c0 b]; [congruence|]. clear Hb.
    cbn [app strip_prefix]. destruct (N.eqb_spec 96 c0); [subst|reflexivity].
    destruct b as [|c1 b]; [cbn in Lb; congruence|].
    cbn [app strip_prefix]. destruct (N.eqb_spec 96 c1); [subst|reflexivity].
    destruct b as [|c2 b]; [cbn in Lb; congruence|].
    cbn [app strip_prefix]. destruct (N.eqb_spec 96 c2); [subst|reflexivity].
    exfalso. cbn in C. discriminate.
Qed.

(** X7.  A block in untagged fences: with the JSON text of a well-formed
    value within the interpreter's limits (integer digits, nesting)
    between an opening fence and a closing fence on lines of their own,
    commentary before that holds no fence and does not end in a backtick,
    anything after, and no JSON-tagged marker anywhere in the reply, the
    normalizer returns the value. *)
Theorem X7_untagged_fence_round_trip
    (py : interpreter) (v : value) (indent : option nat)
    (before after : pystr) :
  value_ok v = true ->
  within py (recursion_room py) v = true ->
  contains FENCE (encode indent 0 v) = false ->
  contains FENCE before = false ->
  last before 0%N <> 96%N ->
  contains FENCE_JSON
    (before ++ FENCE ++ [10%N] ++ encode indent 0 v ++ [10%N] ++ FENCE ++ after)
  = false ->
  parse_response py
    (before ++ FENCE ++ [10%N] ++ encode indent 0 v ++ [10%N] ++ FENCE ++ after)
  = v.
Proof.
  intros Ok Wi CJ Cb Lb NJ. unfold parse_response.
  set (J := encode indent 0 v) in *.
  set (post := [10%N] ++ J ++ [10%N] ++ FENCE ++ after) in *.
  pose proof (partition_fence_after before post Cb Lb) as P.
  rewrite (unfence_generic _ _ _ NJ P).
  assert (F : first_chunk FENCE post = [10%N] ++ J ++ [10%N]).
  { unfold post.
    replace ([10%N] ++ J ++ [10%N] ++ FENCE ++ after)
      with (([10%N] ++ J ++ [10%N]) ++ FENCE ++ after)
      by (now rewrite <- !app_assoc).
    apply first_chunk_at. intros a b E Hb.
    now apply (block_holds_no_fence J after CJ a b). }
  rewrite F. unfold J. rewrite strip_encoded by (assumption || reflexivity).
  now rewrite json_loads_encoded.
Qed.

Lemma X7_untagged_witness :
  value_ok (VDict [(lit "total", VInt 45)]) = true
  /\ within cpython (recursion_room cpython)
       (VDict [(lit "total", VInt 45)]) = true
  /\ contains FENCE (encode None 0 (VDict [(lit "total", VInt 45)])) = false
  /\ contains FENCE (lit "Here you go:" ++ [10%N]) = false
  /\ last (lit "Here you go:" ++ [10%N]) 0%N <> 96%N
  /\ contains FENCE_JSON
       ((lit "Here you go:" ++ [10%N]) ++ FENCE ++ [10%N]
          ++ encode None 0 (VDict [(lit "total", VInt 45)])
          ++ [10%N] ++ FENCE ++ lit " Bye.") = false
  /\ parse_response cpython
       ((lit "Here you go:" ++ [10%N]) ++ FENCE ++ [10%N]
          ++ encode None 0 (VDict [(lit "total", VInt 45)])
          ++ [10%N] ++ FENCE ++ lit " Bye.")
     = VDict [(lit "total", VInt 45)].
Proof.
  split; [reflexivity|]. split; [reflexivity|]. split; [reflexivity|].
  split; [reflexivity|].
  split; [vm_compute; discriminate|]. split; [reflexivity|].
  apply (X7_untagged_fence_round_trip cpython
           (VDict [(lit "total", VInt 45)]) None
           (lit "Here you go:" ++ [10%N]) (lit " Bye."));
    try reflexivity.
  vm_compute; discriminate.
Defined.

(** X8.  A JSON-tagged fence that is never closed: with the JSON text of
    a well-formed value within the interpreter's limits (integer digits,
    nesting) after the opening marker and a line feed, white space at most
    after it, and no marker in the commentary before, the normalizer still
    returns the value; a missing closing fence is no error. *)
Theorem X8_unclosed_json_fence
    (py : interpreter) (v : value) (indent : option nat)
    (before w : pystr) :
  value_ok v = true ->
  within py (recursion_room py) v = true ->
  contains FENCE (encode indent 0 v) = false ->
  contains FENCE_JSON before = false ->
  forallb isspace w = true ->
  parse_response py (before ++ FENCE_JSON ++ [10%N] ++ encode indent 0 v ++ w)
  = v.
Proof.
  intros Ok Wi CJ Cb W. unfold parse_response.
  set (J := encode indent 0 v) in *.
  set (post := [10%N] ++ J ++ w).
  assert (P : partition FENCE_JSON (before ++ FENCE_JSON ++ post)
              = Some (before, post)).
  { rewrite partition_skip.
    - now rewrite partition_here, app_nil_r.
    - intros a b E Hb. apply json_marker_no_overlap; [|assumption].
      rewrite contains_false in Cb. now apply (Cb a b). }
  rewrite (unfence_json _ _ _ P).
  assert (C : contains FENCE post = false)
    by (unfold post; now apply contains_padded).
  rewrite (first_chunk_clean FENCE_JSON) by now apply no_fence_no_json.
  rewrite (first_chunk_clean FENCE) by assumption.
  unfold post, J. rewrite strip_encoded by (assumption || reflexivity).
  now rewrite json_loads_encoded.
Qed.

Lemma X8_unclosed_witness :
  value_ok (VDict [(lit "total", VInt 45)]) = true
  /\ within cpython (recursion_room cpython)
       (VDict [(lit "total", VInt 45)]) = true
  /\ contains FENCE (encode None 0 (VDict [(lit "total", VInt 45)])) = false
  /\ contains FENCE_JSON (lit "Result: ") = false
  /\ forallb isspace [10%N] = true
  /\ parse_response cpython
       (lit "Result: " ++ FENCE_JSON ++ [10%N]
          ++ encode None 0 (VDict [(lit "total", VInt 45)]) ++ [10%N])
     = VDict [(lit "total", VInt 45)].
Proof.
  split; [reflexivity|]. split; [reflexivity|]. split; [reflexivity|].
  split; [reflexivity|]. split; [reflexivity|].
  apply (X8_unclosed_json_fence cpython
           (VDict [(lit "total", VInt 45)]) None
           (lit "Result: ") [10%N]); reflexivity.
Defined.

(** A candidate that is blank, or whose first character after the white
    space starts no JSON value, is a parse failure. *)
Lemma candidate_bad_start (py : interpreter) (raw candidate : pystr) :
  unfence raw = Some candidate ->
  match lstrip candidate with
  | c :: _ => value_start c
  | [] => false
  end = false ->
  parse_response py raw = parse_error_dict raw.
Proof.
  intros U H. unfold parse_response. rewrite U.
  enough (json_loads py (strip candidate) = DecodeFailed) as -> by reflexivity.
  unfold strip. destruct (lstrip candidate) as [|c t] eqn:L; [reflexivity|].
  pose proof (lstrip_head _ _ _ L) as Hc.
  assert (R : exists t', rstrip (c :: t) = c :: t').
  { unfold rstrip. cbn [rev].
    destruct (forallb isspace (rev t)) eqn:A.
    - rewrite lstrip_spaces by assumption. rewrite lstrip_stop by assumption.
      now exists [].
    - rewrite lstrip_app by assumption. rewrite rev_app_distr. cbn [rev app].
      now eexists. }
  destruct R as (t' & ->).
  apply json_loads_bad_start; [assumption|].
  destruct (is_ws c) eqn:W; [|reflexivity].
  apply is_ws_isspace in W. congruence.
Qed.





(** X11.  Nothing may follow the value: a reply without fences that
    starts with the JSON text of a well-formed object within the
    interpreter's limits (integer digits, nesting) and goes on with
    anything but white space (a second object, a sentence) is a parse
    failure that carries the reply. *)
Theorem X11_trailing_text_is_parse_failure
    (py : interpreter) (d : dict) (indent : option nat) (tail : pystr) :
  value_ok (VDict d) = true ->
  within py (recursion_room py) (VDict d) = true ->
  contains FENCE (encode indent 0 (VDict d) ++ tail) = false ->
  forallb isspace tail = false ->
  parse_response py (encode indent 0 (VDict d) ++ tail)
  = parse_error_dict (encode indent 0 (VDict d) ++ tail).
Proof.
  intros Ok Wi C T. unfold parse_response. rewrite unfence_plain by assumption.
  enough (json_loads py (strip (encode indent 0 (VDict d) ++ tail))
          = DecodeFailed) as -> by reflexivity.
  set (J := encode indent 0 (VDict d)).
  destruct (encode_head indent 0 (VDict d) Ok) as (c & body & E & S).
  fold J in E.
  pose proof (weight_le_length (VDict d) Ok indent 0) as Wt. fold J in Wt.
  apply value_start_facts in S as (Ws & Sp & _ & _ & _ & Bom).
  unfold strip. rewrite E. cbn [app]. rewrite lstrip_stop by assumption.
  change (c :: body ++ tail) with ((c :: body) ++ tail).
  rewrite rstrip_app by assumption. rewrite <- E.
  destruct (rstrip_ends tail T) as (t & z & -> & Hz).
  unfold json_loads.
  assert (H : J ++ t ++ [z] = c :: body ++ t ++ [z]) by now rewrite E.
  rewrite H at 1. rewrite Bom. rewrite H at 2.
  rewrite (skip_ws_stop c _ Ws). rewrite <- H.
  unfold J. rewrite scan_dict_encoded;
    [|assumption|assumption|fold J; rewrite length_app; lia].
  cbn [after_value]. pose proof (skip_ws_keeps t z Hz) as K.
  now destruct (skip_ws (t ++ [z])).
Qed.

Lemma X11_trailing_witness :
  value_ok (VDict [(lit "total", VInt 45)]) = true
  /\ within cpython (recursion_room cpython)
       (VDict [(lit "total", VInt 45)]) = true
  /\ contains FENCE
       (encode None 0 (VDict [(lit "total", VInt 45)]) ++ lit " Let me know!")
     = false
  /\ forallb isspace (lit " Let me know!") = false
  /\ parse_response cpython
       (encode None 0 (VDict [(lit "total", VInt 45)]) ++ lit " Let me know!")
     = parse_error_dict
         (encode None 0 (VDict [(lit "total", VInt 45)]) ++ lit " Let me know!").
Proof.
  split; [reflexivity|]. split; [reflexivity|]. split; [reflexivity|].
  split; [reflexivity|].
  apply (X11_trailing_text_is_parse_failure cpython
           [(lit "total", VInt 45)] None
           (lit " Let me know!")); reflexivity.
Defined.

End FenceEdges.

(* ================================================================== *)
(** ** The keys of what the normalizer returns *)
(* ================================================================== *)

Section NormalizedKeys.

Local Open Scope nat_scope.

Lemma loads_unbounded_keys_unique (s : pystr) (v : value) :
  loads_unbounded s = Some v -> keys_unique v = true.
Proof.
  unfold loads_unbounded.
  assert (K : forall r, after_unbounded r = Some v ->
              exists rest, r = Scanned v rest).
  { intros [v' rest| |]; try discriminate. cbn [after_unbounded].
    destruct (skip_ws rest); [|discriminate].
    intros H. injection H as ->. now eexists. }
  intros H.
  assert (H' : after_unbounded (scan_unbounded (2 * length s + 2) (skip_ws s))
               = Some v).
  { destruct s as [|c s]; [exact H|].
    destruct (c =? 0xFEFF)%N; [discriminate | exact H]. }
  destruct (K _ H') as (rest & E).
  now apply (proj1 (scan_keys_unique _)) in E.
Qed.

(** What [json.loads] returns has each key once in every object. *)
Lemma json_loads_keys_unique (py : interpreter) (s : pystr) (v : value) :
  json_loads py s = Parsed v -> keys_unique v = true.
Proof.
  intros H. pose proof (json_loads_agrees py s) as A. rewrite H in A.
  now apply loads_unbounded_keys_unique in A.
Qed.

(** X12.  Whatever the reply and the interpreter's limits, the value the
    normalizer returns has each key once in every object, at every depth:
    the parser builds an object by assignment, so of a key that the reply
    repeats one entry is left, and the error dicts of the source have
    distinct keys. *)
Theorem X12_normalized_keys_unique (py : interpreter) (raw : pystr) :
  keys_unique (parse_response py raw) = true.
Proof.
  unfold parse_response.
  destruct (unfence raw) as [candidate|]; [|reflexivity].
  destruct (json_loads py (strip candidate)) as [v| |e] eqn:J.
  - now apply json_loads_keys_unique in J.
  - cbn [parse_error_dict keys_unique map fst snd forallb]. reflexivity.
  - reflexivity.
Qed.

End NormalizedKeys.

(* ================================================================== *)
(** ** Amounts with two decimals *)
(* ================================================================== *)

Section Amounts.

Local Open Scope Z_scope.

(** The quotient that is nearer than half a unit is the rounded one. *)
Lemma round_half_even_unique (n d k : Z) :
  0 < d -> 2 * Z.abs (n - k * d) < d -> round_half_even n d = k.
Proof.
  intros Pd H. unfold round_half_even.
  pose proof (Z.div_mod n d ltac:(lia)) as E.
  pose proof (Z.mod_pos_bound n d Pd) as [R0 R1].
  set (q := n / d) in *. set (r := n mod d) in *.
  assert (K : k = q \/ k = q + 1) by nia.
  destruct K as [->| ->].
  - replace (d <? 2 * r) with false by nia.
    replace (d =? 2 * r) with false by nia. reflexivity.
  - replace (d <? 2 * r) with true by nia. reflexivity.
Qed.

Lemma two_digits_facts (b : Z) :
  0 <= b < 100 ->
  forallb isdigit (two_digits b) = true
  /\ nat_value (two_digits b) = b
  /\ two_digits b <> [].
Proof.
  intros H. unfold two_digits.
  assert (A : 0 <= b / 10 < 10)
    by (split; [apply Z.div_pos; lia | apply Z.div_lt_upper_bound; lia]).
  pose proof (Z.mod_pos_bound b 10 ltac:(lia)) as B.
  pose proof (Z.div_mod b 10 ltac:(lia)) as E.
  split; [|split; [|discriminate]].
  - cbn [forallb]. unfold isdigit. rewrite andb_true_r.
    apply andb_true_iff. split; apply andb_true_iff; split;
      apply N.leb_le; lia.
  - unfold nat_value. cbn [nat_value_from].
    rewrite !N2Z.inj_sub by lia. rewrite !Z2N.id by lia.
    change (Z.of_N 48) with 48. lia.
Qed.

(** The text of hundredths reads as the decimal with two places. *)
Lemma fixed_2_reads (neg : bool) (c : Z) :
  0 < c ->
  match_number (fixed_2 neg c)
  = Some (VFloat (float_of_decimal neg c (-2)), []).
Proof.
  intros Pc. unfold fixed_2.
  pose proof (Z.mod_pos_bound c 100 ltac:(lia)) as B.
  pose proof (Z.div_mod c 100 ltac:(lia)) as E.
  destruct (two_digits_facts (c mod 100) B) as (D2 & V2 & N2).
  assert (L2 : length (two_digits (c mod 100)) = 2%nat) by reflexivity.
  assert (A : 0 <= c / 100) by (apply Z.div_pos; lia).
  destruct (Z.eq_dec (c / 100) 0) as [Z0|Z0].
  - rewrite Z0. change (int_str 0) with [48%N]. cbn [app].
    pose proof (parse_below_one neg 0 (two_digits (c mod 100)) D2 N2) as P.
    change (zeros 0) with (@nil N) in P. cbn [app] in P.
    rewrite P, V2, L2. repeat f_equal. lia.
  - destruct (int_str_positive (c / 100) ltac:(lia))
      as (d & rest & -> & Dd & Nd & Dr & V).
    pose proof (parse_fixed neg d rest (two_digits (c mod 100))
                  Dd Nd Dr D2 N2) as P.
    cbn [app] in P |- *. rewrite P. rewrite L2.
    change (d :: rest ++ two_digits (c mod 100))
      with ((d :: rest) ++ two_digits (c mod 100)).
    rewrite nat_value_app, V, V2, L2.
    repeat f_equal. change (10 ^ Z.of_nat 2) with 100. lia.
Qed.

(** An int below [2^53] in size is a float as it is. *)
Lemma float_of_int_exact (z : Z) :
  0 < Z.abs z < 2 ^ 53 ->
  exists m e,
    float_of_int z = Some (FFinite (z <? 0) m e)
    /\ e <= 0 /\ m = Z.abs z * 2 ^ (- e).
Proof.
  intros [Pz Uz]. set (a := Z.abs z) in *.
  pose proof (Z.log2_spec a Pz) as [La Ha]. pose proof (Z.log2_nonneg a) as Na.
  set (k := Z.log2 a) in *.
  assert (Hk : k <= 52).
  { destruct (Z.le_gt_cases k 52); [assumption|].
    assert (2 ^ 53 <= 2 ^ k) by (apply Z.pow_le_mono_r; lia). lia. }
  assert (P : 0 < 2 ^ (52 - k)) by (apply Z.pow_pos_nonneg; lia).
  assert (R : 2 ^ k * 2 ^ (52 - k) = 2 ^ 52).
  { rewrite <- Z.pow_add_r by lia. f_equal. lia. }
  change (2 ^ Z.succ k) with (2 ^ (k + 1)) in Ha.
  rewrite Z.pow_add_r in Ha by lia. change (2 ^ 1) with 2 in Ha.
  exists (a * 2 ^ (52 - k)), (k - 52).
  replace (- (k - 52)) with (52 - k) by lia.
  split; [|split; [lia | reflexivity]].
  assert (C : float_ok (FFinite false (a * 2 ^ (52 - k)) (k - 52)) = true).
  { cbn [float_ok]. change (2 ^ 53) with (2 * 2 ^ 52). nia. }
  pose proof (round_pos_exact (a * 2 ^ (52 - k)) (k - 52) a 1 0 C Pz
                ltac:(lia) ltac:(lia) ltac:(lia)) as X.
  replace (0 - (k - 52)) with (52 - k) in X by lia.
  specialize (X ltac:(change (2 ^ 0) with 1; ring)).
  apply (round_pos_sign (z <? 0)) in X.
  unfold float_of_int. replace (z =? 0) with false by lia.
  fold a. now rewrite X.
Qed.

(** [format(z, '.2f')] of such an int is its text and [.00]. *)
Lemma format_2f_int (z : Z) :
  0 < Z.abs z < 2 ^ 53 ->
  format_2f (VInt z) = inr (int_str z ++ lit ".00").
Proof.
  intros H. destruct (float_of_int_exact z H) as (m & e & F & He & Hm).
  cbn [format_2f]. rewrite F. cbn [format_2f_float].
  unfold scale2. replace (0 <=? - e) with true by lia.
  assert (P : 0 < 2 ^ (- e)) by (apply Z.pow_pos_nonneg; lia).
  rewrite (round_half_even_unique _ _ (100 * Z.abs z)) by nia.
  unfold fixed_2.
  replace (100 * Z.abs z / 100) with (Z.abs z)
    by (rewrite Z.mul_comm, Z.div_mul; lia).
  replace ((100 * Z.abs z) mod 100) with 0
    by (rewrite Z.mul_comm, Z.mod_mul; lia).
  f_equal. change (two_digits 0) with (lit "00").
  destruct z as [|p|p]; [lia| |]; reflexivity.
Qed.

(** The float nearest to a decimal with two places, below [10^15]
    hundredths, is finite and not zero, and is shown with these two places
    again. *)
Lemma format_2f_cents (neg : bool) (c : Z) :
  0 < c < 10 ^ 15 ->
  exists m e,
    float_of_decimal neg c (-2) = FFinite neg m e
    /\ format_2f_float (FFinite neg m e) = fixed_2 neg c.
Proof.
  intros [Pc Uc].
  unfold float_of_decimal. replace (c =? 0) with false by lia.
  change (scale10 c 1 (- -2)) with (c, 1 * 10 ^ 2).
  change (1 * 10 ^ 2) with 100.
  (* the logarithm *)
  pose proof (Z.log2_spec c Pc) as [Lc Hc]. pose proof (Z.log2_nonneg c) as Nc.
  assert (Kc : Z.log2 c <= 49).
  { destruct (Z.le_gt_cases (Z.log2 c) 49); [assumption|].
    assert (2 ^ 50 <= 2 ^ Z.log2 c) by (apply Z.pow_le_mono_r; lia).
    assert (10 ^ 15 < 2 ^ 50) by reflexivity. lia. }
  assert (G : -7 <= floor_log2 c 100 <= 43).
  { unfold floor_log2. change (Z.log2 100) with 6.
    destruct (scale2 c 100 (Z.log2 c - 6)) as [n0 d0].
    destruct (n0 <? d0); lia. }
  set (g := floor_log2 c 100) in *.
  pose proof (floor_log2_spec c 100 7 Pc ltac:(lia) ltac:(lia)
                ltac:(fold g; lia)) as [S1 S2].
  fold g in S1, S2.
  set (E := 52 - g).
  assert (HE : 9 <= E <= 59) by (unfold E; lia).
  assert (PE : 0 < 2 ^ (E - 9)) by (apply Z.pow_pos_nonneg; lia).
  assert (R1 : 2 ^ E = 512 * 2 ^ (E - 9)).
  { change 512 with (2 ^ 9). rewrite <- Z.pow_add_r by lia. f_equal. lia. }
  assert (R2 : 2 ^ (7 + g) * 2 ^ (E - 9) = 2 ^ 50).
  { rewrite <- Z.pow_add_r by lia. f_equal. unfold E. lia. }
  assert (P7 : 0 < 2 ^ (7 + g)) by (apply Z.pow_pos_nonneg; lia).
  replace (7 + g + 1) with (8 + g) in S2 by lia.
  assert (R3 : 2 ^ (8 + g) = 2 * 2 ^ (7 + g)).
  { replace (8 + g) with (1 + (7 + g)) by lia.
    rewrite Z.pow_add_r by lia. reflexivity. }
  rewrite R3 in S2. change (2 ^ 7) with 128 in S1, S2.
  (* c * 2^E lies between 100 * 2^52 and 100 * 2^53 *)
  assert (B1 : 100 * 2 ^ 52 <= c * 2 ^ E).
  { change (2 ^ 52) with (4 * 2 ^ 50). rewrite <- R2, R1. nia. }
  assert (B2 : c * 2 ^ E < 100 * 2 ^ 53).
  { change (2 ^ 53) with (8 * 2 ^ 50). rewrite <- R2, R1. nia. }
  (* the rounding *)
  unfold round_pos. fold g.
  replace (Z.max (g - 52) (-1074)) with (- E) by (unfold E; lia).
  unfold scale2 at 1. replace (0 <=? - E) with false by lia.
  replace (- - E) with E by lia.
  set (n := c * 2 ^ E) in *.
  pose proof (Z.div_mod n 100 ltac:(lia)) as Dn.
  pose proof (Z.mod_pos_bound n 100 ltac:(lia)) as [M0 M1].
  set (q := n / 100) in *. set (r := n mod 100) in *.
  assert (Q1 : 2 ^ 52 <= q) by lia.
  assert (Q2 : q < 2 ^ 53) by lia.
  set (q' := if (100 <? 2 * r) || ((100 =? 2 * r) && Z.odd q)
             then q + 1 else q).
  assert (Hq : (q' = q /\ 2 * r <= 100) \/ (q' = q + 1 /\ 100 <= 2 * r)).
  { unfold q'. destruct (Z.ltb_spec 100 (2 * r)); cbn [orb]; [right; lia|].
    destruct (Z.eqb_spec 100 (2 * r)); cbn [andb];
      [destruct (Z.odd q); [right|left]; lia | left; lia]. }
  assert (N50 : Z.abs (100 * q' - n) <= 50) by lia.
  assert (Q3 : 2 ^ 52 <= q' <= 2 ^ 53) by lia.
  destruct (Z.eqb_spec q' (2 ^ 53)) as [Eq|Nq].
  - replace (q' =? 0) with false by lia.
    replace (971 <? - E + 1) with false by lia.
    exists (2 ^ 52), (- E + 1). split; [reflexivity|].
    cbn [format_2f_float]. unfold scale2.
    replace (0 <=? - (- E + 1)) with true by lia.
    replace (- (- E + 1)) with (E - 1) by lia.
    assert (R4 : 2 ^ E = 2 * 2 ^ (E - 1)).
    { replace E with (1 + (E - 1)) at 1 by lia.
      rewrite Z.pow_add_r by lia. reflexivity. }
    assert (R5 : 2 ^ (E - 1) = 256 * 2 ^ (E - 9)).
    { change 256 with (2 ^ 8). rewrite <- Z.pow_add_r by lia. f_equal. lia. }
    rewrite (round_half_even_unique _ _ c); [reflexivity | lia |].
    unfold n in N50. rewrite Eq in N50. change (2 ^ 53) with (2 * 2 ^ 52) in N50.
    rewrite R4 in N50. lia.
  - replace (q' =? 0) with false by lia.
    replace (971 <? - E) with false by lia.
    exists q', (- E). split; [reflexivity|].
    cbn [format_2f_float]. unfold scale2.
    replace (0 <=? - - E) with true by lia.
    replace (- - E) with E by lia.
    rewrite (round_half_even_unique _ _ c); [reflexivity | lia |].
    unfold n in N50. lia.
Qed.

End Amounts.

(* ================================================================== *)
(** ** The record view *)
(* ================================================================== *)

Section Display.

Local Open Scope nat_scope.

Lemma and_then_nothing_l (a : shown) : nothing ;; a = a.
Proof. now destruct a. Qed.

Lemma and_then_nothing_r (a : shown) : a ;; nothing = a.
Proof.
  destruct a as [ws [e|]]; cbn [and_then nothing fst snd]; [reflexivity|].
  now rewrite app_nil_r.
Qed.

Lemma and_then_assoc (a b c : shown) : (a ;; b) ;; c = a ;; (b ;; c).
Proof.
  destruct a as [wa [ea|]]; [reflexivity|].
  destruct b as [wb [eb|]]; [reflexivity|].
  destruct c as [wc ec]. cbn [and_then fst snd]. now rewrite app_assoc.
Qed.

(** X13.  The Total metric reads N/A exactly when the total is missing or
    counts as false: null, zero (as an int or as a float, of either sign),
    [false], or an empty string, list or object.  A total of zero is
    thus shown as N/A, not as $0.00. *)
Theorem X13_total_not_available (result : dict) :
  total_metric result = inr (lit "N/A")
  <-> truthy_value (dict_get result (lit "total") VNone) = false.
Proof.
  unfold total_metric.
  destruct (truthy_value (dict_get result (lit "total") VNone)).
  - split; [|discriminate].
    destruct (format_2f _) as [e|t]; discriminate.
  - now split.
Qed.

(** X14.  A total that arrives as a non-empty string (it is not coerced
    to a number) makes the format code [.2f] raise a [ValueError]: the
    record view shows the Vendor metric and stops there, before the other
    metrics, the line items and the downloads. *)
Theorem X14_string_total_stops_the_view
    (result : dict) (c : N) (s : pystr) :
  dict_has result (lit "error") = false ->
  dict_lookup result (lit "total") = Some (VStr (c :: s)) ->
  show_result (VDict result)
  = ([StMetric (lit "Vendor")
        (dict_get result (lit "vendor_name") (VStr (lit "N/A")))],
     Some ValueError).
Proof.
  intros E T. unfold show_result, py_in. rewrite E.
  unfold show_record, total_metric, dict_get. rewrite T. reflexivity.
Qed.

Lemma X14_string_total_witness :
  dict_has [(lit "total", VStr (lit "123.45"))] (lit "error") = false
  /\ dict_lookup [(lit "total", VStr (lit "123.45"))] (lit "total")
     = Some (VStr (49%N :: lit "23.45"))
  /\ parse_response cpython string_total_reply
     = VDict [(lit "total", VStr (lit "123.45"))]
  /\ show_result (VDict [(lit "total", VStr (lit "123.45"))])
     = ([StMetric (lit "Vendor") (VStr (lit "N/A"))], Some ValueError).
Proof.
  split; [reflexivity|]. split; [reflexivity|]. split; [reflexivity|].
  apply (X14_string_total_stops_the_view
           [(lit "total", VStr (lit "123.45"))] 49 (lit "23.45"));
    reflexivity.
Defined.

(** X16.  A total that is an int, not zero and below [2^53] in size, is
    shown as a dollar sign, the int and [.00]. *)
Theorem X16_int_total_gets_two_zeros (result : dict) (z : Z) :
  dict_lookup result (lit "total") = Some (VInt z) ->
  (0 < Z.abs z < 2 ^ 53)%Z ->
  total_metric result = inr (lit "$" ++ int_str z ++ lit ".00").
Proof.
  intros T H. unfold total_metric, dict_get. rewrite T.
  cbn [truthy_value]. replace (z =? 0)%Z with false by lia. cbn [negb].
  now rewrite format_2f_int.
Qed.

Lemma X16_int_total_witness :
  dict_lookup [(lit "total", VInt 45)] (lit "total") = Some (VInt 45)
  /\ (0 < Z.abs 45 < 2 ^ 53)%Z
  /\ total_metric [(lit "total", VInt 45)] = inr (lit "$45.00").
Proof.
  split; [reflexivity|]. split; [vm_compute; split; reflexivity|].
  apply (X16_int_total_gets_two_zeros [(lit "total", VInt 45)] 45);
    [reflexivity | vm_compute; split; reflexivity].
Defined.

End Display.

Section TwoDecimals.

Local Open Scope nat_scope.

(** A text without a backtick has no fence. *)
Lemma no_backtick_no_fence (s : pystr) :
  forallb (fun c => negb (N.eqb 96 c)) s = true -> contains FENCE s = false.
Proof.
  intros H. apply contains_false. intros a b ->.
  rewrite forallb_app in H. apply andb_true_iff in H as [_ H].
  destruct b as [|c b]; [reflexivity|].
  cbn [forallb] in H. apply andb_true_iff in H as [H _].
  apply negb_true_iff in H. rewrite FENCE_unfold. cbn [strip_prefix].
  now rewrite H.
Qed.

Lemma digits_no_backtick (ds : pystr) :
  forallb isdigit ds = true ->
  forallb (fun c => negb (N.eqb 96 c)) ds = true.
Proof.
  induction ds as [|c ds IH]; [reflexivity|]. cbn [forallb].
  intros H. apply andb_true_iff in H as [H1 H2]. rewrite (IH H2), andb_true_r.
  apply digit_range in H1. apply negb_true_iff, N.eqb_neq. lia.
Qed.

(** The text of hundredths: a digit first, digits and one point, no
    backtick. *)
Lemma fixed_2_shape (c : Z) :
  (0 < c)%Z ->
  forallb (fun x => negb (N.eqb 96 x)) (fixed_2 false c) = true
  /\ exists d t, fixed_2 false c = d :: t /\ isdigit d = true.
Proof.
  intros Pc. unfold fixed_2. cbn [sign_str app].
  pose proof (Z.mod_pos_bound c 100 ltac:(lia)) as B.
  destruct (two_digits_facts (c mod 100) B) as (D2 & _ & _).
  assert (A : (0 <= c / 100)%Z) by (apply Z.div_pos; lia).
  destruct (int_str_natural (c / 100) A) as (D1 & N1 & _).
  split.
  - rewrite !forallb_app. rewrite (digits_no_backtick _ D1).
    cbn [forallb negb N.eqb]. cbn [andb].
    apply (digits_no_backtick _ D2).
  - destruct (int_str (c / 100)) as [|d t]; [congruence|].
    cbn [forallb] in D1. apply andb_true_iff in D1 as [D1 _].
    now exists d, (t ++ [46%N] ++ two_digits (c mod 100)).
Qed.

(** X15.  An amount written with two decimals comes back with the same
    two decimals: for every number of hundredths [c] below [10^15], the
    reply that is the object with the one key [total] and the JSON number
    of [c] hundredths (digits, point, two digits, as in [1234.56]) is
    normalized to that object with a float, and the Total metric shows a
    dollar sign and the very same digits, although the float between is
    not the decimal itself.  This holds on every interpreter that has
    room for the one object of the reply. *)
Theorem X15_two_decimals_are_kept (py : interpreter) (c : Z) :
  (1 <= recursion_room py)%nat ->
  (0 < c < 10 ^ 15)%Z ->
  let amount := int_str (c / 100) ++ [46%N] ++ two_digits (c mod 100) in
  let reply := lit_q "{'total': " ++ amount ++ lit "}" in
  parse_response py reply
  = VDict [(lit "total", VFloat (float_of_decimal false c (-2)))]
  /\ total_metric [(lit "total", VFloat (float_of_decimal false c (-2)))]
     = inr (lit "$" ++ amount).
Proof.
  intros Room [Pc Uc]. cbv zeta.
  change (int_str (c / 100) ++ [46%N] ++ two_digits (c mod 100))
    with (fixed_2 false c).
  set (amount := fixed_2 false c).
  set (x := float_of_decimal false c (-2)).
  destruct (fixed_2_shape c Pc) as (NB & d & t & E & Dd). fold amount in NB, E.
  pose proof (fixed_2_reads false c Pc) as R. fold amount x in R.
  split.
  - unfold parse_response.
    assert (C : contains FENCE (lit_q "{'total': " ++ amount ++ lit "}") = false).
    { apply no_backtick_no_fence. rewrite !forallb_app, NB. reflexivity. }
    rewrite (unfence_plain _ C).
    change (lit_q "{'total': " ++ amount ++ lit "}")
      with (123%N :: lit_q "'total': " ++ amount ++ lit "}").
    rewrite (strip_tight (lit_q "{'total': " ++ amount) 123 125)
      by (try reflexivity; cbn [app]; now rewrite <- app_assoc).
    unfold json_loads.
    destruct (recursion_room py) as [|room]; [lia|].
    change (lit_q "'total': " ++ amount ++ lit "}")
      with (34%N :: (flat_map escape_char (lit "total")
              ++ 34%N :: 58%N :: 32%N :: amount ++ lit "}")).
    cbn [N.eqb Pos.eqb]. rewrite (skip_ws_stop 123) by reflexivity.
    set (n := length _).
    assert (F : exists f, 2 * n + 2 = S (S (S f))).
    { exists (2 * n - 1). unfold n. cbn [length]. lia. }
    destruct F as (f & ->). clear n.
    rewrite scan_once_cons. change (123 =? 34)%N with false.
    change (123 =? 123)%N with true. cbv iota.
    rewrite (skip_ws_stop 34) by reflexivity.
    change (34 =? 125)%N with false. cbv iota.
    rewrite parse_members_cons. change (negb (34 =? 34)%N) with false.
    cbv iota. rewrite scanstring_escaped by reflexivity.
    rewrite (skip_ws_stop 58) by reflexivity.
    change (negb (58 =? 58)%N) with false. cbv iota.
    change (skip_ws (32%N :: ?y)) with (skip_ws y).
    rewrite E. cbn [app].
    assert (Wd : is_ws d = false).
    { now apply digit_value_start, value_start_facts in Dd as (-> & _). }
    rewrite (skip_ws_stop d) by assumption.
    change (d :: t ++ lit "}") with ((d :: t) ++ lit "}"). rewrite <- E.
    rewrite (scan_once_number py room f (amount ++ lit "}") (VFloat x) (lit "}"))
      by (now apply match_number_local || discriminate).
    reflexivity.
  - unfold total_metric, dict_get. cbn [dict_lookup].
    change (PyStr.eqb (lit "total") (lit "total")) with true. cbv iota.
    destruct (format_2f_cents false c (conj Pc Uc)) as (m & e & X & K).
    fold x in X. fold amount in K. rewrite X. cbn [truthy_value format_2f].
    now rewrite K.
Qed.

Lemma X15_two_decimals_witness :
  (1 <= recursion_room cpython)%nat
  /\ (0 < 123456 < 10 ^ 15)%Z
  /\ parse_response cpython (lit_q "{'total': 1234.56}")
     = VDict [(lit "total", VFloat (float_of_decimal false 123456 (-2)))]
  /\ total_metric [(lit "total", VFloat (float_of_decimal false 123456 (-2)))]
     = inr (lit "$1234.56").
Proof.
  split; [vm_compute; lia|]. split; [vm_compute; split; reflexivity|].
  apply (X15_two_decimals_are_kept cpython 123456); [vm_compute; lia|].
  vm_compute. split; reflexivity.
Defined.

End TwoDecimals.

(* ================================================================== *)
(** ** The line items *)
(* ================================================================== *)

Section LineItems.

Local Open Scope nat_scope.

(** An amount as the prompt asks for it takes the format, when it counts
    as true. *)
Lemma plain_amount_formats (v : value) :
  plain_amount (Some v) = true -> truthy_value v = true ->
  exists t, format_2f v = inr t.
Proof.
  destruct v as [ | b | z | x | s | l | d]; try discriminate.
  - cbn [plain_amount truthy_value]. intros B T.
    rewrite format_2f_int; [now eexists | lia].
  - intros _ _. now eexists.
Qed.

(** The line of an object with such an amount. *)
Lemma plain_item_line (i : nat) (d : dict) :
  plain_item (VDict d) = true -> exists line, item_line i (VDict d) = inr line.
Proof.
  cbn [plain_item item_line]. intros P. unfold dict_get.
  destruct (dict_lookup d (lit "amount")) as [v|]; [|now eexists].
  destruct (truthy_value v) eqn:T; [|now eexists].
  destruct (plain_amount_formats v P T) as (t & ->). now eexists.
Qed.

(** The loop goes on after a stretch of items where it left off. *)
Lemma show_items_app (i : nat) (a b : list value) :
  show_items i (a ++ b) = show_items i a ;; show_items (i + length a) b.
Proof.
  revert i; induction a as [|item a IH]; intros i.
  - cbn [app show_items length]. rewrite and_then_nothing_l.
    now rewrite Nat.add_0_r.
  - cbn [app show_items length]. rewrite IH, and_then_assoc.
    now rewrite Nat.add_succ_r.
Qed.

(** On items as the prompt asks for them the loop raises nothing and
    only writes lines. *)
Lemma show_plain_items (items : list value) :
  forallb plain_item items = true ->
  forall i, exists lines, show_items i items = (map StWrite lines, None).
Proof.
  induction items as [|item items IH]; intros P i; [now exists []|].
  cbn [forallb] in P. apply andb_true_iff in P as [P1 P2].
  destruct (IH P2 (S i)) as (lines & E). cbn [show_items]. rewrite E.
  destruct (truthy_value item) eqn:T; [|now exists lines].
  destruct item as [ | b | z | x | s | l | d]; try discriminate.
  destruct (plain_item_line i d P1) as (line & ->). now exists (line :: lines).
Qed.

(** X17.  The loop over line items as the prompt asks for them (each one
    null or an object whose amount is missing, null, a float, or an int
    below [2^53] in size) raises nothing and writes one line for each item
    that is not empty, in the order of the reply, each with the number of
    the item's position in the reply: empty items are counted, not
    shown. *)
Theorem X17_line_items_by_position (items : list value) :
  forallb plain_item items = true ->
  exists lines,
    show_items 0 items = (map StWrite lines, None)
    /\ Forall2 (fun p line => item_line (fst p) (snd p) = inr line)
         (filter (fun p => truthy_value (snd p)) (enumerate_from 0 items))
         lines.
Proof.
  generalize 0 as i. unfold enumerate_from.
  induction items as [|item items IH]; intros i P.
  - exists []. split; [reflexivity | constructor].
  - cbn [forallb] in P. apply andb_true_iff in P as [P1 P2].
    destruct (IH (S i) P2) as (lines & E & F).
    cbn [show_items length seq combine filter snd]. rewrite E.
    destruct item as [ | b | z | x | s | l | d]; try discriminate.
    + exists lines. split; [reflexivity | exact F].
    + destruct d as [|kv d].
      * exists lines. split; [reflexivity | exact F].
      * destruct (plain_item_line i (kv :: d) P1) as (line & L).
        cbn [truthy_value]. rewrite L. exists (line :: lines).
        split; [reflexivity|]. constructor; [exact L | exact F].
Qed.

Lemma X17_line_items_witness :
  forallb plain_item
    [VDict [(lit "description", VStr (lit "Paper")); (lit "amount", VInt 3)];
     VDict []; VNone;
     VDict [(lit "description", VStr (lit "Ink"))]] = true
  /\ exists lines,
       show_items 0
         [VDict [(lit "description", VStr (lit "Paper")); (lit "amount", VInt 3)];
          VDict []; VNone;
          VDict [(lit "description", VStr (lit "Ink"))]]
       = (map StWrite lines, None)
       /\ Forall2 (fun p line => item_line (fst p) (snd p) = inr line)
            (filter (fun p => truthy_value (snd p))
               (enumerate_from 0
                  [VDict [(lit "description", VStr (lit "Paper"));
                          (lit "amount", VInt 3)];
                   VDict []; VNone;
                   VDict [(lit "description", VStr (lit "Ink"))]]))
            lines.
Proof.
  split; [reflexivity|].
  apply (X17_line_items_by_position
           [VDict [(lit "description", VStr (lit "Paper")); (lit "amount", VInt 3)];
            VDict []; VNone;
            VDict [(lit "description", VStr (lit "Ink"))]]).
  reflexivity.
Defined.

(** X18.  Line items that are not a list: a non-empty string is run over
    character by character, and the first character, a string, has no
    [get] (an [AttributeError]); a number that is not zero, or [true],
    cannot be run over at all (a [TypeError]).  Either way the view stops
    right after the heading of the line items. *)
Theorem X18_line_items_not_a_list (result : dict) (v : value) :
  dict_lookup result (lit "line_items") = Some v ->
  truthy_value v = true ->
  match v with VList _ | VDict _ => false | _ => true end = true ->
  show_line_items result
  = ([StSubheader (lit "Line Items")],
     Some (Fault match v with VStr _ => AttributeError | _ => TypeError end)).
Proof.
  intros L T K. unfold show_line_items, dict_get. rewrite L, T.
  destruct v as [ | b | z | x | s | l | d]; try discriminate; try reflexivity.
  destruct s as [|c s]; [discriminate | reflexivity].
Qed.

Lemma X18_not_a_list_witness :
  dict_lookup [(lit "line_items", VStr (lit "none"))] (lit "line_items")
  = Some (VStr (lit "none"))
  /\ truthy_value (VStr (lit "none")) = true
  /\ match VStr (lit "none") with VList _ | VDict _ => false | _ => true end
     = true
  /\ show_line_items [(lit "line_items", VStr (lit "none"))]
     = ([StSubheader (lit "Line Items")], Some (Fault AttributeError)).
Proof.
  split; [reflexivity|]. split; [reflexivity|]. split; [reflexivity|].
  apply (X18_line_items_not_a_list [(lit "line_items", VStr (lit "none"))]
           (VStr (lit "none"))); reflexivity.
Defined.

(** X19.  One line item that is not an object ends the view: after items
    as the prompt asks for them, an item that counts as true and is not an
    object (a string, a number, a list) raises an [AttributeError]; the
    lines of the items before it are written, nothing of what follows. *)
Theorem X19_item_not_an_object
    (before : list value) (item : value) (rest : list value) :
  forallb plain_item before = true ->
  truthy_value item = true ->
  match item with VDict _ => false | _ => true end = true ->
  show_items 0 (before ++ item :: rest)
  = (fst (show_items 0 before), Some (Fault AttributeError)).
Proof.
  intros P T K. rewrite show_items_app.
  destruct (show_plain_items before P 0) as (lines & ->).
  cbn [show_items fst]. rewrite T.
  destruct item as [ | b | z | x | s | l | d]; try discriminate;
    cbn [item_line and_then raise fst snd]; now rewrite app_nil_r.
Qed.

Lemma X19_not_an_object_witness :
  forallb plain_item [VDict [(lit "description", VStr (lit "Paper"))]] = true
  /\ truthy_value (VStr (lit "Ink, 2 pcs")) = true
  /\ match VStr (lit "Ink, 2 pcs") with VDict _ => false | _ => true end = true
  /\ show_items 0
       ([VDict [(lit "description", VStr (lit "Paper"))]]
          ++ VStr (lit "Ink, 2 pcs") :: [VDict [(lit "description", VStr (lit "Pen"))]])
     = ([StWrite (Some (lit "**1.** Paper"))], Some (Fault AttributeError)).
Proof.
  split; [reflexivity|]. split; [reflexivity|]. split; [reflexivity|].
  apply (X19_item_not_an_object
           [VDict [(lit "description", VStr (lit "Paper"))]]
           (VStr (lit "Ink, 2 pcs"))
           [VDict [(lit "description", VStr (lit "Pen"))]]); reflexivity.
Defined.

End LineItems.

(* ================================================================== *)
(** ** Missing keys, null values, and the flat export *)
(* ================================================================== *)

Section Defaults.

Local Open Scope nat_scope.

(** X20.  A reply without any of the keys the view reads (the empty
    object, say) is shown with the defaults of the script: N/A in the four
    metrics, no line items, the file name [invoice_data.json], and a flat
    export with four empty cells. *)
Theorem X20_missing_keys_get_defaults (result : dict) :
  dict_has result (lit "error") = false ->
  dict_lookup result (lit "vendor_name") = None ->
  dict_lookup result (lit "total") = None ->
  dict_lookup result (lit "invoice_date") = None ->
  dict_lookup result (lit "category_suggestion") = None ->
  dict_lookup result (lit "line_items") = None ->
  dict_lookup result (lit "invoice_number") = None ->
  show_result (VDict result)
  = ([StMetric (lit "Vendor") (VStr (lit "N/A"));
      StMetric (lit "Total") (VStr (lit "N/A"));
      StMetric (lit "Date") (VStr (lit "N/A"));
      StMetric (lit "Category") (VStr (lit "N/A"));
      StJson (VDict result);
      StSubheader (lit "Export");
      StDownload DOWNLOAD_JSON (Some (export_json result))
        (Some (lit "invoice_data.json")) (lit "application/json");
      StDownload DOWNLOAD_CSV
        (Some (lit "date,vendor,total,category" ++ [10%N] ++ lit ",,,"))
        (Some (lit "invoice_data.csv")) (lit "text/csv")],
     None).
Proof.
  intros E V T D C L I. unfold show_result, py_in. rewrite E.
  unfold show_record, total_metric, show_line_items, json_file_name,
    export_csv, csv_line, csv_field, dict_get.
  rewrite V, T, D, C, L, I. reflexivity.
Qed.

Lemma X20_missing_keys_witness :
  dict_has [] (lit "error") = false
  /\ dict_lookup [] (lit "vendor_name") = None
  /\ dict_lookup [] (lit "total") = None
  /\ dict_lookup [] (lit "invoice_date") = None
  /\ dict_lookup [] (lit "category_suggestion") = None
  /\ dict_lookup [] (lit "line_items") = None
  /\ dict_lookup [] (lit "invoice_number") = None
  /\ parse_response cpython (lit "{}") = VDict []
  /\ show_result (VDict [])
     = ([StMetric (lit "Vendor") (VStr (lit "N/A"));
         StMetric (lit "Total") (VStr (lit "N/A"));
         StMetric (lit "Date") (VStr (lit "N/A"));
         StMetric (lit "Category") (VStr (lit "N/A"));
         StJson (VDict []);
         StSubheader (lit "Export");
         StDownload DOWNLOAD_JSON (Some (export_json []))
           (Some (lit "invoice_data.json")) (lit "application/json");
         StDownload DOWNLOAD_CSV
           (Some (lit "date,vendor,total,category" ++ [10%N] ++ lit ",,,"))
           (Some (lit "invoice_data.csv")) (lit "text/csv")],
        None).
Proof.
  repeat (split; [reflexivity|]).
  apply (X20_missing_keys_get_defaults []); reflexivity.
Defined.

(** X21.  Null is not missing: when the reply has the keys with the
    value null, as the prompt asks for fields that are not found, the
    defaults do not apply.  The Vendor, Date and Category metrics are
    given [None] itself, not N/A; only the Total metric, which is tested
    for truth, reads N/A; the file is named [invoice_None.json]; and the
    flat export has [None] in each cell. *)
Theorem X21_null_is_not_missing (result : dict) :
  dict_has result (lit "error") = false ->
  dict_lookup result (lit "vendor_name") = Some VNone ->
  dict_lookup result (lit "total") = Some VNone ->
  dict_lookup result (lit "invoice_date") = Some VNone ->
  dict_lookup result (lit "category_suggestion") = Some VNone ->
  dict_lookup result (lit "line_items") = Some VNone ->
  dict_lookup result (lit "invoice_number") = Some VNone ->
  show_result (VDict result)
  = ([StMetric (lit "Vendor") VNone;
      StMetric (lit "Total") (VStr (lit "N/A"));
      StMetric (lit "Date") VNone;
      StMetric (lit "Category") VNone;
      StJson (VDict result);
      StSubheader (lit "Export");
      StDownload DOWNLOAD_JSON (Some (export_json result))
        (Some (lit "invoice_None.json")) (lit "application/json");
      StDownload DOWNLOAD_CSV
        (Some (lit "date,vendor,total,category" ++ [10%N]
                 ++ lit "None,None,None,None"))
        (Some (lit "invoice_data.csv")) (lit "text/csv")],
     None).
Proof.
  intros E V T D C L I. unfold show_result, py_in. rewrite E.
  unfold show_record, total_metric, show_line_items, json_file_name,
    export_csv, csv_line, csv_field, dict_get.
  rewrite V, T, D, C, L, I. reflexivity.
Qed.

Lemma X21_null_witness :
  let result :=
    [(lit "vendor_name", VNone); (lit "total", VNone);
     (lit "invoice_date", VNone); (lit "category_suggestion", VNone);
     (lit "line_items", VNone); (lit "invoice_number", VNone)] in
  dict_has result (lit "error") = false
  /\ dict_lookup result (lit "vendor_name") = Some VNone
  /\ dict_lookup result (lit "total") = Some VNone
  /\ dict_lookup result (lit "invoice_date") = Some VNone
  /\ dict_lookup result (lit "category_suggestion") = Some VNone
  /\ dict_lookup result (lit "line_items") = Some VNone
  /\ dict_lookup result (lit "invoice_number") = Some VNone
  /\ show_result (VDict result)
     = ([StMetric (lit "Vendor") VNone;
         StMetric (lit "Total") (VStr (lit "N/A"));
         StMetric (lit "Date") VNone;
         StMetric (lit "Category") VNone;
         StJson (VDict result);
         StSubheader (lit "Export");
         StDownload DOWNLOAD_JSON (Some (export_json result))
           (Some (lit "invoice_None.json")) (lit "application/json");
         StDownload DOWNLOAD_CSV
           (Some (lit "date,vendor,total,category" ++ [10%N]
                    ++ lit "None,None,None,None"))
           (Some (lit "invoice_data.csv")) (lit "text/csv")],
        None).
Proof.
  cbv zeta. repeat (split; [reflexivity|]).
  apply (X21_null_is_not_missing
           [(lit "vendor_name", VNone); (lit "total", VNone);
            (lit "invoice_date", VNone); (lit "category_suggestion", VNone);
            (lit "line_items", VNone); (lit "invoice_number", VNone)]);
    reflexivity.
Defined.

(** Cutting at a one-character separator goes through a text piece by
    piece. *)
Lemma split_char_app (c : N) (a b : pystr) :
  split [c] (a ++ [c] ++ b) = split [c] a ++ split [c] b.
Proof.
  assert (S : [c] <> []) by discriminate.
  remember (length a) as n eqn:Hn.
  revert a Hn. induction n as [n IH] using lt_wf_ind. intros a Hn.
  rewrite (split_unfold [c] (a ++ [c] ++ b) S), (split_unfold [c] a S).
  destruct (partition [c] a) as [[p q]|] eqn:P.
  - pose proof (partition_sound _ _ _ _ P) as Ea.
    pose proof (partition_first _ _ _ _ P) as F.
    assert (P' : partition [c] (a ++ [c] ++ b) = Some (p, q ++ [c] ++ b)).
    { rewrite Ea at 1. rewrite <- !app_assoc. rewrite partition_skip.
      - now rewrite partition_here, app_nil_r.
      - intros x y Ex Hy. specialize (F x y Ex Hy).
        destruct y as [|y0 y]; [congruence|].
        cbn [app strip_prefix] in F |- *.
        destruct (N.eqb c y0); [discriminate | reflexivity]. }
    rewrite P'. cbn [app]. f_equal.
    apply (IH (length q)); [|reflexivity].
    subst n. rewrite Ea. rewrite !length_app. cbn [length]. lia.
  - assert (P' : partition [c] (a ++ [c] ++ b) = Some (a, b)).
    { rewrite partition_skip.
      - now rewrite partition_here, app_nil_r.
      - intros x y Ex Hy.
        assert (C : contains [c] a = false) by (unfold contains; now rewrite P).
        rewrite contains_false in C. specialize (C x y Ex).
        destruct y as [|y0 y]; [congruence|].
        cbn [app strip_prefix] in C |- *.
        destruct (N.eqb c y0); [discriminate | reflexivity]. }
    now rewrite P'.
Qed.

(** X22.  Nothing is quoted in the flat export: the data row, cut at the
    commas, falls into the pieces of the date, then of the vendor, of the
    total and of the category, each cut at its own commas.  Fields without
    a comma come back as the four cells; a vendor name with a comma in it
    takes two cells and shifts the total and the category. *)
Theorem X22_flat_row_cells
    (result : dict) (date vendor total category : pystr) :
  csv_field result (lit "invoice_date") = Some date ->
  csv_field result (lit "vendor_name") = Some vendor ->
  csv_field result (lit "total") = Some total ->
  csv_field result (lit "category_suggestion") = Some category ->
  exists row,
    csv_line result = Some row
    /\ export_csv result = Some (CSV_HEADER ++ [10%N] ++ row)
    /\ split [44%N] row
       = split [44%N] date ++ split [44%N] vendor
           ++ split [44%N] total ++ split [44%N] category.
Proof.
  intros D V T C. unfold export_csv, csv_line. rewrite D, V, T, C.
  eexists. split; [reflexivity|]. split; [reflexivity|].
  now rewrite !split_char_app.
Qed.

Lemma X22_flat_row_witness :
  let result :=
    [(lit "invoice_date", VStr (lit "2024-03-14"));
     (lit "vendor_name", VStr (lit "Acme, Inc."));
     (lit "total", VInt 45);
     (lit "category_suggestion", VStr (lit "Travel"))] in
  csv_field result (lit "invoice_date") = Some (lit "2024-03-14")
  /\ csv_field result (lit "vendor_name") = Some (lit "Acme, Inc.")
  /\ csv_field result (lit "total") = Some (lit "45")
  /\ csv_field result (lit "category_suggestion") = Some (lit "Travel")
  /\ exists row,
       csv_line result = Some row
       /\ export_csv result = Some (CSV_HEADER ++ [10%N] ++ row)
       /\ split [44%N] row
          = split [44%N] (lit "2024-03-14") ++ split [44%N] (lit "Acme, Inc.")
              ++ split [44%N] (lit "45") ++ split [44%N] (lit "Travel").
Proof.
  cbv zeta. repeat (split; [reflexivity|]).
  apply (X22_flat_row_cells
           [(lit "invoice_date", VStr (lit "2024-03-14"));
            (lit "vendor_name", VStr (lit "Acme, Inc."));
            (lit "total", VInt 45);
            (lit "category_suggestion", VStr (lit "Travel"))]
           (lit "2024-03-14") (lit "Acme, Inc.") (lit "45") (lit "Travel"));
    reflexivity.
Defined.

End Defaults.

(* ================================================================== *)
(** ** One run of the script, and the next *)
(* ================================================================== *)

Section Runs.

Local Open Scope nat_scope.

Lemma finish_requests (before : list widget) (analysis_result : option value)
    (sent : list pystr) :
  requests (finish before analysis_result sent) = sent
  /\ slot (finish before analysis_result sent) = analysis_result
  /\ page (finish before analysis_result sent)
     = before ++ fst (show_session analysis_result).
Proof.
  unfold finish. now destruct (show_session analysis_result) as [ws exc].
Qed.

(** The record view follows the dispatch of [render]: it raises where
    [render] finds an uncaught exception, and shows the error or the record
    where [render] finds one. *)
Lemma show_result_follows_render (result : value) :
  match render result with
  | Uncaught exc => show_result result = ([], Some (Fault exc))
  | ShowError _ _ => exists d, result = VDict d /\ show_result result = show_error d
  | ShowRecord d => result = VDict d /\ show_result result = show_record d
  end.
Proof.
  unfold render, show_result.
  destruct (py_in (lit "error") result) as [exc|[|]] eqn:P; [reflexivity| |].
  - destruct result as [ | b | z | x | s | l | d]; try reflexivity.
    cbn [py_in] in P. injection P as P. unfold dict_has in P.
    destruct (dict_lookup d (lit "error")) eqn:L; [|discriminate].
    now exists d.
  - destruct result as [ | b | z | x | s | l | d]; try reflexivity.
    now split.
Qed.

(** X1.  [GEMINI_API_KEY] goes before [GEMINI_API]: when it is set to a
    non-empty string the credential is that string, whatever [GEMINI_API]
    holds; when it is unset or empty the credential is what [GEMINI_API]
    holds, if anything.  A run sends at most one request, and only when it
    was started by the Analyze button, with a document uploaded and one of
    the two variables set to a non-empty string, whatever the service
    answers and whatever the interpreter's limits.  The request is then the
    header followed by the whole extracted text: the cut at 3000 characters
    is made for the preview only. *)
Theorem X1_one_request_with_the_whole_text
    (py : interpreter)
    (key_var api_var : option pystr) (generate_content : service)
    (pdf : option document) (button : bool)
    (analysis_result : option value) (sent : list pystr) :
  read_credential key_var api_var
  = match key_var with
    | Some (c :: key) => Some (c :: key)
    | Some [] | None => api_var
    end
  /\ requests (script_run py (read_credential key_var api_var)
                 generate_content pdf button analysis_result sent)
     = match pdf with
       | Some doc =>
           if button && (truthy key_var || truthy api_var)
           then sent ++ [INVOICE_EXTRACTION_PROMPT ++ extract_text_from_pdf doc]
           else sent
       | None => sent
       end.
Proof.
  split; [now destruct key_var as [[|c key]|]|].
  assert (T : truthy (read_credential key_var api_var)
              = truthy key_var || truthy api_var).
  { unfold read_credential.
    destruct (truthy key_var) eqn:K; [now rewrite K | reflexivity]. }
  unfold script_run. destruct pdf as [doc|]; [|apply finish_requests].
  destruct button; [|apply finish_requests]. cbn [andb].
  unfold analyze_invoice_with_gemini, build_prompt. rewrite T.
  destruct (truthy key_var || truthy api_var); cbn [negb];
    [|apply finish_requests].
  destruct (generate_content _) as [raw|[| |] message];
    (reflexivity || apply finish_requests).
Qed.

(** X23.  A result that is not an object is never shown: whatever JSON
    value other than an object the reply is normalized to (a list, a
    string, a number, [true], [false] or [null]), the display raises a
    [TypeError] or an [AttributeError] of its own before it shows
    anything. *)
Theorem X23_only_objects_are_shown (py : interpreter) (raw : pystr) :
  match parse_response py raw with VDict _ => false | _ => true end = true ->
  exists exc,
    show_result (parse_response py raw) = ([], Some (Fault exc))
    /\ render (parse_response py raw) = Uncaught exc.
Proof.
  intros H.
  pose proof (show_result_follows_render (parse_response py raw)) as R.
  destruct (parse_response py raw) as [ | b | z | x | s | l | d];
    try discriminate;
    (destruct (render _) as [m r|d'|exc];
     [destruct R as (d' & R & _); discriminate
     |destruct R as [R _]; discriminate
     |now exists exc]).
Qed.

Lemma X23_only_objects_witness :
  match parse_response cpython list_reply with
  | VDict _ => false
  | _ => true
  end = true
  /\ exists exc,
       show_result (parse_response cpython list_reply) = ([], Some (Fault exc))
       /\ render (parse_response cpython list_reply) = Uncaught exc.
Proof.
  split; [reflexivity|].
  apply (X23_only_objects_are_shown cpython list_reply). reflexivity.
Defined.

(** X24.  A reply that the decoder rejects is put before the user as it
    came: when the run was started by the button, a credential is
    configured, and [json.loads] raises a [JSONDecodeError] on the
    candidate of the service's reply (it does not return a value, and it
    does not stop at a limit of the interpreter), the page shows the
    preview of the text, the error with the words [Error: Failed to parse
    response], and the raw reply in full; the slot holds the error with the
    raw reply, and one request went out. *)
Theorem X24_parse_failure_shows_the_reply
    (py : interpreter) (GEMINI_API : option pystr)
    (generate_content : service)
    (doc : document) (raw candidate : pystr)
    (analysis_result : option value) (sent : list pystr) :
  truthy GEMINI_API = true ->
  generate_content (INVOICE_EXTRACTION_PROMPT ++ extract_text_from_pdf doc)
  = Replied raw ->
  unfence raw = Some candidate ->
  json_loads py (strip candidate) = DecodeFailed ->
  script_run py GEMINI_API generate_content (Some doc) true analysis_result
    sent
  = mkRun [StText (VStr (preview (extract_text_from_pdf doc)));
           StError (Some (lit "Error: Failed to parse response"));
           StText (VStr raw)]
          (Some (parse_error_dict raw))
          (sent ++ [INVOICE_EXTRACTION_PROMPT ++ extract_text_from_pdf doc])
          None.
Proof.
  intros K G U J. unfold script_run, analyze_invoice_with_gemini, build_prompt.
  rewrite K. cbn [negb]. rewrite G. unfold parse_response. rewrite U, J.
  reflexivity.
Qed.

Lemma X24_parse_failure_witness :
  truthy some_key = true
  /\ always truncated_reply
       (INVOICE_EXTRACTION_PROMPT ++ extract_text_from_pdf [Some some_text])
     = Replied truncated_reply
  /\ unfence truncated_reply = Some truncated_reply
  /\ json_loads cpython (strip truncated_reply) = DecodeFailed
  /\ script_run cpython some_key (always truncated_reply)
       (Some [Some some_text]) true None []
     = mkRun [StText (VStr (preview (extract_text_from_pdf [Some some_text])));
              StError (Some (lit "Error: Failed to parse response"));
              StText (VStr truncated_reply)]
             (Some (parse_error_dict truncated_reply))
             ([] ++ [INVOICE_EXTRACTION_PROMPT
                       ++ extract_text_from_pdf [Some some_text]])
             None.
Proof.
  split; [reflexivity|]. split; [reflexivity|]. split; [reflexivity|].
  split; [reflexivity|].
  apply (X24_parse_failure_shows_the_reply cpython some_key
           (always truncated_reply)
           [Some some_text] truncated_reply truncated_reply None []);
    reflexivity.
Defined.

(** X25.  The result outlives its document: after a run that analysed a
    first document, a run with another document that was not started by
    the button sends nothing, keeps the slot, and shows the preview of the
    new document's text next to the result of the first one. *)
Theorem X25_result_outlives_its_document
    (py : interpreter) (GEMINI_API : option pystr)
    (generate_content : service)
    (first second : document) (result : value)
    (analysis_result : option value) (sent sent' : list pystr) :
  analyze_invoice_with_gemini py GEMINI_API generate_content
    (extract_text_from_pdf first) sent = (Returned result, sent') ->
  let run1 := script_run py GEMINI_API generate_content (Some first) true
                analysis_result sent in
  let run2 := script_run py GEMINI_API generate_content (Some second) false
                (slot run1) (requests run1) in
  slot run2 = Some result
  /\ requests run2 = sent'
  /\ page run2
     = StText (VStr (preview (extract_text_from_pdf second)))
         :: fst (show_result result).
Proof.
  intros A. cbv zeta.
  assert (R : script_run py GEMINI_API generate_content (Some first) true
                analysis_result sent
              = finish [StText (VStr (preview (extract_text_from_pdf first)))]
                  (Some result) sent')
    by (unfold script_run; now rewrite A).
  rewrite R.
  destruct (finish_requests
              [StText (VStr (preview (extract_text_from_pdf first)))]
              (Some result) sent') as (R1 & S1 & _).
  rewrite R1, S1. cbn [script_run].
  destruct (finish_requests
              [StText (VStr (preview (extract_text_from_pdf second)))]
              (Some result) sent') as (R2 & S2 & P2).
  now rewrite R2, S2, P2.
Qed.

Lemma X25_outlives_witness :
  analyze_invoice_with_gemini cpython some_key (always (lit "{}"))
    (extract_text_from_pdf [Some some_text]) [] 
  = (Returned (VDict []),
     [INVOICE_EXTRACTION_PROMPT ++ extract_text_from_pdf [Some some_text]])
  /\ slot (script_run cpython some_key (always (lit "{}")) (Some [Some (lit "Other")])
             false
             (slot (script_run cpython some_key (always (lit "{}"))
                      (Some [Some some_text]) true None []))
             (requests (script_run cpython some_key (always (lit "{}"))
                          (Some [Some some_text]) true None [])))
     = Some (VDict [])
  /\ requests
       (script_run cpython some_key (always (lit "{}")) (Some [Some (lit "Other")])
          false
          (slot (script_run cpython some_key (always (lit "{}"))
                   (Some [Some some_text]) true None []))
          (requests (script_run cpython some_key (always (lit "{}"))
                       (Some [Some some_text]) true None [])))
     = [INVOICE_EXTRACTION_PROMPT ++ extract_text_from_pdf [Some some_text]]
  /\ page
       (script_run cpython some_key (always (lit "{}")) (Some [Some (lit "Other")])
          false
          (slot (script_run cpython some_key (always (lit "{}"))
                   (Some [Some some_text]) true None []))
          (requests (script_run cpython some_key (always (lit "{}"))
                       (Some [Some some_text]) true None [])))
     = StText (VStr (preview (extract_text_from_pdf [Some (lit "Other")])))
         :: fst (show_result (VDict [])).
Proof.
  split; [reflexivity|].
  apply (X25_result_outlives_its_document cpython some_key (always (lit "{}"))
           [Some some_text] [Some (lit "Other")] (VDict []) None []
           [INVOICE_EXTRACTION_PROMPT ++ extract_text_from_pdf [Some some_text]]).
  reflexivity.
Defined.

(** The heading and lines of the line items of a record as the prompt
    asks for it. *)
Lemma show_plain_line_items (result : dict) :
  match dict_lookup result (lit "line_items") with
  | None | Some VNone => true
  | Some (VList items) => forallb plain_item items
  | _ => false
  end = true ->
  exists ws, show_line_items result = (ws, None).
Proof.
  intros P. unfold show_line_items, dict_get.
  destruct (dict_lookup result (lit "line_items")) as [v|]; [|now eexists].
  destruct v as [ | b | z | x | s | l | d]; try discriminate; [now eexists|].
  destruct l as [|item l]; [now eexists|].
  cbn [truthy_value iterate].
  destruct (show_plain_items (item :: l) P 0) as (lines & ->).
  now eexists.
Qed.

(** X26.  A reply as the prompt asks for it is shown in full: when the
    total is missing, null, a float, or an int below [2^53] in size, and
    the line items are missing, null, or a list of items that are null or
    objects with such an amount, the view raises nothing; it shows the four
    metrics, the line items, the full JSON and both downloads, whatever
    else the object holds. *)
Theorem X26_plain_record_is_shown_in_full (result : dict) :
  dict_has result (lit "error") = false ->
  plain_record result = true ->
  exists total_text item_widgets,
    show_result (VDict result)
    = (StMetric (lit "Vendor")
         (dict_get result (lit "vendor_name") (VStr (lit "N/A")))
       :: StMetric (lit "Total") (VStr total_text)
       :: StMetric (lit "Date")
            (dict_get result (lit "invoice_date") (VStr (lit "N/A")))
       :: StMetric (lit "Category")
            (dict_get result (lit "category_suggestion") (VStr (lit "N/A")))
       :: item_widgets
       ++ [StJson (VDict result);
           StSubheader (lit "Export");
           StDownload DOWNLOAD_JSON (Some (export_json result))
             (json_file_name result) (lit "application/json");
           StDownload DOWNLOAD_CSV (export_csv result)
             (Some (lit "invoice_data.csv")) (lit "text/csv")],
       None).
Proof.
  intros E P. unfold plain_record in P. apply andb_true_iff in P as [PT PL].
  destruct (show_plain_line_items result PL) as (ws & L).
  assert (T : exists t, total_metric result = inr t).
  { unfold total_metric, dict_get.
    destruct (dict_lookup result (lit "total")) as [v|]; [|now eexists].
    destruct (truthy_value v) eqn:Tv; [|now eexists].
    destruct (plain_amount_formats v PT Tv) as (t & ->). now eexists. }
  destruct T as (t & T). exists t, ws.
  unfold show_result, py_in. rewrite E. unfold show_record. rewrite T, L.
  reflexivity.
Qed.

Lemma X26_plain_record_witness :
  dict_has (record_dict scenario_record) (lit "error") = false
  /\ plain_record (record_dict scenario_record) = true
  /\ exists total_text item_widgets,
       show_result (VDict (record_dict scenario_record))
       = (StMetric (lit "Vendor")
            (dict_get (record_dict scenario_record) (lit "vendor_name")
               (VStr (lit "N/A")))
          :: StMetric (lit "Total") (VStr total_text)
          :: StMetric (lit "Date")
               (dict_get (record_dict scenario_record) (lit "invoice_date")
                  (VStr (lit "N/A")))
          :: StMetric (lit "Category")
               (dict_get (record_dict scenario_record)
                  (lit "category_suggestion") (VStr (lit "N/A")))
          :: item_widgets
          ++ [StJson (VDict (record_dict scenario_record));
              StSubheader (lit "Export");
              StDownload DOWNLOAD_JSON
                (Some (export_json (record_dict scenario_record)))
                (json_file_name (record_dict scenario_record))
                (lit "application/json");
              StDownload DOWNLOAD_CSV (export_csv (record_dict scenario_record))
                (Some (lit "invoice_data.csv")) (lit "text/csv")],
          None).
Proof.
  split; [reflexivity|]. split; [reflexivity|].
  apply (X26_plain_record_is_shown_in_full (record_dict scenario_record));
    reflexivity.
Defined.

End Runs.

(* ================================================================== *)
(** ** A key that the reply repeats *)
(* ================================================================== *)

Section Repeats.

Local Open Scope nat_scope.

Variable py : interpreter.
Variable depth : nat.
Variable indent : option nat.
Variable lvl : nat.
Variables w post rest : pystr.
Hypothesis Hw : forallb is_ws w = true.
Hypothesis Hpost : forallb is_ws post = true.

Local Abbreviation member :=
  (fun kv : pystr * value =>
     encode_string (fst kv) ++ lit ": " ++ encode indent lvl (snd kv)).

(** The loop over the members assigns them one after the other, whether
    or not a key comes again. *)
Lemma parse_members_assigns (d : list (pystr * value)) :
  d <> [] ->
  forallb (fun kv => text_ok (fst kv) && value_ok (snd kv)) d = true ->
  forallb (fun kv => within py depth (snd kv)) d = true ->
  forall acc fuel,
    list_sum (map (fun kv => S (weight (snd kv))) d) <= fuel ->
    parse_members py depth fuel acc
      (join (44%N :: w) (map member d) ++ post ++ 125%N :: rest)
    = Loaded
        (VDict (fold_left (fun a kv => dict_set a (fst kv) (snd kv)) d acc))
        rest.
Proof.
  induction d as [|[k v] d IH]; [congruence|]. intros _ F Wi acc fuel Hf.
  cbn [forallb fst snd] in F. apply andb_true_iff in F as [F1 F'].
  apply andb_true_iff in F1 as [Tk Ok].
  cbn [forallb fst snd] in Wi. apply andb_true_iff in Wi as [Wv Wi'].
  cbn [map list_sum snd] in Hf. destruct fuel as [|f]; [simpl in Hf; lia|].
  cbn [map fst snd fold_left]. rewrite join_head.
  destruct d as [|kv2 d'].
  - cbn [map fold_left]. rewrite app_nil_r.
    rewrite parse_members_member; try assumption.
    + rewrite skip_ws_app by assumption.
      rewrite (skip_ws_stop 125) by reflexivity.
      change (125 =? 125)%N with true. cbv iota. reflexivity.
    + apply scan_encoded;
        [assumption | assumption | apply number_end_closing; auto
        | simpl in Hf; lia].
  - cbn [map] in *. cbv iota.
    rewrite <- app_assoc.
    rewrite parse_members_member; try assumption.
    + rewrite <- app_assoc.
      change ((44%N :: w) ++ ?x) with (44%N :: w ++ x).
      rewrite (skip_ws_stop 44) by reflexivity.
      change (44 =? 125)%N with false. change (44 =? 44)%N with true.
      cbv iota. rewrite skip_ws_app by assumption.
      change (?a :: map member d') with (map member (kv2 :: d')).
      rewrite (skip_ws_members_head indent lvl w).
      rewrite IH; [reflexivity | discriminate | assumption | assumption
                  | simpl in Hf |- *; lia].
    + apply scan_encoded;
        [assumption | assumption | reflexivity | simpl in Hf |- *; lia].
Qed.

End Repeats.

Section RepeatedKeys.

Local Open Scope nat_scope.

(** The text of an object whose members may repeat a key is read as the
    dict of its members. *)
Lemma json_loads_members (py : interpreter) (d : list (pystr * value))
    (indent : option nat) :
  forallb (fun kv => text_ok (fst kv) && value_ok (snd kv)) d = true ->
  within py (recursion_room py) (VDict d) = true ->
  json_loads py (encode indent 0 (VDict d)) = Parsed (VDict (dict_of d)).
Proof.
  intros F Wi. unfold dict_of. cbn [within] in Wi.
  destruct (recursion_room py) as [|room] eqn:Room; [discriminate|].
  destruct d as [|kv d];
    [unfold json_loads; rewrite Room; reflexivity|].
  set (items := map (fun kv => encode_string (fst kv) ++ lit ": "
                       ++ encode indent 1 (snd kv)) (kv :: d)).
  assert (L : list_sum (map (fun kv => S (weight (snd kv))) (kv :: d))
              < length (encode indent 0 (VDict (kv :: d)))).
  { pose proof (encode_items_length indent 0 123 125 items) as L.
    unfold items in L. rewrite map_map in L.
    cbn [encode]. fold items.
    enough (list_sum (map (fun kv => S (weight (snd kv))) (kv :: d))
            <= list_sum (map (fun x => S (length (encode_string (fst x)
                 ++ lit ": " ++ encode indent 1 (snd x)))) (kv :: d)))
      by (unfold items; lia).
    apply list_sum_le. rewrite forallb_forall in F. rewrite Forall_forall.
    intros y Hy. specialize (F y Hy). apply andb_true_iff in F as [_ F].
    pose proof (weight_le_length (snd y) F indent 1). rewrite !length_app. lia. }
  cbn [encode] in L |- *. fold items in L |- *.
  destruct (encode_items_shape indent 0 123 125 items)
    as (pre & w & post & Wp & Ww & Wq & E); [discriminate|].
  rewrite E in L |- *. unfold json_loads. rewrite Room.
  change ((123 =? 0xFEFF)%N) with false. cbv iota.
  rewrite (skip_ws_stop 123) by reflexivity.
  set (n := length _) in *.
  assert (Hn : exists f, 2 * n + 2 = S f
                 /\ list_sum (map (fun kv => S (weight (snd kv))) (kv :: d)) <= f).
  { exists (2 * n + 1). split; lia. }
  destruct Hn as (f & -> & Hf). clear n L.
  rewrite scan_once_cons. change (123 =? 34)%N with false.
  change (123 =? 123)%N with true. cbv iota.
  replace (pre ++ join (44%N :: w) items ++ post ++ [125%N])
    with (pre ++ (join (44%N :: w) items ++ post ++ 125%N :: []))
    by reflexivity.
  assert (HX : exists t, join (44%N :: w) items ++ post ++ [125%N] = 34%N :: t).
  { unfold items. cbn [map]. rewrite join_head. now eexists. }
  destruct HX as (t & HX).
  rewrite (skip_to_first_item pre _ 34 t Wp HX eq_refl).
  change (34 =? 125)%N with false. cbv iota. rewrite <- HX. unfold items.
  rewrite (parse_members_assigns py room indent 1 w post [] Ww Wq);
    [reflexivity | discriminate | assumption | assumption | assumption].
Qed.

(** Assigning to one key leaves the value of another. *)
Lemma dict_lookup_set_other (a : dict) (k k' : pystr) (v' : value) :
  PyStr.eqb k' k = false ->
  dict_lookup (dict_set a k' v') k = dict_lookup a k.
Proof.
  intros N. induction a as [|[k0 v0] a IH]; cbn [dict_set dict_lookup].
  - now rewrite N.
  - destruct (PyStr.eqb k0 k') eqn:E1; cbn [dict_lookup].
    + destruct (PyStr.eqb k0 k) eqn:E0; [|reflexivity].
      apply eqb_eq in E0, E1. subst. now rewrite eqb_refl in N.
    + now rewrite IH.
Qed.

Lemma assign_others (later : list (pystr * value)) (k : pystr) (a : dict) :
  existsb (fun kv => PyStr.eqb (fst kv) k) later = false ->
  dict_lookup (fold_left (fun acc kv => dict_set acc (fst kv) (snd kv)) later a) k
  = dict_lookup a k.
Proof.
  revert a; induction later as [|[k' v'] later IH]; intros a L; [reflexivity|].
  cbn [existsb fst] in L. apply orb_false_iff in L as [N L].
  cbn [fold_left fst snd]. rewrite IH by assumption.
  now apply dict_lookup_set_other.
Qed.

(** X27.  A key that the reply repeats: the object is read as Python
    builds a dict from its members one after the other, so the key keeps
    the place of its first member and takes the value of its last.  For
    every list of members with texts as keys and well-formed values, within
    the interpreter's limits (no integer of more digits than the conversion
    limit, nesting no deeper than the recursion room), in any layout and
    without a triple backtick inside, the normalizer returns the dict of
    the members; asking it for a key of the list gives the value of the
    last member with that key. *)
Theorem X27_repeated_key_last_value
    (py : interpreter) (members : list (pystr * value)) (indent : option nat)
    (k : pystr) (v : value) (later : list (pystr * value)) :
  forallb (fun kv => text_ok (fst kv) && value_ok (snd kv))
    (members ++ (k, v) :: later) = true ->
  within py (recursion_room py) (VDict (members ++ (k, v) :: later)) = true ->
  contains FENCE (encode indent 0 (VDict (members ++ (k, v) :: later))) = false ->
  existsb (fun kv => PyStr.eqb (fst kv) k) later = false ->
  parse_response py (encode indent 0 (VDict (members ++ (k, v) :: later)))
  = VDict (dict_of (members ++ (k, v) :: later))
  /\ dict_lookup (dict_of (members ++ (k, v) :: later)) k = Some v.
Proof.
  intros F Wi C Last. split.
  - unfold parse_response. rewrite (unfence_plain _ C).
    destruct (encode_dict_braces indent 0 (members ++ (k, v) :: later))
      as (body & E).
    rewrite E. rewrite (strip_tight (123%N :: body) 123 125) by reflexivity.
    rewrite <- E. now rewrite json_loads_members.
  - unfold dict_of. rewrite fold_left_app. cbn [fold_left fst snd].
    rewrite assign_others by assumption. apply dict_lookup_set.
Qed.

Lemma X27_repeated_key_witness :
  forallb (fun kv => text_ok (fst kv) && value_ok (snd kv))
    ([(lit "total", VInt 1); (lit "tax", VInt 2)] ++ (lit "total", VInt 3) :: [])
  = true
  /\ within cpython (recursion_room cpython)
       (VDict ([(lit "total", VInt 1); (lit "tax", VInt 2)]
                 ++ (lit "total", VInt 3) :: [])) = true
  /\ contains FENCE
       (encode None 0
          (VDict ([(lit "total", VInt 1); (lit "tax", VInt 2)]
                    ++ (lit "total", VInt 3) :: []))) = false
  /\ existsb (fun kv : pystr * value => PyStr.eqb (fst kv) (lit "total")) []
     = false
  /\ parse_response cpython (lit_q "{'total': 1, 'tax': 2, 'total': 3}")
     = VDict [(lit "total", VInt 3); (lit "tax", VInt 2)]
  /\ dict_lookup [(lit "total", VInt 3); (lit "tax", VInt 2)] (lit "total")
     = Some (VInt 3).
Proof.
  split; [reflexivity|]. split; [reflexivity|]. split; [reflexivity|].
  split; [reflexivity|].
  apply (X27_repeated_key_last_value cpython
           [(lit "total", VInt 1); (lit "tax", VInt 2)] None
           (lit "total") (VInt 3) []); reflexivity.
Defined.

End RepeatedKeys.

(* ================================================================== *)
(** ** Floats in the exports, and a service that fails *)
(* ================================================================== *)

Section ExportsAndFailures.

Local Open Scope nat_scope.

(** X28.  The flat export carries a float total without loss: for every
    finite float, the total cell is its [repr], and that text read as a
    JSON number is the same float again (the Total metric, in contrast,
    rounds to two decimals). *)
Theorem X28_float_total_cell_is_exact
    (py : interpreter) (result : dict) (x : pyfloat) :
  dict_lookup result (lit "total") = Some (VFloat x) ->
  float_ok x = true ->
  csv_field result (lit "total") = Some (float_repr x)
  /\ json_loads py (float_repr x) = Parsed (VFloat x).
Proof.
  intros T Ok. unfold csv_field, dict_get. rewrite T. split; [reflexivity|].
  pose proof (json_loads_encoded py (VFloat x) None 0 Ok eq_refl) as J.
  cbn [encode] in J.
  now destruct x as [ | neg | neg | neg m e]; try discriminate.
Qed.

Lemma X28_float_total_witness :
  dict_lookup [(lit "total", VFloat float_45)] (lit "total")
  = Some (VFloat float_45)
  /\ float_ok float_45 = true
  /\ csv_field [(lit "total", VFloat float_45)] (lit "total")
     = Some (float_repr float_45)
  /\ json_loads cpython (float_repr float_45) = Parsed (VFloat float_45).
Proof.
  split; [reflexivity|]. split; [reflexivity|].
  apply (X28_float_total_cell_is_exact cpython [(lit "total", VFloat float_45)] float_45);
    reflexivity.
Defined.

(** X29.  A service call that fails: when the run was started by the
    button with a credential configured and the call raises, one request
    went out and none is sent again.  An exception that is an instance of
    [Exception] and no [JSONDecodeError] becomes the error with its
    description, which is stored and shown after the words [Error: ],
    without a raw reply.  A [JSONDecodeError] of the call itself leaves the
    analysis, and so does an exception that is no instance of [Exception]
    ([KeyboardInterrupt], [SystemExit], [GeneratorExit], a cancellation),
    which neither [except] clause catches: the run stops after the preview
    and the slot keeps what it had. *)
Theorem X29_failing_service_call
    (py : interpreter) (GEMINI_API : option pystr)
    (generate_content : service)
    (doc : document) (cls : exception_class) (message : pystr)
    (analysis_result : option value) (sent : list pystr) :
  truthy GEMINI_API = true ->
  generate_content (INVOICE_EXTRACTION_PROMPT ++ extract_text_from_pdf doc)
  = Raised cls message ->
  script_run py GEMINI_API generate_content (Some doc) true analysis_result
    sent
  = match cls with
    | OtherException =>
        mkRun [StText (VStr (preview (extract_text_from_pdf doc)));
               StError (Some (lit "Error: " ++ message))]
              (Some (error_dict message))
              (sent ++ [INVOICE_EXTRACTION_PROMPT ++ extract_text_from_pdf doc])
              None
    | JSONDecodeError | OutsideException =>
        mkRun [StText (VStr (preview (extract_text_from_pdf doc)))]
              analysis_result
              (sent ++ [INVOICE_EXTRACTION_PROMPT ++ extract_text_from_pdf doc])
              (Some AnalysisEscapes)
    end.
Proof.
  intros K G. unfold script_run, analyze_invoice_with_gemini, build_prompt.
  rewrite K. cbn [negb]. rewrite G. now destruct cls.
Qed.

Lemma X29_failing_service_witness :
  truthy some_key = true
  /\ broken_transport
       (INVOICE_EXTRACTION_PROMPT ++ extract_text_from_pdf [Some some_text])
     = Raised JSONDecodeError (lit "Expecting value: line 1 column 1 (char 0)")
  /\ script_run cpython some_key broken_transport (Some [Some some_text]) true
       (Some (VDict [])) []
     = mkRun [StText (VStr (preview (extract_text_from_pdf [Some some_text])))]
             (Some (VDict []))
             ([] ++ [INVOICE_EXTRACTION_PROMPT
                       ++ extract_text_from_pdf [Some some_text]])
             (Some AnalysisEscapes).
Proof.
  split; [reflexivity|]. split; [reflexivity|].
  apply (X29_failing_service_call cpython some_key broken_transport [Some some_text]
           JSONDecodeError (lit "Expecting value: line 1 column 1 (char 0)")
           (Some (VDict [])) []); reflexivity.
Defined.

End ExportsAndFailures.

(* ================================================================== *)
(** ** What the normalizer returns is within the limits *)
(* ================================================================== *)

Section NormalizedWithin.

Local Open Scope nat_scope.

(** A value within the limits at one depth is within them at the next. *)
Lemma within_deeper (py : interpreter) (v : value) :
  forall depth, within py depth v = true -> within py (S depth) v = true.
Proof.
  induction v as [ | b | z | x | s | l IH | d IH] using value_ind;
    intros depth H; try exact H.
  - destruct depth as [|n]; [discriminate|].
    cbn [within] in H |- *. rewrite forallb_forall in H |- *.
    rewrite Forall_forall in IH. intros y Hy. apply (IH y Hy), (H y Hy).
  - destruct depth as [|n]; [discriminate|].
    cbn [within] in H |- *. rewrite forallb_forall in H |- *.
    rewrite Forall_forall in IH. intros y Hy. apply (IH y Hy), (H y Hy).
Qed.


End NormalizedWithin.
